(* ===== verification/_CoqProject ===== *)
-Q . S2P
Prelude.v
GoStrings.v
Store.v
Model.v
Matcher.v
LoadBalancer.v
RateLimit.v
GoNet.v
Http.v
IPFilter.v
Health.v
Auth.v
Loader.v
Gateway.v
GrpcGateway.v
GrpcProxy.v
Hostname.v
CustomDomain.v
Provisioner.v
DomainSystem.v
Lifecycle.v
Guarantees.v
Progress.v
Scenario.v
EndToEnd.v
DomainService.v
ControlPlane.v
GatewayALB.v
GatewayRepo.v
GatewayProvisioner.v
GatewayLifecycle.v
GatewayCalls.v
GatewayGuarantees.v
GatewayScenario.v
Transactions.v
AdminRepo.v
AdminAccess.v
AdminAuth.v
AdminTables.v
AdminSystem.v
AdminGuarantees.v
AdminSequential.v
AdminScenario.v
ProjectJWT.v
SecretManager.v
TenantTables.v
TenantRepo.v
TenantResources.v
TenantServices.v
TenantHandlers.v
TenantJWT.v
TenantDomains.v
TenantFacts.v
TenantViews.v
TenantSystem.v
TenantDiscipline.v
TenantMembers.v
TenantGuarantees.v
TenantPages.v
TenantIntegrity.v
TenantSync.v
TenantGateway.v
TenantEffects.v
TenantTokens.v
DomainTenants.v
TenantScenario.v
TenantTokenRuns.v
DomainTenantRuns.v
