(* ===== verification/Prelude.v ===== *)
(** * EliteGate: a verification library

    EliteGate is a multi-tenant API gateway in Go.  A control plane
    ([src/cmd/admin], [src/internal/admin], [src/internal/storage]) keeps
    administrators, projects, routes, upstreams, policies, API keys and custom
    domains in PostgreSQL and serves the dashboard.  One gateway process per
    project ([src/cmd/gateway], [src/internal/gateway]) fetches its configuration
    as a snapshot and serves the customers' traffic.  A worker
    ([src/cmd/worker]) provisions custom domains and dedicated gateways on AWS.
    This library models the gateway's request paths (HTTP and gRPC) with all the
    state behind them, the custom-domain and gateway machinery from the API to AWS,
    administrator authentication, and the tenants' resources from the routes of the
    control plane to the snapshot a gateway serves.

    ** The files

    Shared:
    - [Prelude]: results, time in nanoseconds, tactics, list lemmas.  [GoStrings]
      and [GoNet] are the functions of Go's [strings], [net] and [netip] packages
      that the program uses, on [String.string].
    - [Store]: the state-and-error monad of repositories whose queries may fail, and
      an executable SHA-256.  [Transactions]: statements and transactions in that
      monad, with a logic of postconditions.
    - [Model]: the configuration entities ([src/internal/model]).

    The gateway:
    - [Matcher]: route matching ([gateway/router/matcher.go]).  The chosen route is
      the first of maximal score, hence the most specific, hence the longest.
    - [LoadBalancer]: the interface [Strategy] with its laws, round robin and
      least connections ([gateway/loadbalancer]); strategy objects are values, the
      loader owns a heap of them.  Fairness by weight over a turn; the table of
      least connections counts outstanding picks.
    - [RateLimit]: the interface [Limiter], the in-memory limiter and the Redis
      limiter with its Lua scripts ([src/internal/ratelimit]).  The trimmed slices
      refine the log of admitted requests, which bounds every window.
    - [Http]: requests, headers, response writers and handlers of [net/http] as
      the middlewares use them; [Part] is the interface by which a middleware
      works on its own part of the state of a process.
    - [IPFilter]: client address, rule sets and their cache, the middleware
      ([src/internal/ipfilter], [gateway/middleware/ip_filter.go]).
    - [Health]: the health checker ([gateway/health/checker.go]); a probe round is a
      fold over the order in which its goroutines finish.
    - [Auth]: customer JWTs, the manager that activates their configuration, API
      keys over memory, Redis and database, the authentication middleware
      ([src/internal/auth], [gateway/runtime/project_jwt_manager.go],
      [gateway/middleware/auth.go]).
    - [Loader]: the configuration snapshot and its reload
      ([gateway/runtime/config.go], [loader.go], [control_client.go]).
    - [Gateway]: the remaining middlewares, the dynamic proxy and the router, on
      top of all of the above ([gateway/middleware], [gateway/handler],
      [gateway/proxy/reverse_proxy.go], [gateway/router.go]).
    - [GrpcGateway]: the interceptor that authorises a gRPC call on the state of
      [Gateway], and the table by which its upstream is chosen
      ([gateway/server/interceptors.go], [server/grpc_server.go]).
    - [GrpcProxy]: one call forwarded, message by message, between two streams, as a
      step relation of the handler's goroutines and the two peers
      ([gateway/proxy/grpc_proxy.go], [metadata_bridge.go]).

    Custom domains:
    - [Hostname]: the hostnames a registration accepts
      ([src/internal/helper/domain.go]).
    - [CustomDomain]: the rows of [custom_domains] and the repository
      ([src/internal/domain], [src/internal/storage/custom_domain_repo.go]).
    - [Provisioner]: the worker ([src/cmd/worker/provisioner.go]) against the
      interface [AWS].
    - [DomainSystem]: what one repository call and one handler may do to the rows;
      program logics for effects and for what a completion rests on.
    - [Lifecycle]: control-plane requests, claims, handlers, crashes and time as a
      step relation, and the invariant of its reachable states.
    - [Guarantees], [Progress]: the theorems on that system.
    - [Scenario]: an executable interpreter, sound for the step relation, and the
      concrete runs that witness the hypotheses.
    - [EndToEnd]: the domains of the repository as the gateway sees them after a
      reload ([ListEligibleSyncDomains]; [src/internal/admin/handler/tenant_sync.go]
      passes them on unchanged).
    - [DomainService]: the service of the control plane
      ([admin/service/custom_domain_service.go]) as trees of repository calls and
      DNS lookups.  [ControlPlane]: its calls among the workers; they refine
      [Lifecycle], and what is recorded as verified rests on DNS answers.

    Dedicated gateways:
    - [GatewayALB]: target groups and listener rules
      ([src/internal/aws/gateway_alb.go]) over the interface [ELBv2].
    - [GatewayRepo]: the rows of [gateways] and their repository
      ([storage/gateway_repo.go], [gateway_ingress_*.go],
      [gateway_deprovision_repo.go]).
    - [GatewayProvisioner]: the worker ([cmd/worker/gateway_provisioner.go]), the
      reconciler and the handlers that create and remove gateways.
    - [GatewayLifecycle]: their interleavings as a step relation with what each
      running program knows; [GatewayCalls]: every repository call keeps that
      knowledge; [GatewayGuarantees]: the theorems; [GatewayScenario]: runs.

    Administrators:
    - [AdminRepo]: accounts, sessions and tokens ([storage/admin_auth_repo.go]).
    - [AdminAccess]: password policy, tokens, limiter, middlewares
      ([admin/password], [src/internal/auth], [admin/middleware]).
    - [AdminAuth]: the handlers ([admin/handler/auth_handler.go],
      [google_auth_handler.go], [cookies.go]).
    - [AdminTables]: the effect each repository call promises, and that it keeps it.
    - [AdminSystem]: requests interleaved between their calls, with a log;
      [AdminGuarantees]: the invariant and the theorems on every interleaving;
      [AdminSequential]: one request after the other; [AdminScenario]: runs.

    Tenants:
    - [TenantTables]: the tables of a project with their constraints and row-level
      security; [TenantRepo], [TenantResources]: the repositories
      ([storage/tenant.go], [project_repo.go], [route_repo.go], [upstream_repo.go],
      [upstream_target_repo.go], [policy_repo.go], [api_key_repo.go],
      [audit_log_repo.go]).
    - [TenantServices]: the services ([src/internal/admin/service]) as trees of
      calls; [TenantHandlers]: [ProjectScope], [RBAC] and the handlers.
    - [TenantFacts]: the footprint of a call; [TenantViews]: what a call can see.
    - [TenantSystem]: the routes of [src/internal/admin/router.go] and any number of
      requests, interleaved between their calls, each with its history;
      [TenantDiscipline]: on what each call of a handler rests.
    - [TenantGuarantees], [TenantMembers], [TenantIntegrity], [TenantPages]: the
      theorems on that system, on members, on the constraints, on pages.
    - [TenantSync]: the snapshot a gateway polls ([admin/handler/tenant_sync.go]);
      [TenantGateway]: with the reload of [Loader], the routes and keys the gateway
      then serves.
    - [TenantEffects]: effects that surprise; [TenantScenario]: runs.

    JWT authentication of a project:
    - [ProjectJWT]: the configuration and the canonical form of its settings
      ([src/internal/model/project_jwt_config.go], the pure functions of
      [admin/service/project_jwt_config_service.go]).
    - [SecretManager]: the adapter of Secrets Manager ([src/internal/aws/
      secret_manager.go]), over the requests [SecretManager.SDK] of the AWS client.
    - [TenantJWT]: the service and its handlers as trees of queries and requests to
      Secrets Manager.  [TenantTokens]: the theorems, from what owners send to the
      verifier active at the gateway; [TenantTokenRuns]: runs.

    Custom domains behind the API:
    - [TenantDomains]: the handlers
      ([admin/handler/custom_domain_handler.go]) over [DomainService], whose queries
      and look-ups are the requests [TenantServices.DomainOp] of a tenant's program.
    - [DomainTenants]: the requests of [TenantSystem] joined with the table and the
      workers of [ControlPlane], which answer those requests; the theorems on the
      joint system.  [DomainTenantRuns]: runs.

    ** How code is modelled

    A Go method on a mutable object is a function from the object's state to its
    new state and result; a [(T, error)] result is a [result].  The handlers of
    the gateway pass the state of the process, a response writer and a request.
    Mutexes disappear: each method under a lock is one step.

    An SQL statement is atomic: its WHERE clause is a boolean on rows, its SET
    list a function on rows, its constraints are checked by the statement.  A
    repository method is a program of statements in a state-and-error monad, and
    a schedule of faults says which of its queries fail.  A transaction leaves
    the tables as they were unless all of it succeeds, runs no statement after a
    failed one, and runs alone; a COMMIT that fails has not been applied.  The
    count and the page of a listing are taken together.

    What other requests may run in between is a tree of calls ([prog]), not a
    function: services, handlers and workers issue one call, get its reply and go
    on, and a step relation interleaves any number of them, keeping for each what
    it has called and been told.  The invariants speak of that history.  The
    worker's handlers in [Lifecycle] are one step each: only their last query
    writes, so other steps during their AWS calls act as if taken before.  A
    crash is a program that stops; time passes by steps of its own.

    Texts handed to the database are assumed to be what its driver accepts: valid
    UTF-8 without NUL bytes.  Go's case mapping is that of ASCII except where a
    file says otherwise ([Hostname] for one does not map the Kelvin sign or the
    dotted capital I to the ASCII letters Go maps them to).  Integers keep their width where the code could wrap:
    the counter of round robin, the offset of a page.

    Outside the program, and so parameters: the JWT libraries (classes with
    laws), bcrypt's comparison, the Unicode tables beyond ASCII, URL parsing,
    what PostgreSQL itself computes (uuid parsing, text order, scan
    order, [ILIKE]: a class), the random source, the mailer and Google, the
    upstreams, Redis, Docker, DNS and AWS (classes and streams whose replies may
    depend on all calls before; those of Secrets Manager are arbitrary but for what
    a theorem says of versions).  The streams of the gRPC library follow its
    documentation; flow control is counted in messages.  SHA-256 is the executable function of [Store]
    for dedicated gateways, administrators and tenants, and a parameter in
    [Auth] and [DomainService], which use nothing of it but that it is a function.

    ** What the theorems show

    - Request path: a request is forwarded only if its own header and the present
      state admit it on the route matched for it (IP policy, origins, credentials,
      rate limit), and then by that route's proxy to a healthy target; what a JWT
      must be to be accepted; the reload endpoint needs its token; what identity
      headers an upstream sees.
    - gRPC: a call is forwarded only as its route, credentials and rate limit allow;
      the interceptor and the HTTP middleware admit the same callers; either peer
      gets the other's messages in order, and trailer and status of the upstream;
      a call whose peers have finished returns, one whose client does not read waits.
    - Components of the gateway: exact functional descriptions (matching,
      balancing, rate windows, filters, health), invariants of reachable states
      (least connections, checker), refinement of the rate limiter, error paths
      (failed reloads, failing Redis, unparsable rules), revocation of API keys
      within the lifetime of their cache entry.
    - Custom domains: over all interleavings a completed domain rests on AWS's
      confirmations, a deleted one on the release of its resources, a verified
      one on DNS; calls to AWS come in a safe order; a lost lease writes nothing;
      statuses follow the state machine; with a cooperating AWS a worker
      completes all queued domains in at most four rounds each.  The gateway
      recognises exactly the active, ready domains of its project.  Behind the API a
      request is shown domains of its caller's projects only, and a row changes only
      as a worker does or an owner asked; the joint system refines [ControlPlane].
    - Dedicated gateways: an active gateway is confirmed healthy behind its own
      rule, a removed one released, priorities and leases are unique, the moves of
      a gateway from stage to stage are bounded by the requests for it.
    - Administrators: sessions rest on a password or on Google, tokens are used
      once, resets, verified addresses and super-administrators have their reason in
      the log; the wrong passwords that sequential logins can try are bounded by
      the lock-out; a forgotten password can be recovered.
    - Tenants: in every interleaving a project's data change only by a request
      that found its caller entitled; reads see only their project; the
      constraints of the tenants' tables hold and rows keep their identity; a project keeps its owner;
      listings return exact pages; after a poll and a reload the gateway serves
      exactly the enabled routes and usable keys of its project.
    - JWT authentication: the configuration of a project and its secret were sent by
      owners of the project, a request names only its own project's secret, and the
      verifier active at the gateway was built from them; the same settings written
      another way change nothing.

    Fuel: loops of the program run over lists.  What recurses otherwise carries a
    number that is enough: [EnsureHostRule] runs its [maxAttempts]; decoding UTF-8
    and splitting blocks of SHA-256 take the length of the text (each step uses
    at least one byte); trimming white space and splitting fields likewise.  The interpreters of the
    scenarios run a given schedule; programs themselves are inductive trees, so
    every request ends.  The number of rounds in [Progress] is the length of the
    paths from the queued domains' statuses to [Completed], one status per round; the
    fourteen updates per gateway are counted over its status graph.

    ** What is not modelled

    Logging, metrics, panic recovery, connection pools and timeouts of transports;
    the ticker loops around reloads, probes and the worker; binding of request
    bodies (a handler gets the bound value or the binder's message); unary gRPC
    calls, which the server never serves by a method of its own; bytes and windows
    of the gRPC transport; the container and mail adapters; configuration; the
    limiter of user look-ups, whose answer is arbitrary.  The tenant snapshot is
    taken with no other request between its queries.

    ** What is left

    Of the control plane: the reload it triggers at gateways ([sync_handler.go]),
    the tokens of gateways ([gateway_token.go]), dynamic CORS with its cache of
    dashboard origins ([cors.go], [origin_cache.go]) and the queries for charts
    ([metrics_service.go]); the theorems here assume nothing of them.  The rest
    starts processes, reads the environment, or talks to Docker and SMTP: it has
    little state of its own to reason about. *)

From stdpp Require Export base tactics numbers list gmap strings.
From Stdlib Require Export Lia.

(** ** Hint database of the development *)

Create HintDb elitegate.
Create Rewrite HintDb elitegate.

(** ** Results: Go's [(T, error)] pairs

    A Go function that returns a value and an error is modelled by [result]:
    exactly one of the two is meaningful. *)

Inductive result (E A : Type) : Type :=
| Ok (a : A)
| Err (e : E).
Arguments Ok {E A} a.
Arguments Err {E A} e.

#[global] Instance result_eq_dec {E A} `{!EqDecision E, !EqDecision A} : EqDecision (result E A).
Proof. solve_decision. Defined.

Definition rbind {E A B} (r : result E A) (k : A → result E B) : result E B :=
  match r with Ok a => k a | Err e => Err e end.

Declare Scope go_scope.
Delimit Scope go_scope with go.

Notation "'let!' x ':=' c 'in' k" := (rbind c (λ x, k))
  (at level 10, x pattern, c at level 100, k at level 200) : go_scope.

Definition is_ok {E A} (r : result E A) : bool :=
  match r with Ok _ => true | Err _ => false end.

(** ** Integers and time

    Instants ([time.Time]) and spans ([time.Duration]) are both counted in
    nanoseconds, as in Go's [time] package. *)

Definition millisecond : Z := 1000000.
Definition second : Z := 1000000000.
Definition minute : Z := 60 * second.

(** Width of Go's [uint64]; the atomic counter of the round-robin strategy
    wraps at it. *)
Definition u64_modulus : Z := 2 ^ 64.
Definition wrap_u64 (x : Z) : Z := x `mod` u64_modulus.

(** ** Tactics *)

(** Split every conjunction of booleans in the hypotheses. *)
Ltac split_bool :=
  repeat match goal with
  | H : (_ && _) = true |- _ => apply andb_true_iff in H; destruct H
  | H : (_ || _) = false |- _ => apply orb_false_iff in H; destruct H
  | H : negb _ = true |- _ => apply negb_true_iff in H
  | H : negb _ = false |- _ => apply negb_false_iff in H
  | H : bool_decide _ = true |- _ => apply bool_decide_eq_true in H
  | H : bool_decide _ = false |- _ => apply bool_decide_eq_false in H
  end.

(** Case analysis on the scrutinee of the outermost conditional of a
    hypothesis, until an equation between constructors remains. *)
Ltac invert_branches H :=
  repeat (match type of H with
  | context [match ?x with _ => _ end] =>
      lazymatch x with
      | context [match _ with _ => _ end] => fail
      | _ => destruct x eqn:?
      end
  end; try discriminate H; simplify_eq/=).

(** Case analysis on every conditional of the goal. *)
Ltac split_branches :=
  repeat (match goal with
  | |- context [match ?x with _ => _ end] =>
      lazymatch x with
      | context [match _ with _ => _ end] => fail
      | _ => destruct x eqn:?
      end
  end; simplify_eq/=).

(** ** Lists *)

Section lists.
Context {A : Type}.
Implicit Types (l : list A) (P Q : A → Prop).

(** The first element that satisfies a boolean test. *)
Fixpoint find_first (f : A → bool) (l : list A) : option A :=
  match l with
  | [] => None
  | x :: l' => if f x then Some x else find_first f l'
  end.

Lemma find_first_Some f l x :
  find_first f l = Some x ↔
    ∃ i, l !! i = Some x ∧ f x = true ∧ ∀ j y, j < i → l !! j = Some y → f y = false.
Proof.
  induction l as [|y l IH]; simpl.
  { split; [done | intros (i & H & _); by rewrite lookup_nil in H]. }
  destruct (f y) eqn:Hy.
  - split.
    + intros [= ->]. exists 0. split_and!; [done..|lia].
    + intros (i & Hi & Hx & Hlt). destruct i as [|i]; simplify_eq/=; [done|].
      specialize (Hlt 0 y ltac:(lia) eq_refl). congruence.
  - rewrite IH. split.
    + intros (i & Hi & Hx & Hlt). exists (S i). split_and!; [done..|].
      intros [|j] z Hj Hz; simplify_eq/=; [done|]. eapply Hlt; [|done]. lia.
    + intros (i & Hi & Hx & Hlt). destruct i as [|i]; simplify_eq/=; [congruence|].
      exists i. split_and!; [done..|]. intros j z Hj Hz. apply (Hlt (S j) z); [lia|done].
Qed.

Lemma find_first_split f l x :
  find_first f l = Some x →
  ∃ before after, l = before ++ x :: after ∧ f x = true ∧ Forall (λ y, f y = false) before.
Proof.
  intros (i & Hi & Hx & Hlt)%find_first_Some. exists (take i l), (drop (S i) l).
  rewrite take_drop_middle by done. split; [done|]. split; [done|]. apply Forall_forall. intros y Hy.
  apply list_elem_of_lookup_1 in Hy as [j Hj]. apply lookup_take_Some in Hj as [Hj ?]. by eapply Hlt.
Qed.

Lemma find_first_None f l :
  find_first f l = None ↔ ∀ x, x ∈ l → f x = false.
Proof.
  induction l as [|y l IH]; simpl.
  { split; [intros _ x Hx; by apply not_elem_of_nil in Hx | done]. }
  destruct (f y) eqn:Hy.
  - split; [done|]. intros H. rewrite (H y) in Hy; [done|]. by left.
  - rewrite IH. setoid_rewrite elem_of_cons. naive_solver.
Qed.

Lemma filter_all P `{!∀ x, Decision (P x)} l : Forall P l → filter P l = l.
Proof. induction 1; [done|]. rewrite filter_cons_True by done. by f_equal. Qed.

Lemma filter_none P `{!∀ x, Decision (P x)} l : Forall (λ x, ¬ P x) l → filter P l = [].
Proof. induction 1; [done|]. by rewrite filter_cons_False. Qed.

(** Counting the elements equal to [x]. *)
Definition count `{!EqDecision A} (x : A) (l : list A) : nat :=
  length (filter (x =.) l).

Context `{!EqDecision A}.

Lemma count_nil x : count x [] = 0.
Proof. done. Qed.

Lemma count_cons x y l : count x (y :: l) = (if decide (x = y) then 1 else 0) + count x l.
Proof. unfold count. rewrite filter_cons. by case_decide. Qed.

Lemma count_app x l1 l2 : count x (l1 ++ l2) = count x l1 + count x l2.
Proof. unfold count. by rewrite filter_app, length_app. Qed.

Lemma count_perm x l1 l2 : l1 ≡ₚ l2 → count x l1 = count x l2.
Proof. intros H. unfold count. by rewrite H. Qed.

Lemma count_replicate_eq x n : count x (replicate n x) = n.
Proof.
  induction n as [|n IH]; [done|].
  simpl. rewrite count_cons, IH. by rewrite decide_True.
Qed.

Lemma count_replicate_ne x y n : x ≠ y → count x (replicate n y) = 0.
Proof.
  intros Hne. induction n as [|n IH]; [done|].
  simpl. rewrite count_cons, IH. by rewrite decide_False.
Qed.
End lists.

#[export] Hint Rewrite @count_nil @count_app @count_replicate_eq : elitegate.
