(* ===== verification/GoStrings.v ===== *)
(** * Go's [strings] package on byte strings

    A Go string is a sequence of bytes; it is modelled by [string], whose
    characters are the bytes.  The functions below are the ones the gateway,
    the admin service and the worker call.  Case mapping is that of the ASCII
    range: bytes from 128 on are left as they are.  [TrimSpace] knows the
    Unicode white space of Go's [unicode.IsSpace] in its UTF-8 encoding. *)

From S2P Require Import Prelude.
From Stdlib Require Import Ascii.

Abbreviation len := String.length.

(** ** Characters *)

Definition code (c : ascii) : nat := nat_of_ascii c.

Definition is_upper (c : ascii) : bool := (65 <=? code c)%nat && (code c <=? 90)%nat.
Definition is_lower (c : ascii) : bool := (97 <=? code c)%nat && (code c <=? 122)%nat.
Definition is_digit (c : ascii) : bool := (48 <=? code c)%nat && (code c <=? 57)%nat.

Definition lower_ascii (c : ascii) : ascii :=
  if is_upper c then ascii_of_nat (code c + 32) else c.
Definition upper_ascii (c : ascii) : ascii :=
  if is_lower c then ascii_of_nat (code c - 32) else c.

Fixpoint smap (f : ascii → ascii) (s : string) : string :=
  match s with
  | EmptyString => EmptyString
  | String c s' => String (f c) (smap f s')
  end.

Definition ToLower : string → string := smap lower_ascii.
Definition ToUpper : string → string := smap upper_ascii.
Definition EqualFold (s t : string) : bool := String.eqb (ToLower s) (ToLower t).

(** ** Slicing *)

(** [s[n:]] for [n <= len s]. *)
Fixpoint sdrop (n : nat) (s : string) : string :=
  match n, s with
  | 0, _ => s
  | S n', String _ s' => sdrop n' s'
  | S _, EmptyString => EmptyString
  end.

(** [s[:n]] for [n <= len s]. *)
Fixpoint stake (n : nat) (s : string) : string :=
  match n, s with
  | S n', String c s' => String c (stake n' s')
  | _, _ => EmptyString
  end.

Fixpoint HasPrefix (s p : string) : bool :=
  match p, s with
  | EmptyString, _ => true
  | String a p', String b s' => Ascii.eqb a b && HasPrefix s' p'
  | String _ _, EmptyString => false
  end.

Definition HasSuffix (s p : string) : bool :=
  (len p <=? len s)%nat && String.eqb (sdrop (len s - len p) s) p.

Definition TrimPrefix (s p : string) : string :=
  if HasPrefix s p then sdrop (len p) s else s.
Definition TrimSuffix (s p : string) : string :=
  if HasSuffix s p then stake (len s - len p) s else s.

Fixpoint Contains (s sub : string) : bool :=
  HasPrefix s sub ||
  match s with
  | EmptyString => false
  | String _ s' => Contains s' sub
  end.

Fixpoint contains_byte (c : ascii) (s : string) : bool :=
  match s with
  | EmptyString => false
  | String a s' => Ascii.eqb a c || contains_byte c s'
  end.

(** [strings.ContainsAny s chars] for ASCII [chars]. *)
Fixpoint ContainsAny (s chars : string) : bool :=
  match s with
  | EmptyString => false
  | String a s' => contains_byte a chars || ContainsAny s' chars
  end.

(** ** Splitting and joining at one byte *)

Fixpoint Split (c : ascii) (s : string) : list string :=
  match s with
  | EmptyString => [EmptyString]
  | String a s' =>
      if Ascii.eqb a c then EmptyString :: Split c s'
      else match Split c s' with
           | seg :: rest => String a seg :: rest
           | [] => [String a EmptyString]
           end
  end.

Fixpoint Join (l : list string) (sep : string) : string :=
  match l with
  | [] => EmptyString
  | [x] => x
  | x :: l' => x +:+ sep +:+ Join l' sep
  end.

(** ** Trimming *)

Fixpoint trim_left_byte (c : ascii) (s : string) : string :=
  match s with
  | EmptyString => EmptyString
  | String a s' => if Ascii.eqb a c then trim_left_byte c s' else s
  end.

Definition trim_right_byte (c : ascii) (s : string) : string :=
  String.rev (trim_left_byte c (String.rev s)).

(** [strings.Trim s cutset] for a cutset of one byte. *)
Definition Trim (c : ascii) (s : string) : string :=
  trim_right_byte c (trim_left_byte c s).

(** The UTF-8 encodings of the code points of [unicode.IsSpace]. *)
Definition bytes (l : list nat) : string :=
  fold_right (λ n s, String (ascii_of_nat n) s) EmptyString l.

Definition white_space : list string :=
  (bytes <$> [[9]; [10]; [11]; [12]; [13]; [32]; [194; 133]; [194; 160]; [225; 154; 128]]) ++
  ((λ k, bytes [226; 128; 128 + k]) <$> seq 0 11) ++
  (bytes <$> [[226; 128; 168]; [226; 128; 169]; [226; 128; 175]; [226; 129; 159]; [227; 128; 128]]).

(** Remove one leading member of [toks], if there is one. *)
Definition strip_token (toks : list string) (s : string) : option string :=
  match find_first (HasPrefix s) toks with
  | Some t => Some (sdrop (len t) s)
  | None => None
  end.

Fixpoint trim_tokens (fuel : nat) (toks : list string) (s : string) : string :=
  match fuel with
  | 0 => s
  | S fuel' =>
      match strip_token toks s with
      | Some s' => trim_tokens fuel' toks s'
      | None => s
      end
  end.

(** Every token has at least one byte, so [len s] rounds reach the end. *)
Definition trim_left_space (s : string) : string := trim_tokens (len s) white_space s.
Definition trim_right_space (s : string) : string :=
  String.rev (trim_tokens (len s) (String.rev <$> white_space) (String.rev s)).
Definition TrimSpace (s : string) : string := trim_right_space (trim_left_space s).

(** [strings.Fields]: the maximal pieces without white space; [cur] is the
    piece being read.  Each round consumes at least one byte. *)
Fixpoint fields_loop (fuel : nat) (cur s : string) : list string :=
  let flush := if String.eqb cur "" then [] else [cur] in
  match fuel with
  | 0 => flush
  | S fuel' =>
      match s with
      | EmptyString => flush
      | String c s' =>
          match strip_token white_space s with
          | Some rest => flush ++ fields_loop fuel' "" rest
          | None => fields_loop fuel' (cur +:+ String c "") s'
          end
      end
  end.
Definition Fields (s : string) : list string := fields_loop (S (len s)) "" s.

Arguments Split c%_char_scope s.
Arguments Trim c%_char_scope s.
Arguments trim_left_byte c%_char_scope s.
Arguments trim_right_byte c%_char_scope s.
Arguments contains_byte c%_char_scope s.

(** ** Lemmas: append, slices, prefixes and suffixes *)

Lemma sapp_nil_l s : "" +:+ s = s.
Proof. done. Qed.

Lemma sapp_cons c s t : String c s +:+ t = String c (s +:+ t).
Proof. done. Qed.

Lemma sapp_nil_r s : s +:+ "" = s.
Proof. induction s as [|c s IH]; [done|]. by rewrite sapp_cons, IH. Qed.

Lemma sapp_assoc s t u : (s +:+ t) +:+ u = s +:+ (t +:+ u).
Proof. induction s as [|c s IH]; [done|]. by rewrite !sapp_cons, IH. Qed.

Lemma len_app s t : len (s +:+ t) = len s + len t.
Proof. induction s as [|c s IH]; [done|]. rewrite sapp_cons. simpl. by rewrite IH. Qed.

Lemma len_zero s : len s = 0 → s = "".
Proof. by destruct s. Qed.

Lemma sdrop_app p s : sdrop (len p) (p +:+ s) = s.
Proof. induction p as [|c p IH]; [done|]. by rewrite sapp_cons. Qed.

Lemma stake_app p s : stake (len p) (p +:+ s) = p.
Proof. induction p as [|c p IH]; [by destruct s|]. rewrite sapp_cons. simpl. by rewrite IH. Qed.

Lemma stake_sdrop n s : stake n s +:+ sdrop n s = s.
Proof.
  revert n. induction s as [|c s IH]; intros [|n]; try done.
  simpl. by rewrite sapp_cons, IH.
Qed.

Lemma len_sdrop n s : len (sdrop n s) = len s - n.
Proof. revert n. induction s as [|c s IH]; intros [|n]; simpl; try done. Qed.

Lemma len_stake n s : n ≤ len s → len (stake n s) = n.
Proof. revert n. induction s as [|c s IH]; intros [|n] H; simpl in *; try lia. rewrite IH; lia. Qed.

Lemma HasPrefix_spec s p : HasPrefix s p = true ↔ ∃ r, s = p +:+ r.
Proof.
  revert s. induction p as [|a p IH]; intros s; simpl.
  { destruct s; split; eauto. }
  destruct s as [|b s]; simpl.
  { split; [done|]. intros [r Hr]. by rewrite sapp_cons in Hr. }
  rewrite andb_true_iff, Ascii.eqb_eq, IH. split.
  - intros [-> [r ->]]. exists r. by rewrite sapp_cons.
  - intros [r Hr]. rewrite sapp_cons in Hr. simplify_eq. eauto.
Qed.

Lemma HasPrefix_app p r : HasPrefix (p +:+ r) p = true.
Proof. apply HasPrefix_spec. by exists r. Qed.

Lemma HasPrefix_len s p : HasPrefix s p = true → len p ≤ len s.
Proof. intros [r ->]%HasPrefix_spec. rewrite len_app. lia. Qed.

Lemma HasSuffix_spec s p : HasSuffix s p = true ↔ ∃ r, s = r +:+ p.
Proof.
  unfold HasSuffix. rewrite andb_true_iff, Nat.leb_le, String.eqb_eq. split.
  - intros [_ Hd]. exists (stake (len s - len p) s).
    rewrite <- Hd at 2. by rewrite stake_sdrop.
  - intros [r ->]. rewrite len_app. split; [lia|].
    replace (len r + len p - len p) with (len r) by lia. apply sdrop_app.
Qed.

Lemma TrimPrefix_app p s : TrimPrefix (p +:+ s) p = s.
Proof. unfold TrimPrefix. by rewrite HasPrefix_app, sdrop_app. Qed.

Lemma TrimSuffix_app r p : TrimSuffix (r +:+ p) p = r.
Proof.
  unfold TrimSuffix. rewrite (proj2 (HasSuffix_spec _ p)) by eauto.
  rewrite len_app. replace (len r + len p - len p) with (len r) by lia. apply stake_app.
Qed.

Lemma TrimSuffix_id s p : HasSuffix s p = false → TrimSuffix s p = s.
Proof. intros H. unfold TrimSuffix. by rewrite H. Qed.

(** ** Lemmas: bytes of a string *)

Lemma contains_byte_app c s t :
  contains_byte c (s +:+ t) = contains_byte c s || contains_byte c t.
Proof.
  induction s as [|a s IH]; [done|]. rewrite sapp_cons. simpl. rewrite IH. by rewrite orb_assoc.
Qed.

(** A predicate that holds of every byte. *)
Fixpoint sforallb (f : ascii → bool) (s : string) : bool :=
  match s with
  | EmptyString => true
  | String c s' => f c && sforallb f s'
  end.

Lemma sforallb_app f s t : sforallb f (s +:+ t) = sforallb f s && sforallb f t.
Proof. induction s as [|a s IH]; [done|]. rewrite sapp_cons. simpl. by rewrite IH, andb_assoc. Qed.

Lemma sforallb_impl f g s :
  (∀ c, f c = true → g c = true) → sforallb f s = true → sforallb g s = true.
Proof.
  intros Hfg. induction s as [|a s IH]; [done|]. simpl. rewrite !andb_true_iff. naive_solver.
Qed.

Lemma sforallb_contains f c s :
  sforallb f s = true → f c = false → contains_byte c s = false.
Proof.
  intros Hs Hc. induction s as [|a s IH]; [done|]. simpl in *. split_bool.
  destruct (Ascii.eqb_spec a c); simplify_eq/=; [congruence|]. by apply IH.
Qed.

Lemma smap_id f s : sforallb (λ c, Ascii.eqb (f c) c) s = true → smap f s = s.
Proof.
  induction s as [|a s IH]; [done|]. simpl. rewrite andb_true_iff, Ascii.eqb_eq.
  intros [-> ?]. by rewrite IH.
Qed.

Lemma smap_app f s t : smap f (s +:+ t) = smap f s +:+ smap f t.
Proof. induction s as [|a s IH]; [done|]. rewrite sapp_cons. simpl. by rewrite IH. Qed.

Lemma sforallb_smap f g s :
  (∀ c, f c = true → f (g c) = true) → sforallb f s = true → sforallb f (smap g s) = true.
Proof.
  intros H. induction s as [|a s IH]; [done|]. simpl. rewrite !andb_true_iff. intros [??]. eauto.
Qed.

Lemma sdrop_app_plus x k y : sdrop (len x + k) (x +:+ y) = sdrop k y.
Proof. induction x as [|a x IH]; [done|]. rewrite sapp_cons. simpl. apply IH. Qed.

(** A string does not end in a byte that its last part lacks. *)
Lemma HasSuffix_byte_app c x y :
  y ≠ "" → contains_byte c y = false → HasSuffix (x +:+ y) (String c "") = false.
Proof.
  intros Hne Hy. unfold HasSuffix. apply andb_false_iff. right.
  destruct (String.eqb_spec (sdrop (len (x +:+ y) - len (String c "")) (x +:+ y)) (String c ""))
    as [Heq|]; [|done].
  rewrite len_app in Heq. simpl len in Heq.
  assert (0 < len y) by (destruct y; simpl; [done|lia]).
  replace (len x + len y - 1) with (len x + (len y - 1)) in Heq by lia.
  rewrite sdrop_app_plus in Heq.
  rewrite <-(stake_sdrop (len y - 1) y), contains_byte_app, Heq in Hy. simpl in Hy.
  rewrite Ascii.eqb_refl, orb_true_r in Hy. done.
Qed.

Lemma ToLower_idemp s : ToLower (ToLower s) = ToLower s.
Proof.
  unfold ToLower. induction s as [|a s IH]; [done|]. simpl. rewrite IH. f_equal.
  by destruct a as [[] [] [] [] [] [] [] []].
Qed.

Lemma EqualFold_refl s : EqualFold s s = true.
Proof. apply String.eqb_refl. Qed.

(** ** Lemmas: [Split] and [Join] *)

Lemma Split_not_nil c s : Split c s ≠ [].
Proof. destruct s as [|a s]; simpl; [done|]. split_branches; done. Qed.

Lemma Join_cons2 x y l sep : Join (x :: y :: l) sep = x +:+ sep +:+ Join (y :: l) sep.
Proof. done. Qed.

Lemma Join_Split c s : Join (Split c s) (String c "") = s.
Proof.
  induction s as [|a s IH]; [done|]. simpl.
  pose proof (Split_not_nil c s).
  destruct (Ascii.eqb_spec a c) as [->|].
  - destruct (Split c s) as [|x l]; [done|]. by rewrite Join_cons2, IH.
  - destruct (Split c s) as [|x [|y l]]; [done|..].
    + simpl in *. by subst.
    + rewrite Join_cons2 in *. by rewrite sapp_cons, IH.
Qed.

Lemma Split_no_byte c s : Forall (λ seg, contains_byte c seg = false) (Split c s).
Proof.
  induction s as [|a s IH]; simpl; [by repeat constructor|].
  destruct (Ascii.eqb_spec a c) as [->|Hne]; [by constructor|].
  destruct (Split c s) as [|x l]; inversion_clear IH; constructor; simpl; try done.
  - by destruct (Ascii.eqb_spec a c).
  - destruct (Ascii.eqb_spec a c); simpl; done.
Qed.

Lemma Split_app_sep c s t :
  contains_byte c s = false → Split c (s +:+ String c t) = s :: Split c t.
Proof.
  induction s as [|a s IH]; intros Hs; simpl in *.
  - by rewrite Ascii.eqb_refl.
  - split_bool. rewrite IH by done. by rewrite H.
Qed.

Lemma Split_single c s : contains_byte c s = false → Split c s = [s].
Proof.
  induction s as [|a s IH]; intros Hs; simpl in *; [done|].
  split_bool. rewrite IH by done. by rewrite H.
Qed.

Lemma Split_Join c l :
  l ≠ [] → Forall (λ seg, contains_byte c seg = false) l → Split c (Join l (String c "")) = l.
Proof.
  induction l as [|x [|y l] IH]; intros Hne Hl; [done|..].
  - inversion_clear Hl. by apply Split_single.
  - inversion_clear Hl as [|?? Hx Hl']. rewrite Join_cons2, sapp_cons, sapp_nil_l.
    rewrite Split_app_sep by done. by rewrite IH.
Qed.

#[export] Hint Rewrite sapp_nil_l sapp_nil_r sapp_assoc len_app sdrop_app stake_app
  TrimPrefix_app TrimSuffix_app HasPrefix_app : elitegate.

(** ** Lemmas: reversal and trimming *)

Lemma srev_app_acc s t u : String.rev_app (s +:+ t) u = String.rev_app t (String.rev_app s u).
Proof. revert u. induction s as [|c s IH]; intros u; [done|]. rewrite sapp_cons. apply IH. Qed.

Lemma srev_app_spec s u : String.rev_app s u = String.rev s +:+ u.
Proof.
  unfold String.rev. revert u. induction s as [|c s IH]; intros u; [done|]. simpl.
  rewrite (IH (String c u)), (IH (String c "")), sapp_assoc. done.
Qed.

Lemma srev_app s t : String.rev (s +:+ t) = String.rev t +:+ String.rev s.
Proof. unfold String.rev at 1. rewrite srev_app_acc, srev_app_spec. done. Qed.

Lemma srev_cons c s : String.rev (String c s) = String.rev s +:+ String c "".
Proof. unfold String.rev at 1. simpl. apply srev_app_spec. Qed.

Lemma srev_involutive s : String.rev (String.rev s) = s.
Proof. induction s as [|c s IH]; [done|]. by rewrite srev_cons, srev_app, IH. Qed.

Lemma len_srev s : len (String.rev s) = len s.
Proof.
  induction s as [|c s IH]; [done|]. rewrite srev_cons, len_app, IH. simpl. lia.
Qed.

Lemma sforallb_srev f s : sforallb f (String.rev s) = sforallb f s.
Proof.
  induction s as [|c s IH]; [done|]. rewrite srev_cons, sforallb_app, IH. simpl.
  by rewrite andb_true_r, andb_comm.
Qed.

(** The first byte of [s], when there is one, satisfies [f]. *)
Definition head_ok (f : ascii → bool) (s : string) : bool :=
  match s with EmptyString => true | String c _ => f c end.

Lemma head_ok_sforallb f s : sforallb f s = true → head_ok f s = true.
Proof. destruct s; simpl; [done|]. by intros [??]%andb_true_iff. Qed.

Lemma trim_left_byte_id c s :
  head_ok (λ a, negb (Ascii.eqb a c)) s = true → trim_left_byte c s = s.
Proof. destruct s as [|a s]; simpl; [done|]. intros H. by apply negb_true_iff in H as ->. Qed.

(** A string neither of whose ends is [c] is what [Trim] leaves of it
    between two [c]s. *)
Lemma Trim_slashed c s :
  s ≠ "" →
  head_ok (λ a, negb (Ascii.eqb a c)) s = true →
  head_ok (λ a, negb (Ascii.eqb a c)) (String.rev s) = true →
  Trim c (String c s) = s.
Proof.
  intros Hne Hh Hl. unfold Trim. simpl. rewrite Ascii.eqb_refl.
  rewrite trim_left_byte_id by done. unfold trim_right_byte.
  rewrite trim_left_byte_id by done. apply srev_involutive.
Qed.

(** No member of [toks] is a prefix of a string whose first byte starts no
    token. *)
Lemma trim_tokens_id n toks s :
  forallb (λ t, match t with
                | EmptyString => false
                | String a _ => match s with EmptyString => true | String b _ => negb (Ascii.eqb a b) end
                end) toks = true →
  trim_tokens n toks s = s.
Proof.
  intros Ht. destruct n as [|n]; [done|]. simpl. unfold strip_token.
  replace (find_first (HasPrefix s) toks) with (@None string); [done|]. symmetry.
  induction toks as [|t toks IH]; simpl in *; [done|]. split_bool.
  destruct t as [|a t]; [done|]. destruct s as [|b s]; simpl; [by apply IH|].
  split_bool. rewrite H. simpl. by apply IH.
Qed.

(** Bytes that occur in no white-space token: printable ASCII. *)
Definition is_graphic (c : ascii) : bool := (33 <=? code c)%nat && (code c <=? 126)%nat.

Lemma graphic_not_token c toks :
  forallb (λ t, match t with EmptyString => false | String a _ => negb (is_graphic a) end) toks = true →
  is_graphic c = true →
  forallb (λ t, match t with EmptyString => false | String a _ => negb (Ascii.eqb a c) end) toks = true.
Proof.
  intros Ht Hc. induction toks as [|t toks IH]; [done|]. simpl in *. split_bool.
  rewrite IH by done. destruct t as [|a t]; [done|]. rewrite andb_true_r. split_bool.
  destruct (Ascii.eqb_spec a c); [congruence | done].
Qed.

(** [TrimSpace] keeps a string whose two ends are graphic ASCII bytes. *)
Lemma TrimSpace_id s :
  head_ok is_graphic s = true → head_ok is_graphic (String.rev s) = true → TrimSpace s = s.
Proof.
  intros Hh Hl. unfold TrimSpace, trim_left_space.
  rewrite (trim_tokens_id _ white_space s).
  2:{ destruct s as [|a s]; [by vm_compute|]. apply graphic_not_token; [by vm_compute|done]. }
  unfold trim_right_space. rewrite trim_tokens_id; [apply srev_involutive|].
  destruct (String.rev s) as [|b t]; [by vm_compute|].
  apply graphic_not_token; [by vm_compute|done].
Qed.

Lemma TrimSpace_graphic s : sforallb is_graphic s = true → TrimSpace s = s.
Proof.
  intros Hs. apply TrimSpace_id; apply head_ok_sforallb; [done|]. by rewrite sforallb_srev.
Qed.

(** What is left after trimming is an end of the text, and no token begins it. *)
Lemma strip_token_Some toks s s' : strip_token toks s = Some s' → ∃ t, t ∈ toks ∧ s = t +:+ s'.
Proof.
  unfold strip_token. destruct (find_first _ toks) as [t|] eqn:Ht; [|done]. intros [= <-].
  apply find_first_split in Ht as (l1 & l2 & -> & (r & ->)%HasPrefix_spec & _). exists t.
  rewrite sdrop_app. split; [set_solver|done].
Qed.

Lemma strip_token_None toks s : strip_token toks s = None ↔ ∀ t, t ∈ toks → HasPrefix s t = false.
Proof.
  unfold strip_token. destruct (find_first _ toks) as [t|] eqn:Ht.
  - split; [done|]. intros H. apply find_first_split in Ht as (l1 & l2 & -> & Hp & _).
    rewrite H in Hp; [done|set_solver].
  - split; [|done]. intros _. by apply find_first_None.
Qed.

Lemma trim_tokens_spec n toks s :
  Forall (λ t, t ≠ "") toks → (len s ≤ n)%nat →
  strip_token toks (trim_tokens n toks s) = None ∧ ∃ p, s = p +:+ trim_tokens n toks s.
Proof.
  intros Ht. revert s. induction n as [|n IH]; intros s Hn; simpl.
  - apply Nat.le_0_r, len_zero in Hn as ->. split; [|by exists ""]. apply strip_token_None. intros t Hin.
    rewrite Forall_forall in Ht. specialize (Ht t Hin). by destruct t.
  - destruct (strip_token toks s) as [s'|] eqn:Hs; [|split; [done|by exists ""]].
    apply strip_token_Some in Hs as (t & Hin & ->). rewrite Forall_forall in Ht. specialize (Ht t Hin) as Hne.
    rewrite len_app in Hn. assert (len t ≠ 0%nat) by (intros ?%len_zero; done).
    destruct (IH s') as [H1 (p & H2)]; [lia|]. split; [done|]. exists (t +:+ p). by rewrite sapp_assoc, <-H2.
Qed.

Lemma trim_tokens_done n toks s : strip_token toks s = None → trim_tokens n toks s = s.
Proof. intros H. destruct n as [|n]; [done|]. simpl. by rewrite H. Qed.

Lemma white_space_nonempty : Forall (λ t, t ≠ "") white_space ∧ Forall (λ t, t ≠ "") (String.rev <$> white_space).
Proof.
  assert (H : ∀ l, forallb (λ t, negb (String.eqb t "")) l = true → Forall (λ t, t ≠ "") l).
  { intros l H. apply Forall_forall. intros t Ht ->. rewrite forallb_forall in H.
    by specialize (H "" (proj1 (list_elem_of_In _ _) Ht)). }
  split; apply H; by vm_compute.
Qed.

(** A trimmed text: no white space at either end. *)
Definition trimmed (s : string) : Prop :=
  strip_token white_space s = None ∧ strip_token (String.rev <$> white_space) (String.rev s) = None.

Lemma trimmed_TrimSpace s : trimmed s → TrimSpace s = s.
Proof.
  intros [H1 H2]. unfold TrimSpace, trim_left_space, trim_right_space.
  rewrite !trim_tokens_done by (try done; by rewrite trim_tokens_done). apply srev_involutive.
Qed.

Lemma TrimSpace_trimmed s : trimmed (TrimSpace s).
Proof.
  destruct white_space_nonempty as [Hw Hr]. unfold TrimSpace, trim_left_space, trim_right_space.
  destruct (trim_tokens_spec (len s) white_space s Hw (le_n _)) as [Hl _].
  set (u := trim_tokens (len s) white_space s) in *.
  destruct (trim_tokens_spec (len u) (String.rev <$> white_space) (String.rev u) Hr) as [H2 (p & Hp)].
  { by rewrite len_srev. }
  set (v := trim_tokens _ _ (String.rev u)) in *. split; [|by rewrite srev_involutive].
  assert (Hu : u = String.rev v +:+ String.rev p) by by rewrite <-srev_app, <-Hp, srev_involutive.
  apply strip_token_None. intros t Ht. apply strip_token_None with (t := t) in Hl; [|done].
  destruct (HasPrefix (String.rev v) t) eqn:E; [|done]. apply HasPrefix_spec in E as (r & Er).
  rewrite Hu, Er, sapp_assoc, HasPrefix_app in Hl. done.
Qed.

Lemma TrimSpace_idemp s : TrimSpace (TrimSpace s) = TrimSpace s.
Proof. apply trimmed_TrimSpace, TrimSpace_trimmed. Qed.

(** A trimmed text does not begin with a space. *)
Lemma trimmed_head c s : trimmed (String c s) → c ≠ " "%char.
Proof.
  intros [H _] ->. apply strip_token_None with (t := " ") in H; [|apply list_elem_of_In; vm_compute; tauto]. by destruct s.
Qed.
