(* ===== verification/Store.v ===== *)
(** * Databases with failing queries, and SHA-256

    The state-and-error monad the repositories of dedicated gateways are written
    in: [tables] is what the queries see, [clock] is NOW(), [supply] numbers the
    fresh UUIDs, and [faults] says which of the coming queries fail.  A query is
    atomic; a transaction is a sequence of queries that leaves the tables as
    they were unless all of it succeeds.  [sha256_hex] is
    [hex.EncodeToString] of [sha256.Sum256]. *)

From Stdlib Require Import Ascii.
From S2P Require Import Prelude GoStrings.

(** ** The monad *)

Module Store.

Record store (S : Type) := mkStore { tables : S; clock : Z; supply : nat; faults : list bool }.
#[global] Arguments mkStore {S} _ _ _ _.
#[global] Arguments tables {S} _.
#[global] Arguments clock {S} _.
#[global] Arguments supply {S} _.
#[global] Arguments faults {S} _.

(** An error type has the error of a failed query. *)
Class DBError (E : Type) := db_error : E.

Section monad.
Context {S E : Type} {HE : DBError E}.

Definition M (A : Type) : Type := store S → store S * result E A.
Definition mret {A} (a : A) : M A := λ d, (d, Ok a).
Definition mfail {A} (e : E) : M A := λ d, (d, Err e).
Definition mbind {A B} (m : M A) (k : A → M B) : M B := λ d,
  match m d with
  | (d, Ok a) => k a d
  | (d, Err e) => (d, Err e)
  end.

Definition with_tables (t : S) (d : store S) : store S := mkStore t (clock d) (supply d) (faults d).

(** One round trip: it consumes one entry of the schedule; the body sees the
    clock and the tables. *)
Definition query {A} (f : Z → S → S * A) : M A := λ d,
  match faults d with
  | true :: fs => (mkStore (tables d) (clock d) (supply d) fs, Err db_error)
  | _ :: fs => let '(t, a) := f (clock d) (tables d) in (mkStore t (clock d) (supply d) fs, Ok a)
  | [] => let '(t, a) := f (clock d) (tables d) in (with_tables t d, Ok a)
  end.

(** [uuid.New()]. *)
Definition fresh : M nat := λ d,
  (mkStore (tables d) (clock d) (Datatypes.S (supply d)) (faults d), Ok (supply d)).

(** BEGIN ... COMMIT: an error rolls back. *)
Definition transaction {A} (m : M A) : M A := λ d,
  match m d with
  | (d', Ok a) => (d', Ok a)
  | (d', Err e) => (with_tables (tables d) d', Err e)
  end.

(** *** What a query does *)

(** Clock and supply stay. *)
Record frame (d d' : store S) : Prop := {
  frame_clock : clock d' = clock d;
  frame_supply : supply d' = supply d;
}.

#[global] Instance frame_refl : Reflexive frame.
Proof. by split. Qed.
#[global] Instance frame_trans : Transitive frame.
Proof. intros ??? [] []. split; congruence. Qed.

Lemma store_query_spec {A} (f : Z → S → S * A) d d' r :
  query f d = (d', r) →
  frame d d' ∧
  ((r = Err db_error ∧ tables d' = tables d) ∨
   (∃ a, f (clock d) (tables d) = (tables d', a) ∧ r = Ok a)).
Proof.
  unfold query. destruct (faults d) as [|[] fs]; [| |]; intros H;
    try (destruct (f (clock d) (tables d)) as [t a] eqn:Hf); simplify_eq; (split; [by split|]); eauto.
Qed.

Lemma store_query_ok {A} (f : Z → S → S * A) d :
  faults d = [] → query f d = let '(t, a) := f (clock d) (tables d) in (with_tables t d, Ok a).
Proof. unfold query. by intros ->. Qed.

Lemma mbind_spec {A B} (m : M A) (k : A → M B) d d' r :
  mbind m k d = (d', r) →
  (∃ d1 a, m d = (d1, Ok a) ∧ k a d1 = (d', r)) ∨ (∃ e, m d = (d', Err e) ∧ r = Err e).
Proof. unfold mbind. destruct (m d) as [d1 [a|e]]; intros H; simplify_eq; eauto 10. Qed.

End monad.

#[global] Arguments M : clear implicits.

(** A table with one row per key. *)
Section table.
Context {R E : Type} {HE : DBError E}.

(** [SELECT ... WHERE key = $1 AND cond]. *)
Definition select_row (id : string) (cond : R → bool) : M (gmap string R) E (option R) :=
  query (λ _ m, (m, match m !! id with
                    | Some x => if cond x then Some x else None
                    | None => None
                    end)).

(** [UPDATE ... SET ... WHERE key = $1 AND cond RETURNING ...]. *)
Definition update_row (id : string) (cond : R → bool) (f : Z → R → R)
  : M (gmap string R) E (option R) :=
  query (λ now m, match m !! id with
                  | Some x => if cond x then (<[id := f now x]> m, Some (f now x)) else (m, None)
                  | None => (m, None)
                  end).

Lemma store_select_spec id cond d d' r :
  select_row id cond d = (d', r) →
  frame d d' ∧ tables d' = tables d ∧
  match r with
  | Ok (Some x) => tables d !! id = Some x ∧ cond x = true
  | Ok None => ∀ x, tables d !! id = Some x → cond x = false
  | Err e => e = db_error
  end.
Proof.
  intros [Hfr [[-> Ht]|(a & Hf & ->)]]%store_query_spec; [done|]. simpl in Hf.
  destruct (tables d !! id) as [x|] eqn:Hx; [destruct (cond x) eqn:Hc|]; simplify_eq; split_and!; try done.
  intros y Hy. by simplify_eq.
Qed.

Lemma store_update_spec id cond f d d' r :
  update_row id cond f d = (d', r) →
  frame d d' ∧
  match r with
  | Ok (Some y) => ∃ x, tables d !! id = Some x ∧ cond x = true ∧ y = f (clock d) x ∧
      tables d' = <[id := y]> (tables d)
  | Ok None => tables d' = tables d ∧ ∀ x, tables d !! id = Some x → cond x = false
  | Err e => tables d' = tables d ∧ e = db_error
  end.
Proof.
  intros [Hfr [[-> Ht]|(a & Hf & ->)]]%store_query_spec; [done|]. simpl in Hf. split; [done|].
  destruct (tables d !! id) as [x|] eqn:Hx; [destruct (cond x) eqn:Hc|]; simplify_eq.
  - eauto 10.
  - split; [done|]. intros y Hy. by simplify_eq.
  - by split; [|].
Qed.

Lemma store_update_alone id cond f d x :
  faults d = [] → tables d !! id = Some x →
  update_row id cond f d =
    if cond x then (with_tables (<[id := f (clock d) x]> (tables d)) d, Ok (Some (f (clock d) x)))
    else (d, Ok None).
Proof.
  intros Hf Hx. unfold update_row. rewrite store_query_ok by done. rewrite Hx. destruct (cond x); [done|].
  by destruct d.
Qed.

Lemma select_alone id cond d x :
  faults d = [] → tables d !! id = Some x →
  select_row id cond d = (d, Ok (if cond x then Some x else None)).
Proof. intros Hf Hx. unfold select_row. rewrite store_query_ok by done. rewrite Hx. by destruct d. Qed.

End table.

Declare Scope store_scope.
Delimit Scope store_scope with store.
Notation "'let*' x := c 'in' k" := (mbind c (λ x, k))
  (at level 10, x pattern, c at level 100, k at level 200) : store_scope.

End Store.

(** ** SHA-256 *)

Module Sha256.
#[local] Open Scope Z_scope.

Definition w32 (x : Z) : Z := x mod 2 ^ 32.
Definition rotr (n x : Z) : Z := Z.lor (Z.shiftr x n) (w32 (Z.shiftl x (32 - n))).

(** The constants are the first 32 bits of the fractional parts of the cube and
    square roots of the first primes. *)
Definition is_prime (n : Z) : bool := forallb (λ d, negb (n mod d =? 0)) (seqZ 2 (n - 2)).
Definition primes : list Z := filter (λ n, is_prime n = true) (seqZ 2 310).

(** The integer cube root below [2 ^ bits], bit by bit. *)
Fixpoint cube_root (bits : nat) (root n : Z) : Z :=
  match bits with
  | O => root
  | S bits =>
      let r := root + 2 ^ Z.of_nat bits in
      cube_root bits (if r * r * r <=? n then r else root) n
  end.

Definition round_constants : list Z :=
  Eval vm_compute in (λ q, w32 (cube_root 36 0 (q * 2 ^ 96))) <$> primes.

(** The eight working words. *)
Record digest := mkDigest { dA : Z; dB : Z; dC : Z; dD : Z; dE : Z; dF : Z; dG : Z; dH : Z }.

Definition initial_digest : digest :=
  Eval vm_compute in
    let h i := w32 (Z.sqrt (nth i primes 0 * 2 ^ 64)) in
    mkDigest (h 0%nat) (h 1%nat) (h 2%nat) (h 3%nat) (h 4%nat) (h 5%nat) (h 6%nat) (h 7%nat).

Definition sha_round (d : digest) (kw : Z) : digest :=
  let s1 := Z.lxor (Z.lxor (rotr 6 (dE d)) (rotr 11 (dE d))) (rotr 25 (dE d)) in
  let ch := Z.lxor (Z.land (dE d) (dF d)) (Z.land (2 ^ 32 - 1 - dE d) (dG d)) in
  let t1 := dH d + s1 + ch + kw in
  let s0 := Z.lxor (Z.lxor (rotr 2 (dA d)) (rotr 13 (dA d))) (rotr 22 (dA d)) in
  let maj := Z.lxor (Z.lxor (Z.land (dA d) (dB d)) (Z.land (dA d) (dC d))) (Z.land (dB d) (dC d)) in
  mkDigest (w32 (t1 + s0 + maj)) (dA d) (dB d) (dC d) (w32 (dD d + t1)) (dE d) (dF d) (dG d).

(** The message schedule: 16 words, then 48 more, the latest first. *)
Fixpoint schedule (n : nat) (rev_words : list Z) : list Z :=
  match n with
  | O => rev_words
  | S n =>
      let w i := nth i rev_words 0 in
      let s0 := Z.lxor (Z.lxor (rotr 7 (w 14%nat)) (rotr 18 (w 14%nat))) (Z.shiftr (w 14%nat) 3) in
      let s1 := Z.lxor (Z.lxor (rotr 17 (w 1%nat)) (rotr 19 (w 1%nat))) (Z.shiftr (w 1%nat) 10) in
      schedule n (w32 (w 15%nat + s0 + w 6%nat + s1) :: rev_words)
  end.

Definition sha_block (d : digest) (words : list Z) : digest :=
  let ws := rev (schedule 48 (rev words)) in
  let r := fold_left sha_round (zip_with Z.add round_constants ws) d in
  mkDigest (w32 (dA d + dA r)) (w32 (dB d + dB r)) (w32 (dC d + dC r)) (w32 (dD d + dD r))
    (w32 (dE d + dE r)) (w32 (dF d + dF r)) (w32 (dG d + dG r)) (w32 (dH d + dH r)).

Fixpoint be_words (bs : list Z) : list Z :=
  match bs with
  | a :: b :: c :: d :: bs => a * 2 ^ 24 + b * 2 ^ 16 + c * 2 ^ 8 + d :: be_words bs
  | _ => []
  end.

Fixpoint blocks (fuel : nat) (ws : list Z) : list (list Z) :=
  match fuel, ws with
  | S fuel, _ :: _ => take 16 ws :: blocks fuel (drop 16 ws)
  | _, _ => []
  end.

Fixpoint string_bytes (s : string) : list Z :=
  match s with EmptyString => [] | String c s => Z.of_nat (code c) :: string_bytes s end.

(** A one bit, zeros up to 56 modulo 64, the length in bits in 8 bytes. *)
Definition pad (s : string) : list Z :=
  let n := Z.of_nat (len s) in
  string_bytes s ++ [0x80] ++ replicate (Z.to_nat ((55 - n) mod 64)) 0 ++
  ((λ k, Z.shiftr (8 * n) k mod 256) <$> [56; 48; 40; 32; 24; 16; 8; 0]).

Definition Sum256 (s : string) : digest :=
  let ws := be_words (pad s) in fold_left sha_block (blocks (length ws) ws) initial_digest.

Definition hex_char (n : Z) : ascii :=
  ascii_of_nat (Z.to_nat (if n <? 10 then 48 + n else 87 + n)).

Fixpoint hex_digits (ks : list Z) (w : Z) (rest : string) : string :=
  match ks with
  | [] => rest
  | k :: ks => String (hex_char (Z.land (Z.shiftr w k) 15)) (hex_digits ks w rest)
  end.

Definition hex_word (w : Z) (rest : string) : string := hex_digits [28; 24; 20; 16; 12; 8; 4; 0] w rest.

Definition sha256_hex (s : string) : string :=
  let d := Sum256 s in
  hex_word (dA d) (hex_word (dB d) (hex_word (dC d) (hex_word (dD d)
    (hex_word (dE d) (hex_word (dF d) (hex_word (dG d) (hex_word (dH d) ""))))))).

(** FIPS 180-2, appendix B, and the empty message. *)
Example sha256_abc :
  sha256_hex "abc" = "ba7816bf8f01cfea414140de5dae2223b00361a396177a9cb410ff61f20015ad".
Proof. vm_compute. reflexivity. Qed.
Example sha256_empty :
  sha256_hex "" = "e3b0c44298fc1c149afbf4c8996fb92427ae41e4649b934ca495991b7852b855".
Proof. vm_compute. reflexivity. Qed.
Example sha256_two_blocks :
  sha256_hex "abcdbcdecdefdefgefghfghighijhijkijkljklmklmnlmnomnopnopq" =
  "248d6a61d20638b8e5c026930c3e6039a33ce45964ff2167f6ecedd419db06c1".
Proof. vm_compute. reflexivity. Qed.

(** Every character is a lower-case hexadecimal digit, and there are 64. *)
Definition hex_byte (c : ascii) : bool := is_digit c || ((97 <=? code c)%nat && (code c <=? 102)%nat).

Lemma hex_char_byte n : 0 ≤ n ≤ 15 → hex_byte (hex_char n) = true.
Proof.
  intros Hn. assert (∃ k, n = Z.of_nat k ∧ (k ≤ 15)%nat) as (k & -> & Hk).
  { exists (Z.to_nat n). lia. }
  do 16 (destruct k as [|k]; [done|]). lia.
Qed.

Lemma hex_digits_spec ks w rest :
  len (hex_digits ks w rest) = (length ks + len rest)%nat ∧
  (sforallb hex_byte rest = true → sforallb hex_byte (hex_digits ks w rest) = true).
Proof.
  induction ks as [|k ks [IH1 IH2]]; [done|]. simpl. split; [by rewrite IH1|].
  intros H. rewrite IH2 by done. rewrite hex_char_byte; [done|].
  pose proof (Z.land_ones (Z.shiftr w k) 4 ltac:(lia)) as E. change (Z.ones 4) with 15 in E. rewrite E.
  pose proof (Z.mod_pos_bound (Z.shiftr w k) (2 ^ 4)). lia.
Qed.

Lemma sha256_hex_spec s : len (sha256_hex s) = 64%nat ∧ sforallb hex_byte (sha256_hex s) = true.
Proof.
  unfold sha256_hex, hex_word. split.
  - by repeat (match goal with |- context [len (hex_digits ?ks ?w ?r)] =>
      rewrite (proj1 (hex_digits_spec ks w r)) end).
  - repeat (apply hex_digits_spec). done.
Qed.

End Sha256.
