(* ===== verification/Model.v ===== *)
(** * The configuration entities the control plane and the gateway exchange

    One module per struct of [src/internal/model]; the record fields keep the
    Go names, pointers are options, slices are lists, instants are [Z]
    nanoseconds. *)

From S2P Require Import Prelude.

(** [internal/model/route.go], [type Route]. *)
Module Route.
Record t := mk {
  ID : string;
  ProjectID : string;
  Name : string;
  Path : string;
  UpstreamID : option string;
  UpstreamURL : string;
  Methods : list string;
  Protocol : string;
  MatchType : string;
  Enabled : bool;
  PolicyID : option string;
  AuthRequired : bool;
  RateLimitRPM : Z;
  AllowedOrigins : list string;
  AllowedRoles : list string;
  AllowedScopes : list string;
  IPAllowlist : list string;
  IPBlocklist : list string;
  CreatedAt : Z;
  UpdatedAt : Z;
}.
End Route.

(** [internal/model/upstream.go], [type UpstreamTarget]. *)
Module UpstreamTarget.
Record t := mk {
  ID : string;
  UpstreamID : string;
  TargetURL : string;
  Weight : Z;
  Enabled : bool;
  CreatedAt : Z;
  UpdatedAt : Z;
}.
End UpstreamTarget.

(** [internal/model/upstream.go], [type Upstream]. *)
Module Upstream.
Record t := mk {
  ID : string;
  ProjectID : string;
  Name : string;
  TargetURL : string;
  Protocol : string;
  HealthPath : string;
  Enabled : bool;
  LBStrategy : string;
  Targets : list UpstreamTarget.t;
  CreatedAt : Z;
  UpdatedAt : Z;
}.
End Upstream.

(** [internal/model/custom_domain_sync.go], [type CustomDomainSync]. *)
Module CustomDomainSync.
Record t := mk {
  Hostname : string;
  Status : string;
  RoutingStatus : string;
}.
End CustomDomainSync.

(** [internal/model/project_jwt_sync.go], [type ProjectJWTConfigSync]. *)
Module ProjectJWTConfigSync.
Record t := mk {
  Enabled : bool;
  Algorithm : string;
  SecretARN : string;
  SecretVersionID : string;
  ConfigVersion : Z;
  Issuer : option string;
  Audiences : list string;
  SubjectClaim : string;
  RoleClaim : string;
  ScopesClaim : string;
  ClockSkewSeconds : Z;
}.
End ProjectJWTConfigSync.

(** A plain HTTP route, used to build concrete inputs. *)
Definition http_route (path match_type : string) (methods : list string) : Route.t :=
  {| Route.ID := path; Route.ProjectID := "p"; Route.Name := path; Route.Path := path;
     Route.UpstreamID := None; Route.UpstreamURL := ""; Route.Methods := methods;
     Route.Protocol := "http"; Route.MatchType := match_type; Route.Enabled := true;
     Route.PolicyID := None; Route.AuthRequired := false; Route.RateLimitRPM := 0;
     Route.AllowedOrigins := []; Route.AllowedRoles := []; Route.AllowedScopes := [];
     Route.IPAllowlist := []; Route.IPBlocklist := []; Route.CreatedAt := 0; Route.UpdatedAt := 0 |}.
