(* ===== verification/Matcher.v ===== *)
(** * Route matching: [internal/gateway/router/matcher.go]

    [MatchHTTP] scans the routes of the snapshot once and keeps the best score
    seen so far.  The theorems show that this scan is an argmax (first index on
    ties), and that the numeric score orders candidates first by kind of match
    (exact, parametric, prefix) and then by the length of the route path. *)

From S2P Require Import Prelude GoStrings Model.
From Stdlib Require Import Ascii.

Module Matcher.

(** ** Definitions *)

Definition matchMethod (methods : list string) (reqMethod : string) : bool :=
  if (length methods =? 0)%nat || String.eqb reqMethod "" || String.eqb reqMethod "OPTIONS"
  then true
  else existsb (λ m, EqualFold m "ANY" || EqualFold m "*" || EqualFold m reqMethod) methods.

Definition splitPath (p : string) : list string :=
  let p := Trim "/" p in
  if String.eqb p "" then [] else Split "/" p.

(** One iteration of the segment loop: does the path segment fit the pattern
    segment? *)
Definition match_segment (pSeg rSeg : string) : bool :=
  if HasPrefix pSeg ":" then negb (String.eqb rSeg "") else String.eqb pSeg rSeg.

Fixpoint match_segments (patternSegs pathSegs : list string) : bool :=
  match patternSegs, pathSegs with
  | pSeg :: ps, rSeg :: rs => if match_segment pSeg rSeg then match_segments ps rs else false
  | _, _ => true
  end.

Definition matchParametric (pattern path : string) : bool :=
  let patternSegs := splitPath pattern in
  let pathSegs := splitPath path in
  if negb (length patternSegs =? length pathSegs)%nat then false
  else match_segments patternSegs pathSegs.

Definition matchBoundaryPrefix (patternPath reqPath : string) : bool :=
  if negb (HasPrefix reqPath patternPath) then false
  else if HasSuffix patternPath "/" then true
  else if (len reqPath =? len patternPath)%nat then true
  else HasPrefix (sdrop (len patternPath) reqPath) "/".

Definition matchScore (rt : Route.t) (path : string) : Z :=
  if String.eqb (Route.Path rt) path then 1000000 + Z.of_nat (len (Route.Path rt))
  else if Contains (Route.Path rt) ":" && matchParametric (Route.Path rt) path
  then 500000 + Z.of_nat (len (Route.Path rt))
  else if negb (String.eqb (Route.MatchType rt) "exact") && matchBoundaryPrefix (Route.Path rt) path
  then Z.of_nat (len (Route.Path rt))
  else -1.

(** The two [continue] guards of the loop. *)
Definition candidate (method : string) (rt : Route.t) : bool :=
  String.eqb (Route.Protocol rt) "http" && Route.Enabled rt && matchMethod (Route.Methods rt) method.

(** The body of [for i := range routes], with the loop's two variables. *)
Definition match_step (path method : string) (acc : option Route.t * Z) (rt : Route.t)
  : option Route.t * Z :=
  let '(best, bestScore) := acc in
  if candidate method rt then
    let score := matchScore rt path in
    if (bestScore <? score)%Z then (Some rt, score) else acc
  else acc.

Definition MatchHTTP (path method : string) (routes : list Route.t) : option Route.t :=
  fst (fold_left (match_step path method) routes (None, (-1)%Z)).

(** ** The scan is an argmax *)

Section scan.
Context (path method : string).
Abbreviation score rt := (matchScore rt path).

(** [r] is the first route of [routes] with the greatest score. *)
Definition best_at (routes : list Route.t) (i : nat) (r : Route.t) : Prop :=
  routes !! i = Some r ∧ candidate method r = true ∧ (0 <= score r)%Z ∧
  (∀ j r', routes !! j = Some r' → candidate method r' = true →
     if decide (j < i) then (score r' < score r)%Z else (score r' <= score r)%Z).

Lemma matchScore_lower rt : (-1 <= score rt)%Z.
Proof. unfold matchScore. split_branches; lia. Qed.

Lemma matchScore_cases rt : (score rt = -1 ∨ 0 <= score rt)%Z.
Proof. unfold matchScore. split_branches; lia. Qed.

(** The loop invariant, by induction on the part of the list scanned. *)
Lemma match_scan_spec routes :
  match fold_left (match_step path method) routes (None, -1)%Z with
  | (None, b) => b = (-1)%Z ∧ ∀ r, r ∈ routes → candidate method r = true → score r = (-1)%Z
  | (Some r, b) => b = score r ∧ ∃ i, best_at routes i r
  end.
Proof.
  induction routes as [|x routes IH] using rev_ind.
  { simpl. split; [done|]. intros r Hr. by apply not_elem_of_nil in Hr. }
  rewrite fold_left_app. simpl.
  destruct (fold_left _ routes _) as [[r|] b]; unfold match_step at 1;
    destruct IH as [-> IH].
  - destruct IH as (i & Hi & Hc & Hs & Hmax).
    pose proof (lookup_lt_Some _ _ _ Hi) as Hlt.
    destruct (candidate method x) eqn:Hx; [destruct (Z.ltb_spec (score r) (score x))|].
    + split; [done|]. exists (length routes). split_and!; [|done|lia|].
      { rewrite lookup_app_r, Nat.sub_diag by lia. done. }
      intros j r' Hj Hc'. apply lookup_app_Some in Hj as [Hj|[Hge Hj]].
      * rewrite decide_True by (by eapply lookup_lt_Some).
        specialize (Hmax j r' Hj Hc'). case_decide; lia.
      * apply list_lookup_singleton_Some in Hj as [Hz ->]. case_decide; lia.
    + split; [done|]. exists i. split_and!; [by apply lookup_app_l_Some|done..|].
      intros j r' Hj Hc'. apply lookup_app_Some in Hj as [Hj|[Hge Hj]]; [by apply (Hmax j r')|].
      apply list_lookup_singleton_Some in Hj as [Hz ->]. rewrite decide_False by lia. lia.
    + split; [done|]. exists i. split_and!; [by apply lookup_app_l_Some|done..|].
      intros j r' Hj Hc'. apply lookup_app_Some in Hj as [Hj|[Hge Hj]]; [by apply (Hmax j r')|].
      apply list_lookup_singleton_Some in Hj as [Hz ->]. congruence.
  - destruct (candidate method x) eqn:Hx; [destruct (Z.ltb_spec (-1) (score x))|].
    + split; [done|]. exists (length routes). split_and!; [|done|lia|].
      { rewrite lookup_app_r, Nat.sub_diag by lia. done. }
      intros j r' Hj Hc'. apply lookup_app_Some in Hj as [Hj|[Hge Hj]].
      * rewrite decide_True by (by eapply lookup_lt_Some).
        rewrite (IH r'); [lia| |done]. by eapply list_elem_of_lookup_2.
      * apply list_lookup_singleton_Some in Hj as [Hz ->]. case_decide; lia.
    + split; [done|]. intros r [Hr| ->%list_elem_of_singleton]%elem_of_app Hc; [by apply IH|].
      pose proof (matchScore_lower x). lia.
    + split; [done|]. intros r [Hr| ->%list_elem_of_singleton]%elem_of_app Hc; [by apply IH|].
      congruence.
Qed.

Lemma best_at_unique routes i j r r' : best_at routes i r → best_at routes j r' → i = j.
Proof.
  intros (Hi & Hc & Hs & Hm) (Hj & Hc' & Hs' & Hm').
  specialize (Hm j r' Hj Hc'). specialize (Hm' i r Hi Hc). repeat case_decide; lia.
Qed.
End scan.

(** ** Which routes match *)

(** Kind of match of a route with a path, best first: 3 exact, 2 parametric,
    1 boundary prefix, 0 none. *)
Definition tier (rt : Route.t) (path : string) : nat :=
  if String.eqb (Route.Path rt) path then 3
  else if Contains (Route.Path rt) ":" && matchParametric (Route.Path rt) path then 2
  else if negb (String.eqb (Route.MatchType rt) "exact") && matchBoundaryPrefix (Route.Path rt) path
  then 1 else 0.

(** The base of the score of each kind. *)
Definition tier_base (k : nat) : Z :=
  match k with 3 => 1000000 | 2 => 500000 | 1 => 0 | _ => -1 end.

Lemma matchScore_tier rt path :
  matchScore rt path =
    if decide (tier rt path = 0) then (-1)%Z
    else (tier_base (tier rt path) + Z.of_nat (len (Route.Path rt)))%Z.
Proof. unfold matchScore, tier. by repeat case_match. Qed.

Lemma tier_cases rt path :
  tier rt path = 0 ∨ tier rt path = 1 ∨ tier rt path = 2 ∨ tier rt path = 3.
Proof. unfold tier. repeat case_match; tauto. Qed.

(** With path lengths under 500000 the score is lexicographic. *)
Lemma score_le_lex rt rt' path :
  (Z.of_nat (len (Route.Path rt)) < 500000)%Z → (Z.of_nat (len (Route.Path rt')) < 500000)%Z →
  (matchScore rt' path <= matchScore rt path)%Z → (0 <= matchScore rt path)%Z →
  tier rt' path < tier rt path ∨
  tier rt' path = tier rt path ∧ len (Route.Path rt') ≤ len (Route.Path rt).
Proof.
  rewrite !matchScore_tier.
  destruct (tier_cases rt path) as [H|[H|[H|H]]], (tier_cases rt' path) as [H'|[H'|[H'|H']]];
    rewrite H, H'; simpl; lia.
Qed.

(** C39: [MatchHTTP] returns exactly the first candidate route (enabled, HTTP,
    method allowed) whose score is the greatest, and returns nil exactly when
    no candidate matches the path at all. *)
Theorem MatchHTTP_argmax path method routes :
  (∀ r, MatchHTTP path method routes = Some r ↔ ∃ i, best_at path method routes i r) ∧
  (MatchHTTP path method routes = None ↔
     ∀ r, r ∈ routes → candidate method r = true → tier r path = 0).
Proof.
  pose proof (match_scan_spec path method routes) as H. unfold MatchHTTP.
  assert (∀ r, matchScore r path = (-1)%Z ↔ tier r path = 0) as Ht.
  { intros r. rewrite matchScore_tier. destruct (tier_cases r path) as [-> |[-> |[-> | ->]]]; simpl; lia. }
  setoid_rewrite <- Ht.
  destruct (fold_left _ _ _) as [[r|] b]; simpl; destruct H as [_ H].
  - destruct H as [i Hi]. split.
    + intros r'. split; [intros [= <-]; eauto|]. intros [j Hj].
      pose proof (best_at_unique _ _ _ _ _ _ _ Hi Hj) as ->.
      destruct Hi as [Hi _], Hj as [Hj _]. congruence.
    + split; [done|]. intros Hall. destruct Hi as (Hl & Hc & Hs & _).
      rewrite (Hall r) in Hs; [lia| |done]. by eapply list_elem_of_lookup_2.
  - split; [|tauto]. intros r. split; [done|]. intros (i & Hl & Hc & Hs & _).
    rewrite (H r) in Hs; [lia| |done]. by eapply list_elem_of_lookup_2.
Qed.

(** The route [MatchHTTP] picks is the most specific one: an exact match
    wins over every parametric one, a parametric one over every prefix, and
    within a kind the longest route path wins (for route paths shorter than
    the 500000 that separates the score bands). *)
Theorem MatchHTTP_most_specific path method routes r
  (Hlen : Forall (λ rt, (Z.of_nat (len (Route.Path rt)) < 500000)%Z) routes)
  (Hr : MatchHTTP path method routes = Some r) :
  r ∈ routes ∧ candidate method r = true ∧ 0 < tier r path ∧
  ∀ r', r' ∈ routes → candidate method r' = true →
    tier r' path < tier r path ∨
    tier r' path = tier r path ∧ len (Route.Path r') ≤ len (Route.Path r).
Proof.
  pose proof (match_scan_spec path method routes) as H. unfold MatchHTTP in Hr.
  destruct (fold_left _ _ _) as [[x|] b]; simplify_eq/=. destruct H as [_ (i & Hl & Hc & Hs & Hmax)].
  rewrite Forall_forall in Hlen.
  pose proof (list_elem_of_lookup_2 _ _ _ Hl) as Hin. split_and!; try done.
  { rewrite matchScore_tier in Hs. destruct (tier_cases r path) as [H|[H|[H|H]]]; rewrite H in *; simpl in *; lia. }
  intros r' Hr' Hc'. destruct (list_elem_of_lookup_1 _ _ Hr') as [j Hj].
  apply score_le_lex; [by apply Hlen..| |done].
  specialize (Hmax j r' Hj Hc'). case_decide; lia.
Qed.

(** A prefix route covers exactly its own path and what continues it at a
    segment boundary: [/api] covers [/api] and [/api/x] but never [/apiary]. *)
Theorem matchBoundaryPrefix_spec pattern path :
  matchBoundaryPrefix pattern path = true ↔
    ∃ rest, path = pattern +:+ rest ∧
      (rest = "" ∨ HasSuffix pattern "/" = true ∨ ∃ r, rest = "/" +:+ r).
Proof.
  unfold matchBoundaryPrefix. destruct (HasPrefix path pattern) eqn:Hp; simpl.
  2:{ split; [done|]. intros (rest & -> & _). by rewrite HasPrefix_app in Hp. }
  apply HasPrefix_spec in Hp as [rest ->]. rewrite sdrop_app, len_app.
  assert (∀ rest', pattern +:+ rest = pattern +:+ rest' → rest = rest') as Hinj.
  { intros rest' Heq. by apply (inj (String.append pattern)). }
  destruct (HasSuffix pattern "/") eqn:Hs; [naive_solver|].
  destruct (Nat.eqb_spec (len pattern + len rest) (len pattern)) as [Hl|Hl].
  { assert (rest = "") as -> by (apply len_zero; lia). naive_solver. }
  rewrite HasPrefix_spec. split.
  - intros [r ->]. naive_solver.
  - intros (rest' & Heq%Hinj & [->|[?|[r ->]]]); subst; [simpl in Hl; lia|done|eauto].
Qed.

(** A path built from segments: [/s1/s2/.../sn]. *)
Definition path_of (segs : list string) : string := "/" +:+ Join segs "/".

(** Segments as the routing table has them: not empty, no slash inside. *)
Definition seg_ok (s : string) : Prop := s ≠ "" ∧ contains_byte "/" s = false.

Lemma seg_head s : seg_ok s → head_ok (λ a, negb (Ascii.eqb a "/")) s = true.
Proof. intros [Hne Hs]. destruct s as [|a s]; [done|]. simpl in *. split_bool. by rewrite H. Qed.

Lemma contains_byte_srev c s : contains_byte c (String.rev s) = contains_byte c s.
Proof.
  induction s as [|a s IH]; [done|]. rewrite srev_cons, contains_byte_app, IH. simpl.
  by rewrite orb_false_r, orb_comm.
Qed.

Lemma seg_rev s : seg_ok s → seg_ok (String.rev s).
Proof.
  intros [Hne Hs]. split; [|by rewrite contains_byte_srev].
  intros Heq. apply Hne. by rewrite <- (srev_involutive s), Heq.
Qed.

Lemma head_ok_app f s t : s ≠ "" → head_ok f (s +:+ t) = head_ok f s.
Proof. by destruct s. Qed.

Lemma Join_ends segs :
  segs ≠ [] → Forall seg_ok segs →
  Join segs "/" ≠ "" ∧
  head_ok (λ a, negb (Ascii.eqb a "/")) (Join segs "/") = true ∧
  head_ok (λ a, negb (Ascii.eqb a "/")) (String.rev (Join segs "/")) = true.
Proof.
  induction segs as [|x [|y l] IH]; intros Hne Hs; [done|..].
  - inversion_clear Hs as [|?? Hx _]. simpl. split_and!; [apply Hx|by apply seg_head|].
    by apply seg_head, seg_rev.
  - inversion_clear Hs as [|?? Hx Hl]. destruct (IH ltac:(done) Hl) as (Hj & _ & Hr).
    rewrite Join_cons2. pose proof (proj1 Hx) as Hxne. split_and!.
    + by destruct x.
    + rewrite head_ok_app by done. by apply seg_head.
    + rewrite !srev_app, sapp_assoc, head_ok_app; [done|].
      intros Heq. apply Hj. by rewrite <- (srev_involutive (Join _ _)), Heq.
Qed.

Lemma splitPath_path_of segs :
  segs ≠ [] → Forall seg_ok segs → splitPath (path_of segs) = segs.
Proof.
  intros Hne Hs. destruct (Join_ends segs Hne Hs) as (Hj & Hh & Hr).
  unfold splitPath, path_of. rewrite (sapp_cons _ "" _), sapp_nil_l, Trim_slashed by done.
  destruct (String.eqb_spec (Join segs "/") ""); [done|].
  apply Split_Join; [done|]. eapply Forall_impl; [done|]. by intros ? [??].
Qed.

Lemma match_segments_Forall2 ps rs :
  length ps = length rs →
  match_segments ps rs = true ↔ Forall2 (λ p r, match_segment p r = true) ps rs.
Proof.
  revert rs. induction ps as [|p ps IH]; intros [|r rs] Hl; simplify_eq/=.
  { split; [by constructor|done]. }
  rewrite Forall2_cons, <- IH by done. destruct (match_segment p r); naive_solver.
Qed.

(** A parametric route matches exactly the paths with the same number of
    segments in which every literal segment agrees and every [:name] segment
    stands for some non-empty segment. *)
Theorem matchParametric_segments ps rs
  (Hps : ps ≠ [] ∧ Forall seg_ok ps) (Hrs : rs ≠ [] ∧ Forall seg_ok rs) :
  matchParametric (path_of ps) (path_of rs) = true ↔
    Forall2 (λ p r, HasPrefix p ":" = true ∨ p = r) ps rs.
Proof.
  destruct Hps as [Hp Hps], Hrs as [Hr Hrs]. unfold matchParametric.
  rewrite !splitPath_path_of by done.
  destruct (Nat.eqb_spec (length ps) (length rs)) as [Hl|Hl]; simpl.
  2:{ split; [done|]. by intros ?%Forall2_length. }
  rewrite match_segments_Forall2 by done. clear Hp Hr Hps.
  revert rs Hrs Hl. induction ps as [|p ps IH]; intros [|r rs] Hrs Hl; simplify_eq/=; [done|].
  inversion_clear Hrs as [|?? [Hne _] Hrs']. rewrite !Forall2_cons, IH by done.
  unfold match_segment. destruct (HasPrefix p ":"); [|rewrite String.eqb_eq; naive_solver].
  destruct (String.eqb_spec r ""); naive_solver.
Qed.

(** [OPTIONS] requests, and routes without a method list, pass the method
    filter; otherwise the request method must be listed (in any case) or the
    route must list [ANY] or [*]. *)
Theorem matchMethod_spec methods m :
  matchMethod methods m = true ↔
    methods = [] ∨ m = "" ∨ m = "OPTIONS" ∨
    ∃ x, x ∈ methods ∧ (ToLower x = "any" ∨ x = "*" ∨ ToLower x = ToLower m).
Proof.
  assert (∀ x, ToLower x = "*" → x = "*") as Hstar.
  { intros [|a [|b s]]; simpl; try done. intros [= Ha]. f_equal.
    by destruct a as [[] [] [] [] [] [] [] []]. }
  unfold matchMethod. destruct methods as [|y l]; [naive_solver|]. simpl length. cbn [Nat.eqb orb].
  destruct (String.eqb_spec m ""), (String.eqb_spec m "OPTIONS"); cbn [orb]; [naive_solver..|].
  rewrite existsb_exists. setoid_rewrite <- list_elem_of_In.
  unfold EqualFold. setoid_rewrite orb_true_iff. setoid_rewrite orb_true_iff.
  setoid_rewrite String.eqb_eq. split.
  - intros (x & Hx & [[H|H%Hstar]|H]); eauto 10.
  - intros [?|[?|[?|(x & Hx & [H|[->|H]])]]]; [done..| | |]; eauto 10.
Qed.

(** ** Concrete inputs *)

Definition sample_routes : list Route.t :=
  [http_route "/api" "prefix" []; http_route "/api/users/:id" "exact" ["GET"];
   http_route "/api/users/me" "exact" ["get"]].

Example match_exact_first :
  Route.Path <$> MatchHTTP "/api/users/me" "GET" sample_routes = Some "/api/users/me".
Proof. reflexivity. Qed.

Example match_param_before_prefix :
  Route.Path <$> MatchHTTP "/api/users/42" "GET" sample_routes = Some "/api/users/:id".
Proof. reflexivity. Qed.

Example match_no_partial_segment : MatchHTTP "/apiary" "GET" sample_routes = None.
Proof. reflexivity. Qed.

Lemma MatchHTTP_most_specific_witness :
  let r := http_route "/api/users/me" "exact" ["get"] in
  r ∈ sample_routes ∧ candidate "GET" r = true ∧ 0 < tier r "/api/users/me" ∧
  ∀ r', r' ∈ sample_routes → candidate "GET" r' = true →
    tier r' "/api/users/me" < tier r "/api/users/me" ∨
    tier r' "/api/users/me" = tier r "/api/users/me" ∧ len (Route.Path r') ≤ len (Route.Path r).
Proof.
  apply (MatchHTTP_most_specific "/api/users/me" "GET" sample_routes).
  - repeat constructor.
  - reflexivity.
Defined.

Lemma matchParametric_segments_witness :
  matchParametric (path_of ["users"; ":id"]) (path_of ["users"; "7"]) = true ↔
    Forall2 (λ p r, HasPrefix p ":" = true ∨ p = r) ["users"; ":id"] ["users"; "7"].
Proof.
  apply (matchParametric_segments ["users"; ":id"] ["users"; "7"]);
    (split; [done | repeat constructor; done]).
Defined.

End Matcher.
