(* ===== verification/LoadBalancer.v ===== *)
(** * Load balancing: [internal/gateway/loadbalancer]

    The two strategies of the gateway with their state, the [Strategy]
    interface as a class, and what each promises: round robin serves every
    target in proportion to its clamped weight in each full turn of the
    counter; least-connections always picks a target with the fewest requests
    in flight, and its table is exactly the bag of requests that have been
    picked and not yet released. *)

From S2P Require Import Prelude.

(** [loadbalancer.go]: [type Target] and [ErrNoHealthyTargets]. *)
Module Target.
Record t := mk { ID : string; URL : string; Weight : Z }.
#[global] Instance eq_dec : EqDecision t.
Proof. solve_decision. Defined.
End Target.

Inductive lb_error := ErrNoHealthyTargets.
#[global] Instance lb_error_eq_dec : EqDecision lb_error.
Proof. solve_decision. Defined.

(** [type Strategy interface]: [Pick] and [Release] act on the strategy's own
    state, [Name] identifies it. *)
Class Strategy (S : Type) := {
  Pick : list Target.t → S → result lb_error Target.t * S;
  Release : Target.t → S → S;
  Name : S → string;
}.

(** What a client of the interface may rely on: a pick fails only on an empty
    pool (leaving the state alone), and otherwise returns a member of it. *)
Class StrategyLaws (S : Type) `{Strategy S} := {
  pick_empty : ∀ s, Pick [] s = (Err ErrNoHealthyTargets, s);
  pick_member : ∀ pool s, pool ≠ [] → ∃ t s', Pick pool s = (Ok t, s') ∧ t ∈ pool;
  pick_name : ∀ pool s, Name (Pick pool s).2 = Name s;
  release_name : ∀ t s, Name (Release t s) = Name s;
}.

Module RoundRobin.

(** [type RoundRobin]: the atomic 64-bit counter. *)
Record t := mk { counter : Z }.
Definition NewRoundRobin : t := mk 0.

Definition maxWeight : Z := 100.

(** The weight used for one target once the weights differ. *)
Definition clamp_weight (w : Z) : Z :=
  let w := if (w <? 1)%Z then 1%Z else w in
  if (maxWeight <? w)%Z then maxWeight else w.

(** The slots the inner [for i := 0; i < w; i++] appends for one target. *)
Definition slots (t : Target.t) : list Target.t :=
  replicate (Z.to_nat (clamp_weight (Target.Weight t))) t.

Definition expandByWeight (pool : list Target.t) : list Target.t :=
  match pool with
  | [] => pool
  | t0 :: _ =>
      if forallb (λ t, Z.eqb (Target.Weight t) (Target.Weight t0)) pool then pool
      else flat_map slots pool
  end.

Definition Pick (pool : list Target.t) (r : t) : result lb_error Target.t * t :=
  match pool with
  | [] => (Err ErrNoHealthyTargets, r)
  | [t0] => (Ok t0, r)
  | _ =>
      let expanded := expandByWeight pool in
      let c := wrap_u64 (counter r + 1) in
      match expanded !! Z.to_nat (c `mod` Z.of_nat (length expanded)) with
      | Some x => (Ok x, mk c)
      | None => (Err ErrNoHealthyTargets, mk c) (* out of range: see [expand_lookup] *)
      end
  end.

Definition Release (_ : Target.t) (r : t) : t := r.

#[global] Instance strategy : Strategy t := {
  Pick := Pick; Release := Release; Name := λ _, "round_robin";
}.

(** ** The expanded pool *)

Lemma clamp_weight_bounds w : (1 <= clamp_weight w <= 100)%Z.
Proof. unfold clamp_weight, maxWeight. repeat case_match; lia. Qed.

Lemma expand_elem pool t : t ∈ expandByWeight pool ↔ t ∈ pool.
Proof.
  unfold expandByWeight. destruct pool as [|t0 pool]; [done|].
  destruct (forallb _ _); [done|]. generalize (t0 :: pool). clear. intros l.
  rewrite !list_elem_of_In, in_flat_map. setoid_rewrite <- list_elem_of_In. split.
  - intros (x & Hx & Ht). apply elem_of_replicate in Ht as [-> _]. done.
  - intros Ht. exists t. split; [done|]. unfold slots.
    apply elem_of_replicate. pose proof (clamp_weight_bounds (Target.Weight t)). split; [done|lia].
Qed.

Lemma expand_length pool : pool ≠ [] → length (expandByWeight pool) ≠ 0.
Proof.
  intros Hne Hl. apply nil_length_inv in Hl. destruct pool as [|t0 pool]; [done|].
  assert (t0 ∈ expandByWeight (t0 :: pool)) as H by (apply expand_elem; by left).
  rewrite Hl in H. by apply not_elem_of_nil in H.
Qed.

(** The modulus keeps every pick in range. *)
Lemma expand_lookup pool c :
  pool ≠ [] → is_Some (expandByWeight pool !! Z.to_nat (c `mod` Z.of_nat (length (expandByWeight pool)))).
Proof.
  intros Hne. apply lookup_lt_is_Some_2. pose proof (expand_length pool Hne).
  pose proof (Z.mod_pos_bound c (Z.of_nat (length (expandByWeight pool)))). lia.
Qed.

#[global] Instance laws : StrategyLaws t.
Proof.
  split; simpl.
  - done.
  - intros pool s Hne. unfold Pick.
    destruct pool as [|t0 [|t1 pool]]; [done|eexists _, _; split; [done|by left]|].
    destruct (expand_lookup (t0 :: t1 :: pool) (wrap_u64 (counter s + 1)) Hne) as [x Hx].
    rewrite Hx. eexists _, _. split; [done|]. apply expand_elem. by eapply list_elem_of_lookup_2.
  - done.
  - done.
Qed.

(** ** Consecutive picks *)

(** [n] picks in a row from the same pool. *)
Fixpoint run (n : nat) (pool : list Target.t) (r : t) : list (result lb_error Target.t) :=
  match n with
  | 0 => []
  | S n' => let '(x, r') := Pick pool r in x :: run n' pool r'
  end.

Lemma run_lookups n pool c :
  1 < length pool → (0 <= c)%Z → (c + Z.of_nat n < u64_modulus)%Z →
  let e := expandByWeight pool in
  (λ x, match x with Ok t => Some t | Err _ => None end) <$> run n pool (mk c) =
  (λ k, e !! Z.to_nat ((c + Z.of_nat k) `mod` Z.of_nat (length e))) <$> seq 1 n.
Proof.
  intros Hp. simpl. revert c. induction n as [|n IH]; intros c Hc Hn; [done|].
  simpl run. unfold Pick. destruct pool as [|t0 [|t1 pool]]; simpl in Hp; [lia..|].
  simpl counter. unfold wrap_u64. rewrite (Z.mod_small (c + 1)) by lia.
  set (P := t0 :: t1 :: pool) in *.
  destruct (expand_lookup P (c + 1) ltac:(done)) as [x Hx]. rewrite Hx. simpl.
  rewrite IH by lia. f_equal.
  - rewrite <- Hx. f_equal.
  - rewrite <- (seq_shift n 1). change (map S (seq 1 n)) with (S <$> seq 1 n).
    rewrite <- list_fmap_compose. apply list_fmap_ext.
    intros i k _. simpl. do 3 f_equal. lia.
Qed.

(** A window of [n] consecutive residues modulo [n] visits each index once. *)
Lemma window_perm n (c : Z) :
  n ≠ 0 → (λ k, Z.to_nat ((c + Z.of_nat k) `mod` Z.of_nat n)) <$> seq 1 n ≡ₚ seq 0 n.
Proof.
  intros Hn. apply NoDup_Permutation_bis.
  - apply NoDup_ListNoDup, NoDup_fmap_2_strong; [|apply NoDup_seq].
    intros x y Hx%elem_of_seq Hy%elem_of_seq Heq.
    apply Z2Nat.inj in Heq; [|apply Z.mod_pos_bound; lia..].
    assert ((Z.of_nat x - Z.of_nat y) `mod` Z.of_nat n = 0)%Z as Hd.
    { replace (Z.of_nat x - Z.of_nat y)%Z with ((c + Z.of_nat x) - (c + Z.of_nat y))%Z by lia.
      rewrite Zminus_mod, Heq, Z.sub_diag. apply Z.mod_0_l. lia. }
    apply Z.mod_divide in Hd as [q Hq]; [|lia]. assert (q = 0)%Z by nia. lia.
  - by rewrite length_fmap, !length_seq.
  - intros i Hi. apply list_elem_of_In in Hi. apply list_elem_of_In, elem_of_seq.
    apply list_elem_of_fmap in Hi as (k & -> & _).
    pose proof (Z.mod_pos_bound (c + Z.of_nat k) (Z.of_nat n)). lia.
Qed.

Lemma lookup_seq_all {A} (l : list A) : (λ i, l !! i) <$> seq 0 (length l) = Some <$> l.
Proof.
  apply list_eq. intros i. rewrite !list_lookup_fmap.
  destruct (decide (i < length l)) as [Hi|Hi].
  - rewrite lookup_seq_lt by done. simpl. destruct (lookup_lt_is_Some_2 l i Hi) as [x Hx].
    rewrite Hx. done.
  - rewrite lookup_seq_ge by lia. rewrite (lookup_ge_None_2 l) by lia. done.
Qed.

(** Round robin is fair: over one full turn of the expanded pool (as many
    picks as it has slots, before the 64-bit counter wraps) the targets
    served are a permutation of the slots. *)
Theorem round_robin_turn pool c
  (Hpool : 1 < length pool) (Hc : (0 <= c)%Z)
  (Hwrap : (c + Z.of_nat (length (expandByWeight pool)) < u64_modulus)%Z) :
  run (length (expandByWeight pool)) pool (mk c) ≡ₚ Ok <$> expandByWeight pool.
Proof.
  set (e := expandByWeight pool) in *.
  assert (length e ≠ 0) as He by (apply expand_length; by destruct pool; simpl in *; [lia|]).
  assert ((λ x, match x with Ok t => Some t | Err _ => None end) <$> run (length e) pool (mk c)
          ≡ₚ Some <$> e) as Hp.
  { rewrite (run_lookups (length e) pool c Hpool Hc Hwrap). fold e.
    rewrite <- (lookup_seq_all e), <- (window_perm (length e) c He).
    by rewrite <- list_fmap_compose. }
  apply (fmap_Permutation (λ o : option Target.t,
    match o with Some x => Ok x | None => Err ErrNoHealthyTargets end)) in Hp.
  rewrite <- !list_fmap_compose in Hp.
  etrans; [|etrans; [exact Hp|]]; apply reflexive_eq.
  - rewrite <- (list_fmap_id (run _ _ _)) at 1. apply list_fmap_ext. intros i [x|[]] _; done.
  - apply list_fmap_ext. done.
Qed.

Lemma count_ok (t : Target.t) l : length (filter (λ x, x = Ok t) (Ok (E:=lb_error) <$> l)) = count t l.
Proof.
  induction l as [|x l IH]; [done|]. rewrite fmap_cons, filter_cons, count_cons, <- IH.
  repeat case_decide; simplify_eq; done.
Qed.

Lemma count_slots_notin (t : Target.t) pool : t ∉ pool → count t (flat_map slots pool) = 0.
Proof.
  induction pool as [|b l IH]; [done|]. rewrite not_elem_of_cons. intros [Hb Hl].
  simpl. unfold slots at 1. by rewrite count_app, IH, count_replicate_ne.
Qed.

Lemma count_slots (t : Target.t) pool :
  NoDup pool → t ∈ pool →
  count t (flat_map slots pool) = Z.to_nat (clamp_weight (Target.Weight t)).
Proof.
  induction pool as [|a pool IH]; intros Hnd Ht; [by apply not_elem_of_nil in Ht|]. simpl.
  inversion_clear Hnd as [|?? Ha Hnd']. rewrite count_app. unfold slots at 1.
  apply elem_of_cons in Ht as [->|Ht].
  - rewrite count_replicate_eq, count_slots_notin by done. lia.
  - rewrite count_replicate_ne, IH by (done || set_solver). lia.
Qed.

(** When the weights differ, a turn serves each target exactly as many
    times as its weight clamped into [1, 100]. *)
Theorem round_robin_weights pool c t
  (Hnd : NoDup pool) (Ht : t ∈ pool)
  (Hdiff : ∃ t1 t2, t1 ∈ pool ∧ t2 ∈ pool ∧ Target.Weight t1 ≠ Target.Weight t2)
  (Hc : (0 <= c)%Z)
  (Hwrap : (c + Z.of_nat (length (expandByWeight pool)) < u64_modulus)%Z) :
  Z.of_nat (length (filter (λ x, x = Ok t) (run (length (expandByWeight pool)) pool (mk c)))) =
    clamp_weight (Target.Weight t).
Proof.
  destruct Hdiff as (t1 & t2 & H1 & H2 & Hne).
  assert (1 < length pool) as Hl.
  { destruct pool as [|a [|b pool]]; simpl; [by apply not_elem_of_nil in H1| |lia].
    apply list_elem_of_singleton in H1, H2. congruence. }
  rewrite round_robin_turn by done.
  assert (expandByWeight pool = flat_map slots pool) as ->.
  { unfold expandByWeight. destruct pool as [|t0 pool]; [done|].
    destruct (forallb _ _) eqn:Hall; [|done]. rewrite forallb_forall in Hall.
    setoid_rewrite Z.eqb_eq in Hall. setoid_rewrite <- list_elem_of_In in Hall.
    apply Hall in H1, H2. congruence. }
  rewrite count_ok, count_slots by done. pose proof (clamp_weight_bounds (Target.Weight t)). lia.
Qed.

End RoundRobin.

Module LeastConn.

(** [type LeastConn]: requests in flight per [Target.ID].  A missing entry
    reads as zero, as in Go. *)
Record t := mk { inFlight : gmap string Z }.
Definition NewLeastConn : t := mk ∅.

Definition lookup (m : gmap string Z) (id : string) : Z := default 0%Z (m !! id).

(** The scan [for _, t := range pool[1:]] with its two variables. *)
Definition scan_step (m : gmap string Z) (acc : Target.t * Z) (x : Target.t) : Target.t * Z :=
  let '(best, bestCount) := acc in
  let c := lookup m (Target.ID x) in
  if (c <? bestCount)%Z then (x, c) else acc.

Definition Pick (pool : list Target.t) (l : t) : result lb_error Target.t * t :=
  match pool with
  | [] => (Err ErrNoHealthyTargets, l)
  | t0 :: rest =>
      let m := inFlight l in
      let '(best, _) := fold_left (scan_step m) rest (t0, lookup m (Target.ID t0)) in
      (Ok best, mk (<[Target.ID best := (lookup m (Target.ID best) + 1)%Z]> m))
  end.

Definition Release (target : Target.t) (l : t) : t :=
  let m := inFlight l in
  match m !! Target.ID target with
  | Some c =>
      if (c <=? 1)%Z then mk (delete (Target.ID target) m)
      else mk (<[Target.ID target := (c - 1)%Z]> m)
  | None => l
  end.

(** [InFlight()]: a copy of the table. *)
Definition InFlight (l : t) : gmap string Z := inFlight l.

#[global] Instance strategy : Strategy t := {
  Pick := Pick; Release := Release; Name := λ _, "least_conn";
}.

(** ** The scan keeps a minimum *)

Lemma scan_spec m rest t0 :
  let '(best, b) := fold_left (scan_step m) rest (t0, lookup m (Target.ID t0)) in
  b = lookup m (Target.ID best) ∧ best ∈ t0 :: rest ∧
  ∀ x, x ∈ t0 :: rest → (lookup m (Target.ID best) <= lookup m (Target.ID x))%Z.
Proof.
  induction rest as [|y rest IH] using rev_ind.
  { simpl. split_and!; [done|by left|]. by intros x ->%list_elem_of_singleton. }
  rewrite fold_left_app. simpl.
  destruct (fold_left _ rest _) as [best b]. destruct IH as (-> & Hin & Hmin). unfold scan_step.
  destruct (Z.ltb_spec (lookup m (Target.ID y)) (lookup m (Target.ID best))).
  - split_and!; [done|set_solver|]. intros x [->|[Hx| ->%list_elem_of_singleton]%elem_of_app]%elem_of_cons; [| |lia].
    + specialize (Hmin t0 ltac:(by left)). lia.
    + specialize (Hmin x ltac:(by right)). lia.
  - split_and!; [done|set_solver|]. intros x [->|[Hx| ->%list_elem_of_singleton]%elem_of_app]%elem_of_cons; [| |lia].
    + by apply Hmin; left.
    + by apply Hmin; right.
Qed.

Lemma pick_spec pool l :
  pool ≠ [] → ∃ best, best ∈ pool ∧
    Pick pool l = (Ok best, mk (<[Target.ID best := (lookup (inFlight l) (Target.ID best) + 1)%Z]> (inFlight l))) ∧
    ∀ x, x ∈ pool → (lookup (inFlight l) (Target.ID best) <= lookup (inFlight l) (Target.ID x))%Z.
Proof.
  intros Hne. destruct pool as [|t0 rest]; [done|]. unfold Pick.
  pose proof (scan_spec (inFlight l) rest t0) as H.
  destruct (fold_left _ _ _) as [best b]. naive_solver.
Qed.

#[global] Instance laws : StrategyLaws t.
Proof.
  split; simpl; try done.
  intros pool s Hne. destruct (pick_spec pool s Hne) as (best & Hin & -> & _). eauto.
Qed.

(** Least-connections picks a target of the pool with the fewest
    requests in flight and counts the new request against it alone. *)
Theorem least_conn_pick_min pool l best l'
  (Hpick : Pick pool l = (Ok best, l')) :
  best ∈ pool ∧
  (∀ x, x ∈ pool → (lookup (inFlight l) (Target.ID best) <= lookup (inFlight l) (Target.ID x))%Z) ∧
  (∀ id, lookup (inFlight l') id =
     (lookup (inFlight l) id + if decide (id = Target.ID best) then 1 else 0)%Z).
Proof.
  destruct (decide (pool = [])) as [->|Hne]; [discriminate Hpick || done|].
  destruct (pick_spec pool l Hne) as (b & Hin & Heq & Hmin). rewrite Heq in Hpick. simplify_eq.
  split_and!; [done..|]. intros id. unfold lookup at 1. simpl. rewrite lookup_insert.
  repeat case_decide; simplify_eq; simpl; unfold lookup; lia.
Qed.

(** ** Refinement: the table is the bag of unreleased picks *)

(** Client actions: a pick adds its target to the requests in flight, a
    release gives one of them back. *)
Inductive step : t * list Target.t → t * list Target.t → Prop :=
| step_pick pool l out best l' :
    Pick pool l = (Ok best, l') → step (l, out) (l', best :: out)
| step_release l out1 x out2 :
    step (l, out1 ++ x :: out2) (Release x l, out1 ++ out2).

(** Requests outstanding on one target ID. *)
Definition outstanding (out : list Target.t) (id : string) : nat :=
  count id (Target.ID <$> out).

Definition table_of (out : list Target.t) (m : gmap string Z) : Prop :=
  ∀ id, m !! id = if decide (outstanding out id = 0) then None
                  else Some (Z.of_nat (outstanding out id)).

Lemma table_lookup out m id : table_of out m → lookup m id = Z.of_nat (outstanding out id).
Proof. intros H. unfold lookup. rewrite H. case_decide; simpl; lia. Qed.

Lemma outstanding_perm out out' id : out ≡ₚ out' → outstanding out id = outstanding out' id.
Proof. intros H. unfold outstanding. apply count_perm. by rewrite H. Qed.

Lemma outstanding_cons_eq x out : outstanding (x :: out) (Target.ID x) = S (outstanding out (Target.ID x)).
Proof. unfold outstanding. rewrite fmap_cons, count_cons. by rewrite decide_True. Qed.

Lemma outstanding_cons_ne x out id : Target.ID x ≠ id → outstanding (x :: out) id = outstanding out id.
Proof. intros H. unfold outstanding. rewrite fmap_cons, count_cons. by rewrite decide_False. Qed.

Lemma pick_table pool l out best l' :
  table_of out (inFlight l) → Pick pool l = (Ok best, l') → table_of (best :: out) (inFlight l').
Proof.
  intros Ht Hp. destruct (decide (pool = [])) as [->|Hne]; [done|].
  destruct (pick_spec pool l Hne) as (b & _ & Heq & _). rewrite Heq in Hp. simplify_eq/=.
  intros id. rewrite lookup_insert, (table_lookup out) by done.
  destruct (decide (Target.ID best = id)) as [<-|Hn].
  - rewrite outstanding_cons_eq, decide_False by lia. f_equal. lia.
  - rewrite outstanding_cons_ne by done. apply Ht.
Qed.

Lemma release_table l out x :
  table_of (x :: out) (inFlight l) → table_of out (inFlight (Release x l)).
Proof.
  intros Ht id. unfold Release. rewrite (Ht (Target.ID x)), outstanding_cons_eq, decide_False by lia.
  specialize (Ht id).
  destruct (Z.leb_spec (Z.of_nat (S (outstanding out (Target.ID x)))) 1); simpl.
  - rewrite lookup_delete. destruct (decide (Target.ID x = id)) as [<-|Hn].
    + rewrite decide_True by lia. done.
    + by rewrite outstanding_cons_ne in Ht.
  - rewrite lookup_insert. destruct (decide (Target.ID x = id)) as [<-|Hn].
    + rewrite decide_False by lia. f_equal. lia.
    + by rewrite outstanding_cons_ne in Ht.
Qed.

(** In every state reached by picks and releases, the table holds for
    each target exactly the number of requests picked and not yet released,
    and no entry for an idle target. *)
Theorem least_conn_counts_in_flight l out
  (Hreach : rtc step (NewLeastConn, []) (l, out)) : table_of out (inFlight l).
Proof.
  assert (∀ s0 s, rtc step s0 s → table_of s0.2 (inFlight s0.1) → table_of s.2 (inFlight s.1)) as H.
  { clear. intros s0 s. induction 1 as [s|s1 s2 s3 Hstep _ IH]; [done|]. intros H. apply IH.
    inversion Hstep; subst; simpl in *; [by eapply pick_table|].
    apply release_table. intros id. rewrite <- (outstanding_perm (out1 ++ x :: out2)); [apply H|].
    by rewrite Permutation_middle. }
  apply (H _ _ Hreach). intros id. simpl. by rewrite lookup_empty.
Qed.

(** Handing the picked target back restores the table, whatever the
    strategy state was (counts in it being positive, as they always are). *)
Theorem least_conn_pick_release pool l best l'
  (Hpos : ∀ id c, inFlight l !! id = Some c → (0 < c)%Z)
  (Hpick : Pick pool l = (Ok best, l')) : Release best l' = l.
Proof.
  destruct (decide (pool = [])) as [->|Hne]; [discriminate Hpick || done|].
  destruct (pick_spec pool l Hne) as (b & _ & Heq & _). rewrite Heq in Hpick. simplify_eq/=.
  unfold Release. simpl. rewrite lookup_insert_eq. unfold lookup.
  destruct (inFlight l !! Target.ID best) as [c|] eqn:Hc; simpl.
  - specialize (Hpos _ _ Hc). destruct (Z.leb_spec (c + 1) 1); [lia|].
    rewrite insert_insert_eq, insert_id by (rewrite Hc; f_equal; lia). by destruct l.
  - rewrite delete_insert_id by done. by destruct l.
Qed.

End LeastConn.

(** ** A value of the [Strategy] interface *)

Inductive AnyStrategy :=
| SRoundRobin (s : RoundRobin.t)
| SLeastConn (s : LeastConn.t).

Definition NewStrategy (name : string) : AnyStrategy :=
  if String.eqb name "least_conn" then SLeastConn LeastConn.NewLeastConn
  else SRoundRobin RoundRobin.NewRoundRobin.

(** Dynamic dispatch of the interface methods. *)
#[global] Instance any_strategy : Strategy AnyStrategy := {
  Pick := λ pool s, match s with
    | SRoundRobin r => let '(x, r') := Pick pool r in (x, SRoundRobin r')
    | SLeastConn l => let '(x, l') := Pick pool l in (x, SLeastConn l')
    end;
  Release := λ t s, match s with
    | SRoundRobin r => SRoundRobin (Release t r)
    | SLeastConn l => SLeastConn (Release t l)
    end;
  Name := λ s, match s with SRoundRobin r => Name r | SLeastConn l => Name l end;
}.

#[global] Instance any_strategy_laws : StrategyLaws AnyStrategy.
Proof.
  split.
  - by intros [r|l].
  - intros pool [r|l] Hne; [destruct (pick_member pool r Hne) as (t & s' & Heq & Hin)
                           |destruct (pick_member pool l Hne) as (t & s' & Heq & Hin)];
      simpl in *; rewrite Heq; eauto.
  - intros pool [r|l]; simpl; [by destruct (RoundRobin.Pick pool r)|by destruct (LeastConn.Pick pool l)].
  - by intros t [r|l].
Qed.

(** The pool of the witnesses below. *)
Definition sample_pool : list Target.t :=
  [Target.mk "a" "http://a" 3; Target.mk "b" "http://b" 1].

Lemma round_robin_turn_witness :
  RoundRobin.run 4 sample_pool (RoundRobin.mk 7) ≡ₚ Ok <$> RoundRobin.expandByWeight sample_pool.
Proof. apply (RoundRobin.round_robin_turn sample_pool 7); [simpl; lia|lia|reflexivity]. Defined.

Lemma round_robin_weights_witness :
  Z.of_nat (length (filter (λ x, x = Ok (Target.mk "a" "http://a" 3))
    (RoundRobin.run 4 sample_pool (RoundRobin.mk 0)))) = 3%Z.
Proof.
  apply (RoundRobin.round_robin_weights sample_pool 0 (Target.mk "a" "http://a" 3)).
  - apply (bool_decide_unpack _). reflexivity.
  - by left.
  - exists (Target.mk "a" "http://a" 3), (Target.mk "b" "http://b" 1).
    split_and!; [by left|by right; left|done].
  - lia.
  - reflexivity.
Defined.

Lemma least_conn_pick_min_witness :
  Target.mk "b" "http://b" 1 ∈ sample_pool.
Proof.
  apply (LeastConn.least_conn_pick_min sample_pool (LeastConn.mk {["a" := 2%Z]})
           (Target.mk "b" "http://b" 1) (LeastConn.mk {["a" := 2%Z; "b" := 1%Z]})).
  reflexivity.
Defined.

Lemma least_conn_counts_in_flight_witness :
  LeastConn.table_of [Target.mk "a" "http://a" 3] {["a" := 1%Z]}.
Proof.
  refine (LeastConn.least_conn_counts_in_flight
           (LeastConn.mk {["a" := 1%Z]}) [Target.mk "a" "http://a" 3] _).
  apply rtc_once. apply (LeastConn.step_pick sample_pool). reflexivity.
Defined.

Lemma least_conn_pick_release_witness :
  LeastConn.Release (Target.mk "a" "http://a" 3) (LeastConn.mk {["a" := 1%Z]}) = LeastConn.NewLeastConn.
Proof.
  apply (LeastConn.least_conn_pick_release sample_pool).
  - intros id c H. simpl in H. by rewrite lookup_empty in H.
  - reflexivity.
Defined.
