(* ===== verification/RateLimit.v ===== *)
(** * Rate limiting: [internal/ratelimit]

    The [Limiter] interface with its two implementations: the in-memory
    sliding window, and the Redis one with its Lua scripts and its fallback.
    The memory limiter is shown to refine a specification that keeps the whole
    history of accepted requests and counts those of the last minute. *)

From S2P Require Import Prelude.
From Stdlib Require Import Sorted.

Definition slidingWindow : Z := 60 * second.
Definition maxEntriesPerKey : Z := 10000.

(** [limiter.go]: [type RateResult] and [type Limiter interface].  The clock
    [now] is an argument: the implementations read it once per call. *)
Record RateResult := mkRate { Allowed : bool; Remaining : Z; ResetAt : Z }.

Class Limiter (S : Type) := {
  CheckAndConsume : Z → string → Z → S → RateResult * S;
  Count : Z → string → S → Z * S;
  Limit : S → Z;
}.

Definition AllowWithLimit {S} `{Limiter S} (now : Z) (key : string) (limit : Z) (s : S) : bool * S :=
  let '(r, s') := CheckAndConsume now key limit s in (Allowed r, s').
Definition Allow {S} `{Limiter S} (now : Z) (key : string) (s : S) : bool * S :=
  AllowWithLimit now key (Limit s) s.

Module MemoryLimiter.

(** [type MemoryLimiter]; a missing key reads as the empty slice. *)
Record t := mk { requests : gmap string (list Z); requestsPerMin : Z }.
Definition NewMemoryLimiter (rpm : Z) : t := mk ∅ rpm.

Definition entries_of (m : t) (key : string) : list Z := default [] (requests m !! key).
Definition store (m : t) (key : string) (es : list Z) : t :=
  mk (<[key := es]> (requests m)) (requestsPerMin m).

Fixpoint trim (entries : list Z) (cutoff : Z) : list Z :=
  match entries with
  | e :: es => if (e <? cutoff)%Z then trim es cutoff else entries
  | [] => []
  end.

Definition CheckAndConsume (now : Z) (key : string) (limit : Z) (m : t) : RateResult * t :=
  let cutoff := (now - slidingWindow)%Z in
  let entries := trim (entries_of m key) cutoff in
  if (limit <=? Z.of_nat (length entries))%Z then
    (mkRate false 0 (now + slidingWindow), store m key entries)
  else
    let entries := entries ++ [now] in
    let remaining := (limit - Z.of_nat (length entries))%Z in
    let remaining := if (remaining <? 0)%Z then 0%Z else remaining in
    (mkRate true remaining (now + slidingWindow), store m key entries).

Definition Count (now : Z) (key : string) (m : t) : Z * t :=
  let entries := trim (entries_of m key) (now - slidingWindow) in
  (Z.of_nat (length entries), store m key entries).

(** One tick of the goroutine of [StartCleanup]: trim every key and drop the
    idle ones. *)
Definition cleanup (now : Z) (m : t) : t :=
  let cutoff := (now - slidingWindow)%Z in
  mk (omap (λ es, match trim es cutoff with [] => None | es' => Some es' end) (requests m))
     (requestsPerMin m).

#[global] Instance limiter : Limiter t := {
  CheckAndConsume := CheckAndConsume; Count := Count; Limit := requestsPerMin;
}.

(** ** Specification: the log of accepted requests *)

(** Everything accepted so far, oldest first. *)
Abbreviation log := (list (string * Z)).

Definition times (key : string) (h : log) : list Z := snd <$> filter (λ p, p.1 = key) h.

(** How many requests of [key] the last minute has accepted. *)
Definition in_window (now : Z) (key : string) (h : log) : Z :=
  Z.of_nat (length (filter (λ t, (now - slidingWindow <= t)%Z) (times key h))).

Definition spec_check (now : Z) (key : string) (limit : Z) (h : log) : RateResult * log :=
  if (in_window now key h <? limit)%Z
  then (mkRate true (limit - in_window now key h - 1) (now + slidingWindow), h ++ [(key, now)])
  else (mkRate false 0 (now + slidingWindow), h).

(** ** Refinement *)

Inductive op :=
| OpCheck (now : Z) (key : string) (limit : Z)
| OpCount (now : Z) (key : string)
| OpCleanup (now : Z).

Definition op_time (o : op) : Z :=
  match o with OpCheck now _ _ | OpCount now _ | OpCleanup now => now end.

Inductive output := OutCheck (r : RateResult) | OutCount (n : Z) | OutNone.

Definition exec (o : op) (m : t) : output * t :=
  match o with
  | OpCheck now key limit => let '(r, m') := CheckAndConsume now key limit m in (OutCheck r, m')
  | OpCount now key => let '(n, m') := Count now key m in (OutCount n, m')
  | OpCleanup now => (OutNone, cleanup now m)
  end.

Definition spec_exec (o : op) (h : log) : output * log :=
  match o with
  | OpCheck now key limit => let '(r, h') := spec_check now key limit h in (OutCheck r, h')
  | OpCount now key => (OutCount (in_window now key h), h)
  | OpCleanup now => (OutNone, h)
  end.

(** Outputs of a sequence of calls. *)
Fixpoint exec_all (os : list op) (m : t) : list output :=
  match os with
  | [] => []
  | o :: os' => let '(x, m') := exec o m in x :: exec_all os' m'
  end.

Fixpoint spec_all (os : list op) (h : log) : list output :=
  match os with
  | [] => []
  | o :: os' => let '(x, h') := spec_exec o h in x :: spec_all os' h'
  end.

(** The clock does not run backwards. *)
Definition clock_ok (os : list op) : Prop := StronglySorted Z.le (op_time <$> os).

(** The limiter keeps a suffix of the log of every key; what it dropped is
    older than the window of the latest call. *)
Definition represents (now : Z) (h : log) (m : t) : Prop :=
  ∀ key, StronglySorted Z.le (times key h) ∧ Forall (λ t, (t <= now)%Z) (times key h) ∧
    ∃ old, times key h = old ++ entries_of m key ∧ Forall (λ t, (t < now - slidingWindow)%Z) old.

Lemma trim_sorted es cutoff :
  StronglySorted Z.le es → trim es cutoff = filter (λ t, (cutoff <= t)%Z) es.
Proof.
  induction 1 as [|e es Hs IH Hall]; [done|]. simpl. rewrite filter_cons.
  destruct (Z.ltb_spec e cutoff); [rewrite decide_False by lia; done|].
  rewrite decide_True by lia. f_equal. symmetry. apply filter_all.
  eapply Forall_impl; [exact Hall|]. simpl. lia.
Qed.

Lemma trim_old es cutoff : ∃ old, es = old ++ trim es cutoff ∧ Forall (λ t, (t < cutoff)%Z) old.
Proof.
  induction es as [|e es (old & Heq & Hold)]; [by exists []|]. simpl.
  destruct (Z.ltb_spec e cutoff); [|by exists []].
  exists (e :: old). rewrite <- app_comm_cons, <- Heq. split; [done|]. by constructor.
Qed.

Lemma times_snoc key key' now h :
  times key (h ++ [(key', now)]) = times key h ++ if decide (key' = key) then [now] else [].
Proof.
  unfold times. rewrite filter_app, fmap_app. f_equal.
  rewrite filter_cons, filter_nil. simpl. by case_decide.
Qed.

Lemma StronglySorted_app_r {A} (R : A → A → Prop) l1 l2 :
  StronglySorted R (l1 ++ l2) → StronglySorted R l2.
Proof. induction l1; simpl; [done|]. inversion 1; auto. Qed.

Lemma StronglySorted_snoc_le (l : list Z) x :
  StronglySorted Z.le l → Forall (λ t, (t <= x)%Z) l → StronglySorted Z.le (l ++ [x]).
Proof.
  induction 1 as [|e l Hs IH He]; simpl; [by repeat constructor|].
  inversion_clear 1. constructor; [by apply IH|]. apply Forall_app. by repeat constructor.
Qed.

Section refinement.
Context (now0 now : Z) (h : log) (m : t).
Context (Hrep : represents now0 h m) (Hnow : (now0 <= now)%Z).

(** After trimming at [now] what is stored is the window of the log. *)
Lemma represents_trim key :
  trim (entries_of m key) (now - slidingWindow) =
  filter (λ t, (now - slidingWindow <= t)%Z) (times key h).
Proof using Hrep Hnow.
  destruct (Hrep key) as (Hs & _ & old & Heq & Hold). rewrite Heq in *.
  rewrite trim_sorted by (by eapply StronglySorted_app_r).
  rewrite filter_app, (filter_none _ old), app_nil_l; [done|].
  eapply Forall_impl; [exact Hold|]. simpl. lia.
Qed.

Lemma represents_length key :
  Z.of_nat (length (trim (entries_of m key) (now - slidingWindow))) = in_window now key h.
Proof using Hrep Hnow. unfold in_window. by rewrite represents_trim. Qed.

(** Keeping, for some keys, only the trimmed entries preserves [represents]. *)
Lemma represents_trimmed m' :
  (∀ key, entries_of m' key = entries_of m key ∨
          entries_of m' key = trim (entries_of m key) (now - slidingWindow)) →
  represents now h m'.
Proof using Hrep Hnow.
  intros Hm key. destruct (Hrep key) as (Hs & Hle & old & Heq & Hold).
  split_and!; [done|by eapply Forall_impl; [exact Hle|]; simpl; lia|].
  assert (Forall (λ t, (t < now - slidingWindow)%Z) old) as Hold'.
  { eapply Forall_impl; [exact Hold|]. simpl. lia. }
  destruct (Hm key) as [->| ->]; [by exists old|].
  destruct (trim_old (entries_of m key) (now - slidingWindow)) as (old' & Heq' & Hold2).
  exists (old ++ old'). rewrite <- app_assoc, <- Heq'. split; [done|]. by apply Forall_app.
Qed.
End refinement.

Lemma entries_store m key es key' :
  entries_of (store m key es) key' = if decide (key = key') then es else entries_of m key'.
Proof. unfold entries_of, store. simpl. rewrite lookup_insert. by case_decide. Qed.

Lemma entries_cleanup now m key :
  entries_of (cleanup now m) key = trim (entries_of m key) (now - slidingWindow).
Proof.
  unfold entries_of, cleanup. simpl. rewrite lookup_omap.
  destruct (requests m !! key) as [es|]; simpl; [|done]. by destruct (trim es _).
Qed.

(** Accepting a request appends it to both. *)
Lemma represents_accept now h m key :
  represents now h m →
  represents now (h ++ [(key, now)])
    (store m key (trim (entries_of m key) (now - slidingWindow) ++ [now])).
Proof.
  intros Hrep key'. destruct (Hrep key') as (Hs & Hle & old & Heq & Hold).
  rewrite times_snoc, entries_store. destruct (decide (key = key')) as [<-|Hne].
  2:{ rewrite app_nil_r. eauto. }
  split_and!; [by apply StronglySorted_snoc_le|apply Forall_app; split; [done|by repeat constructor]|].
  destruct (trim_old (entries_of m key) (now - slidingWindow)) as (old' & Heq' & Hold').
  exists (old ++ old'). split; [|by apply Forall_app].
  rewrite Heq, Heq' at 1. by rewrite <- !app_assoc.
Qed.

Lemma exec_simulates now0 h m o :
  represents now0 h m → (now0 <= op_time o)%Z →
  (exec o m).1 = (spec_exec o h).1 ∧
  represents (op_time o) (spec_exec o h).2 (exec o m).2.
Proof.
  intros Hrep Hnow. destruct o as [now key limit|now key|now]; simpl in *.
  - unfold CheckAndConsume, spec_check.
    rewrite (represents_length now0 now h m Hrep Hnow).
    assert (represents now h m) as Hrep' by (eapply represents_trimmed; eauto).
    destruct (Z.leb_spec limit (in_window now key h)), (Z.ltb_spec (in_window now key h) limit); try lia; simpl.
    + split; [done|]. eapply represents_trimmed; [exact Hrep|done|].
      intros key'. rewrite entries_store. case_decide; simplify_eq; auto.
    + split; [|by apply represents_accept]. do 2 f_equal.
      rewrite length_app, Nat2Z.inj_add, (represents_length now0 now h m Hrep Hnow). simpl.
      match goal with |- context [(?a <? 0)%Z] => destruct (Z.ltb_spec a 0) end; lia.
  - rewrite (represents_length now0 now h m Hrep Hnow). split; [done|].
    eapply represents_trimmed; [exact Hrep|done|].
    intros key'. rewrite entries_store. case_decide; simplify_eq; auto.
  - split; [done|]. eapply represents_trimmed; [exact Hrep|done|].
    intros key'. rewrite entries_cleanup. auto.
Qed.

Lemma exec_all_simulates os now0 h m :
  represents now0 h m → clock_ok os → Forall (λ o, (now0 <= op_time o)%Z) os →
  exec_all os m = spec_all os h.
Proof.
  revert now0 h m. induction os as [|o os IH]; intros now0 h m Hrep Hck Hall; [done|].
  inversion_clear Hall as [|?? Ho Hos]. inversion_clear Hck as [|?? Hck' Hle]. simpl.
  destruct (exec_simulates now0 h m o Hrep Ho) as [H1 H2].
  destruct (exec o m) as [x m'], (spec_exec o h) as [x' h']. simpl in *. subst.
  f_equal. apply (IH (op_time o)); [done..|].
  change (Forall (Z.le (op_time o)) (op_time <$> os)) in Hle. by rewrite Forall_fmap in Hle.
Qed.

(** C20: whatever the sequence of checks, counts and cleanups (with a clock
    that does not run backwards), the memory limiter answers exactly as the
    specification that remembers every accepted request and counts those of
    the last 60 seconds: trimming, storing and the cleanup goroutine are not
    observable. *)
Theorem memory_limiter_refines_log rpm os (Hclock : clock_ok os) (Hpos : Forall (λ o, (0 <= op_time o)%Z) os) :
  exec_all os (NewMemoryLimiter rpm) = spec_all os [].
Proof.
  apply (exec_all_simulates os 0); [|done..].
  intros key. split_and!; [constructor|constructor|]. exists []. split; [|constructor].
  unfold entries_of. simpl. by rewrite lookup_empty.
Qed.

(** ** The window is never exceeded *)

(** The requests a call accepted, read off its output. *)
Definition accepted_by (o : op) (x : output) : log :=
  match o, x with
  | OpCheck now key _, OutCheck r => if Allowed r then [(key, now)] else []
  | _, _ => []
  end.

(** The requests accepted by a sequence of calls, and the state after it. *)
Fixpoint accepted (os : list op) (m : t) : log :=
  match os with
  | [] => []
  | o :: os' => let '(x, m') := exec o m in accepted_by o x ++ accepted os' m'
  end.

Fixpoint exec_state (os : list op) (m : t) : t :=
  match os with [] => m | o :: os' => exec_state os' (exec o m).2 end.

Lemma spec_exec_accepted o h : (spec_exec o h).2 = h ++ accepted_by o (spec_exec o h).1.
Proof.
  destruct o as [now key limit|now key|now]; simpl; [|by rewrite app_nil_r..].
  unfold spec_check. destruct (_ <? _)%Z; simpl; [done|by rewrite app_nil_r].
Qed.

Lemma represents_accepted os now0 now h m :
  represents now0 h m → clock_ok os → Forall (λ o, (now0 <= op_time o <= now)%Z) os →
  (now0 <= now)%Z → represents now (h ++ accepted os m) (exec_state os m).
Proof.
  revert now0 h m. induction os as [|o os IH]; intros now0 h m Hrep Hck Hall Hle; simpl.
  { rewrite app_nil_r. eapply represents_trimmed; eauto. }
  inversion_clear Hall as [|?? Ho Hos]. inversion_clear Hck as [|?? Hck' Hord].
  destruct (exec_simulates now0 h m o Hrep ltac:(lia)) as [H1 H2].
  rewrite spec_exec_accepted, <- H1 in H2.
  destruct (exec o m) as [x m']. simpl in *. rewrite app_assoc.
  apply (IH (op_time o)); [done..| |lia].
  change (Forall (Z.le (op_time o)) (op_time <$> os)) in Hord. rewrite Forall_fmap in Hord.
  rewrite Forall_forall in *. intros o' Ho'. specialize (Hord o' Ho'). specialize (Hos o' Ho').
  simpl in *. lia.
Qed.

Lemma represents_new rpm : represents 0 [] (NewMemoryLimiter rpm).
Proof.
  intros key. split_and!; [constructor|constructor|]. exists []. split; [|constructor].
  unfold entries_of. simpl. by rewrite lookup_empty.
Qed.

(** After any history [os] of calls, a check that accepts a request at
    time [now] under limit [L] leaves at most [L] requests of that key
    accepted in the 60 seconds up to [now] (this one included) and reports
    the rest of the quota; a check that refuses finds at least [L] of them. *)
Theorem memory_limiter_window_bound rpm os now key limit
  (Hclock : clock_ok os) (Hpos : Forall (λ o, (0 <= op_time o <= now)%Z) os) (Hnow : (0 <= now)%Z) :
  let m := exec_state os (NewMemoryLimiter rpm) in
  let h := accepted os (NewMemoryLimiter rpm) in
  let r := (CheckAndConsume now key limit m).1 in
  if Allowed r
  then (in_window now key (h ++ [(key, now)]) <= limit)%Z ∧
       Remaining r = (limit - in_window now key (h ++ [(key, now)]))%Z
  else (limit <= in_window now key h)%Z.
Proof.
  intros m h r.
  pose proof (represents_accepted os 0 now [] _ (represents_new rpm) Hclock Hpos Hnow) as Hrep.
  rewrite app_nil_l in Hrep. fold m h in Hrep.
  destruct (exec_simulates now h m (OpCheck now key limit) Hrep ltac:(simpl; lia)) as [Heq _].
  assert (in_window now key (h ++ [(key, now)]) = in_window now key h + 1)%Z as Hsnoc.
  { unfold in_window. rewrite times_snoc, decide_True by done.
    rewrite filter_app, length_app, filter_cons_True by (unfold slidingWindow, second; lia). simpl. lia. }
  simpl in Heq. unfold r. destruct (CheckAndConsume now key limit m) as [r0 m'].
  unfold spec_check in Heq. destruct (Z.ltb_spec (in_window now key h) limit); simplify_eq/=; lia.
Qed.

Lemma memory_limiter_window_bound_witness :
  (2 <= in_window 5 "k" [("k", 1%Z); ("k", 2%Z)])%Z.
Proof.
  apply (memory_limiter_window_bound 9 [OpCheck 1 "k" 2; OpCheck 2 "k" 2] 5 "k" 2).
  - unfold clock_ok. simpl. repeat constructor; simpl; lia.
  - repeat constructor; simpl; lia.
  - lia.
Defined.

Lemma memory_limiter_refines_log_witness :
  let os := [OpCheck 1 "k" 1; OpCheck 2 "k" 1; OpCleanup (61 * second); OpCheck (62 * second) "k" 1] in
  exec_all os (NewMemoryLimiter 5) = spec_all os [].
Proof.
  apply (memory_limiter_refines_log 5).
  - unfold clock_ok. simpl. repeat constructor; simpl; unfold second; lia.
  - repeat constructor; simpl; unfold second; lia.
Defined.

Example memory_limiter_blocks_then_recovers :
  (λ o, match o with OutCheck r => Allowed r | _ => false end) <$>
    exec_all [OpCheck 1 "k" 1; OpCheck 2 "k" 1; OpCheck (62 * second) "k" 1] (NewMemoryLimiter 5)
  = [true; false; true].
Proof. reflexivity. Qed.

End MemoryLimiter.

Module RedisLimiter.

(** ** The sorted set of one key

    A member is a fresh UUID, so a set entry is represented by its score (the
    request time in milliseconds); entries are kept in increasing score order,
    which is Redis' rank order.  [expireAt] is the deadline of [PEXPIRE] on
    the server clock. *)
Record zset := mkZ { scores : list Z; expireAt : Z }.

(** What the server sees at server time [srv]: an expired key is gone. *)
Definition live (srv : Z) (z : option zset) : list Z :=
  match z with
  | Some z => if (srv <? expireAt z)%Z then scores z else []
  | None => []
  end.

(** [ZREMRANGEBYSCORE key -inf hi]. *)
Definition zremrangebyscore (hi : Z) (l : list Z) : list Z := filter (λ s, (hi < s)%Z) l.

(** [ZADD key score member] with a new member. *)
Fixpoint zadd (score : Z) (l : list Z) : list Z :=
  match l with
  | s :: l' => if (s <=? score)%Z then s :: zadd score l' else score :: l
  | [] => [score]
  end.

(** [ZREMRANGEBYRANK key 0 (-max-1)]: only the [max] highest ranks remain. *)
Definition zkeep (max : nat) (l : list Z) : list Z := drop (length l - max) l.

Definition window_ms : Z := slidingWindow `div` millisecond.

(** [slidingWindowScript]: the pair it returns and the new value of the key. *)
Definition slidingWindowScript (srv now_ms limit : Z) (z : option zset) : (Z * Z) * option zset :=
  let l := zremrangebyscore (now_ms - window_ms) (live srv z) in
  let deadline := match z with Some z => expireAt z | None => 0%Z end in
  let current := Z.of_nat (length l) in
  if (limit <=? current)%Z then
    ((0, current)%Z, match l with [] => None | _ => Some (mkZ l deadline) end)
  else
    ((1, current + 1)%Z,
     Some (mkZ (zkeep (Z.to_nat maxEntriesPerKey) (zadd now_ms l)) (srv + window_ms))).

(** [countScript]. *)
Definition countScript (srv now_ms : Z) (z : option zset) : Z * option zset :=
  let l := zremrangebyscore (now_ms - window_ms) (live srv z) in
  let deadline := match z with Some z => expireAt z | None => 0%Z end in
  (Z.of_nat (length l), match l with [] => None | _ => Some (mkZ l deadline) end).

(** ** The limiter: [type RedisLimiter] with the server's database *)

Section limiter.
Context {F : Type} `{Limiter F}.

Record t := mk {
  client : option (gmap string zset); (* nil client, or the server behind it *)
  requestsPerMin : Z;
  fallback : F;
}.

(** Whether the server answered within the 50 ms timeout, and its clock. *)
Record reply := mkReply { reply_ok : bool; srv_ms : Z }.

Definition CheckAndConsume (rep : reply) (now : Z) (key : string) (limit : Z) (r : t)
  : RateResult * t :=
  let use_fallback :=
    let '(res, f') := RateLimit.CheckAndConsume now key limit (fallback r) in
    (res, mk (client r) (requestsPerMin r) f') in
  match client r with
  | None => use_fallback
  | Some db =>
      if reply_ok rep then
        let windowKey := "ratelimit:" +:+ key in
        let '((ok, count), z) :=
          slidingWindowScript (srv_ms rep) (now `div` millisecond) limit (db !! windowKey) in
        let remaining := (limit - count)%Z in
        let remaining := if (remaining <? 0)%Z then 0%Z else remaining in
        (mkRate (Z.eqb ok 1) remaining (now + slidingWindow),
         mk (Some (partial_alter (λ _, z) windowKey db)) (requestsPerMin r) (fallback r))
      else use_fallback
  end.

Definition Count (rep : reply) (now : Z) (key : string) (r : t) : Z * t :=
  let use_fallback :=
    let '(n, f') := RateLimit.Count now key (fallback r) in
    (n, mk (client r) (requestsPerMin r) f') in
  match client r with
  | None => use_fallback
  | Some db =>
      if reply_ok rep then
        let windowKey := "ratelimit:" +:+ key in
        let '(n, z) := countScript (srv_ms rep) (now `div` millisecond) (db !! windowKey) in
        (n, mk (Some (partial_alter (λ _, z) windowKey db)) (requestsPerMin r) (fallback r))
      else use_fallback
  end.
End limiter.
Arguments t : clear implicits.

(** ** The hard cap *)

Lemma length_zadd x l : length (zadd x l) = S (length l).
Proof. induction l as [|s l IH]; [done|]. simpl. case_match; simpl; [by rewrite IH|done]. Qed.

Lemma length_zkeep max l : length (zkeep max l) = Nat.min max (length l).
Proof. unfold zkeep. rewrite length_drop. lia. Qed.

(** No stored set is longer than the cap. *)
Definition capped (z : option zset) : Prop :=
  match z with Some z => (Z.of_nat (length (scores z)) <= maxEntriesPerKey)%Z | None => True end.

Definition db_capped (db : gmap string zset) : Prop := ∀ k, capped (db !! k).

Lemma live_capped srv z : capped z → (Z.of_nat (length (live srv z)) <= maxEntriesPerKey)%Z.
Proof.
  unfold live, capped, maxEntriesPerKey. destruct z as [z|]; simpl; [|lia].
  case_match; simpl; lia.
Qed.

Lemma remaining_capped srv z hi :
  capped z → (Z.of_nat (length (zremrangebyscore hi (live srv z))) <= maxEntriesPerKey)%Z.
Proof.
  intros Hz%(live_capped srv). unfold zremrangebyscore.
  pose proof (length_filter (λ s, (hi < s)%Z) (live srv z)). lia.
Qed.

Lemma script_capped srv now_ms limit z :
  capped z → capped (slidingWindowScript srv now_ms limit z).2.
Proof.
  intros Hz. pose proof (remaining_capped srv z (now_ms - window_ms) Hz).
  unfold slidingWindowScript. case_match; simpl.
  - by destruct (zremrangebyscore _ _).
  - rewrite length_zkeep. unfold maxEntriesPerKey. lia.
Qed.

Section caps.
Context {F : Type} `{Limiter F}.

(** With a limit above the 10000-entry cap of the sorted set the
    Redis limiter refuses nothing, ever: each call finds at most 10000
    entries, and every call leaves the database in that state again. *)
Theorem redis_limit_above_cap_never_refuses rep now key limit (r : t F) db
  (Hclient : client r = Some db) (Hok : reply_ok rep = true)
  (Hdb : db_capped db) (Hlimit : (maxEntriesPerKey < limit)%Z) :
  Allowed (CheckAndConsume rep now key limit r).1 = true ∧
  ∃ db', client (CheckAndConsume rep now key limit r).2 = Some db' ∧ db_capped db'.
Proof.
  unfold CheckAndConsume. rewrite Hclient, Hok.
  set (z := db !! _).
  pose proof (script_capped (srv_ms rep) (now `div` millisecond) limit z (Hdb _)) as Hcap.
  pose proof (remaining_capped (srv_ms rep) z (now `div` millisecond - window_ms) (Hdb _)) as Hrem.
  unfold slidingWindowScript in *.
  match goal with |- context [(limit <=? ?a)%Z] => destruct (Z.leb_spec limit a); [lia|] end.
  simpl in *. split; [done|]. eexists. split; [done|]. intros k.
  rewrite lookup_partial_alter. case_decide; [done|apply Hdb].
Qed.

(** With a limit within the cap the Redis limiter admits a request
    exactly when fewer than [limit] live entries lie inside the window,
    records it without losing any of them, and otherwise records nothing. *)
Theorem redis_window_decision srv now_ms limit z
  (Hcap : capped z) (Hlimit : (limit <= maxEntriesPerKey)%Z) :
  let l := zremrangebyscore (now_ms - window_ms) (live srv z) in
  match slidingWindowScript srv now_ms limit z with
  | ((ok, count), z') =>
      (ok = 1%Z ↔ (Z.of_nat (length l) < limit)%Z) ∧
      (ok = 1%Z → count = Z.of_nat (S (length l)) ∧
                  z' = Some (mkZ (zadd now_ms l) (srv + window_ms)) ∧
                  (Z.of_nat (length (zadd now_ms l)) <= limit)%Z) ∧
      (ok ≠ 1%Z → count = Z.of_nat (length l) ∧ from_option scores [] z' = l)
  end.
Proof.
  intros l. pose proof (remaining_capped srv z (now_ms - window_ms) Hcap) as Hrem.
  unfold slidingWindowScript. fold l in Hrem |- *.
  destruct (Z.leb_spec limit (Z.of_nat (length l))).
  - split_and!; [lia|done|]. intros _. split; [done|]. by destruct l.
  - assert (zkeep (Z.to_nat maxEntriesPerKey) (zadd now_ms l) = zadd now_ms l) as ->.
    { unfold zkeep. rewrite length_zadd.
      assert (S (length l) <= Z.to_nat maxEntriesPerKey) as Hle by lia.
      apply Nat.sub_0_le in Hle as ->. done. }
    split_and!; [lia| |done]. intros _. rewrite length_zadd. split_and!; [lia|done|lia].
Qed.

(** Without a Redis client, or when the script call fails, the call
    is answered by the fallback limiter and Redis is left alone. *)
Theorem redis_failure_uses_fallback rep now key limit (r : t F)
  (Hfail : client r = None ∨ reply_ok rep = false) :
  (CheckAndConsume rep now key limit r).1 = (RateLimit.CheckAndConsume now key limit (fallback r)).1 ∧
  client (CheckAndConsume rep now key limit r).2 = client r ∧
  fallback (CheckAndConsume rep now key limit r).2 =
    (RateLimit.CheckAndConsume now key limit (fallback r)).2.
Proof.
  unfold CheckAndConsume. destruct (RateLimit.CheckAndConsume _ _ _ _) as [res f'].
  destruct Hfail as [->| ->]; [done|]. by destruct (client r).
Qed.
End caps.

Definition sample : t MemoryLimiter.t := mk (Some ∅) 60 (MemoryLimiter.NewMemoryLimiter 60).

Lemma redis_limit_above_cap_never_refuses_witness :
  Allowed (CheckAndConsume (mkReply true 5) 0 "k" 20000 sample).1 = true ∧
  ∃ db', client (CheckAndConsume (mkReply true 5) 0 "k" 20000 sample).2 = Some db' ∧ db_capped db'.
Proof.
  apply (redis_limit_above_cap_never_refuses (mkReply true 5) 0 "k" 20000 sample ∅);
    [reflexivity|reflexivity| |reflexivity].
  intros k. by rewrite lookup_empty.
Defined.

Lemma redis_window_decision_witness :
  (1 = 1)%Z ↔ (Z.of_nat (length (zremrangebyscore (0 - window_ms) (live 0 None))) < 1)%Z.
Proof.
  apply (redis_window_decision 0 0 1 None); [done|]. unfold maxEntriesPerKey. lia.
Defined.

Lemma redis_failure_uses_fallback_witness :
  (CheckAndConsume (mkReply false 0) 0 "k" 1 sample).1 =
  (RateLimit.CheckAndConsume 0 "k" 1 (fallback sample)).1.
Proof. apply (redis_failure_uses_fallback (mkReply false 0) 0 "k" 1 sample). by right. Defined.

End RedisLimiter.
