(* ===== verification/GoNet.v ===== *)
(** * Go's [net] package: host/port pairs, IP addresses and CIDR blocks

    Executable models of [net.SplitHostPort], [net.ParseIP],
    [net.ParseCIDR], [IP.To4] and [IPNet.Contains], as the gateway's IP filter
    and host matching use them.  An address is its list of bytes, each a [Z]
    in [0, 255]. *)

From S2P Require Import Prelude GoStrings.
From Stdlib Require Import Ascii.

Module GoNet.

(** ** [net.SplitHostPort] *)

(** Offset of the first [c] of [s]. *)
Fixpoint index_byte (c : ascii) (s : string) : option nat :=
  match s with
  | EmptyString => None
  | String a s' => if Ascii.eqb a c then Some 0 else S <$> index_byte c s'
  end.

(** Offset of the last [c] of [s]. *)
Fixpoint last_index_byte (c : ascii) (s : string) : option nat :=
  match s with
  | EmptyString => None
  | String a s' =>
      match last_index_byte c s' with
      | Some i => Some (S i)
      | None => if Ascii.eqb a c then Some 0 else None
      end
  end.

Inductive addr_error := MissingPort | TooManyColons | MissingBracket | UnexpectedBracket.

Definition SplitHostPort (hostport : string) : result addr_error (string * string) :=
  match last_index_byte ":" hostport with
  | None => Err MissingPort
  | Some i =>
      let finish (host : string) (j k : nat) :=
        if contains_byte "[" (sdrop j hostport) then Err UnexpectedBracket
        else if contains_byte "]" (sdrop k hostport) then Err UnexpectedBracket
        else Ok (host, sdrop (S i) hostport) in
      if HasPrefix hostport "[" then
        match index_byte "]" hostport with
        | None => Err MissingBracket
        | Some e =>
            if (S e =? len hostport)%nat then Err MissingPort
            else if (S e =? i)%nat then finish (stake (e - 1) (sdrop 1 hostport)) 1 (S e)
            else if HasPrefix (sdrop (S e) hostport) ":" then Err TooManyColons
            else Err MissingPort
        end
      else
        let host := stake i hostport in
        if contains_byte ":" host then Err TooManyColons
        else finish host 0 0
  end.

(** ** Numbers *)

Definition dec_digit (c : ascii) : option Z :=
  if is_digit c then Some (Z.of_nat (code c) - 48)%Z else None.

Definition hex_digit (c : ascii) : option Z :=
  if is_digit c then Some (Z.of_nat (code c) - 48)%Z
  else if (97 <=? code c)%nat && (code c <=? 102)%nat then Some (Z.of_nat (code c) - 87)%Z
  else if (65 <=? code c)%nat && (code c <=? 70)%nat then Some (Z.of_nat (code c) - 55)%Z
  else None.

(** Value of a string of decimal digits. *)
Fixpoint dec_value (acc : Z) (s : string) : option Z :=
  match s with
  | EmptyString => Some acc
  | String c s' => match dec_digit c with Some d => dec_value (acc * 10 + d) s' | None => None end
  end.

(** ** [net.ParseIP] *)

(** One field of a dotted quad: digits, no leading zero, at most 255. *)
Definition parse_octet (s : string) : option Z :=
  match s with
  | EmptyString => None
  | String c s' =>
      if Ascii.eqb c "0" && negb (String.eqb s' "") then None
      else match dec_value 0 s with
           | Some v => if (v <=? 255)%Z then Some v else None
           | None => None
           end
  end.

Definition parse_ipv4_fields (s : string) : option (list Z) :=
  match mapM parse_octet (Split "." s) with
  | Some [a; b; c; d] => Some [a; b; c; d]
  | _ => None
  end.

(** The leading hexadecimal digits of [s]: their count, their value and the
    rest; [None] when there are more than four. *)
Fixpoint hex_group (off : nat) (acc : Z) (s : string) : option (nat * Z * string) :=
  match s with
  | String c s' =>
      match hex_digit c with
      | Some d => if (3 <? off)%nat then None else hex_group (S off) (acc * 16 + d) s'
      | None => Some (off, acc, s)
      end
  | EmptyString => Some (off, acc, s)
  end.

(** The group loop of [netip.parseIPv6]: [out] are the bytes so far, [ell] the
    position of the ellipsis.  Each round adds two bytes, so eight rounds are
    the loop bound [i < 16]. *)
Fixpoint ipv6_groups (fuel : nat) (out : list Z) (ell : option nat) (s : string)
  : option (list Z * option nat * string) :=
  match fuel with
  | 0 => Some (out, ell, s)
  | S fuel' =>
      match hex_group 0 0 s with
      | None => None
      | Some (0, _, _) => None
      | Some (_, acc, rest) =>
          if HasPrefix rest "." then
            if (match ell with None => negb (length out =? 12)%nat | Some _ => false end) then None
            else if (16 <? length out + 4)%nat then None
            else match parse_ipv4_fields s with
                 | Some q => Some (out ++ q, ell, "")
                 | None => None
                 end
          else
            let out := out ++ [acc `div` 256; acc `mod` 256]%Z in
            match rest with
            | EmptyString => Some (out, ell, "")
            | String c rest' =>
                if negb (Ascii.eqb c ":") then None
                else match rest' with
                     | EmptyString => None
                     | String c' rest'' =>
                         if Ascii.eqb c' ":" then
                           match ell with
                           | Some _ => None
                           | None =>
                               match rest'' with
                               | EmptyString => Some (out, Some (length out), "")
                               | _ => ipv6_groups fuel' out (Some (length out)) rest''
                               end
                           end
                         else ipv6_groups fuel' out ell rest'
                     end
            end
      end
  end.

Definition parse_ipv6 (s : string) : option (list Z) :=
  let '(ell, s1) := if HasPrefix s "::" then (Some 0, sdrop 2 s) else (None, s) in
  if HasPrefix s "::" && String.eqb s1 "" then Some (replicate 16 0%Z)
  else match ipv6_groups 8 [] ell s1 with
       | Some (out, ell, EmptyString) =>
           if (length out <? 16)%nat then
             match ell with
             | None => None
             | Some e => Some (take e out ++ replicate (16 - length out) 0%Z ++ drop e out)
             end
           else match ell with Some _ => None | None => Some out end
       | _ => None
       end.

Definition v4InV6Prefix : list Z := replicate 10 0%Z ++ [255; 255]%Z.

(** The two families of [netip.Addr] without a zone. *)
Inductive addr := Addr4 (b : list Z) | Addr6 (b : list Z).

(** [netip.ParseAddr] for addresses without a zone: the first of [.], [:] and
    [%] decides the family. *)
Fixpoint parse_addr_scan (s : string) (whole : string) : option addr :=
  match s with
  | EmptyString => None
  | String c s' =>
      if Ascii.eqb c "." then Addr4 <$> parse_ipv4_fields whole
      else if Ascii.eqb c ":" then
        if contains_byte "%" whole then None else Addr6 <$> parse_ipv6 whole
      else if Ascii.eqb c "%" then None
      else parse_addr_scan s' whole
  end.
Definition ParseAddr (s : string) : option addr := parse_addr_scan s s.

Definition As16 (a : addr) : list Z :=
  match a with Addr4 b => v4InV6Prefix ++ b | Addr6 b => b end.
Definition BitLen (a : addr) : nat := match a with Addr4 _ => 32 | Addr6 _ => 128 end.

(** [net.ParseIP]: the 16-byte form. *)
Definition ParseIP (s : string) : option (list Z) := As16 <$> ParseAddr s.

(** [IP.To4]. *)
Definition To4 (ip : list Z) : option (list Z) :=
  if (length ip =? 4)%nat then Some ip
  else if (length ip =? 16)%nat && bool_decide (take 12 ip = v4InV6Prefix) then Some (drop 12 ip)
  else None.

(** [IP.String] is used by the sources as a map key only; two addresses print
    alike exactly when their 16-byte forms agree, so that form stands for the
    printed key. *)
Definition ip_key (ip : list Z) : list Z :=
  if (length ip =? 4)%nat then v4InV6Prefix ++ ip else ip.

(** ** CIDR blocks *)

Record IPNet := mkNet { IP : list Z; Mask : list Z }.

(** One byte of [net.CIDRMask]. *)
Definition mask_byte (n : nat) : Z := (256 - 2 ^ (8 - Z.of_nat (Nat.min n 8)))%Z.

Definition CIDRMask (ones bits : nat) : list Z :=
  (λ i, mask_byte (ones - 8 * i)) <$> seq 0 (bits / 8).

Definition mask_ip (ip mask : list Z) : list Z := zip_with Z.land ip mask.

(** [IP.Mask]: a 4-byte mask applies to the last four bytes of a mapped
    address. *)
Definition ip_Mask (ip mask : list Z) : list Z :=
  if (length mask =? 4)%nat && (length ip =? 16)%nat && bool_decide (take 12 ip = v4InV6Prefix)
  then mask_ip (drop 12 ip) mask
  else mask_ip ip mask.

(** [net.ParseCIDR]; [dtoi] accepts leading zeros and stops at [0xFFFFFF]. *)
Definition ParseCIDR (s : string) : option IPNet :=
  match index_byte "/" s with
  | None => None
  | Some i =>
      match ParseAddr (stake i s), sdrop (S i) s with
      | Some a, String _ _ as m =>
          match dec_value 0 m with
          | Some n =>
              if (n <=? Z.of_nat (BitLen a))%Z then
                let mask := CIDRMask (Z.to_nat n) (BitLen a) in
                Some (mkNet (ip_Mask (As16 a) mask) mask)
              else None
          | None => None
          end
      | _, _ => None
      end
  end.

(** [IPNet.Contains]. *)
Definition Contains (n : IPNet) (ip : list Z) : bool :=
  let nn := default (IP n) (To4 (IP n)) in
  let m := if (length (Mask n) =? 16)%nat && (length nn =? 4)%nat then drop 12 (Mask n) else Mask n in
  let ip := default ip (To4 ip) in
  (length ip =? length nn)%nat && (length m =? length nn)%nat &&
  bool_decide (mask_ip nn m = mask_ip ip m).

Arguments index_byte c%_char_scope s.
Arguments last_index_byte c%_char_scope s.

(** ** Splitting a host from its port *)

Lemma last_index_byte_None c s : contains_byte c s = false → last_index_byte c s = None.
Proof.
  induction s as [|a s IH]; [done|]. simpl. intros [Ha Hs]%orb_false_iff. by rewrite IH, Ha.
Qed.

Lemma last_index_byte_app c x y :
  contains_byte c y = false → last_index_byte c (x +:+ String c y) = Some (len x).
Proof.
  intros Hy. induction x as [|a x IH]; simpl.
  - by rewrite last_index_byte_None, Ascii.eqb_refl.
  - by rewrite IH.
Qed.

Lemma contains_byte_prefix c s : contains_byte c s = false → HasPrefix s (String c "") = false.
Proof.
  destruct s as [|a s]; [done|]. simpl. rewrite Ascii.eqb_sym. by intros [-> _]%orb_false_iff.
Qed.

(** A host without colons and brackets, with or without a port. *)
Lemma SplitHostPort_no_port h : contains_byte ":" h = false → SplitHostPort h = Err MissingPort.
Proof. intros H. unfold SplitHostPort. by rewrite last_index_byte_None. Qed.

Lemma SplitHostPort_host_port h port :
  contains_byte ":" h = false → contains_byte ":" port = false →
  contains_byte "[" (h +:+ String ":" port) = false →
  contains_byte "]" (h +:+ String ":" port) = false →
  SplitHostPort (h +:+ String ":" port) = Ok (h, port).
Proof.
  intros Hh Hp Hb1 Hb2. unfold SplitHostPort. rewrite last_index_byte_app by done.
  rewrite contains_byte_prefix, stake_app, Hh by done. cbv zeta.
  change (sdrop 0 ?s) with s. rewrite Hb1, Hb2.
  replace (S (len h)) with (len h + 1) by lia. by rewrite sdrop_app_plus.
Qed.

Example parse_v4 : ParseIP "192.168.1.10" = Some (v4InV6Prefix ++ [192; 168; 1; 10])%Z.
Proof. reflexivity. Qed.
Example parse_v6 : ParseIP "2001:db8::ff00:42" =
  Some ([32; 1; 13; 184] ++ replicate 8 0 ++ [255; 0; 0; 66])%Z.
Proof. reflexivity. Qed.
Example parse_mapped : ParseIP "::ffff:10.0.0.1" = ParseIP "10.0.0.1".
Proof. reflexivity. Qed.
Example parse_leading_zero : ParseIP "10.0.0.01" = None.
Proof. reflexivity. Qed.
Example cidr_contains :
  (λ n, Contains n <$> ParseIP "10.1.2.3") <$> ParseCIDR "10.1.0.0/16" = Some (Some true).
Proof. reflexivity. Qed.
Example cidr_not_contains :
  (λ n, Contains n <$> ParseIP "10.2.2.3") <$> ParseCIDR "10.1.0.0/16" = Some (Some false).
Proof. reflexivity. Qed.
Example split_v6 : SplitHostPort "[::1]:80" = Ok ("::1", "80").
Proof. reflexivity. Qed.

End GoNet.
