(* ===== verification/Http.v ===== *)
(** * Go's [net/http]: requests, response writers, handlers and middleware

    The part of [net/http] the gateway's request path uses, the request context
    with the keys of [src/internal/shared], and [middleware.Chain].  A handler
    is a function on the state of the process, the response writer and the
    request, so that every middleware is an ordinary function on handlers. *)

From Stdlib Require Import Ascii.
From S2P Require Import Prelude GoStrings Model.

Module Http.

(** ** Headers

    [http.Header] is a map from canonical names to value lists.  Names differ
    only in case from their canonical form, so the lower-cased name is the
    key. *)

Abbreviation header := (gmap string (list string)) (only parsing).

Definition Get (h : header) (k : string) : string :=
  default "" (head (default [] (h !! ToLower k))).
Definition Set_ (h : header) (k v : string) : header := <[ToLower k := [v]]> h.
Definition Add (h : header) (k v : string) : header :=
  <[ToLower k := default [] (h !! ToLower k) ++ [v]]> h.
Definition Del (h : header) (k : string) : header := delete (ToLower k) h.

Lemma Get_Set_eq h k v : Get (Set_ h k v) k = v.
Proof. unfold Get, Set_. by rewrite lookup_insert_eq. Qed.

Lemma Get_Set_ne h k k' v : ToLower k ≠ ToLower k' → Get (Set_ h k v) k' = Get h k'.
Proof. intros. unfold Get, Set_. by rewrite lookup_insert_ne. Qed.

Lemma Get_Del_eq h k : Get (Del h k) k = "".
Proof. unfold Get, Del. by rewrite lookup_delete_eq. Qed.

Lemma Get_Del_ne h k k' : ToLower k ≠ ToLower k' → Get (Del h k) k' = Get h k'.
Proof. intros. unfold Get, Del. by rewrite lookup_delete_ne. Qed.

(** ** Request context

    The typed keys of [shared/context_keys.go] that the gateway stores; a
    missing key is [None]. *)

Record DomainContext := mkDomainContext {
  Hostname : string; Status : string; RoutingStatus : string }.

Record context := mkContext {
  CtxRoute : option Route.t;
  CtxCustomDomain : option DomainContext;
  CtxClientID : option string;
  CtxRole : option string;
  CtxScopes : option (list string);
}.

Definition background : context := mkContext None None None None None.

Record request := mkRequest {
  Method : string;
  Path : string;
  Host : string;
  RemoteAddr : string;
  Header : header;
  ctx : context;
}.

Definition WithContext (r : request) (c : context) : request :=
  mkRequest (Method r) (Path r) (Host r) (RemoteAddr r) (Header r) c.

Definition with_route (c : context) (rt : Route.t) : context :=
  mkContext (Some rt) (CtxCustomDomain c) (CtxClientID c) (CtxRole c) (CtxScopes c).
Definition with_domain (c : context) (d : DomainContext) : context :=
  mkContext (CtxRoute c) (Some d) (CtxClientID c) (CtxRole c) (CtxScopes c).
Definition with_identity (c : context) (clientID role : string) (scopes : list string) : context :=
  mkContext (CtxRoute c) (CtxCustomDomain c) (Some clientID) (Some role) (Some scopes).

(** ** Response writers

    The header map is mutable until [WriteHeader] sends it; the first
    [WriteHeader] decides the status and later ones change nothing; [Write]
    before any [WriteHeader] sends status 200. *)

Inductive jval := JStr (s : string) | JNum (n : Z).

(** A piece of a body: literal bytes, or the encoding of a flat JSON object. *)
Inductive chunk := Raw (s : string) | JSON (fields : list (string * jval)).

Record writer := mkWriter {
  WHeader : header;
  Sent : option (Z * header);
  Body : list chunk;
}.

Definition new_writer : writer := mkWriter ∅ None [].

Definition set_header (w : writer) (k v : string) : writer :=
  mkWriter (Set_ (WHeader w) k v) (Sent w) (Body w).
Definition add_header (w : writer) (k v : string) : writer :=
  mkWriter (Add (WHeader w) k v) (Sent w) (Body w).
Definition WriteHeader (w : writer) (code : Z) : writer :=
  mkWriter (WHeader w) (Some (default (code, WHeader w) (Sent w))) (Body w).
Definition Write (w : writer) (c : chunk) : writer :=
  let w := WriteHeader w 200 in mkWriter (WHeader w) (Sent w) (Body w ++ [c]).

(** The status the client sees. *)
Definition status (w : writer) : Z := match Sent w with Some (c, _) => c | None => 200 end.

(** [http.Error]. *)
Definition Error (w : writer) (msg : string) (code : Z) : writer :=
  let w := mkWriter (Del (WHeader w) "Content-Length") (Sent w) (Body w) in
  let w := set_header w "Content-Type" "text/plain; charset=utf-8" in
  let w := set_header w "X-Content-Type-Options" "nosniff" in
  Write (WriteHeader w code) (Raw msg).

(** JSON literals the code writes as text. *)
Definition quoted (s : string) : string :=
  let dq := String (ascii_of_nat 34) "" in dq +:+ s +:+ dq.
Definition json_text (fields : list (string * string)) : string :=
  "{" +:+ Join ((λ '(k, v), quoted k +:+ ":" +:+ quoted v) <$> fields) "," +:+ "}".

(** [middleware.httpJSON]. *)
Definition httpJSON (w : writer) (code : Z) (payload : list (string * jval)) : writer :=
  Write (WriteHeader (set_header w "Content-Type" "application/json") code) (JSON payload).

Definition error_json (msg : string) : list (string * jval) := [("error", JStr msg)].

Lemma status_httpJSON w code p : Sent w = None → status (httpJSON w code p) = code.
Proof. intros H. unfold status, httpJSON, Write, WriteHeader. simpl. by rewrite H. Qed.

Lemma status_Error w msg code : Sent w = None → status (Error w msg code) = code.
Proof. intros H. unfold status, Error, Write, WriteHeader. simpl. by rewrite H. Qed.

(** ** Handlers and middleware *)

Section handlers.
Context (S : Type).

Definition handler : Type := S → writer → request → S * writer.
Definition middleware : Type := handler → handler.

(** [middleware.Chain]: the loop from the last middleware to the first. *)
Definition Chain (h : handler) (ms : list middleware) : handler :=
  foldl (λ h m, m h) h (reverse ms).
End handlers.

Arguments Chain {S} h ms.

(** The first middleware of the list is the outermost one. *)
Lemma Chain_cons {S} (h : handler S) m ms : Chain h (m :: ms) = m (Chain h ms).
Proof. unfold Chain. by rewrite reverse_cons, foldl_app. Qed.

Lemma Chain_nil {S} (h : handler S) : Chain h [] = h.
Proof. reflexivity. Qed.

End Http.

(** ** State of a component inside the state of the process

    A middleware owns a part of the process state; [Part S C] is the access to
    it, so that the middleware's theorems hold in every process that contains
    the component. *)

Class Part (S C : Type) := { part_get : S → C; part_put : C → S → S }.

Class PartLaws (S C : Type) `{!Part S C} := {
  part_get_put : ∀ c s, part_get (part_put c s) = c;
  part_put_get : ∀ s, part_put (part_get s) s = s;
  part_put_put : ∀ c c' s, part_put c (part_put c' s) = part_put c s;
}.

#[global] Instance part_id {C} : Part C C := {| part_get := λ c, c; part_put := λ c _, c |}.
#[global] Instance part_id_laws {C} : PartLaws C C.
Proof. by split. Qed.
