(* ===== verification/IPFilter.v ===== *)
(** * IP filtering

    [src/internal/ipfilter/ip_filter.go] (client address extraction, rule
    parsing, membership) and [src/internal/gateway/middleware/ip_filter.go]
    (the content-keyed checker cache and the middleware).  [net] is the model of
    [GoNet]. *)

From Stdlib Require Import Ascii.
From stdpp Require Import sorting.
From S2P Require Import Prelude GoStrings Model GoNet Http.

Module IPFilter.
Import Http.

(** ** [ipfilter] *)

(** The loop over the parts of X-Forwarded-For, last part first. *)
Fixpoint last_valid_ip (parts : list string) : option string :=
  match parts with
  | [] => None
  | p :: rest =>
      let ip := TrimSpace p in
      match GoNet.ParseIP ip with Some _ => Some ip | None => last_valid_ip rest end
  end.

Definition remote_ip (remoteAddr : string) : string :=
  match GoNet.SplitHostPort remoteAddr with
  | Ok (ip, _) => ip
  | Err _ => TrimSpace remoteAddr
  end.

Definition ExtractIP (remoteAddr : string) (getHeader : option (string → string))
    (trustProxy : bool) : string :=
  match (if trustProxy then getHeader else None) with
  | None => remote_ip remoteAddr
  | Some get =>
      let xff := get "X-Forwarded-For" in
      match (if String.eqb xff "" then None else last_valid_ip (reverse (Split ","%char xff))) with
      | Some ip => ip
      | None =>
          let ip := TrimSpace (get "X-Real-IP") in
          if negb (String.eqb (get "X-Real-IP") "") && bool_decide (is_Some (GoNet.ParseIP ip))
          then ip
          else remote_ip remoteAddr
      end
  end.

Record IPChecker := mkChecker {
  allowedIPs : gset (list Z);
  allowedSubnets : list GoNet.IPNet;
}.

Inductive error := InvalidPattern (pat : string).

(** One round of the loop of [NewIPChecker]. *)
Definition add_pattern (c : IPChecker) (pat : string) : result error IPChecker :=
  let pat := TrimSpace pat in
  if String.eqb pat "" then Ok c
  else match GoNet.ParseCIDR pat with
       | Some ipnet => Ok (mkChecker (allowedIPs c) (allowedSubnets c ++ [ipnet]))
       | None =>
           match GoNet.ParseIP pat with
           | Some ip => Ok (mkChecker ({[GoNet.ip_key ip]} ∪ allowedIPs c) (allowedSubnets c))
           | None => Err (InvalidPattern pat)
           end
       end.

Fixpoint add_patterns (c : IPChecker) (patterns : list string) : result error IPChecker :=
  match patterns with
  | [] => Ok c
  | pat :: rest => rbind (add_pattern c pat) (λ c, add_patterns c rest)
  end.

Definition NewIPChecker (patterns : list string) : result error IPChecker :=
  add_patterns (mkChecker ∅ []) patterns.

Definition IsAllowed (c : IPChecker) (ipStr : string) : bool :=
  match GoNet.ParseIP ipStr with
  | None => false
  | Some ip =>
      let ip := default ip (GoNet.To4 ip) in
      bool_decide (GoNet.ip_key ip ∈ allowedIPs c) ||
      existsb (λ subnet, GoNet.Contains subnet ip) (allowedSubnets c)
  end.

Definition IsBlocked (c : IPChecker) (ipStr : string) : bool := IsAllowed c ipStr.

Definition RuleSetKey (rules : list string) : string := Join (merge_sort String.le rules) ",".

(** ** [middleware]: the checker cache *)

Definition ipCheckerCacheMaxEntries : nat := 5000.

(** [ipCheckerCache]; the read and the write sections of [get] are separate
    critical sections, and each is atomic. *)
Abbreviation cache := (gmap string IPChecker).

Definition newIPCheckerCache : cache := ∅.

Definition cache_store (c : cache) (key : string) (checker : IPChecker) : cache :=
  if (ipCheckerCacheMaxEntries <=? size c)%nat
  then <[key := checker]> ∅
  else <[key := checker]> c.

Definition get (c : cache) (rules : list string) : cache * option IPChecker :=
  match rules with
  | [] => (c, None)
  | _ =>
      let key := RuleSetKey rules in
      match c !! key with
      | Some checker => (c, Some checker)
      | None =>
          match NewIPChecker rules with
          | Err _ => (c, None)
          | Ok checker => (cache_store c key checker, Some checker)
          end
      end
  end.

(** ** [middleware]: the filter *)

Definition denyJSON (w : writer) (msg : string) : writer :=
  Write (WriteHeader (set_header w "Content-Type" "application/json") 403)
    (Raw (json_text [("error", msg)])).

Definition nonempty_rules (rt : Route.t) : bool :=
  negb (bool_decide (Route.IPAllowlist rt = []) && bool_decide (Route.IPBlocklist rt = [])).

Section middleware.
Context {S : Type} `{!Part S cache}.

Definition IPFilterMiddleware (next : handler S) : handler S := λ s w r,
  match CtxRoute (ctx r) with
  | None => next s w r
  | Some rt =>
      if negb (nonempty_rules rt) then next s w r
      else
        let ip := ExtractIP (RemoteAddr r) (Some (Get (Header r))) false in
        let '(c, blocklist) := get (part_get s) (Route.IPBlocklist rt) in
        let s := part_put c s in
        if (match blocklist with Some b => IsBlocked b ip | None => false end)
        then (s, denyJSON w "IP address blocked by policy")
        else
          let '(c, allowlist) := get (part_get s) (Route.IPAllowlist rt) in
          let s := part_put c s in
          if (match allowlist with Some a => negb (IsAllowed a ip) | None => false end)
          then (s, denyJSON w "IP address not in allowlist")
          else next s w r
  end.
End middleware.

(** ** Reference: what a rule and a rule list mean *)

(** [pat] is a block that contains [ip] or the address [ip] itself. *)
Definition rule_matches (pat : string) (ip : list Z) : bool :=
  match GoNet.ParseCIDR (TrimSpace pat) with
  | Some n => GoNet.Contains n ip
  | None => bool_decide (GoNet.ip_key <$> GoNet.ParseIP (TrimSpace pat) = Some (GoNet.ip_key ip))
  end.

Definition rule_valid (pat : string) : bool :=
  String.eqb (TrimSpace pat) "" ||
  bool_decide (is_Some (GoNet.ParseCIDR (TrimSpace pat))) ||
  bool_decide (is_Some (GoNet.ParseIP (TrimSpace pat))).

Definition rules_match (rules : list string) (ipStr : string) : bool :=
  match GoNet.ParseIP ipStr with
  | None => false
  | Some ip => existsb (λ pat, rule_matches pat ip) rules
  end.

(** ** Lemmas *)

Lemma ip_key_To4 ip : GoNet.ip_key (default ip (GoNet.To4 ip)) = GoNet.ip_key ip.
Proof.
  unfold GoNet.To4. destruct (length ip =? 4)%nat eqn:H4; simpl; [done|].
  destruct (length ip =? 16)%nat eqn:H16; simpl; [|done].
  case_bool_decide as Hp; simpl; [|done].
  apply Nat.eqb_eq in H16. unfold GoNet.ip_key.
  rewrite length_drop, H16, <-Hp. simpl. apply take_drop.
Qed.

Lemma To4_idemp ip : GoNet.To4 (default ip (GoNet.To4 ip)) = GoNet.To4 ip.
Proof.
  unfold GoNet.To4. destruct (length ip =? 4)%nat eqn:H4; simpl; [by rewrite H4|].
  destruct (length ip =? 16)%nat eqn:H16; simpl; [|by rewrite H4, H16].
  case_bool_decide as Hp; simpl.
  - apply Nat.eqb_eq in H16. by rewrite length_drop, H16.
  - rewrite H4, H16. simpl. by rewrite bool_decide_eq_false_2.
Qed.

Lemma Contains_To4 n ip : GoNet.Contains n (default ip (GoNet.To4 ip)) = GoNet.Contains n ip.
Proof.
  unfold GoNet.Contains. rewrite To4_idemp. by destruct (GoNet.To4 ip).
Qed.

(** What the checker under construction answers on an address. *)
Definition answers (c : IPChecker) (ip : list Z) : bool :=
  bool_decide (GoNet.ip_key ip ∈ allowedIPs c) ||
  existsb (λ n, GoNet.Contains n ip) (allowedSubnets c).

Lemma IsAllowed_answers c ipStr :
  IsAllowed c ipStr = match GoNet.ParseIP ipStr with Some ip => answers c ip | None => false end.
Proof.
  unfold IsAllowed, answers. destruct (GoNet.ParseIP ipStr) as [ip|]; [|done].
  rewrite ip_key_To4. f_equal. induction (allowedSubnets c) as [|n l IH]; simpl; [done|].
  by rewrite Contains_To4, IH.
Qed.

Lemma rule_matches_blank pat ip : TrimSpace pat = "" → rule_matches pat ip = false.
Proof. intros H. unfold rule_matches. by rewrite H. Qed.

Lemma add_pattern_spec c pat :
  match add_pattern c pat with
  | Ok c' => rule_valid pat = true ∧ ∀ ip, answers c' ip = answers c ip || rule_matches pat ip
  | Err _ => rule_valid pat = false
  end.
Proof.
  unfold add_pattern, rule_valid. destruct (String.eqb_spec (TrimSpace pat) "") as [Hb|Hb].
  { split; [done|]. intros ip. by rewrite rule_matches_blank, orb_false_r. }
  destruct (GoNet.ParseCIDR (TrimSpace pat)) as [n|] eqn:Hc.
  { split; [done|]. intros ip. unfold answers, rule_matches. rewrite Hc. simpl.
    rewrite existsb_app. simpl. by rewrite orb_false_r, orb_assoc. }
  destruct (GoNet.ParseIP (TrimSpace pat)) as [a|] eqn:Ha; [|done].
  split; [done|]. intros ip. unfold answers, rule_matches. rewrite Hc, Ha. simpl.
  apply Bool.eq_iff_eq_true.
  rewrite !orb_true_iff, !bool_decide_eq_true, elem_of_union, elem_of_singleton.
  intuition congruence.
Qed.

Lemma add_patterns_spec c rules :
  match add_patterns c rules with
  | Ok c' => forallb rule_valid rules = true ∧
             ∀ ip, answers c' ip = answers c ip || existsb (λ pat, rule_matches pat ip) rules
  | Err _ => forallb rule_valid rules = false
  end.
Proof.
  revert c. induction rules as [|pat rules IH]; intros c; simpl.
  { split; [done|]. intros ip. by rewrite orb_false_r. }
  pose proof (add_pattern_spec c pat) as Hp.
  destruct (add_pattern c pat) as [c1|e]; simpl; [|by rewrite Hp].
  destruct Hp as [-> Hp]. specialize (IH c1).
  destruct (add_patterns c1 rules) as [c2|e]; simpl; [|done].
  destruct IH as [-> IH]. split; [done|]. intros ip. by rewrite IH, Hp, orb_assoc.
Qed.

Lemma NewIPChecker_spec rules :
  match NewIPChecker rules with
  | Ok c => forallb rule_valid rules = true ∧ ∀ ipStr, IsAllowed c ipStr = rules_match rules ipStr
  | Err _ => forallb rule_valid rules = false
  end.
Proof.
  pose proof (add_patterns_spec (mkChecker ∅ []) rules) as H. unfold NewIPChecker.
  destruct (add_patterns _ rules) as [c|e]; [|done]. destruct H as [Hv H]. split; [done|].
  intros ipStr. rewrite IsAllowed_answers. unfold rules_match.
  destruct (GoNet.ParseIP ipStr); [|done]. by rewrite H.
Qed.

(** ** The cache key determines the rules *)

Lemma merge_sort_perm_eq l1 l2 : l1 ≡ₚ l2 → merge_sort String.le l1 = merge_sort String.le l2.
Proof.
  intros H. apply (Sorted_unique String.le).
  - apply Sorted_merge_sort, _.
  - apply Sorted_merge_sort, _.
  - by rewrite !merge_sort_Permutation.
Qed.

(** No rule contains the separator of the key. *)
Definition comma_free (rules : list string) : Prop :=
  Forall (λ r, contains_byte ","%char r = false) rules.

Lemma RuleSetKey_perm l1 l2 : l1 ≡ₚ l2 → RuleSetKey l1 = RuleSetKey l2.
Proof. intros H. unfold RuleSetKey. by rewrite (merge_sort_perm_eq _ _ H). Qed.

Lemma RuleSetKey_inj l1 l2 :
  comma_free l1 → comma_free l2 → l1 ≠ [] → l2 ≠ [] →
  RuleSetKey l1 = RuleSetKey l2 → l1 ≡ₚ l2.
Proof.
  intros C1 C2 N1 N2 H. unfold RuleSetKey in H.
  assert (Hs : ∀ l, comma_free l → l ≠ [] →
    Split ","%char (Join (merge_sort String.le l) ",") = merge_sort String.le l).
  { intros l C N. apply Split_Join.
    - intros E. apply N. apply Permutation_nil_r. by rewrite <-E, merge_sort_Permutation.
    - unfold comma_free in C. by rewrite merge_sort_Permutation. }
  rewrite <-(merge_sort_Permutation String.le l1), <-(merge_sort_Permutation String.le l2).
  by rewrite <-Hs, <-(Hs l2), H.
Qed.

Lemma existsb_perm {A} (f : A → bool) l1 l2 : l1 ≡ₚ l2 → existsb f l1 = existsb f l2.
Proof.
  induction 1 as [|x l1 l2 _ IH|x y l|l1 l2 l3 _ IH1 _ IH2]; simpl; [done|by rewrite IH| |congruence].
  by destruct (f x), (f y).
Qed.

Lemma rules_match_perm l1 l2 ipStr : l1 ≡ₚ l2 → rules_match l1 ipStr = rules_match l2 ipStr.
Proof. intros H. unfold rules_match. destruct (GoNet.ParseIP ipStr); [|done]. by apply existsb_perm. Qed.

(** ** Invariant of the cache *)

Record cache_ok (c : cache) : Prop := {
  cache_size : size c ≤ ipCheckerCacheMaxEntries;
  cache_sound : ∀ rules checker,
    comma_free rules → rules ≠ [] → c !! RuleSetKey rules = Some checker →
    ∀ ipStr, IsAllowed checker ipStr = rules_match rules ipStr;
}.

Lemma cache_ok_new : cache_ok newIPCheckerCache.
Proof. split; [vm_compute; lia|]. done. Qed.

Lemma cache_store_size c key checker :
  size c ≤ ipCheckerCacheMaxEntries → size (cache_store c key checker) ≤ ipCheckerCacheMaxEntries.
Proof.
  intros H. unfold cache_store. destruct (Nat.leb_spec ipCheckerCacheMaxEntries (size c)) as [Hle|Hgt].
  - rewrite map_size_insert_None by apply lookup_empty. rewrite map_size_empty.
    unfold ipCheckerCacheMaxEntries. lia.
  - rewrite map_size_insert. destruct (c !! key); unfold id; lia.
Qed.

Lemma cache_store_lookup c key checker k x :
  cache_store c key checker !! k = Some x → (k = key ∧ x = checker) ∨ c !! k = Some x.
Proof.
  unfold cache_store. destruct (_ <=? _)%nat; rewrite lookup_insert_Some; [|naive_solver].
  rewrite lookup_empty. naive_solver.
Qed.

(** A request for comma-free rules keeps the invariant and answers with a
    checker exactly when every rule parses. *)
Lemma get_spec c rules :
  cache_ok c → comma_free rules → forallb rule_valid rules = true →
  let '(c', o) := get c rules in
  cache_ok c' ∧
  match o with
  | Some checker => rules ≠ [] ∧ ∀ ipStr, IsAllowed checker ipStr = rules_match rules ipStr
  | None => rules = []
  end.
Proof.
  intros Hc Hcf Hv. unfold get. destruct rules as [|r0 rs]; [done|].
  set (rules := r0 :: rs) in *.
  destruct (c !! RuleSetKey rules) as [checker|] eqn:Hl.
  { split_and!; [done|done|]. by apply (cache_sound _ Hc). }
  pose proof (NewIPChecker_spec rules) as Hn.
  destruct (NewIPChecker rules) as [checker|e]; [|congruence].
  destruct Hn as [_ Hn]. split; [|split; [done|exact Hn]].
  split; [apply cache_store_size, Hc|].
  intros rules' x Hcf' Hne' Hx ipStr.
  apply cache_store_lookup in Hx as [[Hk ->]|Hx]; [|by apply (cache_sound _ Hc)].
  rewrite Hn. apply rules_match_perm. symmetry. by apply RuleSetKey_inj.
Qed.

(** The rule lists of a route are parsable and comma free, as the control
    plane validates them before it stores a policy. *)
Definition rules_ok (rules : list string) : Prop :=
  comma_free rules ∧ forallb rule_valid rules = true.

(** The decision the policy of a route asks for. *)
Definition policy_admits (rt : Route.t) (ip : string) : bool :=
  negb (rules_match (Route.IPBlocklist rt) ip) &&
  (bool_decide (Route.IPAllowlist rt = []) || rules_match (Route.IPAllowlist rt) ip).

Lemma policy_admits_no_rules rt ip : nonempty_rules rt = false → policy_admits rt ip = true.
Proof.
  unfold nonempty_rules, policy_admits. intros H. split_bool. rewrite H, H0. simpl.
  unfold rules_match. by destruct (GoNet.ParseIP ip).
Qed.

Lemma policy_admits_checkers rt ip ob oa :
  match ob with
  | Some c => Route.IPBlocklist rt ≠ [] ∧ ∀ i, IsAllowed c i = rules_match (Route.IPBlocklist rt) i
  | None => Route.IPBlocklist rt = []
  end →
  match oa with
  | Some c => Route.IPAllowlist rt ≠ [] ∧ ∀ i, IsAllowed c i = rules_match (Route.IPAllowlist rt) i
  | None => Route.IPAllowlist rt = []
  end →
  policy_admits rt ip =
    negb (match ob with Some b => IsBlocked b ip | None => false end) &&
    negb (match oa with Some a => negb (IsAllowed a ip) | None => false end).
Proof.
  intros Hb Ha. unfold policy_admits, IsBlocked. f_equal.
  - destruct ob as [b|]; [destruct Hb as [_ Hb]; by rewrite Hb|]. rewrite Hb.
    unfold rules_match. by destruct (GoNet.ParseIP ip).
  - destruct oa as [a|]; [|by rewrite Ha]. destruct Ha as [Ha1 Ha].
    by rewrite bool_decide_eq_false_2, Ha, negb_involutive.
Qed.

Lemma status_denyJSON w msg : Sent w = None → status (denyJSON w msg) = 403%Z.
Proof. intros H. unfold status, denyJSON, Write, WriteHeader. simpl. by rewrite H. Qed.

Section correctness.
Context {S : Type} `{!Part S cache, !PartLaws S cache}.

(** Both outcomes of the filter on a route with parsable rules. *)
Lemma IPFilterMiddleware_spec (next : handler S) (s : S) (w : writer) (r : request) (rt : Route.t) :
  CtxRoute (ctx r) = Some rt →
  rules_ok (Route.IPAllowlist rt) → rules_ok (Route.IPBlocklist rt) →
  cache_ok (part_get s) → Sent w = None →
  ∃ c, cache_ok c ∧
    if policy_admits rt (remote_ip (RemoteAddr r))
    then IPFilterMiddleware next s w r = next (part_put c s) w r
    else fst (IPFilterMiddleware next s w r) = part_put c s ∧
         status (snd (IPFilterMiddleware next s w r)) = 403%Z.
Proof.
  intros Hrt [Ha1 Ha2] [Hb1 Hb2] Hc Hw. unfold IPFilterMiddleware. rewrite Hrt.
  destruct (nonempty_rules rt) eqn:Hne; simpl.
  2: { exists (part_get s). split; [done|]. rewrite part_put_get.
       by rewrite policy_admits_no_rules. }
  pose proof (get_spec _ _ Hc Hb1 Hb2) as Hb.
  destruct (get (part_get s) (Route.IPBlocklist rt)) as [c1 ob]. destruct Hb as [Hc1 Hb].
  rewrite part_get_put. pose proof (get_spec _ _ Hc1 Ha1 Ha2) as Ha.
  destruct (get c1 (Route.IPAllowlist rt)) as [c2 oa]. destruct Ha as [Hc2 Ha].
  rewrite part_put_put. rewrite (policy_admits_checkers rt _ ob oa Hb Ha).
  destruct (match ob with Some b => IsBlocked b _ | None => false end); simpl.
  { exists c1. split; [done|]. split; [done|]. by apply status_denyJSON. }
  destruct (match oa with Some a => negb (IsAllowed a _) | None => false end); simpl; eauto.
  exists c2. split; [done|]. split; [done|]. by apply status_denyJSON.
Qed.

(** C40: on a route whose rules are parsable, the filter forwards a request
    exactly when the client's address is in no rule of the blocklist and the
    allowlist is empty or has a rule for it (a block wins over an allow);
    otherwise it answers 403 and the request goes no further.  In both cases the
    cache keeps its invariant, so the answer of a cached checker is the answer
    of the route's own rules. *)
Theorem ip_filter_enforces_policy (next : handler S) (s : S) (w : writer) (r : request) (rt : Route.t) :
  CtxRoute (ctx r) = Some rt →
  rules_ok (Route.IPAllowlist rt) → rules_ok (Route.IPBlocklist rt) →
  cache_ok (part_get s) → Sent w = None →
  ∃ c, cache_ok c ∧
    if policy_admits rt (remote_ip (RemoteAddr r))
    then IPFilterMiddleware next s w r = next (part_put c s) w r
    else fst (IPFilterMiddleware next s w r) = part_put c s ∧
         status (snd (IPFilterMiddleware next s w r)) = 403%Z.
Proof. apply IPFilterMiddleware_spec. Qed.

(** A rule list with one unparsable rule is treated as no list at all: a
    route that has only such an allowlist admits every client (the code logs
    that the check fails closed, but the request is forwarded). *)
Theorem ip_filter_unparsable_allowlist_admits_all (next : handler S) (s : S) (w : writer)
    (r : request) (rt : Route.t) :
  CtxRoute (ctx r) = Some rt → Route.IPBlocklist rt = [] →
  forallb rule_valid (Route.IPAllowlist rt) = false →
  (part_get s : cache) !! RuleSetKey (Route.IPAllowlist rt) = None →
  IPFilterMiddleware next s w r = next s w r.
Proof.
  intros Hrt Hb Ha Hl. unfold IPFilterMiddleware, nonempty_rules. rewrite Hrt, Hb.
  destruct (Route.IPAllowlist rt) as [|a al] eqn:Ea; [done|]. rewrite <-Ea in *.
  rewrite bool_decide_eq_false_2 by (by rewrite Ea). simpl. rewrite part_put_get.
  pose proof (NewIPChecker_spec (Route.IPAllowlist rt)) as Hn. unfold get. rewrite Ea, <-Ea, Hl.
  destruct (NewIPChecker _) as [c|e]; [destruct Hn; congruence|]. by rewrite part_put_get.
Qed.
End correctness.

(** ** Concrete inputs *)

Definition filtered_route (allow block : list string) : Route.t :=
  let rt := http_route "/api" "exact" ["GET"] in
  Route.mk (Route.ID rt) (Route.ProjectID rt) (Route.Name rt) (Route.Path rt) None "" (Route.Methods rt)
    "http" "exact" true None false 0 [] [] [] allow block 0 0.

Definition from_ip (rt : Route.t) (addr : string) : request :=
  mkRequest "GET" "/api" "gw.example.com" addr ∅ (with_route background rt).

Definition ok_handler : handler cache := λ s w _, (s, WriteHeader w 200).

Example blocked_wins :
  status (snd (IPFilterMiddleware ok_handler ∅ new_writer
    (from_ip (filtered_route ["10.0.0.0/8"] ["10.1.2.3"]) "10.1.2.3:5000"))) = 403%Z.
Proof. vm_compute. reflexivity. Qed.

Lemma ip_filter_enforces_policy_witness :
  ∃ c, cache_ok c ∧
    IPFilterMiddleware ok_handler newIPCheckerCache new_writer
      (from_ip (filtered_route ["10.0.0.0/8"] ["10.1.2.3"]) "10.1.2.4:5000") =
    ok_handler c new_writer (from_ip (filtered_route ["10.0.0.0/8"] ["10.1.2.3"]) "10.1.2.4:5000").
Proof.
  refine (ip_filter_enforces_policy ok_handler newIPCheckerCache new_writer
    (from_ip (filtered_route ["10.0.0.0/8"] ["10.1.2.3"]) "10.1.2.4:5000")
    (filtered_route ["10.0.0.0/8"] ["10.1.2.3"]) eq_refl _ _ cache_ok_new eq_refl);
  (split; [repeat constructor | vm_compute; reflexivity]).
Defined.

Lemma ip_filter_unparsable_allowlist_witness :
  IPFilterMiddleware ok_handler newIPCheckerCache new_writer
    (from_ip (filtered_route ["10.0.0.300"] []) "203.0.113.9:5000") =
  (newIPCheckerCache, WriteHeader new_writer 200).
Proof.
  refine (ip_filter_unparsable_allowlist_admits_all ok_handler newIPCheckerCache new_writer
    (from_ip (filtered_route ["10.0.0.300"] []) "203.0.113.9:5000")
    (filtered_route ["10.0.0.300"] []) eq_refl eq_refl _ eq_refl).
  vm_compute. reflexivity.
Defined.

End IPFilter.
