(* ===== verification/Health.v ===== *)
(** * The upstream health checker

    [src/internal/gateway/health/checker.go].  The three maps of [Checker] are
    finite maps keyed by the base URL; the Prometheus gauge is the map from its
    label pair to the last value set.  The HTTP client is a parameter of
    [probe].  Every method is a critical section under [c.mu], so a run of
    the checker is a sequence of such steps ([step]); the probes of one
    [probeAll] finish in any order. *)

From S2P Require Import Prelude GoStrings.

Module Health.

Record Status := mkStatus {
  Healthy : bool;
  LastCheck : Z;
  LastErr : string;
  ConsecutiveFails : Z;
  ProjectID : string;
}.

Record TargetHealthConfig := mkConfig { HealthPath : string; cfgProjectID : string }.

Record Checker := mkChecker {
  statuses : gmap string Status;
  healthPaths : gmap string string;
  projectIDs : gmap string string;
  gauge : gmap (string * string) Z;
}.

Definition New : Checker := mkChecker ∅ ∅ ∅ ∅.

Definition Register (c : Checker) (baseURL healthPath projectID : string) : Checker :=
  let healthPath := if String.eqb healthPath "" then "/health" else healthPath in
  mkChecker
    (match statuses c !! baseURL with
     | Some _ => statuses c
     | None => <[baseURL := mkStatus true 0 "" 0 projectID]> (statuses c)
     end)
    (<[baseURL := healthPath]> (healthPaths c))
    (<[baseURL := projectID]> (projectIDs c))
    (gauge c).

Definition RegisterAll (c : Checker) (targets : gmap string string) : Checker :=
  foldl (λ c '(url, path), Register c url path "") c (map_to_list targets).

Definition Unregister (c : Checker) (baseURL : string) : Checker :=
  match statuses c !! baseURL with
  | None => c
  | Some _ =>
      mkChecker (delete baseURL (statuses c)) (delete baseURL (healthPaths c))
        (delete baseURL (projectIDs c)) (gauge c)
  end.

Definition SyncTargets (c : Checker) (desired : gmap string TargetHealthConfig) : Checker :=
  let toRemove := filter (λ u, desired !! u = None) (map_to_list (statuses c)).*1 in
  let c := foldl (λ c '(url, cfg), Register c url (HealthPath cfg) (cfgProjectID cfg))
             c (map_to_list desired) in
  foldl Unregister c toRemove.

Definition IsHealthy (c : Checker) (baseURL : string) : bool :=
  match statuses c !! baseURL with None => true | Some s => Healthy s end.

Definition Statuses (c : Checker) : gmap string Status := statuses c.

(** What [http.NewRequest] and [client.Do] answer for a URL: an error text, or
    the status code and the status line. *)
Definition client := string → result string (Z * string).

Definition probe (Do : client) (c : Checker) (baseURL : string) : bool * string :=
  let healthPath :=
    match healthPaths c !! baseURL with
    | Some p => if String.eqb p "" then "/health" else p
    | None => "/health"
    end in
  match Do (baseURL +:+ healthPath) with
  | Err e => (false, e)
  | Ok (code, line) =>
      if (200 <=? code)%Z && (code <? 300)%Z then (true, "") else (false, "HTTP " +:+ line)
  end.

Definition setStatus (now : Z) (c : Checker) (baseURL : string) (healthy : bool) (errMsg : string)
  : Checker :=
  match statuses c !! baseURL with
  | None => c
  | Some prev =>
      let projectID := default "" (projectIDs c !! baseURL) in
      let fails := if healthy then 0%Z else (ConsecutiveFails prev + 1)%Z in
      mkChecker
        (<[baseURL := mkStatus healthy now (if healthy then "" else errMsg) fails (ProjectID prev)]>
           (statuses c))
        (healthPaths c) (projectIDs c)
        (<[(projectID, baseURL) := if healthy then 1%Z else 0%Z]> (gauge c))
  end.

(** One goroutine of [probeAll]: the probe and the status update. *)
Definition probe_one (Do : client) (now : Z) (c : Checker) (url : string) : Checker :=
  let '(healthy, errMsg) := probe Do c url in setStatus now c url healthy errMsg.

(** [probeAll] with its goroutines finishing in the order [order]. *)
Definition probeAll (Do : client) (now : Z) (order : list string) (c : Checker) : Checker :=
  foldl (probe_one Do now) c order.

(** ** Steps of a running checker *)

Inductive step (c : Checker) : Checker → Prop :=
| step_register url path pid : step c (Register c url path pid)
| step_unregister url : step c (Unregister c url)
| step_sync desired : step c (SyncTargets c desired)
| step_status now url healthy err : step c (setStatus now c url healthy err).

Inductive reachable : Checker → Prop :=
| reach_new : reachable New
| reach_step c c' : reachable c → step c c' → reachable c'.

(** ** Invariant *)

(** A status is consistent: healthy exactly when no failure is pending, and
    then without an error text. *)
Definition status_ok (s : Status) : Prop :=
  (0 ≤ ConsecutiveFails s)%Z ∧
  (Healthy s = true ↔ ConsecutiveFails s = 0%Z) ∧
  (Healthy s = true → LastErr s = "").

Record wf (c : Checker) : Prop := {
  wf_paths : dom (healthPaths c) = dom (statuses c);
  wf_projects : dom (projectIDs c) = dom (statuses c);
  wf_path_set : ∀ u p, healthPaths c !! u = Some p → p ≠ "";
  wf_status : ∀ u s, statuses c !! u = Some s → status_ok s;
}.

Lemma wf_New : wf New.
Proof. by split. Qed.

Lemma dom_statuses_Register c u p pid :
  dom (statuses (Register c u p pid)) = {[u]} ∪ dom (statuses c).
Proof.
  simpl. destruct (statuses c !! u) eqn:H; [|by rewrite dom_insert_L].
  apply elem_of_dom_2 in H. set_solver.
Qed.

Lemma wf_Register c u p pid : wf c → wf (Register c u p pid).
Proof.
  intros [Hp Hj Hs Hok]. split.
  - rewrite dom_statuses_Register. simpl. by rewrite dom_insert_L, Hp.
  - rewrite dom_statuses_Register. simpl. by rewrite dom_insert_L, Hj.
  - intros u' p'. simpl. rewrite lookup_insert_Some. intros [[<- <-]|[_ H]]; [|by eapply Hs].
    by destruct (String.eqb_spec p "").
  - intros u' s. simpl. destruct (statuses c !! u) eqn:H; [apply Hok|].
    rewrite lookup_insert_Some. intros [[<- <-]|[_ Hl]]; [|by eapply Hok]. done.
Qed.

Lemma dom_Unregister c u : dom (statuses (Unregister c u)) = dom (statuses c) ∖ {[u]}.
Proof.
  unfold Unregister. destruct (statuses c !! u) eqn:H; simpl; [by rewrite dom_delete_L|].
  apply not_elem_of_dom in H. set_solver.
Qed.

Lemma wf_Unregister c u : wf c → wf (Unregister c u).
Proof.
  intros Hwf. unfold Unregister. destruct (statuses c !! u) eqn:H; [|done].
  destruct Hwf as [Hp Hj Hs Hok]. split; simpl.
  - by rewrite !dom_delete_L, Hp.
  - by rewrite !dom_delete_L, Hj.
  - intros u' p. rewrite lookup_delete_Some. intros [_ Hl]. by eapply Hs.
  - intros u' st. rewrite lookup_delete_Some. intros [_ Hl]. by eapply Hok.
Qed.

Lemma wf_setStatus now c u h e : wf c → wf (setStatus now c u h e).
Proof.
  intros Hwf. unfold setStatus. destruct (statuses c !! u) as [prev|] eqn:H; [|done].
  destruct Hwf as [Hp Hj Hs Hok]. split; simpl; [..|done|].
  1,2: apply elem_of_dom_2 in H; rewrite dom_insert_L; set_solver.
  intros u' s'. rewrite lookup_insert_Some. intros [[<- <-]|[_ Hl]]; [|by eapply Hok].
  destruct (Hok _ _ H) as (Hge & _). destruct h; repeat split; simpl; try done; lia.
Qed.

Lemma foldl_inv {A B} (P : A → Prop) (f : A → B → A) l a :
  (∀ a b, P a → P (f a b)) → P a → P (foldl f a l).
Proof. intros Hf. revert a. induction l; simpl; eauto. Qed.

Lemma wf_SyncTargets c d : wf c → wf (SyncTargets c d).
Proof.
  intros H. unfold SyncTargets. apply foldl_inv; [intros; by apply wf_Unregister|].
  apply foldl_inv; [|done]. intros a [u cfg] Ha. by apply wf_Register.
Qed.

#[local] Hint Resolve wf_New wf_Register wf_Unregister wf_setStatus wf_SyncTargets : elitegate.

(** In every state the checker reaches, from any sequence of registrations,
    synchronisations, removals and probe results, the three maps describe the
    same set of upstreams, every health path is set, and a status is healthy
    exactly when its count of consecutive failures is zero. *)
Theorem checker_invariant (c : Checker) : reachable c → wf c.
Proof. induction 1 as [|c c' _ IH []]; auto with elitegate. Qed.

(** ** Reconciliation *)

Definition register_all (c : Checker) (l : list (string * TargetHealthConfig)) : Checker :=
  foldl (λ c '(url, cfg), Register c url (HealthPath cfg) (cfgProjectID cfg)) c l.

(** The status and the path a desired target has after the reconciliation. *)
Definition fresh (cfg : TargetHealthConfig) : Status := mkStatus true 0 "" 0 (cfgProjectID cfg).
Definition path_of (cfg : TargetHealthConfig) : string :=
  if String.eqb (HealthPath cfg) "" then "/health" else HealthPath cfg.

Lemma register_all_spec l c u :
  NoDup l.*1 →
  statuses (register_all c l) !! u =
    (match (list_to_map l : gmap string TargetHealthConfig) !! u with
     | Some cfg => Some (default (fresh cfg) (statuses c !! u))
     | None => statuses c !! u
     end) ∧
  healthPaths (register_all c l) !! u =
    (match (list_to_map l : gmap string TargetHealthConfig) !! u with
     | Some cfg => Some (path_of cfg)
     | None => healthPaths c !! u
     end).
Proof.
  revert c. induction l as [|[v cfg] l IH]; intros c Hnd; simpl; [done|].
  apply NoDup_cons in Hnd as [Hv Hnd]. fold (register_all c l).
  destruct (IH (Register c v (HealthPath cfg) (cfgProjectID cfg)) Hnd) as [H1 H2].
  change (foldl _ _ l) with (register_all (Register c v (HealthPath cfg) (cfgProjectID cfg)) l).
  rewrite H1, H2. destruct (decide (v = u)) as [->|Hne].
  - rewrite lookup_insert_eq, (not_elem_of_list_to_map_1 _ _ Hv). simpl.
    destruct (statuses c !! u) eqn:Hs; rewrite ?Hs, ?lookup_insert_eq; done.
  - rewrite lookup_insert_ne by done. simpl. rewrite lookup_insert_ne by done.
    destruct (statuses c !! v); by rewrite ?lookup_insert_ne.
Qed.

Lemma unregister_all_spec l c u :
  dom (healthPaths c) = dom (statuses c) →
  statuses (foldl Unregister c l) !! u = (if decide (u ∈ l) then None else statuses c !! u) ∧
  healthPaths (foldl Unregister c l) !! u = (if decide (u ∈ l) then None else healthPaths c !! u).
Proof.
  revert c. induction l as [|v l IH]; intros c Hd; simpl; [done|].
  assert (statuses (Unregister c v) !! u = (if decide (u = v) then None else statuses c !! u) ∧
    healthPaths (Unregister c v) !! u = (if decide (u = v) then None else healthPaths c !! u) ∧
    dom (healthPaths (Unregister c v)) = dom (statuses (Unregister c v))) as (H1 & H2 & H3).
  { unfold Unregister. destruct (statuses c !! v) eqn:Hv; simpl.
    - rewrite !dom_delete_L, Hd. destruct (decide (u = v)) as [->|Hne];
        [by rewrite !lookup_delete_eq|by rewrite !lookup_delete_ne].
    - destruct (decide (u = v)) as [->|Hne]; [|done]. split_and!; [done| |done].
      apply not_elem_of_dom. rewrite Hd. by apply not_elem_of_dom. }
  destruct (IH _ H3) as [-> ->]. rewrite H1, H2.
  destruct (decide (u = v)), (decide (u ∈ l)), (decide (u ∈ v :: l)); set_solver.
Qed.

(** After a synchronisation exactly the desired upstreams are watched, each
    under its desired health path; an upstream that stays keeps its status, so
    a reload of the configuration never resets the health of a running target,
    and a new one starts healthy. *)
Theorem sync_targets_reconciles (c : Checker) (desired : gmap string TargetHealthConfig) (u : string) :
  wf c →
  statuses (SyncTargets c desired) !! u =
    (match desired !! u with
     | Some cfg => Some (default (fresh cfg) (statuses c !! u))
     | None => None
     end) ∧
  healthPaths (SyncTargets c desired) !! u = path_of <$> desired !! u.
Proof.
  intros Hwf. unfold SyncTargets. fold (register_all c (map_to_list desired)).
  assert (Hd : wf (register_all c (map_to_list desired))).
  { apply (foldl_inv wf); [|done]. intros a [? ?] Ha. by apply wf_Register. }
  destruct (unregister_all_spec (filter (λ u, desired !! u = None) (map_to_list (statuses c)).*1)
    _ u (wf_paths _ Hd)) as [-> ->].
  destruct (register_all_spec (map_to_list desired) c u (NoDup_fst_map_to_list desired)) as [-> ->].
  rewrite !list_to_map_to_list.
  destruct (desired !! u) as [cfg|] eqn:Hu.
  { rewrite !decide_False by (rewrite list_elem_of_filter; intros [? _]; congruence). done. }
  case_decide as Hin; [done|]. rewrite list_elem_of_filter in Hin.
  assert (Hn : statuses c !! u = None).
  { apply eq_None_not_Some. intros [st Hst]. apply Hin. split; [done|].
    apply list_elem_of_fmap. exists (u, st). split; [done|]. by apply elem_of_map_to_list. }
  split; [done|]. apply not_elem_of_dom. rewrite (wf_paths _ Hwf). by apply not_elem_of_dom.
Qed.

(** ** Probing *)

Lemma setStatus_commute now c u1 h1 e1 u2 h2 e2 :
  u1 ≠ u2 →
  setStatus now (setStatus now c u1 h1 e1) u2 h2 e2 =
  setStatus now (setStatus now c u2 h2 e2) u1 h1 e1.
Proof.
  intros Hne. unfold setStatus.
  destruct (statuses c !! u1) eqn:E1, (statuses c !! u2) eqn:E2; simpl;
    rewrite ?E1, ?E2, ?lookup_insert_ne, ?E1, ?E2 by congruence; simpl; [|done..].
  f_equal; apply insert_insert_ne; congruence.
Qed.

Lemma probe_setStatus Do now c u h e u' : probe Do (setStatus now c u h e) u' = probe Do c u'.
Proof. unfold probe, setStatus. by destruct (statuses c !! u). Qed.

Lemma probe_one_commute Do now c u1 u2 :
  probe_one Do now (probe_one Do now c u1) u2 = probe_one Do now (probe_one Do now c u2) u1.
Proof.
  destruct (decide (u1 = u2)) as [->|Hne]; [done|]. unfold probe_one.
  destruct (probe Do c u1) as [h1 e1] eqn:P1, (probe Do c u2) as [h2 e2] eqn:P2.
  rewrite !probe_setStatus, P1, P2. by apply setStatus_commute.
Qed.

Lemma statuses_probe_one_ne Do now c u v :
  u ≠ v → statuses (probe_one Do now c v) !! u = statuses c !! u.
Proof.
  intros Hne. unfold probe_one, setStatus. destruct (probe Do c v).
  destruct (statuses c !! v); simpl; by rewrite ?lookup_insert_ne.
Qed.

Lemma probe_probe_one Do now c v u : probe Do (probe_one Do now c v) u = probe Do c u.
Proof. unfold probe_one. destruct (probe Do c v). apply probe_setStatus. Qed.

Lemma probeAll_frame Do now l c u :
  u ∉ l →
  statuses (foldl (probe_one Do now) c l) !! u = statuses c !! u ∧
  probe Do (foldl (probe_one Do now) c l) u = probe Do c u.
Proof.
  revert c. induction l as [|v l IH]; intros c Hu; simpl; [done|].
  apply not_elem_of_cons in Hu as [Hne Hu]. destruct (IH (probe_one Do now c v) Hu) as [-> ->].
  by rewrite statuses_probe_one_ne, probe_probe_one.
Qed.

(** The goroutines of a probe round may finish in any order: every order
    leaves the checker in the same state, statuses, counters and gauge alike. *)
Theorem probe_order_irrelevant (Do : client) (now : Z) (order1 order2 : list string) (c : Checker) :
  order1 ≡ₚ order2 → probeAll Do now order1 c = probeAll Do now order2 c.
Proof.
  intros H. revert c. unfold probeAll.
  induction H as [|u l1 l2 _ IH|u v l|l1 l2 l3 _ IH1 _ IH2]; intros c; simpl; [done|by rewrite IH| |].
  - by rewrite probe_one_commute.
  - by rewrite IH1.
Qed.

(** After a probe round over the watched upstreams, an upstream is served
    exactly when its probe answered with a status in 200..299. *)
Theorem probe_round_sets_health (Do : client) (now : Z) (c : Checker) (u : string) :
  is_Some (statuses c !! u) →
  IsHealthy (probeAll Do now (map_to_list (statuses c)).*1 c) u = fst (probe Do c u).
Proof.
  intros [st Hst].
  assert (Hin : u ∈ (map_to_list (statuses c)).*1).
  { apply list_elem_of_fmap. exists (u, st). split; [done|]. by apply elem_of_map_to_list. }
  pose proof (NoDup_fst_map_to_list (statuses c)) as Hnd.
  apply list_elem_of_split in Hin as (l1 & l2 & Hl). rewrite Hl in Hnd |- *.
  apply NoDup_app in Hnd as (_ & Hn1 & Hnd). apply NoDup_cons in Hnd as [Hn2 _].
  unfold IsHealthy, probeAll. rewrite foldl_app. simpl.
  rewrite (proj1 (probeAll_frame Do now l2 _ u Hn2)).
  destruct (probeAll_frame Do now l1 c u) as [Hs Hp]; [intros Hu; apply (Hn1 u Hu); set_solver|].
  set (c1 := foldl (probe_one Do now) c l1) in *.
  unfold probe_one. rewrite Hp. destruct (probe Do c u) as [h e]. unfold setStatus.
  rewrite Hs, Hst. simpl. by rewrite lookup_insert_eq.
Qed.


(** ** Counting failures *)

(** The results of successive probes of one upstream. *)
Definition run_probes (c : Checker) (u : string) (outs : list (Z * bool * string)) : Checker :=
  foldl (λ c '(now, h, e), setStatus now c u h e) c outs.

Definition failed (o : Z * bool * string) : Prop := snd (fst o) = false.

Lemma run_failures outs c u st :
  Forall failed outs → statuses c !! u = Some st →
  ∃ st', statuses (run_probes c u outs) !! u = Some st' ∧
    ConsecutiveFails st' = (ConsecutiveFails st + Z.of_nat (length outs))%Z ∧
    Healthy st' = Healthy st && bool_decide (outs = []).
Proof.
  intros Hf. revert c st. induction Hf as [|[[now h] e] outs Hh _ IH]; intros c st Hst; simpl.
  { exists st. rewrite andb_true_r. split_and!; [done|lia|done]. }
  unfold failed in Hh. simpl in Hh. subst h.
  assert (Hs : statuses (setStatus now c u false e) !! u =
    Some (mkStatus false now e (ConsecutiveFails st + 1) (ProjectID st))).
  { unfold setStatus. rewrite Hst. simpl. by rewrite lookup_insert_eq. }
  destruct (IH _ _ Hs) as (st' & H1 & H2 & H3).
  exists st'. split_and!; [done|simpl in H2; lia|]. rewrite H3. simpl. by rewrite andb_false_r.
Qed.

Lemma run_registered outs c u :
  is_Some (statuses c !! u) → is_Some (statuses (run_probes c u outs) !! u).
Proof.
  revert c. induction outs as [|[[now h] e] outs IH]; intros c [st Hst]; simpl; [by rewrite Hst|].
  apply IH. unfold setStatus. rewrite Hst. simpl. rewrite lookup_insert_eq. eauto.
Qed.

(** Whatever probes came before, once a probe succeeds and is followed by
    [n] failures the upstream's counter is [n], and it is served exactly when
    [n] is zero: one success restores it, one failure removes it. *)
Theorem consecutive_failures_counted (c : Checker) (u : string)
    (before : list (Z * bool * string)) (now : Z) (e : string) (fails : list (Z * bool * string)) :
  is_Some (statuses c !! u) → Forall failed fails →
  ∃ st, statuses (run_probes c u (before ++ (now, true, e) :: fails)) !! u = Some st ∧
    ConsecutiveFails st = Z.of_nat (length fails) ∧
    Healthy st = bool_decide (fails = []).
Proof.
  intros Hc Hf. unfold run_probes. rewrite foldl_app. simpl. fold (run_probes c u before).
  destruct (run_registered before c u Hc) as [st Hst].
  assert (Hs : statuses (setStatus now (run_probes c u before) u true e) !! u =
    Some (mkStatus true now "" 0 (ProjectID st))).
  { unfold setStatus. rewrite Hst. simpl. by rewrite lookup_insert_eq. }
  destruct (run_failures fails _ _ _ Hf Hs) as (st' & H1 & H2 & H3). exists st'.
  split_and!; [done|simpl in H2; lia|done].
Qed.

(** ** Concrete inputs *)

Definition sample : Checker :=
  setStatus 7 (Register (Register New "http://a" "/live" "p1") "http://b" "" "p1")
    "http://b" false "refused".

Lemma sample_reachable : reachable sample.
Proof. repeat (eapply reach_step; [|constructor]). constructor. Defined.

Definition sample_client : client := λ url,
  if String.eqb url "http://a/live" then Ok (503%Z, "503 Service Unavailable")
  else Ok (204%Z, "204 No Content").

Lemma checker_invariant_witness : wf sample.
Proof. exact (checker_invariant sample sample_reachable). Defined.

Lemma sync_targets_reconciles_witness :
  let desired := {["http://b" := mkConfig "/hz" "p1"; "http://c" := mkConfig "" "p2"]} in
  (statuses (SyncTargets sample desired) !! "http://b" = Some (mkStatus false 7 "refused" 1 "p1")) ∧
  (healthPaths (SyncTargets sample desired) !! "http://b" = Some "/hz").
Proof.
  assert (Hwf : wf sample) by (unfold sample; auto with elitegate).
  exact (sync_targets_reconciles sample
    {["http://b" := mkConfig "/hz" "p1"; "http://c" := mkConfig "" "p2"]} "http://b" Hwf).
Defined.

Lemma probe_order_irrelevant_witness :
  probeAll sample_client 9 ["http://a"; "http://b"] sample =
  probeAll sample_client 9 ["http://b"; "http://a"] sample.
Proof. apply probe_order_irrelevant. apply Permutation_swap. Defined.

Lemma probe_round_sets_health_witness :
  IsHealthy (probeAll sample_client 9 (map_to_list (statuses sample)).*1 sample) "http://b" = true.
Proof.
  rewrite (probe_round_sets_health sample_client 9 sample "http://b") by (vm_compute; eauto).
  vm_compute. reflexivity.
Defined.

Lemma consecutive_failures_counted_witness :
  ∃ st, statuses (run_probes sample "http://b" ([] ++ (8, true, "")%Z ::
      [(9, false, "x"); (10, false, "y")]%Z)) !! "http://b" = Some st ∧
    ConsecutiveFails st = 2%Z ∧ Healthy st = false.
Proof.
  refine (consecutive_failures_counted sample "http://b" [] 8 "" _ _ _).
  - vm_compute. eauto.
  - by repeat constructor.
Defined.

End Health.
