(* ===== verification/Auth.v ===== *)
(** * Authentication of gateway clients

    [src/internal/auth/project_jwt_verifier.go] (customer JWTs),
    [src/internal/gateway/runtime/project_jwt_manager.go] (activation of the
    verifier), [src/internal/auth/api_key.go] (API keys with local, Redis and
    database lookup), [src/helper/helper.go] (role and scope tests) and
    [src/internal/gateway/middleware/auth.go] (the middleware).  The JWT
    library, SHA-256, Secrets Manager and the key database are parameters. *)

From S2P Require Import Prelude GoStrings Model Http.

(** ** Values of a JWT claim, as [encoding/json] decodes them *)

Inductive claim :=
| VString (s : string)
| VStrings (l : list string)
| VAny (l : list (option string))   (* []any; [None] is a non-string item *)
| VNum (n : Z)
| VOther.

Abbreviation MapClaims := (gmap string claim).

(** [auth.Identity]. *)
Record Identity := mkIdentity { ClientID : string; Role : string; Scopes : list string }.

#[global] Instance Identity_eq_dec : EqDecision Identity.
Proof. solve_decision. Defined.

(** ** The JWT library

    [token] is what [jwt.ParseWithClaims] hands to the key function and
    returns; [ParseWithClaims kf methods leeway expRequired raw] is the call
    with the options [WithValidMethods], [WithLeeway] and
    [WithExpirationRequired]. *)

Record token := mkToken { Alg : string; IsHMAC : bool; Claims : MapClaims; Valid : bool }.

Class JWTLib := {
  ParseWithClaims : (token → result string string) → list string → Z → bool → string →
    result string token;
  signature_ok : string → string → bool;  (* raw token, key *)
  jwt_now : Z;
}.

(** Documented behaviour: a returned token was checked with one of the valid
    methods, under the key the key function chose, and had not expired. *)
Class JWTLibLaws `{!JWTLib} := {
  parse_method kf methods leeway req raw tok :
    ParseWithClaims kf methods leeway req raw = Ok tok → Alg tok ∈ methods;
  parse_key kf methods leeway req raw tok :
    ParseWithClaims kf methods leeway req raw = Ok tok →
    ∃ key, kf tok = Ok key ∧ signature_ok raw key = true;
  parse_exp kf methods leeway raw tok :
    ParseWithClaims kf methods leeway true raw = Ok tok →
    ∃ exp, Claims tok !! "exp" = Some (VNum exp) ∧ (jwt_now < exp * second + leeway)%Z;
}.

(** ** Customer JWT verification *)

Module ProjectJWTVerifier.

Record Config := mkConfig {
  Algorithm : string;
  Issuer : option string;
  Audiences : list string;
  SubjectClaim : string;
  RoleClaim : string;
  ScopesClaim : string;
  ClockSkew : Z;
}.

Record t := mk { secret : string; config : Config }.

Inductive error :=
| ErrSecretTooShort
| ErrUnsupportedAlgorithm (alg : string)
| ErrProjectJWTNotConfigured
| ErrEmptyToken
| ErrValidate (e : string)
| ErrInvalid
| ErrIssuer
| ErrAudience
| ErrMissingClaim (name : string)
| ErrScopeItem (name : string)
| ErrScopeFormat (name : string).

Definition or_default (s d : string) : string := if String.eqb s "" then d else s.

Definition NewProjectJWTVerifier (secret : string) (cfg : Config) : result error t :=
  if (len secret <? 32)%nat then Err ErrSecretTooShort
  else if negb (String.eqb (Algorithm cfg) "HS256") then Err (ErrUnsupportedAlgorithm (Algorithm cfg))
  else Ok (mk secret (mkConfig (Algorithm cfg) (Issuer cfg) (Audiences cfg)
         (or_default (SubjectClaim cfg) "sub") (or_default (RoleClaim cfg) "role")
         (or_default (ScopesClaim cfg) "scope") (ClockSkew cfg))).

Definition Reconfigure (v : t) (cfg : Config) : result error t :=
  NewProjectJWTVerifier (secret v) cfg.

Definition validateIssuer (v : t) (claims : MapClaims) : result error unit :=
  match Issuer (config v) with
  | None => Ok ()
  | Some iss =>
      match claims !! "iss" with
      | Some (VString actual) => if String.eqb actual iss then Ok () else Err ErrIssuer
      | _ => Err ErrIssuer
      end
  end.

Definition stringListClaim (value : option claim) : list string :=
  match value with
  | Some (VString s) => if String.eqb s "" then [] else [s]
  | Some (VStrings l) => l
  | Some (VAny l) => omap id l
  | _ => []
  end.

Definition validateAudience (v : t) (claims : MapClaims) : result error unit :=
  match Audiences (config v) with
  | [] => Ok ()
  | auds =>
      let actual := stringListClaim (claims !! "aud") in
      if existsb (λ expected, existsb (λ candidate, String.eqb candidate expected) actual) auds
      then Ok () else Err ErrAudience
  end.

Definition optionalStringClaim (claims : MapClaims) (name : string) : string :=
  match claims !! name with
  | Some (VString s) => TrimSpace s
  | _ => ""
  end.

Definition requiredStringClaim (claims : MapClaims) (name : string) : result error string :=
  let value := optionalStringClaim claims name in
  if String.eqb value "" then Err (ErrMissingClaim name) else Ok value.

(** The loop of [uniqueStrings]: the [seen] map and the result so far. *)
Definition unique_step (st : gset string * list string) (value : string) : gset string * list string :=
  let '(seen, result) := st in
  let value := TrimSpace value in
  if String.eqb value "" then st
  else if decide (value ∈ seen) then st
  else ({[value]} ∪ seen, result ++ [value]).

Definition uniqueStrings (values : list string) : list string :=
  snd (foldl unique_step (∅, []) values).

Definition scopesClaim (claims : MapClaims) (name : string) : result error (list string) :=
  match claims !! name with
  | None => Ok []
  | Some (VString s) => Ok (uniqueStrings (Fields s))
  | Some (VStrings l) => Ok (uniqueStrings l)
  | Some (VAny l) =>
      match mapM id l with
      | Some values => Ok (uniqueStrings values)
      | None => Err (ErrScopeItem name)
      end
  | Some _ => Err (ErrScopeFormat name)
  end.

Section validate.
Context `{!JWTLib}.

(** The key function [Validate] passes to the library. *)
Definition keyfunc (v : t) (tok : token) : result string string :=
  if negb (String.eqb (Alg tok) (Algorithm (config v))) then Err "unexpected JWT algorithm"
  else if negb (IsHMAC tok) then Err "JWT signing method is not HMAC"
  else Ok (secret v).

(** [None] is the nil receiver. *)
Definition Validate (ov : option t) (tokenString : string) : result error Identity :=
  match ov with
  | None => Err ErrProjectJWTNotConfigured
  | Some v =>
      let tokenString := TrimSpace tokenString in
      if String.eqb tokenString "" then Err ErrEmptyToken
      else
        match ParseWithClaims (keyfunc v) [Algorithm (config v)] (ClockSkew (config v)) true
                tokenString with
        | Err e => Err (ErrValidate e)
        | Ok tok =>
            if negb (Valid tok) then Err ErrInvalid
            else
              (let claims := Claims tok in
               let! _ := validateIssuer v claims in
               let! _ := validateAudience v claims in
               let! clientID := requiredStringClaim claims (SubjectClaim (config v)) in
               let role := optionalStringClaim claims (RoleClaim (config v)) in
               let! scopes := scopesClaim claims (ScopesClaim (config v)) in
               Ok (mkIdentity clientID role scopes))%go
        end
  end.

Definition ValidateIdentity (ov : option t) (tokenString : string) : result error Identity :=
  Validate ov tokenString.
End validate.

(** *** Unique scopes *)

Lemma unique_step_inv st value :
  (∀ x, x ∈ fst st ↔ x ∈ snd st) → NoDup (snd st) → "" ∉ snd st →
  let st' := unique_step st value in
  (∀ x, x ∈ fst st' ↔ x ∈ snd st') ∧ NoDup (snd st') ∧ ("" ∉ snd st') ∧
  ∀ x, x ∈ snd st' ↔ x ∈ snd st ∨ (x = TrimSpace value ∧ x ≠ "").
Proof.
  destruct st as [seen res]. simpl. intros Hs Hn He. unfold unique_step.
  destruct (String.eqb_spec (TrimSpace value) "") as [Hb|Hb]; simpl.
  { split_and!; [done..|]. intros x. rewrite Hb. naive_solver. }
  case_decide as Hin; simpl.
  { split_and!; [done..|]. intros x. rewrite Hs in Hin. naive_solver. }
  rewrite Hs in Hin. split_and!.
  - intros x. set_solver.
  - apply NoDup_app. split_and!; [done|set_solver|apply NoDup_singleton].
  - set_solver.
  - set_solver.
Qed.

Lemma unique_fold_spec values st :
  (∀ x, x ∈ fst st ↔ x ∈ snd st) → NoDup (snd st) → "" ∉ snd st →
  let st' := foldl unique_step st values in
  NoDup (snd st') ∧ ("" ∉ snd st') ∧
  ∀ x, x ∈ snd st' ↔ x ∈ snd st ∨ (x ≠ "" ∧ ∃ v, v ∈ values ∧ x = TrimSpace v).
Proof.
  revert st. induction values as [|v values IH]; intros st Hs Hn He; simpl.
  { split_and!; [done..|]. set_solver. }
  destruct (unique_step_inv st v Hs Hn He) as (Hs' & Hn' & He' & Hx).
  destruct (IH _ Hs' Hn' He') as (H1 & H2 & H3). split_and!; [done..|].
  intros x. rewrite H3, Hx. set_solver.
Qed.

Lemma uniqueStrings_spec values :
  NoDup (uniqueStrings values) ∧ ("" ∉ uniqueStrings values) ∧
  ∀ x, x ∈ uniqueStrings values ↔ x ≠ "" ∧ ∃ v, v ∈ values ∧ x = TrimSpace v.
Proof.
  unfold uniqueStrings. destruct (unique_fold_spec values (∅, [])) as (H1 & H2 & H3); simpl.
  - set_solver.
  - constructor.
  - set_solver.
  - split_and!; [done..|]. intros x. rewrite H3. set_solver.
Qed.

Lemma scopesClaim_clean claims name scopes :
  scopesClaim claims name = Ok scopes → NoDup scopes ∧ "" ∉ scopes.
Proof.
  unfold scopesClaim. intros H. invert_branches H; try (split; [constructor|set_solver]).
  all: split; apply uniqueStrings_spec.
Qed.

(** *** What an accepted token proves *)

(** The configured restrictions on issuer and audience hold of the claims. *)
Definition issuer_ok (v : t) (claims : MapClaims) : Prop :=
  ∀ iss, Issuer (config v) = Some iss → claims !! "iss" = Some (VString iss).
Definition audience_ok (v : t) (claims : MapClaims) : Prop :=
  Audiences (config v) = [] ∨
  ∃ a, a ∈ Audiences (config v) ∧ a ∈ stringListClaim (claims !! "aud").

Lemma validateIssuer_ok v claims u : validateIssuer v claims = Ok u → issuer_ok v claims.
Proof.
  unfold validateIssuer, issuer_ok. intros H iss Hiss. rewrite Hiss in H. invert_branches H.
  f_equal. f_equal. by apply String.eqb_eq.
Qed.

Lemma validateAudience_ok v claims u : validateAudience v claims = Ok u → audience_ok v claims.
Proof.
  unfold validateAudience, audience_ok. destruct (Audiences (config v)) as [|a l]; [by left|].
  destruct (existsb _ _) eqn:Hex; [|done]. intros _. right.
  apply existsb_exists in Hex as (x & Hx & Hy). apply existsb_exists in Hy as (y & Hy & Heq).
  apply String.eqb_eq in Heq. subst y. exists x. rewrite <-!list_elem_of_In in *. done.
Qed.

Section accepted.
Context `{!JWTLib, !JWTLibLaws}.

(** C29: a customer token is accepted only when the library parses that very
    string, its blanks trimmed, under the verifier's key function, with the
    configured algorithm as the only valid method and an expiry required.  The
    string is then signed under the project's secret, and the token parsed from it
    is an unexpired HMAC token of the configured algorithm (within the clock
    skew) with the configured issuer and one of the configured audiences; the
    identity is read off its claims, with a non-empty client and scopes without
    blanks or repetitions. *)
Theorem jwt_accepts_only_verified (v : t) (raw : string) (id : Identity) :
  Validate (Some v) raw = Ok id →
  ∃ tok, ParseWithClaims (keyfunc v) [Algorithm (config v)] (ClockSkew (config v)) true (TrimSpace raw) = Ok tok ∧
    Valid tok = true ∧ signature_ok (TrimSpace raw) (secret v) = true ∧
    Alg tok = Algorithm (config v) ∧ IsHMAC tok = true ∧
    (∃ exp, Claims tok !! "exp" = Some (VNum exp) ∧
            (jwt_now < exp * second + ClockSkew (config v))%Z) ∧
    issuer_ok v (Claims tok) ∧ audience_ok v (Claims tok) ∧
    ClientID id = optionalStringClaim (Claims tok) (SubjectClaim (config v)) ∧ ClientID id ≠ "" ∧
    Role id = optionalStringClaim (Claims tok) (RoleClaim (config v)) ∧
    scopesClaim (Claims tok) (ScopesClaim (config v)) = Ok (Scopes id) ∧
    NoDup (Scopes id) ∧ "" ∉ Scopes id.
Proof.
  unfold Validate. intros HV.
  destruct (String.eqb (TrimSpace raw) ""); [done|].
  destruct (ParseWithClaims _ _ _ _ _) as [tok|e] eqn:Hp; [|done].
  destruct (Valid tok) eqn:Hv; [|done]. simpl in HV. exists tok. split; [done|].
  destruct (parse_key _ _ _ _ _ _ Hp) as (key & Hk & Hsig).
  destruct (parse_exp _ _ _ _ _ Hp) as (exp & Hexp).
  assert (key = secret v ∧ IsHMAC tok = true) as [-> Hh].
  { unfold keyfunc in Hk. invert_branches Hk. by destruct (IsHMAC tok). }
  pose proof (parse_method _ _ _ _ _ _ Hp) as Halg%list_elem_of_singleton.
  destruct (validateIssuer _ _) as [u1|] eqn:Hi; [|done].
  destruct (validateAudience _ _) as [u2|] eqn:Ha; [|done]. simpl in HV.
  unfold requiredStringClaim in HV.
  destruct (String.eqb_spec (optionalStringClaim (Claims tok) (SubjectClaim (config v))) "") as [|Hne];
    [done|]. simpl in HV.
  destruct (scopesClaim _ _) as [sc|] eqn:Hsc; [|done]. simpl in HV. simplify_eq/=.
  destruct (scopesClaim_clean _ _ _ Hsc) as [Hs1 Hs2]. split_and!; eauto using validateIssuer_ok, validateAudience_ok.
Qed.
End accepted.

End ProjectJWTVerifier.

(** ** Activation of the verifier *)

Module ProjectJWTManager.
Import ProjectJWTVerifier.

(** [projectJWTState]; the atomic pointer of the manager is an option. *)
Record state := mkState {
  enabled : bool;
  configVersion : Z;
  secretARN : string;
  secretVersionID : string;
  verifier : option ProjectJWTVerifier.t;
}.

Inductive error :=
| ErrNoSecretARN
| ErrNoSecretVersion
| ErrReconfigure (e : ProjectJWTVerifier.error)
| ErrNoReader
| ErrLoadSecret (e : string)
| ErrBuild (e : ProjectJWTVerifier.error).

Definition projectJWTVerifierConfig (cfg : ProjectJWTConfigSync.t) : Config :=
  mkConfig (ProjectJWTConfigSync.Algorithm cfg) (ProjectJWTConfigSync.Issuer cfg)
    (ProjectJWTConfigSync.Audiences cfg) (ProjectJWTConfigSync.SubjectClaim cfg)
    (ProjectJWTConfigSync.RoleClaim cfg) (ProjectJWTConfigSync.ScopesClaim cfg)
    (ProjectJWTConfigSync.ClockSkewSeconds cfg * second).

Section manager.
(** [ProjectJWTSecretReader.GetSecret secretID versionID]; [None] is a nil
    reader. *)
Context (GetSecret : option (string → string → result string string)).

(** The verifier of the current state when it is active for this secret, and
    whether the state has this configuration version: the two guards of
    [Apply]. *)
Definition reusable_verifier (current : option state) (arn ver : string)
  : option ProjectJWTVerifier.t :=
  match current with
  | Some st =>
      if enabled st && String.eqb (secretARN st) arn && String.eqb (secretVersionID st) ver
      then verifier st else None
  | None => None
  end.

Definition same_version (current : option state) (version : Z) : bool :=
  match current with Some st => (configVersion st =? version)%Z | None => false end.

(** The result is the new pointer, the calls made to Secrets Manager and the
    returned error. *)
Definition Apply (current : option state) (ocfg : option ProjectJWTConfigSync.t)
  : option state * list (string * string) * result error unit :=
  match ocfg with
  | None => (Some (mkState false 0 "" "" None), [], Ok ())
  | Some cfg =>
      if negb (ProjectJWTConfigSync.Enabled cfg)
      then (Some (mkState false (ProjectJWTConfigSync.ConfigVersion cfg) "" "" None), [], Ok ())
      else
        let arn := ProjectJWTConfigSync.SecretARN cfg in
        let ver := ProjectJWTConfigSync.SecretVersionID cfg in
        let version := ProjectJWTConfigSync.ConfigVersion cfg in
        if String.eqb arn "" then (current, [], Err ErrNoSecretARN)
        else if String.eqb ver "" then (current, [], Err ErrNoSecretVersion)
        else
          let verifierConfig := projectJWTVerifierConfig cfg in
          match reusable_verifier current arn ver with
          | Some v =>
              if same_version current version then (current, [], Ok ())
              else match Reconfigure v verifierConfig with
                   | Err e => (current, [], Err (ErrReconfigure e))
                   | Ok v' => (Some (mkState true version arn ver (Some v')), [], Ok ())
                   end
          | None =>
              match GetSecret with
              | None => (current, [], Err ErrNoReader)
              | Some get =>
                  match get arn ver with
                  | Err e => (current, [(arn, ver)], Err (ErrLoadSecret e))
                  | Ok secret =>
                      match NewProjectJWTVerifier secret verifierConfig with
                      | Err e => (current, [(arn, ver)], Err (ErrBuild e))
                      | Ok v => (Some (mkState true version arn ver (Some v)), [(arn, ver)], Ok ())
                      end
                  end
              end
          end
  end.

(** [ValidateIdentity] on the request path. *)
Definition active_verifier (current : option state) : option ProjectJWTVerifier.t :=
  match current with
  | Some st => if enabled st then verifier st else None
  | None => None
  end.

Definition ValidateIdentity `{!JWTLib} (current : option state) (tok : string)
  : result ProjectJWTVerifier.error Identity :=
  match active_verifier current with
  | None => Err ErrProjectJWTNotConfigured
  | Some v => ProjectJWTVerifier.ValidateIdentity (Some v) tok
  end.

(** *** Reference: load everything from scratch *)

Definition load (ocfg : option ProjectJWTConfigSync.t) : option state :=
  match ocfg with
  | None => Some (mkState false 0 "" "" None)
  | Some cfg =>
      let arn := ProjectJWTConfigSync.SecretARN cfg in
      let ver := ProjectJWTConfigSync.SecretVersionID cfg in
      let version := ProjectJWTConfigSync.ConfigVersion cfg in
      if ProjectJWTConfigSync.Enabled cfg then
        if String.eqb arn "" || String.eqb ver "" then None
        else match GetSecret with
             | None => None
             | Some get =>
                 match get arn ver with
                 | Err _ => None
                 | Ok secret =>
                     match NewProjectJWTVerifier secret (projectJWTVerifierConfig cfg) with
                     | Err _ => None
                     | Ok v => Some (mkState true version arn ver (Some v))
                     end
                 end
             end
      else Some (mkState false version "" "" None)
  end.

(** Two configurations with one version agree on the verifier's settings: the
    control plane increments the version with every change. *)
Definition version_determines (a b : option ProjectJWTConfigSync.t) : Prop :=
  ∀ x y, a = Some x → b = Some y →
    ProjectJWTConfigSync.ConfigVersion x = ProjectJWTConfigSync.ConfigVersion y →
    projectJWTVerifierConfig x = projectJWTVerifierConfig y.

Lemma NewProjectJWTVerifier_secret s cfg v : NewProjectJWTVerifier s cfg = Ok v → secret v = s.
Proof. unfold NewProjectJWTVerifier. intros H. by invert_branches H. Qed.

(** The active verifier holds the secret of the recorded ARN and version. *)
Lemma load_active ocfg st v :
  load ocfg = Some st → enabled st = true → verifier st = Some v →
  ∃ get, GetSecret = Some get ∧ get (secretARN st) (secretVersionID st) = Ok (secret v).
Proof.
  unfold load. intros H He Hv. invert_branches H.
  eexists. split; [done|]. simpl. by erewrite (NewProjectJWTVerifier_secret _ _ v).
Qed.

Lemma load_same ocfg cfg st v :
  load ocfg = Some st → enabled st = true → verifier st = Some v →
  version_determines ocfg (Some cfg) →
  ProjectJWTConfigSync.Enabled cfg = true →
  secretARN st = ProjectJWTConfigSync.SecretARN cfg →
  secretVersionID st = ProjectJWTConfigSync.SecretVersionID cfg →
  configVersion st = ProjectJWTConfigSync.ConfigVersion cfg →
  load (Some cfg) = Some st.
Proof.
  intros H He Hv Hd Hen Ha Hs Hc. unfold load in H. invert_branches H.
  simpl in Ha, Hs, Hc. unfold load. rewrite <-(Hd _ _ eq_refl eq_refl Hc), Hen, <-Ha, <-Hs, <-Hc.
  repeat match goal with HH : ?x = _ |- context [?x] => rewrite HH end. done.
Qed.

Lemma reusable_verifier_Some current arn ver v :
  reusable_verifier current arn ver = Some v →
  ∃ st, current = Some st ∧ enabled st = true ∧ secretARN st = arn ∧ secretVersionID st = ver ∧
    verifier st = Some v.
Proof.
  unfold reusable_verifier. destruct current as [st|]; [|done].
  destruct (enabled st) eqn:He; simpl; [|done].
  destruct (String.eqb_spec (secretARN st) arn); simpl; [|done].
  destruct (String.eqb_spec (secretVersionID st) ver); simpl; [|done]. eauto 10.
Qed.

(** Applying a configuration on top of the one loaded before has the same
    outcome as loading the new one from scratch, although the secret is fetched
    only when its ARN or version changed. *)
Lemma Apply_load (prev ocfg : option ProjectJWTConfigSync.t) (current : option state) :
  current = None ∨ current = load prev ∧ version_determines prev ocfg →
  let '(st, calls, r) := Apply current ocfg in
  match load ocfg with
  | Some new => st = Some new ∧ r = Ok ()
  | None => st = current ∧ is_ok r = false
  end ∧
  (∀ arn ver, (arn, ver) ∈ calls →
     ∀ s, current = Some s → enabled s = true → verifier s ≠ None →
     ¬ (secretARN s = arn ∧ secretVersionID s = ver)).
Proof.
  intros Hcur. unfold Apply. destruct ocfg as [cfg|]; [|simpl; set_solver].
  destruct (ProjectJWTConfigSync.Enabled cfg) eqn:Hen; simpl; rewrite ?Hen; [|set_solver].
  destruct (String.eqb_spec (ProjectJWTConfigSync.SecretARN cfg) ""); simpl; [set_solver|].
  destruct (String.eqb_spec (ProjectJWTConfigSync.SecretVersionID cfg) ""); simpl; [set_solver|].
  destruct (reusable_verifier current _ _) as [v|] eqn:Hr.
  - apply reusable_verifier_Some in Hr as (st & -> & He & Ha & Hs & Hv).
    destruct Hcur as [|[Hl Hd]]; [done|]. symmetry in Hl.
    destruct (load_active _ _ _ Hl He Hv) as (get & Hg & Hget). rewrite Ha, Hs in Hget.
    rewrite Hg, Hget. unfold Reconfigure. simpl.
    destruct (Z.eqb_spec (configVersion st) (ProjectJWTConfigSync.ConfigVersion cfg)) as [Hc|Hc].
    + pose proof (load_same _ _ _ _ Hl He Hv Hd Hen Ha Hs Hc) as Hsame.
      unfold load in Hsame. rewrite Hg, Hen, Hget in Hsame. invert_branches Hsame. set_solver.
    + destruct (NewProjectJWTVerifier _ _); simpl; set_solver.
  - assert (∀ s, current = Some s → enabled s = true → verifier s ≠ None →
      ¬ (secretARN s = ProjectJWTConfigSync.SecretARN cfg ∧
         secretVersionID s = ProjectJWTConfigSync.SecretVersionID cfg)) as Hno.
    { intros s -> He Hv [Ha Hs]. simpl in Hr. by rewrite He, Ha, Hs, !String.eqb_refl in Hr. }
    destruct GetSecret as [get|]; simpl; [|set_solver].
    destruct (get _ _); simpl; [destruct (NewProjectJWTVerifier _ _); simpl|].
    all: split; [done|]; intros arn ver Hin; apply list_elem_of_singleton in Hin;
      injection Hin as -> ->; exact Hno.
Qed.

(** The state after a sequence of configurations, and the reference: the last
    configuration that can be loaded from scratch. *)
Definition apply_all (cfgs : list (option ProjectJWTConfigSync.t)) : option state :=
  foldl (λ st ocfg, fst (fst (Apply st ocfg))) None cfgs.
Definition last_good (cfgs : list (option ProjectJWTConfigSync.t)) : option state :=
  foldl (λ st ocfg, match load ocfg with Some new => Some new | None => st end) None cfgs.

Lemma last_good_loads cfgs :
  last_good cfgs = None ∨ ∃ ocfg, ocfg ∈ cfgs ∧ last_good cfgs = load ocfg.
Proof.
  induction cfgs as [|ocfg cfgs IH] using rev_ind; [by left|].
  unfold last_good. rewrite foldl_app. simpl. fold (last_good cfgs).
  destruct (load ocfg) as [st|] eqn:Hl; [right; exists ocfg; set_solver|].
  destruct IH as [IH|(c & Hc & IH)]; [by left|]. right. exists c. set_solver.
Qed.

(** After any sequence of configuration syncs, the active JWT state is the
    one a from-scratch load of the last loadable configuration gives: reusing
    the cached secret never leaves a stale verifier, and a configuration that
    cannot be loaded leaves the previous one in force. *)
Theorem manager_tracks_last_good (cfgs : list (option ProjectJWTConfigSync.t)) :
  (∀ a b, a ∈ cfgs → b ∈ cfgs → version_determines a b) →
  apply_all cfgs = last_good cfgs.
Proof.
  induction cfgs as [|ocfg cfgs IH] using rev_ind; intros Hd; [done|].
  unfold apply_all, last_good. rewrite !foldl_app. simpl.
  fold (apply_all cfgs) (last_good cfgs). rewrite IH by set_solver.
  pose proof (last_good_loads cfgs) as Hg.
  assert (last_good cfgs = None ∨ ∃ prev, last_good cfgs = load prev ∧ version_determines prev ocfg)
    as [Hn|(prev & Hp)] by set_solver.
  - pose proof (Apply_load None ocfg _ (or_introl Hn)) as H.
    destruct (Apply _ ocfg) as [[st calls] r]. destruct H as [H _]. by destruct (load ocfg), H.
  - pose proof (Apply_load prev ocfg _ (or_intror Hp)) as H.
    destruct (Apply _ ocfg) as [[st calls] r]. destruct H as [H _]. by destruct (load ocfg), H.
Qed.
End manager.

End ProjectJWTManager.

(** ** API keys *)

Module KeyStore.

Record APIKeyRecord := mkRecord {
  RecClientID : string;
  RevokedAt : option Z;
  Roles : list string;
  RecScopes : list string;
}.

Record KeySnapshotDTO := mkDTO { KeyHash : string; DTORoles : list string; DTOScopes : list string }.

Definition keyPrefix : string := "apikey:".
Definition cacheTTL : Z := 10 * minute.

(** [local] is the in-memory map; [redis] holds, per key, the decoded JSON
    value ([None] when it does not decode) and its expiry instant. *)
Record store := mkStore {
  local : gmap string APIKeyRecord;
  redis : gmap string (option APIKeyRecord * Z);
}.

Definition NewRedisKeyStore : store := mkStore ∅ ∅.

Section keystore.
Context (sha256_hex : string → string).      (* hex of [sha256.Sum256] *)
Context (redis_prefix : string).             (* REDIS_PREFIX *)

(** [helper.PrefixedKey]. *)
Definition PrefixedKey (key : string) : string :=
  if String.eqb redis_prefix "" then key else redis_prefix +:+ key.

Definition hashKey (key : string) : string := sha256_hex (TrimSpace key).
Definition cacheKey (keyHash : string) : string := PrefixedKey (keyPrefix +:+ keyHash).

Definition snapshot_record (clientID : string) (k : KeySnapshotDTO) : APIKeyRecord :=
  mkRecord clientID None (DTORoles k) (DTOScopes k).

Definition UpdateLocalKeys (s : store) (clientID : string) (keys : list KeySnapshotDTO) : store :=
  mkStore (foldl (λ m k, <[KeyHash k := snapshot_record clientID k]> m) ∅ keys) (redis s).

(** What the environment answers during one call: the clock, whether a Redis
    client is configured, whether each Redis command succeeds, and the
    database ([None]: no repository). *)
Record env := mkEnv {
  now : Z;
  redis_on : bool;
  get_ok : bool;
  set_ok : bool;
  db : option (string → result string (option APIKeyRecord));
}.

(** The Redis GET of the cache entry, with its JSON decoding. *)
Definition redis_get (e : env) (s : store) (key : string) : option APIKeyRecord :=
  if redis_on e && get_ok e then
    match redis s !! key with
    | Some (Some rec, expiry) => if (now e <? expiry)%Z then Some rec else None
    | _ => None
    end
  else None.

Definition redis_set (e : env) (s : store) (key : string) (rec : APIKeyRecord) : store :=
  if redis_on e && set_ok e
  then mkStore (local s) (<[key := (Some rec, now e + cacheTTL)%Z]> (redis s))
  else s.

Definition ValidateWithContext (e : env) (s : store) (key : string) : store * option APIKeyRecord :=
  let key := TrimSpace key in
  if String.eqb key "" then (s, None)
  else
    let keyHash := hashKey key in
    match local s !! keyHash with
    | Some rec =>
        match RevokedAt rec with
        | Some t => if (t <? now e)%Z then (s, None) else (s, Some rec)
        | None => (s, Some rec)
        end
    | None =>
        match redis_get e s (cacheKey keyHash) with
        | Some rec => (s, Some rec)
        | None =>
            match db e with
            | None => (s, None)
            | Some find =>
                match find keyHash with
                | Ok (Some record) =>
                    match RevokedAt record with
                    | Some _ => (s, None)
                    | None => (redis_set e s (cacheKey keyHash) record, Some record)
                    end
                | _ => (s, None)
                end
            end
        end
    end.

Definition Validate (e : env) (s : store) (key : string) : store * option APIKeyRecord :=
  ValidateWithContext e s key.

(** [Loader.WarmAPIKeyCache] for a loader with a key store and a Redis client
    when [redis_on e]; a failed SET skips the entry. *)
Definition WarmAPIKeyCache (e : env) (s : store) (projectID : string) (keys : list KeySnapshotDTO)
  : store :=
  let s := UpdateLocalKeys s projectID keys in
  foldl (λ s k, redis_set e s (cacheKey (KeyHash k)) (snapshot_record projectID k)) s keys.

(** *** Revocation *)

Inductive event :=
| EvValidate (e : env) (key : string)
| EvWarm (e : env) (projectID : string) (keys : list KeySnapshotDTO).

Definition apply_event (s : store) (ev : event) : store :=
  match ev with
  | EvValidate e key => fst (Validate e s key)
  | EvWarm e projectID keys => WarmAPIKeyCache e s projectID keys
  end.

(** After the revocation the database has no live record for the hash and the
    synchronised snapshots do not list it. *)
Definition no_live_record (h : string) (e : env) : Prop :=
  ∀ find rec, db e = Some find → find h = Ok (Some rec) → RevokedAt rec ≠ None.

Definition after_revocation (h : string) (ev : event) : Prop :=
  match ev with
  | EvValidate e _ => no_live_record h e
  | EvWarm _ _ keys => h ∉ KeyHash <$> keys
  end.

(** The key is absent from memory and Redis forgets it by [deadline]. *)
Definition fading (h : string) (deadline : Z) (s : store) : Prop :=
  local s !! h = None ∧
  ∀ v expiry, redis s !! cacheKey h = Some (v, expiry) → (expiry ≤ deadline)%Z.

Lemma cacheKey_inj h h' : cacheKey h = cacheKey h' → h = h'.
Proof.
  unfold cacheKey, PrefixedKey. intros H. destruct (String.eqb redis_prefix "").
  - by apply (inj (String.append keyPrefix)) in H.
  - apply (inj (String.append redis_prefix)) in H. by apply (inj (String.append keyPrefix)) in H.
Qed.

Lemma fading_redis_set h d e s h' rec :
  h ≠ h' → fading h d s → fading h d (redis_set e s (cacheKey h') rec).
Proof.
  intros Hne [Hl Hr]. unfold redis_set. destruct (_ && _); [|done]. split; [done|].
  simpl. intros v expiry. rewrite lookup_insert_ne; [apply Hr|].
  intros Heq%cacheKey_inj. congruence.
Qed.

Lemma fading_Validate h d e s key :
  no_live_record h e → fading h d s → fading h d (fst (Validate e s key)).
Proof.
  intros Hno Hf. unfold Validate, ValidateWithContext.
  destruct (String.eqb _ ""); [done|]. set (h' := hashKey (TrimSpace key)).
  destruct (local s !! h') as [rec|]; [by destruct (RevokedAt rec); [destruct (_ <? _)%Z|]|].
  destruct (redis_get _ _ _); [done|].
  destruct (db e) as [find|] eqn:Hdb; [|done].
  destruct (find h') as [[rec|]|err] eqn:Hfind; [|done..].
  destruct (RevokedAt rec) eqn:Hr; [done|]. simpl. apply fading_redis_set; [|done].
  intros <-. by eapply Hno.
Qed.

Lemma UpdateLocalKeys_lookup h keys p (m : gmap string APIKeyRecord) :
  h ∉ KeyHash <$> keys →
  foldl (λ m k, <[KeyHash k := snapshot_record p k]> m) m keys !! h = m !! h.
Proof.
  revert m. induction keys as [|k keys IH]; intros m Hn; [done|]. simpl.
  rewrite fmap_cons in Hn. apply not_elem_of_cons in Hn as [Hne Hn].
  rewrite IH by done. by rewrite lookup_insert_ne.
Qed.

Lemma fading_Warm h d e s p keys :
  h ∉ KeyHash <$> keys → fading h d s → fading h d (WarmAPIKeyCache e s p keys).
Proof.
  intros Hn [Hl Hr]. unfold WarmAPIKeyCache.
  assert (Hf : fading h d (UpdateLocalKeys s p keys)).
  { split; [|done]. simpl. by rewrite UpdateLocalKeys_lookup. }
  revert Hn Hf. generalize (UpdateLocalKeys s p keys). clear.
  induction keys as [|k keys IH]; intros s Hn Hf; [done|]. simpl.
  rewrite fmap_cons in Hn. apply not_elem_of_cons in Hn as [Hne Hn].
  apply IH; [done|]. by apply fading_redis_set.
Qed.

Lemma fading_events h d evs s :
  Forall (after_revocation h) evs → fading h d s → fading h d (foldl apply_event s evs).
Proof.
  intros H. revert s. induction H as [|[e key|e p keys] evs Hev _ IH]; intros s Hf; simpl; [done|..].
  - apply IH. by apply fading_Validate.
  - apply IH. by apply fading_Warm.
Qed.

(** A revoked API key stops working once the cache lifetime (ten minutes)
    has passed since the revocation, whatever validations of this or other
    keys and whatever snapshot syncs happen in between: nothing renews the
    cached entry of a revoked key. *)
Theorem revocation_effective_within_ttl (t0 : Z) (s : store) (evs : list event) (e : env) (key : string) :
  fading (hashKey (TrimSpace key)) (t0 + cacheTTL) s →
  Forall (after_revocation (hashKey (TrimSpace key))) evs →
  no_live_record (hashKey (TrimSpace key)) e →
  (t0 + cacheTTL ≤ now e)%Z →
  snd (Validate e (foldl apply_event s evs) key) = None.
Proof.
  intros Hf Hevs Hno Ht. apply (fading_events _ _ evs) in Hf as [Hl Hr]; [|done].
  set (s' := foldl apply_event s evs) in *. unfold Validate, ValidateWithContext.
  destruct (String.eqb _ ""); [done|]. rewrite Hl.
  assert (redis_get e s' (cacheKey (hashKey (TrimSpace key))) = None) as ->.
  { unfold redis_get. destruct (_ && _); [|done].
    destruct (redis s' !! _) as [[[rec|] expiry]|] eqn:Hx; [|done..].
    specialize (Hr _ _ eq_refl). destruct (Z.ltb_spec (now e) expiry); [lia|done]. }
  destruct (db e) as [find|] eqn:Hdb; [|done].
  destruct (find _) as [[rec|]|err] eqn:Hfind; [|done..].
  destruct (RevokedAt rec) eqn:Hrev; [done|]. exfalso. by eapply Hno.
Qed.
End keystore.

End KeyStore.

(** ** The authentication middleware *)

Module AuthMiddleware.
Import Http.

(** [helper.Contains] and [helper.HasAllScopes]. *)
Definition helper_Contains (list : list string) (target : string) : bool :=
  existsb (λ v, String.eqb v target) list.

Definition HasAllScopes (clientScopes required : list string) : bool :=
  let have : gset string := list_to_set clientScopes in
  forallb (λ s, bool_decide (s ∈ have)) required.

Definition isPublicPath (path : string) : bool :=
  String.eqb path "/health" || String.eqb path "/ready".

(** [isPreflight], of [routeMatch.go]. *)
Definition isPreflight (r : request) : bool :=
  if negb (String.eqb (Method r) "OPTIONS") then false
  else
    let origin := TrimSpace (Get (Header r) "Origin") in
    let acrm := TrimSpace (Get (Header r) "Access-Control-Request-Method") in
    negb (String.eqb origin "") && negb (String.eqb acrm "").

(** The two interfaces of the middleware, on the state [S] of the process; a
    nil field is [None]. *)
Record t (S E : Type) := mk {
  JWTValidator : option (S → string → result E Identity);
  Store : option (S → string → S * option KeyStore.APIKeyRecord);
}.
Arguments JWTValidator {S E}.
Arguments Store {S E}.

Section middleware.
Context {S E : Type} (a : t S E).

(** Authentication: the identity and the state, or the 401 message. *)
Definition authenticate (s : S) (r : request) : S * result string (string * string * list string) :=
  let bearer := Get (Header r) "Authorization" in
  if HasPrefix bearer "Bearer " then
    match JWTValidator a with
    | None => (s, Err "JWT authentication is not configured")
    | Some validate =>
        let tokenStr := TrimSpace (TrimPrefix bearer "Bearer ") in
        if String.eqb tokenStr "" then (s, Err "invalid token")
        else match validate s tokenStr with
             | Err _ => (s, Err "invalid token")
             | Ok id => (s, Ok (ClientID id, Role id, Scopes id))
             end
    end
  else
    let key := TrimSpace (Get (Header r) "X-API-Key") in
    match (if String.eqb key "" then None else Store a) with
    | Some validate =>
        match validate s key with
        | (s, Some rec) => (s, Ok (KeyStore.RecClientID rec, "client", KeyStore.RecScopes rec))
        | (s, None) => (s, Err "invalid api key")
        end
    | None => (s, Err "authentication required")
    end.

(** The access-control list of the route: the 403 message, if refused. *)
Definition acl (ort : option Route.t) (role : string) (scopes : list string) : option string :=
  match ort with
  | None => None
  | Some rt =>
      if negb (bool_decide (Route.AllowedRoles rt = [])) &&
         negb (helper_Contains (Route.AllowedRoles rt) role)
      then Some "forbidden: role not permitted"
      else if negb (bool_decide (Route.AllowedScopes rt = [])) &&
              negb (HasAllScopes scopes (Route.AllowedScopes rt))
      then Some "forbidden: insufficient scopes"
      else None
  end.

Definition open_route (ort : option Route.t) : bool :=
  match ort with Some rt => negb (Route.AuthRequired rt) | None => false end.

Definition Middleware (next : handler S) : handler S := λ s w r,
  if isPublicPath (Path r) || isPreflight r then next s w r
  else if open_route (CtxRoute (ctx r)) then next s w r
  else
    match authenticate s r with
    | (s, Err msg) => (s, httpJSON w 401 (error_json msg))
    | (s, Ok (clientID, role, scopes)) =>
        match acl (CtxRoute (ctx r)) role scopes with
        | Some msg => (s, httpJSON w 403 (error_json msg))
        | None => next s w (WithContext r (with_identity (ctx r) clientID role scopes))
        end
    end.

(** *** Correctness *)

(** The request carries credentials for this identity: a bearer token the
    validator accepts, or an API key the store knows. *)
Definition credentials (s : S) (r : request) (clientID role : string) (scopes : list string) : Prop :=
  (∃ validate id raw, JWTValidator a = Some validate ∧
     Get (Header r) "Authorization" = "Bearer " +:+ raw ∧
     validate s (TrimSpace raw) = Ok id ∧
     clientID = ClientID id ∧ role = Role id ∧ scopes = Scopes id) ∨
  (∃ validate rec, Store a = Some validate ∧
     snd (validate s (TrimSpace (Get (Header r) "X-API-Key"))) = Some rec ∧
     clientID = KeyStore.RecClientID rec ∧ role = "client" ∧ scopes = KeyStore.RecScopes rec).

(** The route's role and scope restrictions. *)
Definition permitted (rt : Route.t) (role : string) (scopes : list string) : Prop :=
  (Route.AllowedRoles rt = [] ∨ role ∈ Route.AllowedRoles rt) ∧
  (∀ sc, sc ∈ Route.AllowedScopes rt → sc ∈ scopes).

Lemma helper_Contains_spec l x : helper_Contains l x = true ↔ x ∈ l.
Proof.
  unfold helper_Contains. rewrite existsb_exists, list_elem_of_In. split.
  - by intros (y & Hy & ->%String.eqb_eq).
  - intros H. exists x. by rewrite String.eqb_refl.
Qed.

Lemma HasAllScopes_spec have req : HasAllScopes have req = true ↔ ∀ x, x ∈ req → x ∈ have.
Proof.
  unfold HasAllScopes. rewrite forallb_forall. setoid_rewrite bool_decide_eq_true.
  setoid_rewrite elem_of_list_to_set. setoid_rewrite list_elem_of_In. done.
Qed.

Lemma acl_None rt role scopes : acl (Some rt) role scopes = None ↔ permitted rt role scopes.
Proof.
  unfold acl, permitted. rewrite <-helper_Contains_spec, <-HasAllScopes_spec.
  assert (Route.AllowedScopes rt = [] → HasAllScopes scopes (Route.AllowedScopes rt) = true)
    as Hnil by (by intros ->).
  case_bool_decide as Hr; case_bool_decide as Hs; simpl;
    destruct (helper_Contains _ _) eqn:Hc, (HasAllScopes _ _) eqn:Ha; simpl; intuition congruence.
Qed.

Lemma authenticate_Ok s r s' clientID role scopes :
  authenticate s r = (s', Ok (clientID, role, scopes)) → credentials s r clientID role scopes.
Proof.
  unfold authenticate, credentials. intros H.
  destruct (HasPrefix (Get (Header r) "Authorization") "Bearer ") eqn:Hp.
  - apply HasPrefix_spec in Hp as [raw Hraw]. rewrite Hraw, TrimPrefix_app in H. left.
    invert_branches H. eauto 10.
  - right. destruct (String.eqb _ ""); [done|]. destruct (Store a) as [validate|]; [|done].
    destruct (validate s _) as [s1 [rec|]] eqn:Hv; simplify_eq. exists validate, rec.
    by rewrite Hv.
Qed.

(** The outcomes of the middleware: the request goes on unchanged, goes on with
    an identity, or is answered here. *)
Lemma Middleware_cases s w r :
  (((isPublicPath (Path r) || isPreflight r) || open_route (CtxRoute (ctx r)) = true) ∧
   ∀ next, Middleware next s w r = next s w r) ∨
  ((isPublicPath (Path r) || isPreflight r) || open_route (CtxRoute (ctx r)) = false ∧
   ((∃ clientID role scopes,
       credentials s r clientID role scopes ∧ acl (CtxRoute (ctx r)) role scopes = None ∧
       ∀ next, Middleware next s w r = next (fst (authenticate s r)) w
         (WithContext r (with_identity (ctx r) clientID role scopes))) ∨
    (∃ code msg, (code = 401 ∨ code = 403)%Z ∧
       ∀ next, Middleware next s w r = (fst (authenticate s r), httpJSON w code (error_json msg))))).
Proof.
  unfold Middleware. destruct (isPublicPath (Path r) || isPreflight r); [left; eauto|].
  destruct (open_route (CtxRoute (ctx r))); [left; eauto|]. right. split; [done|].
  destruct (authenticate s r) as [s' [[[clientID role] scopes]|msg]] eqn:Hauth; [|eauto 10].
  pose proof (authenticate_Ok _ _ _ _ _ _ Hauth) as Hc.
  destruct (acl (CtxRoute (ctx r)) role scopes) as [msg|] eqn:Hacl; [right; eauto 10|left].
  exists clientID, role, scopes. eauto.
Qed.

(** C37: on a route that requires authentication, a request that is neither a
    public path nor a CORS preflight reaches the next handler only with valid
    credentials whose role and scopes the route permits, and then with that
    identity in its context; otherwise the answer is 401 or 403 and does not
    depend on the next handler. *)
Theorem auth_guards_route (s : S) (w : writer) (r : request) (rt : Route.t) :
  CtxRoute (ctx r) = Some rt → Route.AuthRequired rt = true →
  isPublicPath (Path r) = false → isPreflight r = false → Sent w = None →
  (∃ s' clientID role scopes, credentials s r clientID role scopes ∧ permitted rt role scopes ∧
     ∀ next, Middleware next s w r =
       next s' w (WithContext r (with_identity (ctx r) clientID role scopes))) ∨
  (∃ s' w', (status w' = 401%Z ∨ status w' = 403%Z) ∧ ∀ next, Middleware next s w r = (s', w')).
Proof.
  intros Hrt Ha Hp Hf Hw. destruct (Middleware_cases s w r) as [[Hc _]|[_ [H|H]]].
  - rewrite Hp, Hf, Hrt in Hc. simpl in Hc. by rewrite Ha in Hc.
  - left. destruct H as (clientID & role & scopes & Hc & Hacl & Hn). rewrite Hrt in Hacl.
    exists (fst (authenticate s r)), clientID, role, scopes. split_and!; [done|by apply acl_None|done].
  - right. destruct H as (code & msg & Hcode & Hn).
    exists (fst (authenticate s r)), (httpJSON w code (error_json msg)). split; [|done].
    rewrite status_httpJSON by done. done.
Qed.
End middleware.

End AuthMiddleware.

(** ** Concrete inputs *)

Module AuthSamples.
Import Http.

Definition key32 : string := "0123456789abcdef0123456789abcdef".

Definition sample_token : token :=
  mkToken "HS256" true
    {["exp" := VNum 2000; "iss" := VString "acme"; "aud" := VAny [Some "api"; None];
      "sub" := VString " client-7 "; "role" := VString "user"; "scope" := VString "read write read"]}
    true.

(** A library that knows one signed token. *)
#[local] Instance sample_lib : JWTLib := {|
  ParseWithClaims kf methods leeway req raw :=
    if negb (String.eqb raw "h.c.s") then Err "malformed"
    else if negb (bool_decide ("HS256" ∈ methods)) then Err "method"
    else match kf sample_token with
         | Err e => Err e
         | Ok key =>
             if negb (String.eqb key key32) then Err "signature"
             else if (1000 * second <? 2000 * second + leeway)%Z then Ok sample_token
             else Err "expired"
         end;
  signature_ok raw key := String.eqb raw "h.c.s" && String.eqb key key32;
  jwt_now := 1000 * second;
|}.

#[local] Instance sample_lib_laws : JWTLibLaws.
Proof.
  assert (Hspec : ∀ kf methods leeway req raw tok,
    ParseWithClaims kf methods leeway req raw = Ok tok →
    "HS256" ∈ methods ∧ tok = sample_token ∧ kf tok = Ok key32 ∧ raw = "h.c.s" ∧
    (1000 * second < 2000 * second + leeway)%Z).
  { intros kf methods leeway req raw tok. simpl. destruct (String.eqb_spec raw "h.c.s"); simpl; [|done].
    case_bool_decide; simpl; [|done]. destruct (kf sample_token) as [key|err] eqn:Hk; [|done].
    destruct (String.eqb_spec key key32); simpl; [|done].
    destruct (Z.ltb_spec (1000 * second) (2000 * second + leeway)); [|done].
    intros [= <-]. subst. done. }
  split; intros * (H1 & -> & H3 & -> & H5)%Hspec.
  - done.
  - by exists key32.
  - by exists 2000%Z.
Qed.

Definition sample_config : ProjectJWTVerifier.Config :=
  ProjectJWTVerifier.mkConfig "HS256" (Some "acme") ["api"] "sub" "role" "scope" 0.

Definition sample_verifier : ProjectJWTVerifier.t := ProjectJWTVerifier.mk key32 sample_config.

Lemma jwt_accepts_only_verified_witness :
  ProjectJWTVerifier.Validate (Some sample_verifier) " h.c.s" =
    Ok (mkIdentity "client-7" "user" ["read"; "write"]) ∧
  signature_ok "h.c.s" key32 = true.
Proof.
  assert (H : ProjectJWTVerifier.Validate (Some sample_verifier) " h.c.s" =
    Ok (mkIdentity "client-7" "user" ["read"; "write"])) by (vm_compute; reflexivity).
  split; [exact H|].
  destruct (ProjectJWTVerifier.jwt_accepts_only_verified _ _ _ H) as (tok & _ & _ & Hs & _). exact Hs.
Defined.

Definition jwt_sync (version : Z) (aud : string) (ver : string) : ProjectJWTConfigSync.t :=
  ProjectJWTConfigSync.mk true "HS256" "arn:secret" ver version None [aud] "" "" "" 30.

Definition sample_reader : option (string → string → result string string) :=
  Some (λ _ ver, if String.eqb ver "v1" then Ok key32 else Err "not found").

Lemma manager_tracks_last_good_witness :
  ProjectJWTManager.apply_all sample_reader
    [Some (jwt_sync 1 "a" "v1"); Some (jwt_sync 2 "b" "v1"); Some (jwt_sync 3 "b" "v9")] =
  ProjectJWTManager.load sample_reader (Some (jwt_sync 2 "b" "v1")).
Proof.
  rewrite (ProjectJWTManager.manager_tracks_last_good sample_reader); [vm_compute; reflexivity|].
  intros a b Ha Hb x y -> -> Hv. rewrite !elem_of_cons, elem_of_nil in Ha, Hb.
  destruct Ha as [[= ->]|[[= ->]|[[= ->]|[]]]], Hb as [[= ->]|[[= ->]|[[= ->]|[]]]];
    first [reflexivity|discriminate Hv].
Defined.

Definition revoked_db : option (string → result string (option KeyStore.APIKeyRecord)) :=
  Some (λ _, Ok (Some (KeyStore.mkRecord "p" (Some 5%Z) [] []))).

Definition cached_store : KeyStore.store :=
  KeyStore.mkStore ∅
    {["t:apikey:k" := (Some (KeyStore.mkRecord "p" None [] []), KeyStore.cacheTTL)]}.

(** The cached entry still answers before its expiry, and no more after it. *)
Example revoked_before_expiry :
  snd (KeyStore.Validate (λ k, k) "t:" (KeyStore.mkEnv 10 true true true revoked_db) cached_store "k")
  = Some (KeyStore.mkRecord "p" None [] []).
Proof. vm_compute. reflexivity. Qed.

Lemma revocation_effective_within_ttl_witness :
  snd (KeyStore.Validate (λ k, k) "t:" (KeyStore.mkEnv (11 * minute) true true true revoked_db)
    (foldl (KeyStore.apply_event (λ k, k) "t:") cached_store
      [KeyStore.EvValidate (KeyStore.mkEnv minute true true true revoked_db) "k";
       KeyStore.EvWarm (KeyStore.mkEnv minute true true true None) "p" [KeyStore.mkDTO "z" [] []]]) "k")
  = None.
Proof.
  assert (Hno : ∀ h t, KeyStore.no_live_record h (KeyStore.mkEnv t true true true revoked_db)).
  { intros h t find rec [= <-] [= <-]. done. }
  apply (KeyStore.revocation_effective_within_ttl (λ k, k) "t:" 0).
  - split; [vm_compute; reflexivity|]. intros v expiry H.
    replace (KeyStore.redis cached_store !! _) with
      (Some (Some (KeyStore.mkRecord "p" None [] []), KeyStore.cacheTTL)) in H
      by (vm_compute; reflexivity).
    injection H as _ <-. unfold KeyStore.cacheTTL. lia.
  - apply Forall_cons_2; [apply Hno|]. apply Forall_cons_2; [|constructor].
    intros H%list_elem_of_singleton. vm_compute in H. discriminate H.
  - apply Hno.
  - vm_compute. done.
Defined.

Definition guarded_route : Route.t :=
  let rt := http_route "/api" "exact" ["GET"] in
  Route.mk (Route.ID rt) (Route.ProjectID rt) (Route.Name rt) (Route.Path rt) None "" (Route.Methods rt)
    "http" "exact" true None true 0 [] ["user"] ["read"] [] [] 0 0.

Definition bearer_request : request :=
  mkRequest "GET" "/api" "gw" "10.0.0.1:5000" {["authorization" := ["Bearer h.c.s"]]}
    (with_route background guarded_route).

Definition sample_auth : AuthMiddleware.t unit ProjectJWTVerifier.error :=
  AuthMiddleware.mk _ _ (Some (λ _, ProjectJWTVerifier.ValidateIdentity (Some sample_verifier))) None.

Example bearer_forwarded :
  AuthMiddleware.Middleware sample_auth (λ s w _, (s, WriteHeader w 204)) () new_writer bearer_request
  = ((), WriteHeader new_writer 204).
Proof. vm_compute. reflexivity. Qed.

Lemma auth_guards_route_witness :
  (∃ s' clientID role scopes,
     AuthMiddleware.credentials sample_auth () bearer_request clientID role scopes ∧
     AuthMiddleware.permitted guarded_route role scopes ∧
     ∀ next, AuthMiddleware.Middleware sample_auth next () new_writer bearer_request =
       next s' new_writer
         (WithContext bearer_request (with_identity (ctx bearer_request) clientID role scopes))) ∨
  (∃ s' w', (status w' = 401%Z ∨ status w' = 403%Z) ∧
     ∀ next, AuthMiddleware.Middleware sample_auth next () new_writer bearer_request = (s', w')).
Proof. apply AuthMiddleware.auth_guards_route; vm_compute; reflexivity. Defined.

End AuthSamples.
