(* ===== verification/Loader.v ===== *)
(** * The configuration loader of the gateway

    [src/internal/gateway/runtime/config.go] and
    [src/internal/gateway/runtime/loader.go]: host normalisation, the in-memory
    snapshot, and [reload], which fetches a tenant snapshot, applies its JWT
    configuration, rebuilds pools and domain map, swaps the snapshot, and
    passes on health targets and API keys.

    A pool and the loader's strategy table share the strategy object by
    pointer, and requests in flight keep the pointer they picked from; so
    strategies live in a store ([heap]) and both hold its locations. *)

From Stdlib Require Import Ascii.
From S2P Require Import Prelude GoStrings Model GoNet Http LoadBalancer Health Auth.

Module Loader.
Import Http.

(** ** [config.go] *)

Definition NormalizeHost (host : string) : string :=
  let host := TrimSpace host in
  let host := ToLower host in
  let host := TrimSuffix host "." in
  let host := match GoNet.SplitHostPort host with Ok (h, _) => h | Err _ => host end in
  TrimSuffix host ".".

Record UpstreamPool := mkPool {
  PoolProjectID : string;
  Targets : list Target.t;
  Strategy : nat;          (* location in the heap *)
  HealthPath : string;
}.

Record Snapshot := mkSnapshot {
  Routes : list Route.t;
  UpstreamPools : gmap string UpstreamPool;
  CustomDomains : list CustomDomainSync.t;
  DomainMap : gmap string DomainContext;
}.

Definition empty_snapshot : Snapshot := mkSnapshot [] ∅ [] ∅.

Definition LookupDomain (s : Snapshot) (host : string) : option DomainContext :=
  if (size (DomainMap s) =? 0)%nat then None else DomainMap s !! NormalizeHost host.

(** ** [control_client.go]: what a sync returns *)

Record TenantSnapshot := mkTenantSnapshot {
  SnapRoutes : list Route.t;
  SnapUpstreams : list Upstream.t;
  SnapTargets : gmap string (list UpstreamTarget.t);
  SnapAPIKeys : list KeyStore.KeySnapshotDTO;
  SnapCustomDomains : list CustomDomainSync.t;
  SnapJWTAuth : option ProjectJWTConfigSync.t;
}.

(** ** [loader.go] *)

Record t := mk {
  snapshot : Snapshot;
  strategies : gmap string nat;
  heap : list AnyStrategy;
  health : option Health.Checker;
  jwt : option ProjectJWTManager.state;
  keyStore : KeyStore.store;
}.

Definition NewLoader : t := mk empty_snapshot ∅ [] None None KeyStore.NewRedisKeyStore.

Definition normalizeLBStrategy (s : string) : string :=
  if String.eqb s "least_conn" then "least_conn" else "round_robin".

(** The strategy table and the heap, the part of the loader that
    [strategyFor] changes. *)
Abbreviation table := (gmap string nat * list AnyStrategy)%type (only parsing).

Definition strategyFor (st : table) (upstreamID lbStrategy : string) : table * nat :=
  let '(strategies, heap) := st in
  let fresh := (<[upstreamID := length heap]> strategies, heap ++ [NewStrategy lbStrategy]) in
  match strategies !! upstreamID with
  | Some loc =>
      match heap !! loc with
      | Some existing =>
          if String.eqb (Name existing) (normalizeLBStrategy lbStrategy)
          then (st, loc)
          else (fresh, length heap)
      | None => (fresh, length heap)   (* unreachable: locations are allocated *)
      end
  | None => (fresh, length heap)
  end.

(** The targets of one upstream: the enabled ones, or the upstream's own URL. *)
Definition pool_targets (snap : TenantSnapshot) (u : Upstream.t) : list Target.t :=
  let raw := default [] (SnapTargets snap !! Upstream.ID u) in
  let targets :=
    (λ x, Target.mk (UpstreamTarget.ID x) (UpstreamTarget.TargetURL x) (UpstreamTarget.Weight x)) <$>
      filter (λ x, UpstreamTarget.Enabled x = true) raw in
  if (length targets =? 0)%nat && negb (String.eqb (Upstream.TargetURL u) "")
  then [Target.mk (Upstream.ID u) (Upstream.TargetURL u) 1]
  else targets.

(** One round of the loop of [buildPoolsFromSnapshot]. *)
Definition build_pool (snap : TenantSnapshot) (acc : table * gmap string UpstreamPool) (u : Upstream.t)
  : table * gmap string UpstreamPool :=
  let '(st, pools) := acc in
  let '(st, loc) := strategyFor st (Upstream.ID u) (Upstream.LBStrategy u) in
  (st, <[Upstream.ID u :=
          mkPool (Upstream.ProjectID u) (pool_targets snap u) loc (Upstream.HealthPath u)]> pools).

Definition buildPoolsFromSnapshot (st : table) (snap : TenantSnapshot)
  : table * gmap string UpstreamPool :=
  foldl (build_pool snap) (st, ∅) (SnapUpstreams snap).

(** Whether a synchronised domain is routed: its normalised host is not empty
    and it is active and ready. *)
Definition routed (cd : CustomDomainSync.t) : bool :=
  negb (String.eqb (NormalizeHost (CustomDomainSync.Hostname cd)) "") &&
  String.eqb (CustomDomainSync.Status cd) "active" &&
  String.eqb (CustomDomainSync.RoutingStatus cd) "ready".

Definition buildDomainMap (snap : TenantSnapshot) : gmap string DomainContext :=
  foldl (λ m cd,
    if routed cd
    then <[NormalizeHost (CustomDomainSync.Hostname cd) :=
            mkDomainContext (CustomDomainSync.Hostname cd) (CustomDomainSync.Status cd)
              (CustomDomainSync.RoutingStatus cd)]> m
    else m) ∅ (SnapCustomDomains snap).

(** [order] is the order in which Go's map iteration visits the pools. *)
Definition syncHealthTargets (order : list (string * UpstreamPool)) (hc : option Health.Checker)
  : option Health.Checker :=
  match hc with
  | None => None
  | Some c =>
      let targets :=
        foldl (λ m '(_, pool),
          foldl (λ m x, <[Target.URL x :=
              Health.mkConfig (HealthPath pool) (PoolProjectID pool)]> m) m (Targets pool))
          ∅ order in
      Some (Health.SyncTargets c targets)
  end.

Inductive error := ErrFetch (e : string) | ErrApply (e : ProjectJWTManager.error).

Section reload.
Context (GetSecret : option (string → string → result string string)).
Context (sha256_hex : string → string) (redis_prefix : string).
Context (iter : gmap string UpstreamPool → list (string * UpstreamPool)).
Context (projectID : string).

(** [reload] for a loader with a JWT applier and a key store; [fetched] is the
    answer of the control plane. *)
Definition reload (env : KeyStore.env) (fetched : result string TenantSnapshot) (l : t)
  : t * result error unit :=
  match fetched with
  | Err e => (l, Err (ErrFetch e))
  | Ok snap =>
      match ProjectJWTManager.Apply GetSecret (jwt l) (SnapJWTAuth snap) with
      | (jwt', _, Err e) =>
          (mk (snapshot l) (strategies l) (heap l) (health l) jwt' (keyStore l), Err (ErrApply e))
      | (jwt', _, Ok _) =>
          let '((strategies', heap'), pools) :=
            buildPoolsFromSnapshot (strategies l, heap l) snap in
          let domainMap := buildDomainMap snap in
          let snapshot' := mkSnapshot (SnapRoutes snap) pools (SnapCustomDomains snap) domainMap in
          let health' := syncHealthTargets (iter pools) (health l) in
          let keyStore' :=
            KeyStore.WarmAPIKeyCache redis_prefix env (keyStore l) projectID (SnapAPIKeys snap) in
          (mk snapshot' strategies' heap' health' jwt' keyStore', Ok ())
      end
  end.
End reload.

Definition Current (l : t) : Snapshot := snapshot l.

(** ** Failed reloads *)

Lemma Apply_error_state GetSecret cur cfg st calls e :
  ProjectJWTManager.Apply GetSecret cur cfg = (st, calls, Err e) → st = cur.
Proof. unfold ProjectJWTManager.Apply. intros H. invert_branches H; done. Qed.

(** ** Strategies *)

(** Every recorded location is allocated. *)
Definition table_ok (st : table) : Prop :=
  ∀ id loc, fst st !! id = Some loc → is_Some (snd st !! loc).

Lemma Name_NewStrategy lb : Name (NewStrategy lb) = normalizeLBStrategy lb.
Proof. unfold NewStrategy, normalizeLBStrategy. by destruct (String.eqb lb "least_conn"). Qed.

Lemma lookup_prefix_Some {A} (l l' : list A) i x : l `prefix_of` l' → l !! i = Some x → l' !! i = Some x.
Proof. intros [k ->] H. by apply lookup_app_l_Some. Qed.

(** What the loop needs of one call: the heap only grows, the table stays
    valid, the returned object has the configured kind, and an object of that
    kind that the table already had is kept with its state. *)
Lemma strategyFor_spec st id lb st' loc :
  table_ok st → strategyFor st id lb = (st', loc) →
  snd st `prefix_of` snd st' ∧ table_ok st' ∧
  (∀ id', id' ≠ id → fst st' !! id' = fst st !! id') ∧
  (∃ s, snd st' !! loc = Some s ∧ Name s = normalizeLBStrategy lb) ∧
  (∀ loc0 s0, fst st !! id = Some loc0 → snd st !! loc0 = Some s0 →
     Name s0 = normalizeLBStrategy lb → loc = loc0).
Proof.
  destruct st as [S H]. intros Hok Heq.
  assert (Hfresh : table_ok (<[id := length H]> S, H ++ [NewStrategy lb])).
  { intros id' loc'. simpl. rewrite lookup_insert_Some. intros [[-> <-]|[_ Hl]].
    - rewrite lookup_app_r, Nat.sub_diag by lia. simpl. eauto.
    - destruct (Hok _ _ Hl) as [x Hx]. exists x. by apply lookup_app_l_Some. }
  assert (Hnew : ∃ s, (H ++ [NewStrategy lb]) !! length H = Some s ∧ Name s = normalizeLBStrategy lb).
  { exists (NewStrategy lb). rewrite lookup_app_r, Nat.sub_diag by lia. by rewrite Name_NewStrategy. }
  assert (Hne : ∀ id', id' ≠ id → <[id := length H]> S !! id' = S !! id')
    by (intros; by apply lookup_insert_ne).
  pose proof (prefix_app_r H H [NewStrategy lb] (reflexivity H)) as Hpre.
  unfold strategyFor in Heq. destruct (S !! id) as [loc1|] eqn:Hid.
  2: { simplify_eq/=. rewrite Hid. split_and!; [done..|]. intros ??[=]. }
  destruct (H !! loc1) as [ex|] eqn:Hex.
  2: { destruct (Hok _ _ Hid) as [x Hx]. simpl in Hx. congruence. }
  destruct (String.eqb_spec (Name ex) (normalizeLBStrategy lb)) as [Hn|Hn]; simplify_eq/=; rewrite Hid.
  - split_and!; [reflexivity|done|done|eauto|]. intros loc0 s0 [= <-]. done.
  - split_and!; [done..|]. intros loc0 s0 [= <-]. rewrite Hex. by intros [= <-].
Qed.

(** ** Pools *)

(** The pool of [u] is built as configured, on a strategy object of the
    configured kind, which is the object the old table [st] had if the kind
    did not change. *)
Definition pool_built (snap : TenantSnapshot) (st : table) (heap' : list AnyStrategy) (u : Upstream.t)
    (p : UpstreamPool) : Prop :=
  Targets p = pool_targets snap u ∧ HealthPath p = Upstream.HealthPath u ∧
  PoolProjectID p = Upstream.ProjectID u ∧
  (∃ s, heap' !! Strategy p = Some s ∧ Name s = normalizeLBStrategy (Upstream.LBStrategy u)) ∧
  (∀ loc s0, fst st !! Upstream.ID u = Some loc → snd st !! loc = Some s0 →
     Name s0 = normalizeLBStrategy (Upstream.LBStrategy u) →
     Strategy p = loc ∧ heap' !! loc = Some s0).

Lemma build_pools_frame snap us st pools st' pools' id :
  foldl (build_pool snap) (st, pools) us = (st', pools') →
  id ∉ Upstream.ID <$> us → pools' !! id = pools !! id.
Proof.
  revert st pools. induction us as [|u us IH]; intros st pools H Hid; [by simplify_eq/=|].
  rewrite fmap_cons, not_elem_of_cons in Hid. destruct Hid as [Hne Hid].
  cbn [foldl] in H. unfold build_pool at 2 in H.
  destruct (strategyFor st (Upstream.ID u) (Upstream.LBStrategy u)) as [st1 loc].
  rewrite (IH _ _ H Hid). by rewrite lookup_insert_ne.
Qed.

Lemma build_pools_spec snap us st pools st' pools' :
  table_ok st → NoDup (Upstream.ID <$> us) →
  foldl (build_pool snap) (st, pools) us = (st', pools') →
  snd st `prefix_of` snd st' ∧ table_ok st' ∧
  ∀ u, u ∈ us → ∃ p, pools' !! Upstream.ID u = Some p ∧ pool_built snap st (snd st') u p.
Proof.
  revert st pools. induction us as [|u us IH]; intros st pools Hok Hnd H.
  { simplify_eq/=. split_and!; [reflexivity|done|]. intros u Hu. by apply not_elem_of_nil in Hu. }
  rewrite fmap_cons in Hnd. apply NoDup_cons in Hnd as [Hu Hnd].
  cbn [foldl] in H. unfold build_pool at 2 in H.
  destruct (strategyFor st (Upstream.ID u) (Upstream.LBStrategy u)) as [st1 loc] eqn:Hs.
  destruct (strategyFor_spec _ _ _ _ _ Hok Hs) as (Hpre & Hok1 & Hframe & (s & Hl & Hn) & Hkeep).
  pose proof (build_pools_frame _ _ _ _ _ _ _ H Hu) as Hp.
  destruct (IH _ _ Hok1 Hnd H) as (Hpre1 & Hok' & Hall).
  split_and!; [by etrans|done|]. intros v Hv. apply elem_of_cons in Hv as [->|Hv].
  - eexists. split; [by rewrite Hp, lookup_insert_eq|].
    split_and!; [done..| |].
    + exists s. split; [|done]. by eapply lookup_prefix_Some.
    + intros loc0 s0 H1 H2 H3. simpl. split; [by eapply Hkeep|].
      apply (lookup_prefix_Some (snd st)); [by etrans|done].
  - destruct (Hall v Hv) as (p & Hpv & H1 & H2 & H3 & H4 & H5). exists p. split; [done|].
    split_and!; [done..|]. intros loc0 s0 E1 E2 E3. eapply H5; [|by eapply lookup_prefix_Some|done].
    rewrite Hframe; [done|]. intros Heq. apply Hu. rewrite <-Heq. by apply list_elem_of_fmap_2.
Qed.

(** ** Domains *)

Definition context_of (cd : CustomDomainSync.t) : DomainContext :=
  mkDomainContext (CustomDomainSync.Hostname cd) (CustomDomainSync.Status cd)
    (CustomDomainSync.RoutingStatus cd).

Lemma domain_map_lookup snap host :
  buildDomainMap snap !! host =
  context_of <$> last (filter (λ cd, routed cd = true ∧ NormalizeHost (CustomDomainSync.Hostname cd) = host)
    (SnapCustomDomains snap)).
Proof.
  unfold buildDomainMap. induction (SnapCustomDomains snap) as [|cd cds IH] using rev_ind; [done|].
  rewrite foldl_app, filter_app. cbn [foldl].
  destruct (routed cd) eqn:Hr.
  - destruct (decide (NormalizeHost (CustomDomainSync.Hostname cd) = host)) as [Hh|Hh].
    + rewrite <-Hh, lookup_insert_eq, filter_cons_True by done. by rewrite filter_nil, last_snoc.
    + rewrite lookup_insert_ne, IH by done. rewrite filter_cons_False by tauto.
      by rewrite filter_nil, app_nil_r.
  - rewrite IH, filter_cons_False by (intros [? _]; congruence). by rewrite filter_nil, app_nil_r.
Qed.

Lemma domain_map_known snap host :
  is_Some (buildDomainMap snap !! host) ↔
  ∃ cd, cd ∈ SnapCustomDomains snap ∧ routed cd = true ∧ NormalizeHost (CustomDomainSync.Hostname cd) = host.
Proof.
  rewrite domain_map_lookup. set (P := λ cd, routed cd = true ∧ NormalizeHost (CustomDomainSync.Hostname cd) = host).
  split.
  - destruct (last (filter P (SnapCustomDomains snap))) as [cd|] eqn:E; [|by intros [? ?]]. intros _.
    apply last_Some_elem_of, list_elem_of_filter in E as [[H1 H2] H3]. eauto.
  - intros (cd & Hin & Hr & Hn). destruct (last (filter P (SnapCustomDomains snap))) as [x|] eqn:E; [by eexists|].
    apply last_None in E. exfalso. eapply not_elem_of_nil. rewrite <-E. by apply list_elem_of_filter.
Qed.

Lemma LookupDomain_map s host : LookupDomain s host = DomainMap s !! NormalizeHost host.
Proof.
  unfold LookupDomain. destruct (size (DomainMap s) =? 0)%nat eqn:Hs; [|done].
  apply Nat.eqb_eq, map_size_empty_inv in Hs. by rewrite Hs, lookup_empty.
Qed.

(** ** Host normalisation *)

(** A byte of a host name: printable, neither a colon nor a bracket. *)
Definition host_byte (c : ascii) : bool :=
  is_graphic c && negb (Ascii.eqb c ":") && negb (Ascii.eqb c "[") && negb (Ascii.eqb c "]").

Lemma host_byte_lower c : host_byte c = true → host_byte (lower_ascii c) = true.
Proof. by destruct c as [[] [] [] [] [] [] [] []]. Qed.

Lemma digit_facts c : is_digit c = true →
  host_byte c = true ∧ Ascii.eqb (lower_ascii c) c = true ∧ Ascii.eqb c "." = false.
Proof. by destruct c as [[] [] [] [] [] [] [] []]. Qed.

Lemma host_bytes_no c s : host_byte c = false → sforallb host_byte s = true → contains_byte c s = false.
Proof. intros Hc Hs. by eapply sforallb_contains. Qed.

Lemma host_byte_graphic c : host_byte c = true → is_graphic c = true.
Proof. unfold host_byte. intros H. by split_bool. Qed.

(** The optional final dot and the optional port of a Host header. *)
Definition dot_of (dot : bool) : string := if dot then "." else "".
Definition port_of (port : option string) : string :=
  match port with Some p => String ":" p | None => "" end.

Lemma TrimSuffix_dot_of h dot :
  HasSuffix h "." = false → TrimSuffix (h +:+ dot_of dot) "." = h.
Proof.
  intros H. destruct dot; simpl; [apply TrimSuffix_app|]. rewrite sapp_nil_r. by apply TrimSuffix_id.
Qed.

Lemma NormalizeHost_variants h dot port :
  sforallb host_byte h = true → HasSuffix (ToLower h) "." = false →
  (∀ p, port = Some p → sforallb is_digit p = true) →
  NormalizeHost (h +:+ dot_of dot +:+ port_of port) = ToLower h.
Proof.
  intros Hh Hdot Hport. unfold NormalizeHost.
  assert (Hp : ∀ p, port = Some p →
    sforallb host_byte p = true ∧ smap lower_ascii p = p ∧ contains_byte "." p = false).
  { intros p Hp. specialize (Hport p Hp). split_and!.
    - eapply sforallb_impl; [|done]. apply digit_facts.
    - apply smap_id. eapply sforallb_impl; [|done]. apply digit_facts.
    - by eapply sforallb_contains. }
  assert (Hl : sforallb host_byte (ToLower h +:+ dot_of dot) = true).
  { rewrite sforallb_app. apply andb_true_iff. split; [|by destruct dot].
    apply sforallb_smap; [apply host_byte_lower|done]. }
  rewrite TrimSpace_graphic.
  2: { rewrite !sforallb_app, !andb_true_iff. split_and!.
       - by eapply sforallb_impl; [apply host_byte_graphic|].
       - by destruct dot.
       - destruct port as [p|]; [|done]. simpl. eapply sforallb_impl; [apply host_byte_graphic|].
         by apply Hp. }
  assert (ToLower (h +:+ dot_of dot +:+ port_of port) =
    (ToLower h +:+ dot_of dot) +:+ port_of port) as ->.
  { unfold ToLower. rewrite !smap_app, sapp_assoc. f_equal. f_equal; [by destruct dot|].
    destruct port as [p|]; [|done]. simpl. f_equal. by apply Hp. }
  destruct port as [p|]; simpl.
  - destruct (Hp p eq_refl) as (Hp1 & _ & Hp3).
    rewrite (TrimSuffix_id (_ +:+ String ":" p)) by (by apply HasSuffix_byte_app).
    rewrite GoNet.SplitHostPort_host_port; [by apply TrimSuffix_dot_of|..].
    + by apply host_bytes_no.
    + by apply host_bytes_no.
    + rewrite contains_byte_app. simpl. by rewrite !host_bytes_no.
    + rewrite contains_byte_app. simpl. by rewrite !host_bytes_no.
  - rewrite sapp_nil_r, TrimSuffix_dot_of by done.
    rewrite GoNet.SplitHostPort_no_port; [by apply TrimSuffix_id|].
    rewrite sforallb_app in Hl. apply andb_true_iff in Hl as [Hl _]. by apply host_bytes_no.
Qed.

Section reload_correct.
Context (GetSecret : option (string → string → result string string)).
Context (sha256_hex : string → string) (redis_prefix : string).
Context (iter : gmap string UpstreamPool → list (string * UpstreamPool)).
Context (projectID : string).
Abbreviation do_reload := (reload GetSecret redis_prefix iter projectID).

(** A reload that fails, whether at the fetch or at the JWT configuration,
    leaves the loader exactly as it was: the gateway keeps serving the last
    good routes, pools, domains, keys, health targets and verifier. *)
Theorem reload_failure_changes_nothing (env : KeyStore.env) (fetched : result string TenantSnapshot) (l : t) :
  is_ok (snd (do_reload env fetched l)) = false → fst (do_reload env fetched l) = l.
Proof.
  unfold reload. destruct fetched as [snap|e]; [|done].
  destruct (ProjectJWTManager.Apply _ _ _) as [[jwt' calls] [u|e]] eqn:Ha; [by destruct (buildPoolsFromSnapshot _ _) as [[??]?]|].
  apply Apply_error_state in Ha. subst. by destruct l.
Qed.

(** After a successful reload every upstream of the fetched configuration
    has its pool: its enabled targets in order (or its own URL when it has
    none), on a strategy of the configured kind.  A strategy whose kind did not
    change is the same object with the same state, so round-robin positions and
    in-flight counters survive the reload, and no strategy object that a request
    in flight may still hold is disturbed. *)
Theorem reload_builds_pools (env : KeyStore.env) (snap : TenantSnapshot) (l l' : t) (u : Upstream.t) :
  table_ok (strategies l, heap l) → NoDup (Upstream.ID <$> SnapUpstreams snap) →
  do_reload env (Ok snap) l = (l', Ok ()) → u ∈ SnapUpstreams snap →
  heap l `prefix_of` heap l' ∧ table_ok (strategies l', heap l') ∧
  ∃ p, UpstreamPools (Current l') !! Upstream.ID u = Some p ∧
       pool_built snap (strategies l, heap l) (heap l') u p.
Proof.
  intros Hok Hnd H Hu. unfold reload in H.
  destruct (ProjectJWTManager.Apply _ _ _) as [[jwt' calls] [un|e]]; [|done].
  destruct (buildPoolsFromSnapshot _ _) as [[S' H'] pools] eqn:Hb. simplify_eq/=.
  destruct (build_pools_spec _ _ _ _ _ _ Hok Hnd Hb) as (H1 & H2 & H3). eauto.
Qed.

Lemma reload_domain_map (env : KeyStore.env) (snap : TenantSnapshot) (l l' : t) :
  do_reload env (Ok snap) l = (l', Ok ()) → DomainMap (Current l') = buildDomainMap snap.
Proof.
  intros H. unfold reload in H.
  destruct (ProjectJWTManager.Apply _ _ _) as [[jwt' calls] [un|e]]; [|done].
  destruct (buildPoolsFromSnapshot _ _) as [[S' H'] pools]. by simplify_eq/=.
Qed.

(** After a successful reload a host resolves to a custom domain exactly
    when the fetched configuration has an active and ready domain whose
    normalised name is the normalised host (the last such one). *)
Theorem reload_domain_lookup (env : KeyStore.env) (snap : TenantSnapshot) (l l' : t) (host : string) :
  do_reload env (Ok snap) l = (l', Ok ()) →
  LookupDomain (Current l') host =
  context_of <$> last (filter (λ cd, routed cd = true ∧
    NormalizeHost (CustomDomainSync.Hostname cd) = NormalizeHost host) (SnapCustomDomains snap)).
Proof.
  intros H%reload_domain_map. by rewrite LookupDomain_map, H, <-domain_map_lookup.
Qed.
End reload_correct.

(** The custom domain of a request does not depend on how the client
    spells the host: any letter case, a final dot and a port all resolve to
    the domain of the plain lower-case name. *)
Theorem domain_lookup_ignores_spelling (s : Snapshot) (h : string) (dot : bool) (port : option string) :
  sforallb host_byte h = true → HasSuffix (ToLower h) "." = false →
  (∀ p, port = Some p → sforallb is_digit p = true) →
  LookupDomain s (h +:+ dot_of dot +:+ port_of port) = DomainMap s !! ToLower h.
Proof. intros H1 H2 H3. by rewrite LookupDomain_map, NormalizeHost_variants. Qed.

(** ** Concrete inputs *)

Definition sample_upstream (id lb : string) : Upstream.t :=
  Upstream.mk id "p" id ("http://" +:+ id) "http" "/health" true lb [] 0 0.

Definition sample_snapshot (lb : string) : TenantSnapshot :=
  mkTenantSnapshot [] [sample_upstream "u1" lb; sample_upstream "u2" "least_conn"]
    {["u1" := [UpstreamTarget.mk "t1" "u1" "http://a" 2 true 0 0;
               UpstreamTarget.mk "t2" "u1" "http://b" 1 false 0 0]]}
    [] [CustomDomainSync.mk "API.Acme.com." "active" "ready";
        CustomDomainSync.mk "old.acme.com" "pending_dns" "pending"] None.

Definition sample_env : KeyStore.env := KeyStore.mkEnv 0 false false false None.
Definition sample_reload (fetched : result string TenantSnapshot) (l : t) : t * result error unit :=
  reload None "" map_to_list "p" sample_env fetched l.

Definition loaded : t := fst (sample_reload (Ok (sample_snapshot "round_robin")) NewLoader).

Lemma reload_failure_changes_nothing_witness :
  fst (sample_reload (Err "timeout") loaded) = loaded.
Proof.
  exact (reload_failure_changes_nothing None "" map_to_list "p" sample_env (Err "timeout") loaded eq_refl).
Defined.

Lemma reload_builds_pools_witness :
  ∃ p, UpstreamPools (Current loaded) !! "u1" = Some p ∧
    pool_built (sample_snapshot "round_robin") (∅, []) (heap loaded) (sample_upstream "u1" "round_robin") p.
Proof.
  refine (proj2 (proj2 (reload_builds_pools None "" map_to_list "p" sample_env
    (sample_snapshot "round_robin") NewLoader loaded (sample_upstream "u1" "round_robin") _ _ _ _))).
  - intros id loc H. simpl in H. by rewrite lookup_empty in H.
  - apply (bool_decide_unpack _). vm_compute. exact I.
  - reflexivity.
  - left.
Defined.

Lemma reload_domain_lookup_witness :
  LookupDomain (Current loaded) "api.ACME.com:443" =
    Some (mkDomainContext "API.Acme.com." "active" "ready").
Proof.
  rewrite (reload_domain_lookup None "" map_to_list "p" sample_env
    (sample_snapshot "round_robin") NewLoader loaded "api.ACME.com:443" eq_refl).
  vm_compute. reflexivity.
Defined.

Lemma domain_lookup_ignores_spelling_witness :
  LookupDomain (Current loaded) ("Api.Acme.Com" +:+ "." +:+ ":8443") =
  DomainMap (Current loaded) !! "api.acme.com".
Proof.
  refine (domain_lookup_ignores_spelling (Current loaded) "Api.Acme.Com" true (Some "8443") _ _ _);
    [reflexivity..|]. by intros p [= <-].
Defined.

End Loader.
