(* ===== verification/Gateway.v ===== *)
(** * The request path of the gateway

    The remaining middlewares ([middleware/routeMatch.go], [cors.go],
    [ratelimit.go]), the dynamic proxy ([handler/proxy_handler.go],
    [proxy/reverse_proxy.go]) and the handler [NewRouter] assembles
    ([gateway/router.go]).  Metrics, request logging and panic recovery wrap
    these handlers without changing what they do and are left out.  What is
    outside the program is a field of the process ([env], [control]) or a
    parameter ([target_of] for the URL parsing of [proxy.New], [backend] for
    the exchange with the upstream). *)

From Stdlib Require Import Ascii.
From stdpp Require Import pretty.
From S2P Require Import Prelude GoStrings Model GoNet Http Matcher LoadBalancer RateLimit.
From S2P Require Import IPFilter Health Auth Loader.

Module Gateway.
Import Http.

(** ** The process *)

(** What [proxy.New] keeps of the parsed target URL. *)
Record target_url := mkTarget { Scheme : string; URLHost : string; URLPath : string }.

(** A request as the director leaves it for the upstream. *)
Record outgoing := mkOutgoing { OutMethod : string; OutPath : string; OutHost : string;
  OutScheme : string; OutHeader : header }.

Record process (L : Type) := mkProcess {
  loader : Loader.t;
  ipcache : IPFilter.cache;
  limiter : L;
  proxies : gmap string target_url;
  env : KeyStore.env;
  control : result string Loader.TenantSnapshot;
  trace : list (string * outgoing);   (* requests sent to upstreams, by target URL *)
}.
Arguments loader {L}.
Arguments ipcache {L}.
Arguments limiter {L}.
Arguments proxies {L}.
Arguments env {L}.
Arguments control {L}.
Arguments trace {L}.

Definition with_loader {L} (l : Loader.t) (p : process L) : process L :=
  mkProcess L l (ipcache p) (limiter p) (proxies p) (env p) (control p) (trace p).
Definition with_limiter {L} (l : L) (p : process L) : process L :=
  mkProcess L (loader p) (ipcache p) l (proxies p) (env p) (control p) (trace p).
Definition with_proxies {L} (m : gmap string target_url) (p : process L) : process L :=
  mkProcess L (loader p) (ipcache p) (limiter p) m (env p) (control p) (trace p).
Definition with_trace {L} (t : list (string * outgoing)) (p : process L) : process L :=
  mkProcess L (loader p) (ipcache p) (limiter p) (proxies p) (env p) (control p) t.

#[global] Instance part_ipcache {L} : Part (process L) IPFilter.cache := {|
  part_get := ipcache;
  part_put := λ c p, mkProcess L (loader p) c (limiter p) (proxies p) (env p) (control p) (trace p);
|}.
#[global] Instance part_ipcache_laws {L} : PartLaws (process L) IPFilter.cache.
Proof. split; [done|by intros []|done]. Qed.

Definition set_heap (h : list AnyStrategy) (l : Loader.t) : Loader.t :=
  Loader.mk (Loader.snapshot l) (Loader.strategies l) h (Loader.health l) (Loader.jwt l)
    (Loader.keyStore l).
Definition set_keyStore (ks : KeyStore.store) (l : Loader.t) : Loader.t :=
  Loader.mk (Loader.snapshot l) (Loader.strategies l) (Loader.heap l) (Loader.health l) (Loader.jwt l) ks.

(** ** [middleware/routeMatch.go] *)

Section process.
Context {L : Type} `{!Limiter L}.
Abbreviation P := (process L).

(** The method [MatchHTTP] is asked for: the requested one of a preflight. *)
Definition methodToMatch (r : request) : string :=
  if AuthMiddleware.isPreflight r then
    let acrm := ToUpper (TrimSpace (Get (Header r) "Access-Control-Request-Method")) in
    if String.eqb acrm "" then Method r else acrm
  else Method r.

Definition RouteMatcher (next : handler P) : handler P := λ s w r,
  let snap := Loader.Current (loader s) in
  let host := if String.eqb (Host r) "" then Get (Header r) "Host" else Host r in
  let req := match Loader.LookupDomain snap host with
             | Some d => WithContext r (with_domain (ctx r) d)
             | None => r
             end in
  match Matcher.MatchHTTP (Path req) (methodToMatch req) (Loader.Routes snap) with
  | None => (s, httpJSON w 404 (error_json "route not found"))
  | Some rt => next s w (WithContext req (with_route (ctx req) rt))
  end.

(** ** [middleware/cors.go] *)

(** The loop over the allowed origins: it stops at the first [*] or the first
    equal origin. *)
Fixpoint scan_origins (origins : list string) (origin : string) : bool * bool :=
  match origins with
  | [] => (false, false)
  | o :: rest =>
      if String.eqb o "*" then (true, false)
      else if String.eqb o origin then (false, true)
      else scan_origins rest origin
  end.

Definition allowed_methods (rt : Route.t) : string :=
  match Route.Methods rt with
  | [] => "GET, POST, PUT, DELETE, PATCH, OPTIONS, HEAD"
  | ms => if existsb (λ m, EqualFold m "ANY") ms
          then "GET, POST, PUT, DELETE, PATCH, OPTIONS, HEAD"
          else Join ms ", "
  end.

Definition CORS (next : handler P) : handler P := λ s w r,
  match CtxRoute (ctx r) with
  | None => next s w r
  | Some rt =>
      match Route.AllowedOrigins rt with
      | [] => next s w r
      | origins =>
          let w := add_header w "Vary" "Origin" in
          let origin := Get (Header r) "Origin" in
          if String.eqb origin "" then next s w r
          else
            let '(wildcardAllowed, originAllowed) := scan_origins origins origin in
            if negb wildcardAllowed && negb originAllowed
            then (s, httpJSON w 403 (error_json "CORS origin not allowed"))
            else
              let w := if wildcardAllowed then set_header w "Access-Control-Allow-Origin" "*"
                       else set_header (set_header w "Access-Control-Allow-Origin" origin)
                              "Access-Control-Allow-Credentials" "true" in
              if String.eqb (Method r) "OPTIONS" then
                let w := set_header w "Access-Control-Allow-Methods" (allowed_methods rt) in
                let req := Get (Header r) "Access-Control-Request-Headers" in
                let w := set_header w "Access-Control-Allow-Headers"
                           (if String.eqb req "" then "Content-Type, Authorization, X-API-Key" else req) in
                let w := set_header w "Access-Control-Max-Age" "7200" in
                (s, WriteHeader w 204)
              else next s w r
      end
  end.

(** ** [middleware/ratelimit.go] *)

Definition extractIP (r : request) : string :=
  match GoNet.SplitHostPort (RemoteAddr r) with Ok (ip, _) => ip | Err _ => RemoteAddr r end.

Definition rate_limit_key (r : request) : string :=
  let clientID := default "" (CtxClientID (ctx r)) in
  let clientID := if String.eqb clientID "" then extractIP r else clientID in
  clientID +:+ ":" +:+ Path r.

Definition unix (t : Z) : Z := t `div` second.

Definition RateLimitMiddleware (next : handler P) : handler P := λ s w r,
  let limit := match CtxRoute (ctx r) with
               | Some rt => Route.RateLimitRPM rt
               | None => Limit (limiter s)
               end in
  if (limit <=? 0)%Z then next s w r
  else
    let '(result, l') :=
      CheckAndConsume (KeyStore.now (env s)) (rate_limit_key r) limit (limiter s) in
    let s := with_limiter l' s in
    let w := set_header w "X-RateLimit-Limit" (pretty limit) in
    let w := set_header w "X-RateLimit-Remaining" (pretty (Remaining result)) in
    let w := set_header w "X-RateLimit-Reset" (pretty (unix (ResetAt result))) in
    if negb (Allowed result) then
      let w := set_header w "Retry-After" "60" in
      (s, httpJSON w 429 [("error", JStr "rate limit exceeded"); ("limit", JNum limit);
                          ("reset_at", JNum (unix (ResetAt result))); ("retry_after", JNum 60)])
    else next s w r.

(** ** [handler/proxy_handler.go] and [proxy/reverse_proxy.go] *)

Definition filterHealthy (hc : option Health.Checker) (targets : list Target.t) : list Target.t :=
  match hc with
  | None => targets
  | Some c => filter (λ t, Health.IsHealthy c (Target.URL t) = true) targets
  end.

(** The fallback to the route's own URL: a single target, no strategy. *)
Definition legacyTarget (hc : option Health.Checker) (rt : Route.t)
  : result lb_error (Target.t * option nat) :=
  if String.eqb (Route.UpstreamURL rt) "" then Err ErrNoHealthyTargets
  else if (match hc with
           | Some c => negb (Health.IsHealthy c (Route.UpstreamURL rt))
           | None => false
           end)
  then Err ErrNoHealthyTargets
  else Ok (Target.mk (Route.UpstreamURL rt) (Route.UpstreamURL rt) 0, None).

(** The chosen target and the location of the strategy to release it on. *)
Definition resolveTarget (s : P) (rt : Route.t) : P * result lb_error (Target.t * option nat) :=
  let l := loader s in
  let snap := Loader.Current l in
  match (match Route.UpstreamID rt with
         | Some id => Loader.UpstreamPools snap !! id
         | None => None
         end) with
  | None => (s, legacyTarget (Loader.health l) rt)
  | Some pool =>
      if (length (Loader.Targets pool) =? 0)%nat then (s, legacyTarget (Loader.health l) rt)
      else
        match filterHealthy (Loader.health l) (Loader.Targets pool) with
        | [] => (s, Err ErrNoHealthyTargets)
        | healthy =>
            match Loader.heap l !! Loader.Strategy pool with
            | None => (s, Err ErrNoHealthyTargets)   (* unreachable: allocated *)
            | Some strat =>
                let '(res, strat') := Pick healthy strat in
                let s := with_loader
                  (set_heap (<[Loader.Strategy pool := strat']> (Loader.heap l)) l) s in
                match res with
                | Err e => (s, Err e)
                | Ok t => (s, Ok (t, Some (Loader.Strategy pool)))
                end
            end
        end
  end.

(** [strategy.Release(target)] on the object picked from. *)
Definition release (s : P) (strategy : option nat) (target : Target.t) : P :=
  match strategy with
  | None => s
  | Some loc =>
      match Loader.heap (loader s) !! loc with
      | Some strat =>
          with_loader (set_heap (<[loc := Release target strat]> (Loader.heap (loader s))) (loader s)) s
      | None => s
      end
  end.

Context (target_of : string → option target_url).
Context (backend : string → outgoing → writer → writer).

Definition getProxy (s : P) (target : string) : P * option target_url :=
  match proxies s !! target with
  | Some p => (s, Some p)
  | None =>
      match target_of target with
      | None => (s, None)
      | Some p => (with_proxies (<[target := p]> (proxies s)) s, Some p)
      end
  end.

(** [httputil]'s [singleJoiningSlash]. *)
Definition join_path (a b : string) : string :=
  match HasSuffix a "/", HasPrefix b "/" with
  | true, true => a +:+ String.substring 1 (String.length b - 1) b
  | false, false => a +:+ "/" +:+ b
  | _, _ => a +:+ b
  end.

(** [p.Director], after [httputil]'s own director, which joins the paths and
    adds an empty User-Agent when there is none. *)
Definition Director (target : target_url) (r : request) : outgoing :=
  let h := Header r in
  let h := match h !! ToLower "User-Agent" with Some _ => h | None => Set_ h "User-Agent" "" end in
  let h := Set_ h "X-Forwarded-Host" (Host r) in
  let h := Set_ h "X-Gateway" "elitegate/1.0" in
  let h := match CtxClientID (ctx r) with
           | Some id => if String.eqb id "" then h else Set_ h "X-Client-ID" id
           | None => h
           end in
  let h := match CtxRole (ctx r) with
           | Some role => if String.eqb role "" then h else Set_ h "X-Client-Role" role
           | None => h
           end in
  let h := match CtxScopes (ctx r) with
           | Some (sc :: scs) => Set_ h "X-Client-Scopes" (Join (sc :: scs) ",")
           | _ => h
           end in
  let h := Del h "X-API-Key" in
  mkOutgoing (Method r) (join_path (URLPath target) (Path r)) (URLHost target) (Scheme target) h.

Definition ServeHTTP : handler P := λ s w r,
  match CtxRoute (ctx r) with
  | None => (s, Error w (json_text [("error", "route not found")]) 404)
  | Some rt =>
      match resolveTarget s rt with
      | (s, Err _) => (s, Error w (json_text [("error", "upstream unavailable");
                                 ("detail", "no healthy backend in pool")]) 503)
      | (s, Ok (target, strategy)) =>
          match getProxy s (Target.URL target) with
          | (s, None) => (release s strategy target, Error w (json_text [("error", "bad upstream")]) 502)
          | (s, Some p) =>
              let out := Director p r in
              let s := with_trace (trace s ++ [(Target.URL target, out)]) s in
              (release s strategy target, backend (Target.URL target) out w)
          end
      end
  end.

(** ** [gateway/router.go] *)

Context (sha256_hex : string → string) (redis_prefix projectID : string).
Context (GetSecret : option (string → string → result string string)).
Context (iter : gmap string Loader.UpstreamPool → list (string * Loader.UpstreamPool)).
Context {JL : JWTLib}.

(** The authentication middleware on the process: the manager's active
    verifier and the loader's key store. *)
Definition authMiddleware : AuthMiddleware.t P ProjectJWTVerifier.error :=
  AuthMiddleware.mk _ _
    (Some (λ s tok, ProjectJWTManager.ValidateIdentity (Loader.jwt (loader s)) tok))
    (Some (λ s key,
       let '(ks, rec) :=
         KeyStore.Validate sha256_hex redis_prefix (env s) (Loader.keyStore (loader s)) key in
       (with_loader (set_keyStore ks (loader s)) s, rec))).

Definition customerHandler : handler P :=
  Chain ServeHTTP
    [RouteMatcher; IPFilter.IPFilterMiddleware; CORS; AuthMiddleware.Middleware authMiddleware;
     RateLimitMiddleware].

(** A JSON literal with its status; [Write] alone sends 200. *)
Definition raw_json (w : writer) (code : Z) (fields : list (string * string)) : writer :=
  Write (WriteHeader (set_header w "Content-Type" "application/json") code) (Raw (json_text fields)).

(** The text of a failed reload: the library's own, or the wrapping prefix. *)
Definition reload_error (e : Loader.error) : string :=
  match e with
  | Loader.ErrFetch e => e
  | Loader.ErrApply _ => "apply project JWT configuration"
  end.

(** The [/reload] handler with the configured token. *)
Definition reloadHandler (expectedToken : string) : handler P := λ s w r,
  if negb (String.eqb (Method r) "POST") then (s, Error w "method not allowed" 405)
  else
    let clientToken := Get (Header r) "X-Internal-Token" in
    let authHeader := Get (Header r) "Authorization" in
    let clientToken :=
      if String.eqb clientToken "" then
        (if HasPrefix authHeader "Bearer " then TrimPrefix authHeader "Bearer " else "")
      else clientToken in
    if String.eqb clientToken "" || negb (String.eqb clientToken expectedToken)
    then (s, raw_json w 401
               [("error", "unauthorized"); ("detail", "valid internal token required")])
    else
      match Loader.reload GetSecret redis_prefix iter projectID (env s) (control s) (loader s) with
      | (l, Err e) => (with_loader l s, Error w (reload_error e) 500)
      | (l, Ok _) =>
          (with_loader l s, raw_json w 200 [("status", "ok"); ("message", "routes cache refreshed")])
      end.

Definition okHandler (fields : list (string * string)) : handler P := λ s w _, (s, raw_json w 200 fields).

(** The mux of [NewRouter] on clean paths; the configured tokens are
    [GatewaySyncToken] and [JWTSecret]. *)
Definition router (promhttp : handler P) (syncToken jwtSecret : string) : handler P := λ s w r,
  if String.eqb (Path r) "/health" || String.eqb (Path r) "/healthz"
  then okHandler [("status", "ok"); ("service", "gateway")] s w r
  else if String.eqb (Path r) "/reload"
  then reloadHandler (if String.eqb syncToken "" then jwtSecret else syncToken) s w r
  else if String.eqb (Path r) "/ready" then okHandler [("status", "ready")] s w r
  else if String.eqb (Path r) "/metrics" then promhttp s w r
  else customerHandler s w r.

Implicit Types (s : P) (w : writer) (r : request) (rt : Route.t).

(** ** What each stage hands on *)

(** A stage before the proxy changes only caches and the limiter. *)
Record quiet (s s' : P) : Prop := {
  quiet_trace : trace s' = trace s;
  quiet_env : env s' = env s;
  quiet_proxies : proxies s' = proxies s;
  quiet_snapshot : Loader.snapshot (loader s') = Loader.snapshot (loader s);
  quiet_heap : Loader.heap (loader s') = Loader.heap (loader s);
  quiet_health : Loader.health (loader s') = Loader.health (loader s);
}.

Lemma quiet_refl s : quiet s s.
Proof. by split. Qed.

Lemma quiet_trans s1 s2 s3 : quiet s1 s2 → quiet s2 s3 → quiet s1 s3.
Proof. intros [] []. split; congruence. Qed.

Lemma quiet_ipcache (c : IPFilter.cache) s : quiet s (part_put c s).
Proof. by split. Qed.

(** The context the route matcher hands on. *)
Definition matched_ctx s r rt : context :=
  with_route match Loader.LookupDomain (Loader.snapshot (loader s))
                     (if String.eqb (Host r) "" then Get (Header r) "Host" else Host r) with
             | Some d => with_domain (ctx r) d
             | None => ctx r
             end rt.

Lemma RouteMatcher_stage s w r :
  (∃ rt, Matcher.MatchHTTP (Path r) (methodToMatch r) (Loader.Routes (Loader.snapshot (loader s))) = Some rt ∧
     ∀ next, RouteMatcher next s w r = next s w (WithContext r (matched_ctx s r rt))) ∨
  (∃ w', ∀ next, RouteMatcher next s w r = (s, w')).
Proof.
  unfold RouteMatcher, matched_ctx, Loader.Current.
  destruct (Loader.LookupDomain _ _) as [d|]; simpl.
  - change (methodToMatch (WithContext r (with_domain (ctx r) d))) with (methodToMatch r).
    destruct (Matcher.MatchHTTP _ _ _) as [rt|]; [left|right]; eauto.
  - destruct (Matcher.MatchHTTP _ _ _) as [rt|]; [left|right]; eauto.
Qed.

Lemma IPFilter_stage s w r rt :
  CtxRoute (ctx r) = Some rt →
  (∃ c, (∀ next, IPFilter.IPFilterMiddleware next s w r = next (part_put c s) w r)) ∨
  (∃ c w', ∀ next, IPFilter.IPFilterMiddleware next s w r = (part_put c s, w')).
Proof.
  intros Hrt. unfold IPFilter.IPFilterMiddleware. rewrite Hrt.
  destruct (negb _); [left; exists (ipcache s); intros; by destruct s|].
  destruct (IPFilter.get (part_get s) (Route.IPBlocklist rt)) as [c1 ob].
  destruct (match ob with Some b => _ | None => _ end); [right; eauto|].
  rewrite part_get_put. destruct (IPFilter.get c1 (Route.IPAllowlist rt)) as [c2 oa].
  rewrite part_put_put. destruct (match oa with Some a => _ | None => _ end); [right|left]; eauto.
Qed.

(** The origin of a request is acceptable to the route: the route does not
    restrict origins, the request has none, or it is listed. *)
Definition origin_ok (rt : Route.t) (r : request) : Prop :=
  Route.AllowedOrigins rt = [] ∨ Get (Header r) "Origin" = "" ∨
  "*" ∈ Route.AllowedOrigins rt ∨ Get (Header r) "Origin" ∈ Route.AllowedOrigins rt.

Lemma scan_origins_spec l o :
  scan_origins l o ≠ (false, false) → "*" ∈ l ∨ o ∈ l.
Proof.
  induction l as [|x l IH]; simpl; [done|].
  destruct (String.eqb_spec x "*") as [->|]; [left; by left|].
  destruct (String.eqb_spec x o) as [->|]; [right; by left|].
  intros [H|H]%IH; [left|right]; by right.
Qed.

Lemma CORS_stage s w r rt :
  CtxRoute (ctx r) = Some rt →
  (origin_ok rt r ∧ ∃ w', (Sent w = None → Sent w' = None) ∧ ∀ next, CORS next s w r = next s w' r) ∨
  (∃ w', ∀ next, CORS next s w r = (s, w')).
Proof.
  intros Hrt. unfold CORS, origin_ok. rewrite Hrt.
  destruct (Route.AllowedOrigins rt) as [|o os] eqn:Ho; [left; eauto|]. rewrite <-Ho.
  destruct (String.eqb_spec (Get (Header r) "Origin") "") as [He|He].
  { left. split; [auto|]. by exists (add_header w "Vary" "Origin"). }
  pose proof (scan_origins_spec (Route.AllowedOrigins rt) (Get (Header r) "Origin")) as Hs.
  destruct (scan_origins (Route.AllowedOrigins rt) (Get (Header r) "Origin")) as [wild own].
  destruct (negb wild && negb own) eqn:Hb; [right; eauto|].
  destruct (String.eqb (Method r) "OPTIONS"); [right; eauto|]. left.
  split; [right; right; apply Hs; by intros [= -> ->]|].
  eexists. split; [|done]. by destruct wild.
Qed.

Lemma authenticate_quiet s r : quiet s (fst (AuthMiddleware.authenticate authMiddleware s r)).
Proof.
  unfold AuthMiddleware.authenticate. simpl.
  destruct (HasPrefix _ _); [destruct (String.eqb _ _); [done|];
    by destruct (ProjectJWTManager.ValidateIdentity _ _)|].
  destruct (String.eqb _ ""); [done|].
  by destruct (KeyStore.Validate _ _ _ _ _) as [ks [rec|]].
Qed.

Lemma authenticate_limiter s r :
  limiter (fst (AuthMiddleware.authenticate authMiddleware s r)) = limiter s.
Proof.
  unfold AuthMiddleware.authenticate. simpl.
  destruct (HasPrefix _ _); [destruct (String.eqb _ _); [done|];
    by destruct (ProjectJWTManager.ValidateIdentity _ _)|].
  destruct (String.eqb _ ""); [done|].
  by destruct (KeyStore.Validate _ _ _ _ _) as [ks [rec|]].
Qed.

(** The rate limiter admits the request on a route with limit [rpm]. *)
Definition rate_ok (s : P) (r : request) (rpm : Z) : Prop :=
  (0 < rpm)%Z →
  Allowed (fst (CheckAndConsume (KeyStore.now (env s)) (rate_limit_key r) rpm (limiter s))) = true.

Lemma RateLimit_stage s w r rt :
  CtxRoute (ctx r) = Some rt →
  (rate_ok s r (Route.RateLimitRPM rt) ∧
   ∃ s' w', quiet s s' ∧ ∀ next, RateLimitMiddleware next s w r = next s' w' r) ∨
  (∃ s' w', quiet s s' ∧ ∀ next, RateLimitMiddleware next s w r = (s', w')).
Proof.
  intros Hrt. unfold RateLimitMiddleware, rate_ok. rewrite Hrt.
  destruct (Z.leb_spec (Route.RateLimitRPM rt) 0) as [Hle|Hgt].
  { left. split; [lia|]. exists s, w. split; [apply quiet_refl|done]. }
  destruct (CheckAndConsume _ _ _ _) as [result l'] eqn:Hc. simpl.
  destruct (Allowed result); simpl; [left|right].
  - split; [done|]. eexists (with_limiter l' s), _. split; [by split|done].
  - eexists (with_limiter l' s), _. split; [by split|done].
Qed.

(** The upstream URL a request of the route may be sent to: a healthy target
    of the route's pool, or the route's own URL when that is healthy. *)
Definition served_by (s : P) (rt : Route.t) (url : string) : Prop :=
  (∀ c, Loader.health (loader s) = Some c → Health.IsHealthy c url = true) ∧
  ((∃ id pool t, Route.UpstreamID rt = Some id ∧
      Loader.UpstreamPools (Loader.snapshot (loader s)) !! id = Some pool ∧
      t ∈ Loader.Targets pool ∧ url = Target.URL t) ∨
   (url = Route.UpstreamURL rt ∧ url ≠ "")).

Lemma filterHealthy_spec hc ts t :
  t ∈ filterHealthy hc ts →
  t ∈ ts ∧ ∀ c, hc = Some c → Health.IsHealthy c (Target.URL t) = true.
Proof.
  destruct hc as [c|]; simpl; [|done]. rewrite list_elem_of_filter. intros [H Ht].
  split; [done|]. by intros c' [= <-].
Qed.

Lemma legacyTarget_spec hc rt t strat :
  legacyTarget hc rt = Ok (t, strat) →
  (∀ c, hc = Some c → Health.IsHealthy c (Target.URL t) = true) ∧
  Target.URL t = Route.UpstreamURL rt ∧ Target.URL t ≠ "".
Proof.
  unfold legacyTarget. destruct (String.eqb_spec (Route.UpstreamURL rt) ""); [done|].
  destruct hc as [c|]; [destruct (Health.IsHealthy c _) eqn:Hh; [|done]|]; simpl;
    intros H; simplify_eq/=; split_and!; try done; intros c' Hc'; by simplify_eq.
Qed.

Lemma resolveTarget_Err s rt s' e : resolveTarget s rt = (s', Err e) → trace s' = trace s.
Proof.
  unfold resolveTarget. intros H. repeat case_match; by simplify_eq/=.
Qed.

Lemma resolveTarget_spec s rt s' t strat :
  resolveTarget s rt = (s', Ok (t, strat)) →
  trace s' = trace s ∧ served_by s rt (Target.URL t).
Proof.
  unfold resolveTarget, Loader.Current. intros H.
  assert (Hleg : legacyTarget (Loader.health (loader s)) rt = Ok (t, strat) →
    served_by s rt (Target.URL t)).
  { intros (H1 & H2 & H3)%legacyTarget_spec. split; [done|by right]. }
  destruct (Route.UpstreamID rt) as [id|] eqn:Hid; [|by simplify_eq; split; [|apply Hleg]].
  destruct (Loader.UpstreamPools _ !! id) as [pool|] eqn:Hpool; [|by simplify_eq; split; [|apply Hleg]].
  destruct (_ =? 0)%nat; [by simplify_eq; split; [|apply Hleg]|].
  destruct (filterHealthy _ _) as [|h hs] eqn:Hf; [done|].
  destruct (Loader.heap (loader s) !! _) as [st|]; [|done].
  destruct (pick_member (h :: hs) st) as (t' & st' & Hpick & Hin); [done|].
  rewrite Hpick in H. simplify_eq/=. split; [done|]. rewrite <-Hf in Hin.
  apply filterHealthy_spec in Hin as [Hin Hh]. split; [done|]. left. by exists id, pool, t.
Qed.

Lemma release_trace s strat t : trace (release s strat t) = trace s.
Proof. unfold release. destruct strat; [|done]. by destruct (_ !! _). Qed.

(** The cache of proxies holds what [proxy.New] makes of its keys. *)
Definition proxies_ok (s : P) : Prop := ∀ url p, proxies s !! url = Some p → target_of url = Some p.

Lemma getProxy_spec s url :
  proxies_ok s →
  trace (fst (getProxy s url)) = trace s ∧ proxies_ok (fst (getProxy s url)) ∧
  ∀ p, snd (getProxy s url) = Some p → target_of url = Some p.
Proof.
  intros Hok. unfold getProxy. destruct (proxies s !! url) as [p|] eqn:Hp.
  { split_and!; [done|done|]. intros q [= <-]. by apply Hok. }
  destruct (target_of url) as [p|] eqn:Ht; simpl; split_and!; try done.
  intros u q. simpl. destruct (decide (u = url)) as [->|Hne].
  - rewrite lookup_insert_eq. intros [= <-]. done.
  - rewrite lookup_insert_ne by done. apply Hok.
Qed.

Lemma resolveTarget_proxies s rt : proxies (fst (resolveTarget s rt)) = proxies s.
Proof. unfold resolveTarget. by repeat case_match; simplify_eq/=. Qed.

Lemma release_proxies s strat t : proxies (release s strat t) = proxies s.
Proof. unfold release. destruct strat; [|done]. by destruct (_ !! _). Qed.

(** The proxy sends at most one request, to a target that serves the route. *)
Lemma ServeHTTP_spec s w r rt :
  CtxRoute (ctx r) = Some rt → proxies_ok s →
  proxies_ok (fst (ServeHTTP s w r)) ∧
  (trace (fst (ServeHTTP s w r)) = trace s ∨
   ∃ url target, served_by s rt url ∧ target_of url = Some target ∧
     trace (fst (ServeHTTP s w r)) = trace s ++ [(url, Director target r)]).
Proof.
  intros Hrt Hok. unfold ServeHTTP. rewrite Hrt. pose proof (resolveTarget_proxies s rt) as Hpr.
  destruct (resolveTarget s rt) as [s1 [[t strat]|e]] eqn:Hr; simpl in Hpr.
  2: { simpl. split; [|left; by eapply resolveTarget_Err]. unfold proxies_ok. by rewrite Hpr. }
  apply resolveTarget_spec in Hr as (Ht & Hs).
  assert (Hok1 : proxies_ok s1) by (unfold proxies_ok; by rewrite Hpr).
  destruct (getProxy_spec s1 (Target.URL t) Hok1) as (Hg & Hok2 & Hp).
  destruct (getProxy s1 (Target.URL t)) as [s2 [p|]]; simpl in *; rewrite release_trace; simpl.
  - split; [unfold proxies_ok; by rewrite release_proxies|]. right.
    exists (Target.URL t), p. split_and!; [done|by apply Hp|congruence].
  - split; [unfold proxies_ok; by rewrite release_proxies|]. left. congruence.
Qed.

Lemma served_by_quiet s s' rt url : quiet s s' → served_by s' rt url → served_by s rt url.
Proof. intros [_ _ _ Hs _ Hh]. unfold served_by. by rewrite Hs, Hh. Qed.

Lemma IPFilter_admits s w r rt c :
  CtxRoute (ctx r) = Some rt → IPFilter.cache_ok (ipcache s) → Sent w = None →
  (∀ next, IPFilter.IPFilterMiddleware next s w r = next (part_put c s) w r) →
  IPFilter.rules_ok (Route.IPAllowlist rt) → IPFilter.rules_ok (Route.IPBlocklist rt) →
  IPFilter.policy_admits rt (IPFilter.remote_ip (RemoteAddr r)) = true.
Proof.
  intros Hrt Hc Hw Hn Ha Hb. change (IPFilter.cache_ok (part_get s)) in Hc.
  pose proof (IPFilter.IPFilterMiddleware_spec (S := P) (λ s _ _, (s, new_writer)) s w r rt Hrt Ha Hb Hc Hw)
    as (c' & _ & H).
  destruct (IPFilter.policy_admits _ _); [done|]. rewrite Hn in H. by destruct H as [_ H].
Qed.

(** The request the authentication stage hands on: the same one, when the route
    or the request asks for no credentials, or the same one with the identity
    of credentials that the process accepts and the route permits. *)
Definition authenticated s r rt (r' : request) : Prop :=
  (r' = r ∧ (AuthMiddleware.isPublicPath (Path r) || AuthMiddleware.isPreflight r = true ∨
             Route.AuthRequired rt = false)) ∨
  ∃ clientID role scopes,
    AuthMiddleware.credentials authMiddleware s r clientID role scopes ∧
    AuthMiddleware.permitted rt role scopes ∧
    r' = WithContext r (with_identity (ctx r) clientID role scopes).

Lemma auth_stage s w r rt :
  CtxRoute (ctx r) = Some rt →
  (∃ s' r', quiet s s' ∧ limiter s' = limiter s ∧ CtxRoute (ctx r') = Some rt ∧ authenticated s r rt r' ∧
     ∀ next, AuthMiddleware.Middleware authMiddleware next s w r = next s' w r') ∨
  (∃ s' w', quiet s s' ∧ ∀ next, AuthMiddleware.Middleware authMiddleware next s w r = (s', w')).
Proof.
  intros Hrt.
  destruct (AuthMiddleware.Middleware_cases authMiddleware s w r) as [[Hc Hn]|[_ [H|H]]].
  - left. exists s, r. split_and!; [apply quiet_refl|done|done| |done]. left. split; [done|].
    rewrite Hrt in Hc. simpl in Hc. apply orb_true_iff in Hc as [Hc|Hc]; [by left|].
    right. by apply negb_true_iff.
  - destruct H as (clientID & role & scopes & Hcred & Hacl & Hn). left.
    eexists _, _. split_and!; [apply authenticate_quiet|apply authenticate_limiter| | |exact Hn]; [done|].
    right. exists clientID, role, scopes. rewrite Hrt in Hacl. by rewrite AuthMiddleware.acl_None in Hacl.
  - destruct H as (code & msg & _ & Hn). right. eexists _, _. split; [apply authenticate_quiet|done].
Qed.

(** Only the blocks cache is not the process's own when credentials are checked. *)
Lemma authenticated_ipcache s c r rt r' : authenticated (part_put c s) r rt r' → authenticated s r rt r'.
Proof.
  intros [H|(clientID & role & scopes & Hc & Hp & Hr)]; [by left|right].
  exists clientID, role, scopes. split; [|done].
  destruct Hc as [(v & id & raw & [= <-] & H)|(v & rec & [= <-] & Hv & Hid)].
  { left. eexists _, id, raw. split; [reflexivity|exact H]. }
  right.
  eexists _, rec. split; [done|]. split; [|done]. revert Hv. simpl.
  by destruct (KeyStore.Validate _ _ _ _ _) as [ks o].
Qed.

(** The order in which the middlewares run. *)
Lemma customerHandler_order :
  customerHandler = RouteMatcher (IPFilter.IPFilterMiddleware (CORS
    (AuthMiddleware.Middleware authMiddleware (RateLimitMiddleware ServeHTTP)))).
Proof. reflexivity. Qed.

(** A customer request that gets past the middlewares: what each of them asked
    of it, in the process the request arrived at. *)
Definition admitted s r rt (r' : request) : Prop :=
  Matcher.MatchHTTP (Path r) (methodToMatch r) (Loader.Routes (Loader.snapshot (loader s))) = Some rt ∧
  (IPFilter.rules_ok (Route.IPAllowlist rt) → IPFilter.rules_ok (Route.IPBlocklist rt) →
     IPFilter.policy_admits rt (IPFilter.remote_ip (RemoteAddr r)) = true) ∧
  origin_ok rt r ∧
  authenticated s (WithContext r (matched_ctx s r rt)) rt r' ∧
  rate_ok s r' (Route.RateLimitRPM rt).

Lemma customerHandler_stages s w r :
  IPFilter.cache_ok (ipcache s) → Sent w = None →
  quiet s (fst (customerHandler s w r)) ∨
  ∃ rt r' s' w', admitted s r rt r' ∧ CtxRoute (ctx r') = Some rt ∧ quiet s s' ∧
    customerHandler s w r = ServeHTTP s' w' r'.
Proof.
  intros Hcache Hw. rewrite customerHandler_order.
  destruct (RouteMatcher_stage s w r) as [(rt & Hm & Hn)|(w' & Hn)]; rewrite Hn; [|left; apply quiet_refl].
  set (r1 := WithContext r (matched_ctx s r rt)).
  assert (Hc : CtxRoute (ctx r1) = Some rt) by done.
  destruct (IPFilter_stage s w r1 rt Hc) as [(c1 & Hip)|(c1 & w' & Hip)]; rewrite Hip; [|left; apply quiet_ipcache].
  pose proof (IPFilter_admits s w r1 rt c1 Hc Hcache Hw Hip) as Hadm.
  set (s1 := part_put c1 s). assert (Hq1 : quiet s s1) by apply quiet_ipcache.
  destruct (CORS_stage s1 w r1 rt Hc) as [(Ho & w1 & Hw1 & Hcors)|(w' & Hcors)]; rewrite Hcors; [|by left].
  destruct (auth_stage s1 w1 r1 rt Hc) as [(s2 & r2 & Hq2 & Hl2 & Hr2 & Hcred & Hauth)|(s2 & w2 & Hq2 & Hauth)];
    rewrite Hauth; [|left; by eapply quiet_trans].
  pose proof (quiet_trans _ _ _ Hq1 Hq2) as Hq.
  destruct (RateLimit_stage s2 w1 r2 rt Hr2) as [(Hrate & s3 & w3 & Hq3 & Hrl)|(s3 & w3 & Hq3 & Hrl)];
    rewrite Hrl; [right|left; by eapply quiet_trans].
  exists rt, r2, s3, w3. split_and!; [|done|by eapply quiet_trans|done].
  split_and!; [done|done|done|by apply (authenticated_ipcache s c1)|].
  unfold rate_ok in *. by rewrite (quiet_env _ _ Hq), Hl2 in Hrate.
Qed.

Lemma proxies_ok_quiet s s' : quiet s s' → proxies_ok s → proxies_ok s'.
Proof. intros Hq. unfold proxies_ok. by rewrite (quiet_proxies _ _ Hq). Qed.

(** C1: the end-to-end guarantee of the gateway.  Handling one customer request
    sends at most one request to an upstream, made of that request, and only if
    all of the policy of the route matched by its path and method admits it: the
    IP rules (when they parse), the allowed origins, credentials that the
    process's own JWT verifier or key store accepts at that moment and whose role
    and scopes the route permits (unless the route is open, or the request is a
    preflight or a public path), and the process's rate limiter for the key of
    that client.  What is sent is the customer's request with the identity so
    established, to a healthy target of the route's pool or to the route's own
    healthy URL, at the host that URL names. *)
Theorem customer_request_authorized (s : P) (w : writer) (r : request) :
  IPFilter.cache_ok (ipcache s) → proxies_ok s → Sent w = None →
  let s' := fst (customerHandler s w r) in
  proxies_ok s' ∧
  (trace s' = trace s ∨
   ∃ rt r' url target, trace s' = trace s ++ [(url, Director target r')] ∧
     admitted s r rt r' ∧ served_by s rt url ∧ target_of url = Some target).
Proof.
  intros Hcache Hok Hw s'. unfold s'.
  destruct (customerHandler_stages s w r Hcache Hw) as [Hq|(rt & r' & s1 & w1 & Hadm & Hr' & Hq & ->)].
  { split; [by eapply proxies_ok_quiet|left; by apply quiet_trace]. }
  destruct (ServeHTTP_spec s1 w1 r' rt Hr' (proxies_ok_quiet _ _ Hq Hok)) as [Hok' Ht]. split; [done|].
  rewrite (quiet_trace _ _ Hq) in Ht. destruct Ht as [Ht|(url & target & Hs & Htar & Ht)]; [by left|right].
  exists rt, r', url, target. split_and!; [done|done|by eapply served_by_quiet|done].
Qed.

(** The [/reload] endpoint changes the process only for a POST request that
    presents the configured token, and an empty configured token admits
    nobody. *)
Theorem reload_requires_token (promhttp : handler P) (syncToken jwtSecret : string)
    (s : P) (w : writer) (r : request) :
  Path r = "/reload" →
  fst (router promhttp syncToken jwtSecret s w r) ≠ s →
  let expected := if String.eqb syncToken "" then jwtSecret else syncToken in
  Method r = "POST" ∧ expected ≠ "" ∧
  (Get (Header r) "X-Internal-Token" = expected ∨
   Get (Header r) "Authorization" = "Bearer " +:+ expected).
Proof.
  intros Hp Hne. cbv zeta. unfold router in Hne. rewrite Hp in Hne. simpl in Hne.
  set (expected := if String.eqb syncToken "" then jwtSecret else syncToken) in *.
  unfold reloadHandler in Hne.
  destruct (String.eqb_spec (Method r) "POST") as [Hm|]; simpl in Hne; [|done].
  set (tok := if String.eqb (Get (Header r) "X-Internal-Token") "" then _ else _) in Hne.
  destruct (String.eqb_spec tok "") as [|Ht]; simpl in Hne; [done|].
  destruct (String.eqb_spec tok expected) as [He|]; simpl in Hne; [|done].
  split; [done|]. split; [congruence|]. unfold tok in He, Ht.
  destruct (String.eqb (Get (Header r) "X-Internal-Token") ""); [right|by left].
  destruct (HasPrefix _ _) eqn:Hb; [|done].
  apply HasPrefix_spec in Hb as [t Hb]. rewrite Hb, TrimPrefix_app in He. by rewrite Hb, He.
Qed.
End process.

(** *** The headers upstreams see *)

Ltac header_step := first
  [ rewrite Get_Set_eq | rewrite Get_Del_eq
  | rewrite Get_Set_ne by (vm_compute; discriminate)
  | rewrite Get_Del_ne by (vm_compute; discriminate) ].

(** The context's value when it is set and not empty, else the client's own
    header. *)
Definition identity_header (o : option string) (client : string) : string :=
  match o with Some v => if String.eqb v "" then client else v | None => client end.

(** What an upstream sees: never the raw API key, always the original host,
    and the authenticated client and role when the context has them.  Without
    an authenticated value the client's own X-Client-ID or X-Client-Role header
    passes through unchanged. *)
Theorem director_identity_headers (target : target_url) (r : request) :
  let h := OutHeader (Director target r) in
  Get h "X-API-Key" = "" ∧ Get h "X-Forwarded-Host" = Host r ∧ Get h "X-Gateway" = "elitegate/1.0" ∧
  Get h "X-Client-ID" = identity_header (CtxClientID (ctx r)) (Get (Header r) "X-Client-ID") ∧
  Get h "X-Client-Role" = identity_header (CtxRole (ctx r)) (Get (Header r) "X-Client-Role").
Proof.
  unfold Director, identity_header. cbv zeta. cbn [OutHeader].
  destruct (CtxScopes (ctx r)) as [[|sc scs]|], (CtxClientID (ctx r)) as [id|],
    (CtxRole (ctx r)) as [role|]; try destruct (String.eqb id ""); try destruct (String.eqb role "");
    destruct (Header r !! ToLower "User-Agent"); split_and!; repeat header_step; reflexivity.
Qed.

End Gateway.

(** ** Concrete inputs *)

Module GatewaySamples.
Import Http Gateway.

Definition api_route : Route.t :=
  Route.mk "r1" "p" "api" "/api" None "http://up:8080" ["GET"] "http" "exact" true None true 60
    [] ["user"] ["read"] ["10.0.0.0/8"] [] 0 0.

Definition sample_process : process MemoryLimiter.t :=
  mkProcess _
    (Loader.mk (Loader.mkSnapshot [api_route] ∅ [] ∅) ∅ [] None
      (Some (ProjectJWTManager.mkState true 1 "arn" "v1" (Some AuthSamples.sample_verifier)))
      KeyStore.NewRedisKeyStore)
    ∅ (MemoryLimiter.NewMemoryLimiter 60) ∅ (KeyStore.mkEnv 0 false false false None)
    (Err "unreachable") [].

Definition sample_target (url : string) : option target_url := Some (mkTarget "http" "up:8080" "").
Definition sample_backend (url : string) (out : outgoing) (w : writer) : writer := WriteHeader w 200.

Definition api_request (auth : list (string * list string)) (addr : string) : request :=
  mkRequest "GET" "/api" "gw" addr (list_to_map auth) background.

Definition handle (r : request) : process MemoryLimiter.t * writer :=
  customerHandler sample_target sample_backend (λ k, k) "" (JL := AuthSamples.sample_lib)
    sample_process new_writer r.

Definition bearer : list (string * list string) := [("authorization", ["Bearer h.c.s"])].

Example no_credentials : status (snd (handle (api_request [] "10.0.0.1:5000"))) = 401%Z.
Proof. vm_compute. reflexivity. Qed.
Example outside_allowlist : status (snd (handle (api_request bearer "192.0.2.1:5000"))) = 403%Z.
Proof. vm_compute. reflexivity. Qed.
Example unknown_path :
  status (snd (handle (mkRequest "GET" "/other" "gw" "10.0.0.1:5000" ∅ background))) = 404%Z.
Proof. vm_compute. reflexivity. Qed.
Example forwarded_once :
  (fst <$> trace (fst (handle (api_request bearer "10.0.0.1:5000")))) = ["http://up:8080"].
Proof. vm_compute. reflexivity. Qed.

Lemma customer_request_authorized_witness :
  ∃ rt r' url target, trace (fst (handle (api_request bearer "10.0.0.1:5000"))) =
      trace sample_process ++ [(url, Director target r')] ∧
    Matcher.MatchHTTP "/api" "GET" [api_route] = Some rt ∧
    served_by sample_process rt url ∧ target = mkTarget "http" "up:8080" "".
Proof.
  destruct (customer_request_authorized sample_target sample_backend (λ k, k) ""
    (JL := AuthSamples.sample_lib) sample_process new_writer (api_request bearer "10.0.0.1:5000")
    IPFilter.cache_ok_new (λ _ _ H, match H with eq_refl => I end) eq_refl)
    as [_ [H|(rt & r' & url & target & H & [Hm _] & Hs & Ht)]].
  - exfalso. vm_compute in H. discriminate H.
  - exists rt, r', url, target. split; [exact H|]. split; [exact Hm|]. split; [exact Hs|]. by injection Ht as <-.
Defined.

Definition reload_request : request :=
  mkRequest "POST" "/reload" "gw" "10.0.0.1:5000" {["x-internal-token" := ["tok"]]} background.

Definition reload_process : process MemoryLimiter.t :=
  mkProcess _ Loader.NewLoader ∅ (MemoryLimiter.NewMemoryLimiter 60) ∅
    (KeyStore.mkEnv 0 false false false None)
    (Ok (Loader.mkTenantSnapshot [api_route] [] ∅ [] [] None)) [].

Lemma reload_requires_token_witness :
  Get (Header reload_request) "X-Internal-Token" = "tok" ∨
  Get (Header reload_request) "Authorization" = "Bearer tok".
Proof.
  refine (proj2 (proj2 (reload_requires_token sample_target sample_backend (λ k, k) "" "p" None
    map_to_list (JL := AuthSamples.sample_lib) (λ s w _, (s, w)) "tok" "" reload_process new_writer
    reload_request eq_refl _))).
  intros H. apply (f_equal (λ s, length (Loader.Routes (Loader.snapshot (loader s))))) in H.
  vm_compute in H. discriminate H.
Defined.

(** A client of an open route chooses the identity headers the upstream gets. *)
Example forged_role :
  Get (OutHeader (Director (mkTarget "http" "up" "")
    (mkRequest "GET" "/pub" "gw" "10.0.0.1:5000" {["x-client-role" := ["admin"]]} background)))
    "X-Client-Role" = "admin".
Proof. vm_compute. reflexivity. Qed.

End GatewaySamples.
