(* ===== verification/GrpcGateway.v ===== *)
(** * gRPC calls at the gateway

    [src/internal/gateway/server/interceptors.go] (client address, route
    matching, authentication, access control and rate limit of a call) and
    [server/grpc_server.go] with [RewriteTargetURL] and [ResolveGRPCBackend] of
    [proxy/] (the cached table of backends and the choice of an upstream).  The
    process is that of [Gateway]: HTTP and gRPC share the loader, the limiter, the
    health checker and the authentication.  Every call arrives at the handler of
    unknown services, so the stream interceptor is the one that runs; the copying of
    messages is in [GrpcProxy].  [net/url] is the interface [URLs]. *)

From Stdlib Require Import Ascii.
From stdpp Require Import gmap.
From S2P Require Import Prelude GoStrings Model GoNet Http RateLimit IPFilter Health Auth Loader Gateway.

Module GrpcGateway.
Import Gateway.

(** ** Calls and statuses *)

Inductive code := Unauthenticated | NotFound | PermissionDenied | ResourceExhausted | Unavailable | Internal.
Record status := mkStatus { Code : code; Message : string }.

(** The incoming metadata is [None] when the context has none; its keys are in
    lower case, as those of [Http.header]. *)
Record call := mkCall {
  FullMethod : string;
  Metadata : option Http.header;
  PeerAddr : option string;
}.

Definition md_Get (md : Http.header) (k : string) : list string := default [] (md !! ToLower k).

Record AuthInfo := mkAuthInfo { InfoClientID : string; InfoRole : string; InfoScopes : list string }.

(** ** [interceptors.go] *)

Definition getHeader (c : call) (key : string) : string :=
  match Metadata c with
  | Some md => match md_Get md key with v :: _ => v | [] => "" end
  | None => ""
  end.

Definition getClientIP (trustProxy : bool) (c : call) : string :=
  IPFilter.ExtractIP (default "" (PeerAddr c)) (Some (getHeader c)) trustProxy.

(** The service of [/package.Service/Method]. *)
Definition service_of (fullMethod : string) : string :=
  match GoNet.last_index_byte "/" fullMethod with
  | Some (S i) => stake (S i) fullMethod
  | _ => fullMethod
  end.

Definition grpc_route (rt : Route.t) : bool := String.eqb (Route.Protocol rt) "grpc" && Route.Enabled rt.

Definition match_step (service : string) (acc : option Route.t * Z) (rt : Route.t) : option Route.t * Z :=
  let '(best, bestLen) := acc in
  if grpc_route rt && HasPrefix service (Route.Path rt) && (bestLen <? Z.of_nat (len (Route.Path rt)))%Z
  then (Some rt, Z.of_nat (len (Route.Path rt)))
  else acc.

Definition matchRoute (fullMethod : string) (routes : list Route.t) : option Route.t :=
  (foldl (match_step (service_of fullMethod)) (None, (-1)%Z) routes).1.

(** The authentication middleware of HTTP, whose parts the interceptor uses. *)
Section authentication.
Context {S E : Type} (a : AuthMiddleware.t S E).

Definition unauthenticated {X} (msg : string) : result status X := Err (mkStatus Unauthenticated msg).

Definition resolveAuth (s : S) (c : call) : S * result status AuthInfo :=
  match Metadata c with
  | None => (s, unauthenticated "authentication required")
  | Some md =>
      let bearer := match md_Get md "authorization" with v :: _ => v | [] => "" end in
      if HasPrefix bearer "Bearer " then
        match AuthMiddleware.JWTValidator a with
        | None => (s, unauthenticated "JWT authentication is not configured")
        | Some validate =>
            let token := TrimSpace (TrimPrefix bearer "Bearer ") in
            if String.eqb token "" then (s, unauthenticated "invalid token")
            else match validate s token with
                 | Err _ => (s, unauthenticated "invalid token")
                 | Ok id => (s, Ok (mkAuthInfo (ClientID id) (Role id) (Scopes id)))
                 end
        end
      else
        match md_Get md "x-api-key", AuthMiddleware.Store a with
        | key :: _, Some validate =>
            match validate s key with
            | (s, None) => (s, unauthenticated "invalid api key")
            | (s, Some rec) => (s, Ok (mkAuthInfo (KeyStore.RecClientID rec) "client" (KeyStore.RecScopes rec)))
            end
        | _, _ => (s, unauthenticated "authentication required")
        end
  end.

Definition authorize (rt : Route.t) (info : AuthInfo) : result status AuthInfo :=
  if negb (bool_decide (Route.AllowedRoles rt = [])) &&
     negb (AuthMiddleware.helper_Contains (Route.AllowedRoles rt) (InfoRole info))
  then Err (mkStatus PermissionDenied "role not permitted")
  else if negb (bool_decide (Route.AllowedScopes rt = [])) &&
          negb (AuthMiddleware.HasAllScopes (InfoScopes info) (Route.AllowedScopes rt))
  then Err (mkStatus PermissionDenied "insufficient scopes")
  else Ok info.

(** The identity of a call on a route. *)
Definition identify (s : S) (rt : Route.t) (c : call) : S * result status AuthInfo :=
  if Route.AuthRequired rt then
    match resolveAuth s c with
    | (s, Err e) => (s, Err e)
    | (s, Ok info) => (s, authorize rt info)
    end
  else (s, Ok (mkAuthInfo "" "anonymous" [])).

End authentication.

(** ** [proxy]: the address of an upstream *)

Class URLs := {
  url : Type;
  url_Parse : string → option url;
  url_Scheme : url → string;
  url_Host : url → string;
  with_Host : string → url → url;
  url_String : url → string;
}.

(** [net/url], [splitHostPort]: the host without its port and brackets. *)
Definition validOptionalPort (port : string) : bool :=
  match port with
  | EmptyString => true
  | String c rest => Ascii.eqb c ":" && sforallb is_digit rest
  end.

Definition url_splitHostPort (hostPort : string) : string * string :=
  let '(host, port) :=
    match GoNet.last_index_byte ":" hostPort with
    | Some colon => if validOptionalPort (sdrop colon hostPort)
                    then (stake colon hostPort, sdrop (S colon) hostPort) else (hostPort, "")
    | None => (hostPort, "")
    end in
  (if HasPrefix host "[" && HasSuffix host "]" then stake (len host - 2) (sdrop 1 host) else host, port).

Definition JoinHostPort (host port : string) : string :=
  if contains_byte ":" host then "[" +:+ host +:+ "]:" +:+ port else host +:+ ":" +:+ port.

Section backends.
Context {U : URLs}.
Context (hostMap : gmap string string).

Definition RewriteTargetURL (raw : string) : string :=
  if (size hostMap =? 0)%nat then raw
  else match url_Parse raw with
  | None => raw
  | Some u =>
      match (if String.eqb (url_Scheme u) "" && String.eqb (url_Host u) "" && Contains raw ":"
             then url_Parse ("tcp://" +:+ raw) else Some u) with
      | None => raw
      | Some u =>
          let '(host, port) := url_splitHostPort (url_Host u) in
          if String.eqb host "" then raw
          else match hostMap !! host with
          | None => raw
          | Some mapped =>
              let u := if Contains mapped ":" then with_Host mapped u
                       else if negb (String.eqb port "") then with_Host (JoinHostPort mapped port) u
                       else with_Host mapped u in
              if String.eqb (url_Scheme u) "tcp" && negb (Contains raw "://") then url_Host u
              else url_String u
          end
      end
  end.

Definition add_backend (out : gmap string string) (rt : Route.t) : gmap string string :=
  if grpc_route rt then <[Route.Path rt := RewriteTargetURL (Route.UpstreamURL rt)]> out else out.

Definition buildGRPCBackends (routes : list Route.t) : gmap string string := foldl add_backend ∅ routes.

End backends.

(** One round of the loop over the table, in whatever order the entries come. *)
Definition backend_step (service : string) (acc : string * Z) (entry : string * string) : string * Z :=
  let '(best, bestLen) := acc in
  let '(prefix, addr) := entry in
  if HasPrefix service prefix && (bestLen <? Z.of_nat (len prefix))%Z
  then (addr, Z.of_nat (len prefix)) else acc.

Definition resolve_in (fullMethod : string) (entries : list (string * string)) : option string :=
  let best := (foldl (backend_step (service_of fullMethod)) ("", (-1)%Z) entries).1 in
  if String.eqb best "" then None else Some best.

Definition ResolveGRPCBackend (fullMethod : string) (upstreamByPrefix : gmap string string) : option string :=
  resolve_in fullMethod (map_to_list upstreamByPrefix).

(** ** [grpc_server.go] and the interceptor *)

Record gateway (L : Type) := mkGateway { proc : process L; backends : gmap string string }.
Arguments mkGateway {L}.
Arguments proc {L}.
Arguments backends {L}.

Section gateway.
Context {L : Type} `{!Limiter L} {U : URLs}.
Context (hostMap : gmap string string) (trustProxy : bool).
Context (sha256_hex : string → string) (redis_prefix : string).
Context {JL : JWTLib}.
Abbreviation P := (process L).
Abbreviation authMiddleware := (Gateway.authMiddleware (L := L) sha256_hex redis_prefix).

Definition rate_key (c : call) (info : AuthInfo) : string :=
  let keyID := InfoClientID info in
  let keyID := if String.eqb keyID "" then getClientIP trustProxy c else keyID in
  keyID +:+ ":" +:+ FullMethod c.

Definition limited (s : P) (rt : Route.t) (c : call) (info : AuthInfo) : P * result status (Route.t * AuthInfo) :=
  if (0 <? Route.RateLimitRPM rt)%Z then
    let '(ok, l) := AllowWithLimit (KeyStore.now (env s)) (rate_key c info) (Route.RateLimitRPM rt) (limiter s) in
    (with_limiter l s, if ok then Ok (rt, info) else Err (mkStatus ResourceExhausted "rate limit exceeded"))
  else (s, Ok (rt, info)).

Definition validate (s : P) (c : call) : P * result status (Route.t * AuthInfo) :=
  match matchRoute (FullMethod c) (Loader.Routes (Loader.Current (loader s))) with
  | None => (s, Err (mkStatus NotFound "route not found"))
  | Some rt =>
      match identify authMiddleware s rt c with
      | (s, Err e) => (s, Err e)
      | (s, Ok info) => limited s rt c info
      end
  end.

(** The handler of unknown services: the address the call is forwarded to. *)
Definition unknownService (g : gateway L) (c : call) : result status string :=
  match ResolveGRPCBackend (FullMethod c) (backends g) with
  | None => Err (mkStatus NotFound "no grpc route")
  | Some addr =>
      if (match Loader.health (loader (proc g)) with
          | Some hc => negb (Health.IsHealthy hc addr)
          | None => false
          end)
      then Err (mkStatus Unavailable "upstream is currently unhealthy")
      else Ok addr
  end.

(** A call: the stream interceptor around the handler. *)
Definition serve (g : gateway L) (c : call) : gateway L * result status (string * AuthInfo) :=
  match validate (proc g) c with
  | (s, Err e) => (mkGateway s (backends g), Err e)
  | (s, Ok (_, info)) =>
      let g := mkGateway s (backends g) in
      (g, match unknownService g c with Ok addr => Ok (addr, info) | Err e => Err e end)
  end.

Definition RefreshBackends (g : gateway L) : gateway L :=
  mkGateway (proc g) (buildGRPCBackends hostMap (Loader.Routes (Loader.Current (loader (proc g))))).

Definition NewGRPCGateway (s : P) : gateway L := RefreshBackends (mkGateway s ∅).

End gateway.

(** ** The longest prefix *)

(** The two loops keep the first of the longest entries that qualify. *)
Section longest.
Context {A : Type} (ok : A → bool) (w : A → nat).

Definition longest_step (acc : option A * Z) (x : A) : option A * Z :=
  if ok x && (acc.2 <? Z.of_nat (w x))%Z then (Some x, Z.of_nat (w x)) else acc.

Lemma longest_spec l :
  match foldl longest_step (None, (-1)%Z) l with
  | (None, b) => b = (-1)%Z ∧ ∀ x, x ∈ l → ok x = false
  | (Some x, b) => b = Z.of_nat (w x) ∧ x ∈ l ∧ ok x = true ∧ ∀ y, y ∈ l → ok y = true → w y ≤ w x
  end.
Proof.
  induction l as [|x l IH] using rev_ind; [by split; [|intros x ?%not_elem_of_nil]|].
  rewrite foldl_app. simpl. destruct (foldl _ _ l) as [[y|] b]; unfold longest_step; simpl; destruct IH as [-> IH].
  - destruct IH as (Hy & Hok & Hmax). destruct (ok x) eqn:Hx; simpl; [destruct (Z.ltb_spec (Z.of_nat (w y)) (Z.of_nat (w x)))|].
    + split_and!; [done|set_solver|done|]. intros z [Hz| ->%list_elem_of_singleton]%elem_of_app Hzok; [|done].
      specialize (Hmax z Hz Hzok). lia.
    + split_and!; [done|set_solver|done|]. intros z [Hz| ->%list_elem_of_singleton]%elem_of_app Hzok; [by apply Hmax|lia].
    + split_and!; [done|set_solver|done|]. intros z [Hz| ->%list_elem_of_singleton]%elem_of_app Hzok; [by apply Hmax|congruence].
  - destruct (ok x) eqn:Hx; simpl; [destruct (Z.ltb_spec (-1) (Z.of_nat (w x))); [|lia]|].
    + split_and!; [done|set_solver|done|]. intros z [Hz| ->%list_elem_of_singleton]%elem_of_app Hzok; [|done].
      by rewrite (IH z) in Hzok.
    + split; [done|]. intros z [Hz| ->%list_elem_of_singleton]%elem_of_app; [by apply IH|done].
Qed.

End longest.

Definition route_matches (service : string) (rt : Route.t) : bool := grpc_route rt && HasPrefix service (Route.Path rt).

Lemma matchRoute_longest m routes :
  matchRoute m routes =
    (foldl (longest_step (route_matches (service_of m)) (λ rt, len (Route.Path rt))) (None, (-1)%Z) routes).1.
Proof.
  unfold matchRoute. f_equal. generalize (@None Route.t, (-1)%Z).
  induction routes as [|rt routes IH]; intros [b n]; [done|]. apply IH.
Qed.

Lemma matchRoute_spec m routes :
  match matchRoute m routes with
  | Some rt => rt ∈ routes ∧ route_matches (service_of m) rt = true ∧
               ∀ x, x ∈ routes → route_matches (service_of m) x = true → len (Route.Path x) ≤ len (Route.Path rt)
  | None => ∀ x, x ∈ routes → route_matches (service_of m) x = false
  end.
Proof.
  rewrite matchRoute_longest. pose proof (longest_spec (route_matches (service_of m)) (λ rt, len (Route.Path rt)) routes) as H.
  destruct (foldl _ _ routes) as [[rt|] b]; simpl; by destruct H.
Qed.

Lemma same_prefix s p q : HasPrefix s p = true → HasPrefix s q = true → len p = len q → p = q.
Proof.
  revert p q. induction s as [|c s IH]; intros [|a p] [|b q]; simpl; try done.
  intros [Ha Hp]%andb_prop [Hb Hq]%andb_prop [= Hl]. apply Ascii.eqb_eq in Ha as <-, Hb as <-. f_equal. by apply IH.
Qed.

Definition entry_matches (service : string) (e : string * string) : bool := HasPrefix service e.1.

Lemma resolve_longest m entries :
  resolve_in m entries =
    match (foldl (longest_step (entry_matches (service_of m)) (λ e, len e.1)) (None, (-1)%Z) entries).1 with
    | Some (_, addr) => if String.eqb addr "" then None else Some addr
    | None => None
    end.
Proof.
  unfold resolve_in. set (R := λ (x : string * Z) (y : option (string * string) * Z),
    x.2 = y.2 ∧ x.1 = match y.1 with Some e => e.2 | None => "" end).
  assert (H : ∀ l x y, R x y → R (foldl (backend_step (service_of m)) x l)
    (foldl (longest_step (entry_matches (service_of m)) (λ e, len e.1)) y l)).
  { induction l as [|[p a] l IH]; intros [b n] [o k] HR; simpl; [done|]. apply IH. destruct HR as [E1 E2]. simpl in *. subst.
    unfold longest_step, entry_matches. simpl. by destruct (_ && _). }
  destruct (H entries ("", (-1)%Z) (None, (-1)%Z)) as [_ ->]; [done|]. by destruct (foldl _ _ entries) as [[[p a]|] b].
Qed.

(** The address of the longest prefix in the table: whatever order the entries of
    the map come in. *)
Definition longest_entry (service : string) (tbl : gmap string string) (addr : string) : Prop :=
  ∃ p, tbl !! p = Some addr ∧ HasPrefix service p = true ∧
    ∀ q a, tbl !! q = Some a → HasPrefix service q = true → len q ≤ len p.

Lemma resolve_in_spec m tbl entries addr :
  entries ≡ₚ map_to_list tbl →
  resolve_in m entries = Some addr ↔ addr ≠ "" ∧ longest_entry (service_of m) tbl addr.
Proof.
  intros Hp. assert (Hel : ∀ p a, (p, a) ∈ entries ↔ tbl !! p = Some a) by (intros; by rewrite Hp, elem_of_map_to_list).
  rewrite resolve_longest.
  pose proof (longest_spec (entry_matches (service_of m)) (λ e, len e.1) entries) as H.
  destruct (foldl _ _ entries) as [[[p a]|] b]; simpl; destruct H as [-> H].
  - destruct H as (Hin & Hok & Hmax). apply Hel in Hin. change (HasPrefix (service_of m) p = true) in Hok. destruct (String.eqb_spec a "") as [->|Ha].
    + split; [done|]. intros [Hne (q & Hq & Hpq & Hmq)]. destruct Hne. apply Hel in Hq as Hq'.
      specialize (Hmax _ Hq' Hpq). specialize (Hmq _ _ Hin Hok). simpl in Hmax.
      rewrite (same_prefix _ _ _ Hok Hpq) in Hin by lia. congruence.
    + split.
      * intros [= <-]. split; [done|]. exists p. split_and!; [done|done|]. intros q c Hq Hpq.
        apply Hel in Hq. by apply (Hmax (q, c)).
      * intros [_ (q & Hq & Hpq & Hmq)]. apply Hel in Hq as Hq'. specialize (Hmax _ Hq' Hpq).
        specialize (Hmq _ _ Hin Hok). simpl in Hmax. rewrite (same_prefix _ _ _ Hok Hpq) in Hin by lia. congruence.
  - split; [done|]. intros [_ (q & Hq & Hpq & _)]. apply Hel in Hq. apply H in Hq. unfold entry_matches in Hq. simpl in Hq. congruence.
Qed.

Lemma ResolveGRPCBackend_spec m tbl addr :
  ResolveGRPCBackend m tbl = Some addr ↔ addr ≠ "" ∧ longest_entry (service_of m) tbl addr.
Proof. by apply resolve_in_spec. Qed.

(** ** The table and the routes *)

Section table.
Context {U : URLs} (hostMap : gmap string string).

Lemma buildGRPCBackends_lookup routes p :
  match buildGRPCBackends hostMap routes !! p with
  | Some a => ∃ rt, rt ∈ routes ∧ grpc_route rt = true ∧ Route.Path rt = p ∧ a = RewriteTargetURL hostMap (Route.UpstreamURL rt)
  | None => ∀ rt, rt ∈ routes → grpc_route rt = true → Route.Path rt ≠ p
  end.
Proof.
  unfold buildGRPCBackends. induction routes as [|x routes IH] using rev_ind.
  { simpl. rewrite lookup_empty. by intros rt ?%not_elem_of_nil. }
  rewrite foldl_app. simpl. unfold add_backend at 1. destruct (grpc_route x) eqn:Hx.
  - destruct (decide (Route.Path x = p)) as [<-|Hne].
    + rewrite lookup_insert_eq. exists x. split_and!; [set_solver|done..].
    + rewrite lookup_insert_ne by done. destruct (foldl _ _ routes !! p) as [a|].
      * destruct IH as (rt & ? & ? & ? & ?). exists rt. split_and!; [set_solver|done..].
      * intros rt [Hrt| ->%list_elem_of_singleton]%elem_of_app; [by apply IH|done].
  - destruct (foldl _ _ routes !! p) as [a|].
    + destruct IH as (rt & ? & ? & ? & ?). exists rt. split_and!; [set_solver|done..].
    + intros rt [Hrt| ->%list_elem_of_singleton]%elem_of_app; [by apply IH|congruence].
Qed.

(** Routes for the same path lead to the same upstream. *)
Definition one_upstream_per_path (routes : list Route.t) : Prop :=
  ∀ x y, x ∈ routes → y ∈ routes → grpc_route x = true → grpc_route y = true →
    Route.Path x = Route.Path y → Route.UpstreamURL x = Route.UpstreamURL y.

(** The table made from a list of routes resolves a call to the upstream of the
    route the interceptor finds in that list. *)
Lemma resolve_agrees m routes rt addr :
  one_upstream_per_path routes → matchRoute m routes = Some rt →
  ResolveGRPCBackend m (buildGRPCBackends hostMap routes) = Some addr →
  addr = RewriteTargetURL hostMap (Route.UpstreamURL rt).
Proof.
  intros Hone Hm [_ (p & Hp & Hpre & Hmax)]%ResolveGRPCBackend_spec.
  pose proof (matchRoute_spec m routes) as Hs. rewrite Hm in Hs. destruct Hs as (Hin & [Hg Hrp]%andb_prop & Hlong).
  pose proof (buildGRPCBackends_lookup routes p) as Hb. rewrite Hp in Hb. destruct Hb as (x & Hx & Hgx & <- & ->).
  assert (Hle : len (Route.Path x) ≤ len (Route.Path rt)).
  { apply Hlong; [done|]. unfold route_matches. by rewrite Hgx, Hpre. }
  pose proof (buildGRPCBackends_lookup routes (Route.Path rt)) as Hb.
  destruct (buildGRPCBackends hostMap routes !! Route.Path rt) as [b|] eqn:Hl; [|by destruct (Hb rt Hin Hg)].
  specialize (Hmax _ _ Hl Hrp). f_equal. apply Hone; try done. by apply (same_prefix _ _ _ Hpre Hrp); lia.
Qed.

End table.

(** ** What a call must satisfy *)

Section guarantees.
Context {L : Type} `{!Limiter L} {U : URLs}.
Context (hostMap : gmap string string) (trustProxy : bool).
Context (sha256_hex : string → string) (redis_prefix : string).
Context {JL : JWTLib}.
Abbreviation P := (process L).
Abbreviation authMiddleware := (Gateway.authMiddleware (L := L) sha256_hex redis_prefix).
Abbreviation serve := (serve trustProxy sha256_hex redis_prefix).

(** The HTTP request with the same header and peer. *)
Definition as_http (c : call) : Http.request :=
  Http.mkRequest "POST" (FullMethod c) "" (default "" (PeerAddr c)) (default ∅ (Metadata c)) Http.background.

Lemma keyStore_same (s : P) : with_loader (set_keyStore (Loader.keyStore (loader s)) (loader s)) s = s.
Proof. by destruct s as [[]]. Qed.

(** The key store trims the key, and knows no blank one. *)
Lemma store_blank e st key : TrimSpace key = "" → KeyStore.Validate sha256_hex redis_prefix e st key = (st, None).
Proof. intros H. unfold KeyStore.Validate, KeyStore.ValidateWithContext. cbv zeta. by rewrite H. Qed.

Lemma store_trimmed e st key :
  KeyStore.Validate sha256_hex redis_prefix e st (TrimSpace key) = KeyStore.Validate sha256_hex redis_prefix e st key.
Proof.
  unfold KeyStore.Validate, KeyStore.ValidateWithContext, KeyStore.hashKey. cbv zeta. by rewrite !TrimSpace_idemp.
Qed.

Lemma first_value (c : call) md k : Metadata c = Some md →
  Http.Get (Http.Header (as_http c)) k = match md_Get md k with v :: _ => v | [] => "" end.
Proof. intros H. unfold as_http, Http.Get, md_Get. simpl. rewrite H. simpl. by destruct (default [] (md !! ToLower k)). Qed.

Lemma resolveAuth_spec (s : P) (c : call) :
  match resolveAuth authMiddleware s c, AuthMiddleware.authenticate authMiddleware s (as_http c) with
  | (s1, Ok i), (s2, Ok (cid, role, scopes)) => s1 = s2 ∧ i = mkAuthInfo cid role scopes
  | (s1, Err e), (s2, Err _) => s1 = s2 ∧ Code e = Unauthenticated
  | _, _ => False
  end.
Proof.
  unfold resolveAuth, AuthMiddleware.authenticate. destruct (Metadata c) as [md|] eqn:Hmd.
  2: { unfold as_http, Http.Get. simpl. by rewrite Hmd; simpl; rewrite !lookup_empty. }
  rewrite !(first_value c md) by done. cbv zeta.
  change (md_Get md "Authorization") with (md_Get md "authorization").
  change (md_Get md "X-API-Key") with (md_Get md "x-api-key").
  destruct (HasPrefix _ "Bearer ").
  - simpl. destruct (String.eqb _ ""); [done|]. by destruct (ProjectJWTManager.ValidateIdentity _ _).
  - simpl. destruct (md_Get md "x-api-key") as [|key rest]; [done|].
    destruct (String.eqb_spec (TrimSpace key) "") as [Hb|Hb].
    + rewrite store_blank by done. by rewrite keyStore_same.
    + rewrite store_trimmed. by destruct (KeyStore.Validate _ _ _ _ _) as [ks [rec|]].
Qed.

Lemma authorize_spec rt info :
  match AuthMiddleware.acl (Some rt) (InfoRole info) (InfoScopes info) with
  | None => authorize rt info = Ok info
  | Some _ => ∃ msg, authorize rt info = Err (mkStatus PermissionDenied msg)
  end.
Proof. unfold authorize. simpl. destruct (negb _ && negb _); [by eexists|]. destruct (negb _ && negb _); [by eexists|done]. Qed.

(** The interceptor and [AuthMiddleware.authenticate] read the same credentials. *)
Lemma identify_spec (s : P) (rt : Route.t) (c : call) :
  Route.AuthRequired rt = true →
  match identify authMiddleware s rt c, AuthMiddleware.authenticate authMiddleware s (as_http c) with
  | (s1, r), (s2, Err _) => s1 = s2 ∧ ∃ msg, r = Err (mkStatus Unauthenticated msg)
  | (s1, r), (s2, Ok (clientID, role, scopes)) => s1 = s2 ∧
      match AuthMiddleware.acl (Some rt) role scopes with
      | None => r = Ok (mkAuthInfo clientID role scopes)
      | Some _ => ∃ msg, r = Err (mkStatus PermissionDenied msg)
      end
  end.
Proof.
  intros Ha. unfold identify. rewrite Ha. pose proof (resolveAuth_spec s c) as H.
  destruct (resolveAuth _ _ _) as [s1 [info|[k msg]]], (AuthMiddleware.authenticate _ _ _) as [s2 [[[cid role] scopes]|e]];
    try done; simpl in *.
  - destruct H as [-> ->]. split; [done|]. apply (authorize_spec rt (mkAuthInfo cid role scopes)).
  - destruct H as [-> ->]. eauto.
Qed.

(** That request as the route matcher of HTTP hands it on, and as the
    authentication stage does for a caller it has identified. *)
Definition routed (c : call) (rt : Route.t) : Http.request :=
  Http.WithContext (as_http c) (Http.with_route Http.background rt).
Definition identified (c : call) (rt : Route.t) (info : AuthInfo) : Http.request :=
  Http.WithContext (routed c rt)
    (Http.with_identity (Http.ctx (routed c rt)) (InfoClientID info) (InfoRole info) (InfoScopes info)).

(** The status a refused HTTP request is answered with. *)
Definition http_status (k : code) : option Z :=
  match k with Unauthenticated => Some 401%Z | PermissionDenied => Some 403%Z | _ => None end.

(** C17: the interceptor admits a gRPC call exactly when the HTTP middleware
    admits the POST request with the same header, peer and route, for a method
    whose name is not one of the public HTTP paths (/health and /ready).  On a route
    that requires authentication an admitted call has the identity the middleware
    puts in the context of the request it hands on, and a refused one the status
    Unauthenticated or PermissionDenied where the middleware answers 401 or 403
    without calling the next handler; on an open route both go through, the call
    as anonymous and the request without an identity.  Both leave the same state. *)
Theorem grpc_http_same_access (s : P) (rt : Route.t) (c : call) (w : Http.writer) :
  AuthMiddleware.isPublicPath (FullMethod c) = false →
  match identify authMiddleware s rt c with
  | (s', Ok info) =>
      (Route.AuthRequired rt = false → info = mkAuthInfo "" "anonymous" []) ∧
      ∀ next, AuthMiddleware.Middleware authMiddleware next s w (routed c rt) =
        next s' w (if Route.AuthRequired rt then identified c rt info else routed c rt)
  | (s', Err e) =>
      Route.AuthRequired rt = true ∧
      ∃ k msg, http_status (Code e) = Some k ∧
        ∀ next, AuthMiddleware.Middleware authMiddleware next s w (routed c rt) =
          (s', Http.httpJSON w k (Http.error_json msg))
  end.
Proof.
  intros Hpub. unfold AuthMiddleware.Middleware, identified.
  change (Http.Path (routed c rt)) with (FullMethod c). rewrite Hpub.
  change (AuthMiddleware.authenticate authMiddleware s (routed c rt))
    with (AuthMiddleware.authenticate authMiddleware s (as_http c)).
  change (AuthMiddleware.isPreflight (routed c rt)) with false. cbn [orb].
  change (Http.CtxRoute (Http.ctx (routed c rt))) with (Some rt). unfold AuthMiddleware.open_route.
  destruct (Route.AuthRequired rt) eqn:Ha; cbn [negb].
  2: { unfold identify. by rewrite Ha. }
  pose proof (identify_spec s rt c Ha) as H.
  destruct (identify _ _ _ _) as [s1 r], (AuthMiddleware.authenticate _ _ _) as [s2 [[[cid role] scopes]|e]].
  - destruct H as [-> H]. destruct (AuthMiddleware.acl _ _ _) as [msg|].
    + destruct H as [m ->]. split; [done|]. by exists 403%Z, msg.
    + by subst r.
  - destruct H as [-> [m ->]]. split; [done|]. by exists 401%Z, e.
Qed.

Lemma identify_quiet (s : P) rt c :
  quiet s (identify authMiddleware s rt c).1 ∧ limiter (identify authMiddleware s rt c).1 = limiter s.
Proof.
  unfold identify. destruct (Route.AuthRequired rt); [|split; [apply quiet_refl|done]].
  pose proof (resolveAuth_spec s c) as H. pose proof (authenticate_quiet sha256_hex redis_prefix s (as_http c)) as Hq.
  pose proof (authenticate_limiter sha256_hex redis_prefix s (as_http c)) as Hl.
  destruct (resolveAuth _ _ _) as [s1 [info|e]], (AuthMiddleware.authenticate _ _ _) as [s2 [[[cid role] scopes]|msg]];
    try done; simpl in *; by destruct H as [-> _].
Qed.

(** An upstream the health checker does not know to be down. *)
Definition healthy_address (s : P) (addr : string) : Prop :=
  ∀ hc, Loader.health (loader s) = Some hc → Health.IsHealthy hc addr = true.

Lemma validate_quiet (s : P) c : quiet s (validate trustProxy sha256_hex redis_prefix s c).1.
Proof.
  unfold validate. destruct (matchRoute _ _) as [rt|]; [|apply quiet_refl].
  destruct (identify_quiet s rt c) as [Hq _]. destruct (identify _ _ _ _) as [s1 [info|e]]; [|done].
  eapply quiet_trans; [exact Hq|]. simpl. unfold limited.
  destruct (0 <? _)%Z; [destruct (AllowWithLimit _ _ _ _) as [[] l]|]; by split.
Qed.

(** C13: a gRPC call is forwarded only if the snapshot has an enabled gRPC route
    whose path is a prefix of the service, the longest such; if that route requires
    authentication, only with credentials whose role and scopes it permits; only
    within the route's rate limit; and only to a healthy upstream, the one the
    table of backends has for the longest prefix of the service, which is the
    upstream of that very route when the table was made from the snapshot. *)
Theorem grpc_call_authorized (g g' : gateway L) (c : call) addr info :
  serve g c = (g', Ok (addr, info)) →
  let routes := Loader.Routes (Loader.snapshot (loader (proc g))) in
  ∃ rt, rt ∈ routes ∧ route_matches (service_of (FullMethod c)) rt = true ∧
    (∀ x, x ∈ routes → route_matches (service_of (FullMethod c)) x = true → len (Route.Path x) ≤ len (Route.Path rt)) ∧
    (Route.AuthRequired rt = true →
       AuthMiddleware.credentials authMiddleware (proc g) (as_http c) (InfoClientID info) (InfoRole info) (InfoScopes info) ∧
       AuthMiddleware.permitted rt (InfoRole info) (InfoScopes info)) ∧
    ((0 < Route.RateLimitRPM rt)%Z →
       Allowed (CheckAndConsume (KeyStore.now (env (proc g))) (rate_key trustProxy c info) (Route.RateLimitRPM rt)
                  (limiter (proc g))).1 = true) ∧
    addr ≠ "" ∧ healthy_address (proc g) addr ∧ longest_entry (service_of (FullMethod c)) (backends g) addr ∧
    (one_upstream_per_path routes → backends g = buildGRPCBackends hostMap routes →
       addr = RewriteTargetURL hostMap (Route.UpstreamURL rt)).
Proof.
  cbv zeta. unfold GrpcGateway.serve, validate.
  pose proof (matchRoute_spec (FullMethod c) (Loader.Routes (Loader.Current (loader (proc g))))) as Hm.
  destruct (matchRoute _ _) as [rt|] eqn:Hrt; [|done]. destruct Hm as (Hin & Hmatch & Hlong).
  destruct (identify_quiet (proc g) rt c) as [Hq Hl].
  destruct (identify _ _ _ _) as [s1 [i|e]] eqn:Hid; [|done]. simpl in Hq, Hl.
  destruct (limited _ _ _ _ _) as [s2 [[rt' i']|e]] eqn:Hlim; [|done].
  assert (Hq2 : quiet s1 s2 ∧ rt' = rt ∧ i' = i ∧ ((0 < Route.RateLimitRPM rt)%Z →
    Allowed (CheckAndConsume (KeyStore.now (env (proc g))) (rate_key trustProxy c i) (Route.RateLimitRPM rt)
      (limiter (proc g))).1 = true)).
  { revert Hlim. unfold limited, AllowWithLimit. rewrite (quiet_env _ _ Hq), Hl. destruct (Z.ltb_spec 0 (Route.RateLimitRPM rt)).
    - destruct (CheckAndConsume _ _ _ _) as [res l]. simpl. destruct (Allowed res) eqn:E; intros [= <- <- <-].
      split_and!; [by split|done|done|done].
    - intros [= <- <- <-]. split_and!; [apply quiet_refl|done|done|lia]. }
  destruct Hq2 as (Hq2 & -> & -> & Hrate). intros H. injection H as <- H.
  unfold unknownService in H. simpl in H. destruct (ResolveGRPCBackend _ _) as [a|] eqn:Hres; [|done].
  assert (Hh : Loader.health (loader s2) = Loader.health (loader (proc g))).
  { by rewrite (quiet_health _ _ Hq2), (quiet_health _ _ Hq). }
  assert (Ha : a = addr ∧ i = info ∧ healthy_address (proc g) addr).
  { unfold healthy_address. rewrite <-Hh. destruct (Loader.health (loader s2)) as [hc|].
    - destruct (Health.IsHealthy hc a) eqn:E; simpl in H; [|done]. injection H as -> ->.
      split_and!; [done|done|]. by intros hc' [= <-].
    - injection H as -> ->. by split_and!. }
  destruct Ha as (-> & -> & Hhealth). pose proof Hres as [Hne Hent]%ResolveGRPCBackend_spec.
  exists rt. split_and!; try done.
  - intros Ha. pose proof (identify_spec (proc g) rt c Ha) as Hs. rewrite Hid in Hs.
    destruct (AuthMiddleware.authenticate _ _ _) as [s3 [[[cid role] scopes]|e]] eqn:Hau; [|by destruct Hs as [_ [? ?]]].
    destruct Hs as [-> Hs]. destruct (AuthMiddleware.acl _ _ _) eqn:Hacl; [by destruct Hs|]. injection Hs as ->. simpl.
    split; [by eapply AuthMiddleware.authenticate_Ok|by apply AuthMiddleware.acl_None].
  - intros Hone Ht. rewrite Ht in Hres. by eapply resolve_agrees.
Qed.

(** Calls keep the snapshot and the table, so that a table made from the snapshot
    stays so until the next reload. *)
Lemma serve_keeps (g : gateway L) (c : call) :
  backends (serve g c).1 = backends g ∧
  Loader.snapshot (loader (proc (serve g c).1)) = Loader.snapshot (loader (proc g)).
Proof.
  pose proof (quiet_snapshot _ _ (validate_quiet (proc g) c)) as H. unfold GrpcGateway.serve.
  by destruct (validate _ _ _ _ _) as [s [[rt i]|e]].
Qed.

End guarantees.
End GrpcGateway.

(** ** Concrete calls *)

Module GrpcSamples.
Import Gateway GrpcGateway.

#[local] Instance toy_urls : URLs :=
  {| url := string; url_Parse := Some; url_Scheme := λ _, "tcp"; url_Host := id; with_Host := λ h _, h; url_String := id |}.
#[local] Existing Instance AuthSamples.sample_lib.

Definition grpc_sample (id path upstream : string) (auth : bool) (blocked : list string) : Route.t :=
  Route.mk id "p" id path None upstream [] "grpc" "prefix" true None auth 60 [] (if auth then ["user"] else []) [] []
    blocked 0 0.
Definition pay_route : Route.t := grpc_sample "r1" "/pay" "pay:9000" true [].
Definition sample_at (routes : list Route.t) : process MemoryLimiter.t :=
  with_loader (Loader.mk (Loader.mkSnapshot routes ∅ [] ∅) ∅ [] None (Loader.jwt (loader GatewaySamples.sample_process))
    KeyStore.NewRedisKeyStore) GatewaySamples.sample_process.
Definition sample_gateway (routes : list Route.t) : gateway MemoryLimiter.t := NewGRPCGateway ∅ (sample_at routes).

Definition pay_call (auth : list (string * list string)) : call :=
  mkCall "/pay.Invoices/Create" (Some (list_to_map auth)) (Some "192.0.2.7:4000").
Definition sample_serve (g : gateway MemoryLimiter.t) (c : call) : result status (string * AuthInfo) :=
  (serve false (λ k, k) "" g c).2.

Example refused_without_token :
  sample_serve (sample_gateway [pay_route]) (pay_call []) = Err (mkStatus Unauthenticated "authentication required").
Proof. vm_compute. reflexivity. Qed.
Example longest_path_serves :
  sample_serve (sample_gateway [pay_route; grpc_sample "r2" "/pay.Inv" "inv:9000" false []]) (pay_call []) =
    Ok ("inv:9000", mkAuthInfo "" "anonymous" []).
Proof. vm_compute. reflexivity. Qed.

Definition pay_identity : AuthInfo := mkAuthInfo "client-7" "user" ["read"; "write"].

Lemma grpc_call_authorized_witness :
  AuthMiddleware.credentials (authMiddleware (λ k, k) "") (sample_at [pay_route]) (as_http (pay_call GatewaySamples.bearer))
    (InfoClientID pay_identity) (InfoRole pay_identity) (InfoScopes pay_identity) ∧ "user" ∈ Route.AllowedRoles pay_route.
Proof.
  destruct (grpc_call_authorized ∅ false (λ k, k) "" (sample_gateway [pay_route])
    (serve false (λ k, k) "" (sample_gateway [pay_route]) (pay_call GatewaySamples.bearer)).1
    (pay_call GatewaySamples.bearer) "pay:9000" pay_identity) as (rt & Hin & _ & _ & Ha & _).
  - vm_compute. reflexivity.
  - apply list_elem_of_singleton in Hin as ->. destruct (Ha eq_refl) as [Hc [[Hr|Hr] _]]; [by vm_compute in Hr|].
    split; [exact Hc|exact Hr].
Defined.

Lemma grpc_http_same_access_witness :
  AuthMiddleware.isPublicPath (FullMethod (pay_call GatewaySamples.bearer)) = false ∧
  ∃ s', ∀ next, AuthMiddleware.Middleware (authMiddleware (λ k, k) "") next (sample_at []) Http.new_writer
      (routed (pay_call GatewaySamples.bearer) pay_route) =
    next s' Http.new_writer (identified (pay_call GatewaySamples.bearer) pay_route pay_identity).
Proof.
  assert (Hp : AuthMiddleware.isPublicPath (FullMethod (pay_call GatewaySamples.bearer)) = false)
    by (vm_compute; reflexivity).
  split; [exact Hp|].
  pose proof (grpc_http_same_access (λ k, k) "" (sample_at []) pay_route (pay_call GatewaySamples.bearer)
    Http.new_writer Hp) as H.
  assert (Hi : (identify (authMiddleware (λ k, k) "") (sample_at []) pay_route (pay_call GatewaySamples.bearer)).2 =
    Ok pay_identity) by (vm_compute; reflexivity).
  destruct (identify _ _ _ _) as [s' r]. simpl in Hi. subst r. destruct H as [_ H]. exists s'. exact H.
Defined.

(** The IP rules of a route bind HTTP requests only. *)
Example ip_rules_ignored :
  let rt := grpc_sample "r1" "/pay" "pay:9000" false ["192.0.2.0/24"] in
  IPFilter.policy_admits rt (getClientIP false (pay_call [])) = false ∧
  sample_serve (sample_gateway [rt]) (pay_call []) = Ok ("pay:9000", mkAuthInfo "" "anonymous" []).
Proof. split; vm_compute; reflexivity. Qed.

(** The route for [/pay] is replaced by an open one to another upstream.  Until the
    table is made anew the call passes under the new route and goes to the upstream
    of the old one, which asked for credentials. *)
Example stale_backend :
  let g := mkGateway (sample_at [grpc_sample "r2" "/pay" "docs:9000" false []]) (backends (sample_gateway [pay_route])) in
  sample_serve (sample_gateway [pay_route]) (pay_call []) = Err (mkStatus Unauthenticated "authentication required") ∧
  sample_serve g (pay_call []) = Ok ("pay:9000", mkAuthInfo "" "anonymous" []) ∧
  sample_serve (RefreshBackends ∅ g) (pay_call []) = Ok ("docs:9000", mkAuthInfo "" "anonymous" []).
Proof. split_and!; vm_compute; reflexivity. Qed.

End GrpcSamples.
