(* ===== verification/GrpcProxy.v ===== *)
(** * The transparent gRPC proxy

    [src/internal/gateway/proxy/grpc_proxy.go] and [metadata_bridge.go]: one call
    forwarded to an upstream.  The handler reads the upstream's header, then copies
    messages in both directions in two goroutines whose ends it collects from a
    channel.  The state has what either end of the two streams holds; a step is one
    operation of the handler ([handler_step]) or something the client or the
    upstream does ([peer_step]).  The operations of the gRPC library behave as its
    documentation says: [Header] blocks until there is a header or the stream is
    over, [RecvMsg] until there is a message, [SendMsg] until the flow control of
    the receiver takes the message or the stream is over, and a stream that is over
    answers [SendMsg] with [io.EOF].  Flow control is counted in messages: a peer that
    reads takes one more. *)

From Stdlib Require Import Ascii Relations.
From stdpp Require Import gmap.
From S2P Require Import Prelude GoStrings.

Module GrpcProxy.

(** ** [metadata_bridge.go] *)

Abbreviation MD := (gmap string (list string)).

Definition grpcInternalHeaders : gset string :=
  {["grpc-status"; "grpc-message"; "grpc-status-details-bin"; "grpc-encoding"; "grpc-accept-encoding"; "content-type"]}.

Definition transport_key (k : string) : bool := HasPrefix k ":" || bool_decide (k ∈ grpcInternalHeaders).

Definition stripTransportKeys (md : MD) : MD := filter (λ '(k, _), transport_key k = false) md.

(** What [SendHeader] and [SetTrailer] are called with, if they are. *)
Definition forwarded (md : MD) : option MD :=
  let out := stripTransportKeys md in if (size out =? 0)%nat then None else Some out.

(** ** The state of a call *)

Section proxy.
Context {M E : Type}.                       (* frames and status errors *)

Inductive io_error := EOF | Failed (e : E).

Record client := mkClient {
  incoming : list M;            (* sent by the client, not yet received *)
  client_sent : list M;
  half_closed : bool;
  gone : bool;                  (* cancelled, or past its deadline *)
  delivered : list M;
  header_out : option MD;
  trailer_out : option MD;
  credit : nat;                 (* messages its flow control still takes *)
}.

Record backend := mkBackend {
  received : list M;
  send_closed : bool;           (* [CloseSend] was called *)
  header : option MD;
  outgoing : list M;            (* sent by the upstream, not yet received *)
  backend_sent : list M;
  ended : option (option E * MD);
  be_credit : nat;
}.

(** [copyStream] between two operations. *)
Inductive copier := NotStarted | Receiving | Sending (m : M) | Stopped (e : io_error).

Inductive handler := AwaitHeader | Collecting (left : nat) (firstErr : option E) | Returned (r : option E).

Record state := mkState {
  cl : client;
  be : backend;
  errCh : list io_error;
  cancelled : bool;
  main : handler;
  up : copier;                  (* client to upstream *)
  down : copier;                (* upstream to client *)
}.

Definition start : state :=
  mkState (mkClient [] [] false false [] None None 0) (mkBackend [] false None [] [] None 0) [] false
    AwaitHeader NotStarted NotStarted.

(** ** The handler *)

Definition collect (e : io_error) (firstErr : option E) : option E :=
  match e, firstErr with Failed x, None => Some x | _, _ => firstErr end.

(** [cancel] is called with the first error. *)
Definition cancels (e : io_error) (firstErr : option E) (x : bool) : bool :=
  match e, firstErr with Failed _, None => true | _, _ => x end.

Definition receive (cl : client) (rest : list M) : client :=
  mkClient rest (client_sent cl) (half_closed cl) (gone cl) (delivered cl) (header_out cl) (trailer_out cl) (credit cl).
Definition deliver (m : M) (cl : client) : client :=
  mkClient (incoming cl) (client_sent cl) (half_closed cl) (gone cl) (delivered cl ++ [m]) (header_out cl)
    (trailer_out cl) (pred (credit cl)).
Definition set_headers (h t : option MD) (cl : client) : client :=
  mkClient (incoming cl) (client_sent cl) (half_closed cl) (gone cl) (delivered cl) h t (credit cl).
Definition pass (m : M) (be : backend) : backend :=
  mkBackend (received be ++ [m]) (send_closed be) (header be) (outgoing be) (backend_sent be) (ended be)
    (pred (be_credit be)).
Definition CloseSend (be : backend) : backend :=
  mkBackend (received be) true (header be) (outgoing be) (backend_sent be) (ended be) (be_credit be).
Definition take_out (be : backend) (rest : list M) : backend :=
  mkBackend (received be) (send_closed be) (header be) rest (backend_sent be) (ended be) (be_credit be).

Inductive handler_step : state → state → Prop :=
| h_header cl be ch x u d :
    is_Some (header be) ∨ is_Some (ended be) ∨ gone cl = true →
    handler_step (mkState cl be ch x AwaitHeader u d)
      (mkState (set_headers (header be ≫= forwarded) (trailer_out cl) cl) be ch x (Collecting 2 None) Receiving Receiving)
| h_up_receive cl be ch x mn d m rest :
    incoming cl = m :: rest →
    handler_step (mkState cl be ch x mn Receiving d) (mkState (receive cl rest) be ch x mn (Sending m) d)
| h_up_eof cl be ch x mn d :
    incoming cl = [] → half_closed cl = true →
    handler_step (mkState cl be ch x mn Receiving d) (mkState cl (CloseSend be) (ch ++ [EOF]) x mn (Stopped EOF) d)
| h_up_gone cl be ch x mn d e :
    gone cl = true →
    handler_step (mkState cl be ch x mn Receiving d)
      (mkState cl (CloseSend be) (ch ++ [Failed e]) x mn (Stopped (Failed e)) d)
| h_up_send cl be ch x mn d m :
    ended be = None → x = false → gone cl = false → 0 < be_credit be →
    handler_step (mkState cl be ch x mn (Sending m) d) (mkState cl (pass m be) ch x mn Receiving d)
| h_up_send_over cl be ch x mn d m e :
    (is_Some (ended be) ∧ e = EOF) ∨ x = true ∨ gone cl = true →
    handler_step (mkState cl be ch x mn (Sending m) d) (mkState cl (CloseSend be) (ch ++ [e]) x mn (Stopped e) d)
| h_down_receive cl be ch x mn u m rest :
    outgoing be = m :: rest →
    handler_step (mkState cl be ch x mn u Receiving) (mkState cl (take_out be rest) ch x mn u (Sending m))
| h_down_end cl be ch x mn u o t :
    outgoing be = [] → ended be = Some (o, t) →
    let e := match o with Some e => Failed e | None => EOF end in
    handler_step (mkState cl be ch x mn u Receiving) (mkState cl be (ch ++ [e]) x mn u (Stopped e))
| h_down_cancelled cl be ch x mn u e :
    x = true ∨ gone cl = true →
    handler_step (mkState cl be ch x mn u Receiving) (mkState cl be (ch ++ [Failed e]) x mn u (Stopped (Failed e)))
| h_down_send cl be ch x mn u m :
    gone cl = false → 0 < credit cl →
    handler_step (mkState cl be ch x mn u (Sending m)) (mkState (deliver m cl) be ch x mn u Receiving)
| h_down_send_gone cl be ch x mn u m e :
    gone cl = true →
    handler_step (mkState cl be ch x mn u (Sending m)) (mkState cl be (ch ++ [Failed e]) x mn u (Stopped (Failed e)))
| h_collect cl be e ch x n f u d :
    handler_step (mkState cl be (e :: ch) x (Collecting (S n) f) u d)
      (mkState cl be ch (cancels e f x) (Collecting n (collect e f)) u d)
| h_return cl be ch x f u d :
    handler_step (mkState cl be ch x (Collecting 0 f) u d)
      (mkState (set_headers (header_out cl) (ended be ≫= λ '(_, t), forwarded t) cl) be ch x (Returned f) u d).

(** ** The peers *)

Inductive peer_step : state → state → Prop :=
| p_send cl be ch x mn u d m :
    half_closed cl = false → gone cl = false →
    peer_step (mkState cl be ch x mn u d)
      (mkState (mkClient (incoming cl ++ [m]) (client_sent cl ++ [m]) (half_closed cl) (gone cl) (delivered cl)
                  (header_out cl) (trailer_out cl) (credit cl)) be ch x mn u d)
| p_half_close cl be ch x mn u d :
    peer_step (mkState cl be ch x mn u d)
      (mkState (mkClient (incoming cl) (client_sent cl) true (gone cl) (delivered cl) (header_out cl) (trailer_out cl)
                  (credit cl)) be ch x mn u d)
| p_go cl be ch x mn u d :
    peer_step (mkState cl be ch x mn u d)
      (mkState (mkClient (incoming cl) (client_sent cl) (half_closed cl) true (delivered cl) (header_out cl)
                  (trailer_out cl) (credit cl)) be ch x mn u d)
| p_read cl be ch x mn u d :
    peer_step (mkState cl be ch x mn u d)
      (mkState (mkClient (incoming cl) (client_sent cl) (half_closed cl) (gone cl) (delivered cl) (header_out cl)
                  (trailer_out cl) (S (credit cl))) be ch x mn u d)
| p_header cl be ch x mn u d h :
    header be = None → ended be = None →
    peer_step (mkState cl be ch x mn u d)
      (mkState cl (mkBackend (received be) (send_closed be) (Some h) (outgoing be) (backend_sent be) (ended be)
                     (be_credit be)) ch x mn u d)
| p_reply cl be ch x mn u d m :
    is_Some (header be) → ended be = None →
    peer_step (mkState cl be ch x mn u d)
      (mkState cl (mkBackend (received be) (send_closed be) (header be) (outgoing be ++ [m]) (backend_sent be ++ [m])
                     (ended be) (be_credit be)) ch x mn u d)
| p_be_read cl be ch x mn u d :
    peer_step (mkState cl be ch x mn u d)
      (mkState cl (mkBackend (received be) (send_closed be) (header be) (outgoing be) (backend_sent be) (ended be)
                     (S (be_credit be))) ch x mn u d)
| p_end cl be ch x mn u d o t :
    ended be = None →
    peer_step (mkState cl be ch x mn u d)
      (mkState cl (mkBackend (received be) (send_closed be) (header be) (outgoing be) (backend_sent be) (Some (o, t))
                     (be_credit be)) ch x mn u d).

Definition step (s s' : state) : Prop := handler_step s s' ∨ peer_step s s'.

Inductive reachable : state → Prop :=
| r_start : reachable start
| r_step s s' : reachable s → step s s' → reachable s'.

(** ** What holds in every reachable state *)

(** The messages a copier took from one side and did not hand to the other. *)
Definition held (c : copier) (l : list M) : Prop :=
  match c with NotStarted | Receiving => l = [] | Sending m => l = [m] | Stopped _ => True end.

Definition first_error (h : handler) : option E :=
  match h with AwaitHeader => None | Collecting _ f | Returned f => f end.

(** The call failed for the client, or the upstream ended it with that error. *)
Definition cause (cl : client) (be : backend) (e : E) : Prop :=
  gone cl = true ∨ ∃ t, ended be = Some (Some e, t).

Definition stopped (c : copier) : nat := match c with Stopped _ => 1 | _ => 0 end.
Definition started (c : copier) : Prop := match c with NotStarted => False | _ => True end.

(** The copiers run after the header was read, and what they end with is collected
    once. *)
Definition phase (s : state) : Prop :=
  match main s with
  | AwaitHeader => up s = NotStarted ∧ down s = NotStarted ∧ errCh s = [] ∧ received (be s) = [] ∧
                   send_closed (be s) = false ∧ delivered (cl s) = []
  | Collecting n _ => started (up s) ∧ started (down s) ∧ n ≤ 2 ∧
                      stopped (up s) + stopped (down s) = length (errCh s) + (2 - n)
  | Returned _ => stopped (up s) = 1 ∧ stopped (down s) = 1 ∧ errCh s = []
  end.

Ltac step_cases H := destruct H as [H|H]; destruct H; simpl in *.

Lemma step_phase s s' : step s s' → phase s → phase s'.
Proof.
  unfold phase. intros H. step_cases H; try (destruct mn as [|n f|r]); intros; destruct_and?; simplify_eq/=;
    rewrite ?length_app in *; simpl in *; split_and?; try done; try lia.
  all: try (destruct u, d; simpl in *; lia).
  destruct ch; simpl in *; [done|]. destruct u, d; simpl in *; lia.
Qed.

Definition up_ok (s : state) : Prop :=
  ∃ l, held (up s) l ∧ client_sent (cl s) = received (be s) ++ l ++ incoming (cl s).
Definition down_ok (s : state) : Prop :=
  ∃ l, held (down s) l ∧ backend_sent (be s) = delivered (cl s) ++ l ++ outgoing (be s).

Lemma step_up s s' : step s s' → phase s → up_ok s → up_ok s'.
Proof.
  unfold up_ok, phase. intros H. step_cases H; try done; intros Hp (l & Hl & E0); subst.
  - destruct Hp as (-> & _). exists []. simpl in *. by subst.
  - exists [m]. split; [done|]. by rewrite E0, H.
  - exists []. by rewrite E0, H.
  - by exists [].
  - exists []. split; [done|]. simpl. by rewrite E0, <-app_assoc.
  - exists [m]. done.
  - exists l. split; [done|]. by rewrite E0, !app_assoc.
Qed.

Lemma step_down s s' : step s s' → phase s → down_ok s → down_ok s'.
Proof.
  unfold down_ok, phase. intros H. step_cases H; try done; intros Hp (l & Hl & E0); subst.
  - destruct Hp as (_ & -> & _). exists []. simpl in *. by subst.
  - exists [m]. split; [done|]. by rewrite E0, H.
  - exists []. by rewrite E0, H.
  - by exists [].
  - exists []. split; [done|]. simpl. by rewrite E0, <-app_assoc.
  - exists [m]. done.
  - exists l. split; [done|]. by rewrite E0, !app_assoc.
Qed.

(** The half-close is passed on after the last message, or when the call is over. *)
Definition closed_ok (s : state) : Prop :=
  send_closed (be s) = true → stopped (up s) = 1 ∧
    (is_Some (ended (be s)) ∨ cancelled s = true ∨ gone (cl s) = true ∨
     (half_closed (cl s) = true ∧ received (be s) = client_sent (cl s))).

Lemma step_closed s s' : step s s' → phase s → up_ok s → closed_ok s → closed_ok s'.
Proof.
  unfold closed_ok, up_ok, phase. intros H. step_cases H; try done; intros Hp (l & Hl & E0) Hc Hs; subst;
    try (destruct (Hc Hs) as [Hst Hr]; discriminate);
    try (destruct (Hc Hs) as [Hst Hr]; split; [done|]; revert Hr; clear; unfold cancels; intuition congruence).
  - destruct Hp as (_ & _ & _ & _ & Hp & _). congruence.
  - split; [done|]. do 3 right. by rewrite E0, H, !app_nil_r.
  - by auto.
  - intuition.
  - destruct (Hc Hs) as [Hst Hr]. split; [done|]. unfold cancels. destruct e, f; intuition.
  - destruct (Hc Hs) as [Hst Hr]. split; [done|]. intuition congruence.
  - destruct (Hc Hs) as [Hst Hr]. split; [done|]. intuition.
Qed.

(** Why a copier ended, as far as the handler has not seen it. *)
Definition errors_ok (s : state) : Prop :=
  (∀ e, down s = Stopped (Failed e) → Failed e ∈ errCh s ∨ is_Some (first_error (main s))) ∧
  (cancelled s = true → is_Some (first_error (main s))) ∧
  (∀ e, first_error (main s) = Some e → cause (cl s) (be s) e) ∧
  (∀ e, first_error (main s) = None → Failed e ∈ errCh s → cause (cl s) (be s) e).

Lemma errors_same s s' :
  errCh s' = errCh s → first_error (main s') = first_error (main s) → cancelled s' = cancelled s →
  (∀ e, down s' = Stopped e → down s = Stopped e) →
  (∀ e, cause (cl s) (be s) e → cause (cl s') (be s') e) → errors_ok s → errors_ok s'.
Proof.
  intros Ech Ef Ex Ed Ec (Hd & Hx & Hf & He). unfold errors_ok. rewrite Ech, Ef, Ex. split_and!; auto.
Qed.

Lemma errors_push cl be be' ch x mn u u' d d' e :
  ended be' = ended be → (∀ e', d' = Stopped e' → d = Stopped e' ∨ e' = e) →
  (∀ e', e = Failed e' → x = true ∨ cause cl be e') →
  errors_ok (mkState cl be ch x mn u d) → errors_ok (mkState cl be' (ch ++ [e]) x mn u' d').
Proof.
  intros Eb Ed Ec (Hd & Hx & Hf & He). unfold errors_ok, cause in *. simpl in *. rewrite Eb. split_and!; [..|done|done|].
  - intros e' [Hs| <-]%Ed; rewrite elem_of_app, list_elem_of_singleton; [|auto]. destruct (Hd e' Hs); auto.
  - intros e' Hn [Hin|Hin]%elem_of_app; [by apply He|]. apply list_elem_of_singleton in Hin as <-.
    destruct (Ec e' eq_refl) as [Hc|Hc]; [|done]. apply Hx in Hc. rewrite Hn in Hc. by destruct Hc.
Qed.

Lemma errors_collect cl be e ch x n f u d :
  errors_ok (mkState cl be (e :: ch) x (Collecting (S n) f) u d) →
  errors_ok (mkState cl be ch (cancels e f x) (Collecting n (collect e f)) u d).
Proof.
  intros (Hd & Hx & Hf & He). unfold errors_ok in *. simpl in *.
  destruct f as [f|]; [|destruct e as [|e]]; simpl in *.
  - replace (collect e (Some f)) with (Some f) by by destruct e. split_and!; [by eauto|by eauto|done|done].
  - split_and!; [|done|done|].
    + intros e [[|]%elem_of_cons|[]]%Hd; auto; done.
    + intros e _ Hin. apply He; [done|by right].
  - split_and!; [by eauto|by eauto| |done]. intros e' [= <-]. apply He; [done|by left].
Qed.

Lemma step_errors s s' : step s s' → errors_ok s → errors_ok s'.
Proof.
  intros H. destruct H as [H|H]; destruct H; try (by apply errors_same; simpl; unfold cause; simpl; eauto);
    try (apply errors_push; simpl; unfold cause; by eauto).
  - apply errors_push; [done|auto|]. intros e' ->. destruct H as [[_ ?]|[?|?]]; [done|by left|by right; left].
  - apply errors_push; [done|intros e' [= <-]; auto|]. intros e' He. right. right. exists t. unfold e in He.
    destruct o; by simplify_eq.
  - apply errors_push; [done|intros e' [= <-]; auto|]. intros e' [= <-]. destruct H; [by left|by right; left].
  - apply errors_push; [done|intros e' [= <-]; auto|]. intros e' [= <-]. by right; left.
  - apply errors_collect.
  - apply errors_same; try done. unfold cause. simpl. intros e. rewrite H. naive_solver.
Qed.

(** A copier that ended without an error has delivered everything, and the header
    and the trailer are those of the upstream. *)
Definition eof_ok (s : state) : Prop :=
  down s = Stopped EOF → delivered (cl s) = backend_sent (be s) ∧ ∃ t, ended (be s) = Some (None, t).
Definition metadata_ok (s : state) : Prop :=
  (main s ≠ AwaitHeader → gone (cl s) = true ∨
     (is_Some (header (be s)) ∨ is_Some (ended (be s))) ∧ header_out (cl s) = header (be s) ≫= forwarded) ∧
  (∀ f o t, main s = Returned f → ended (be s) = Some (o, t) → f = None → trailer_out (cl s) = forwarded t).

Lemma step_eof s s' : step s s' → down_ok s → eof_ok s → eof_ok s'.
Proof.
  unfold eof_ok, down_ok. intros H. step_cases H; try done; try congruence; intros (l & Hl & E0) He Hd;
    try (by destruct (He Hd) as [? [t' ?]]; simplify_eq; eauto).
  subst l. destruct o; [done|]. split; [|by exists t]. by rewrite E0, H, !app_nil_r.
Qed.

(** A call that succeeds. *)
Lemma returned_ok s :
  phase s → errors_ok s → eof_ok s → main s = Returned None →
  delivered (cl s) = backend_sent (be s) ∧ ∃ t, ended (be s) = Some (None, t).
Proof.
  unfold phase. intros Hp (Hd & _) He Hm. rewrite Hm in Hp, Hd. destruct Hp as (_ & Hs & Hc). rewrite Hc in Hd.
  destruct (down s) as [| | |[|e]] eqn:Ed; try done; [by apply He|].
  destruct (Hd e eq_refl) as [?%not_elem_of_nil|[? [=]]]; done.
Qed.

Lemma step_metadata s s' : step s s' → phase s → errors_ok s → eof_ok s → metadata_ok s → metadata_ok s'.
Proof.
  intros H Hp Herr He. pose proof (returned_ok s Hp Herr He) as Hret. clear Herr He. unfold metadata_ok, phase in *.
  step_cases H; intros [Hh Ht]; split; intros; simplify_eq/=; eauto.
  - destruct H as [H|[H|H]]; [right; by auto..|by left].
  - by rewrite H0.
  - destruct (Hh H1) as [?|[[Hs|Hs] _]]; [by left|rewrite H in Hs; by destruct Hs|rewrite H0 in Hs; by destruct Hs].
  - destruct (Hh H0) as [?|[Hs Ho]]; [by left|]. right. naive_solver.
  - destruct (Hret eq_refl) as [_ [t' ?]]. congruence.
Qed.

Record invariant (s : state) : Prop := {
  inv_phase : phase s;
  inv_up : up_ok s;
  inv_down : down_ok s;
  inv_closed : closed_ok s;
  inv_errors : errors_ok s;
  inv_eof : eof_ok s;
  inv_metadata : metadata_ok s;
}.

Lemma reachable_invariant s : reachable s → invariant s.
Proof.
  induction 1 as [|s s' _ [] Hs].
  - split; unfold up_ok, down_ok, closed_ok, errors_ok, eof_ok, metadata_ok; simpl; try done; try (by exists []).
    split_and!; try done. intros e _ ?%not_elem_of_nil. done.
  - split; eauto using step_phase, step_up, step_down, step_closed, step_errors, step_eof, step_metadata.
Qed.

(** C14: in every interleaving of the two copying goroutines with what the client
    and the upstream do, the upstream gets the client's messages and the client the
    upstream's, in order, each once; the half-close follows the last message unless
    the call is over; and when the handler returns success the upstream has ended
    the call with success, all of its messages were delivered, and its header and
    trailer were passed on without the fields of the transport.  An error it
    returns is the upstream's status, unless the client has gone. *)
Theorem grpc_proxy_faithful s :
  reachable s →
  (∃ rest, client_sent (cl s) = received (be s) ++ rest) ∧
  (∃ rest, backend_sent (be s) = delivered (cl s) ++ rest) ∧
  (send_closed (be s) = true → cancelled s = false → ended (be s) = None → gone (cl s) = false →
     half_closed (cl s) = true ∧ received (be s) = client_sent (cl s)) ∧
  (main s = Returned None →
     delivered (cl s) = backend_sent (be s) ∧
     (∃ t, ended (be s) = Some (None, t) ∧ trailer_out (cl s) = forwarded t) ∧
     (gone (cl s) = false → header_out (cl s) = header (be s) ≫= forwarded)) ∧
  (∀ e, main s = Returned (Some e) → gone (cl s) = false → ∃ t, ended (be s) = Some (Some e, t)).
Proof.
  intros [Hp (l & _ & Hu) (l' & _ & Hd) Hc He Ho [Hh Ht]]%reachable_invariant. split_and!.
  - by exists (l ++ incoming (cl s)).
  - by exists (l' ++ outgoing (be s)).
  - intros Hs Hx Hb Hg. destruct (Hc Hs) as [_ [Hi|[Hi|[Hi|Hi]]]]; [|congruence..|done]. rewrite Hb in Hi. by destruct Hi.
  - intros Hm. destruct (returned_ok s Hp He Ho Hm) as [? [t Hb]]. split_and!; [done|exists t; split; [done|by eapply Ht]|].
    intros Hg. destruct Hh as [Hh|[_ Hh]]; [by rewrite Hm|congruence|done].
  - intros e Hm Hg. destruct He as (_ & _ & He & _). rewrite Hm in He. destruct (He e eq_refl); [congruence|done].
Qed.

(** ** The call ends *)

Definition room (c : copier) (l : list M) : nat :=
  match c with
  | NotStarted | Receiving => 2 * length l + 2
  | Sending _ => 2 * length l + 3
  | Stopped _ => 0
  end.

(** How many operations the handler can still make while the peers do nothing. *)
Definition operations_left (s : state) : nat :=
  match main s with AwaitHeader => 2 | Collecting _ _ => 1 | Returned _ => 0 end +
  room (up s) (incoming (cl s)) + room (down s) (outgoing (be s)) + length (errCh s).

Lemma handler_step_decreases s s' : phase s → handler_step s s' → operations_left s' < operations_left s.
Proof.
  unfold operations_left, phase. intros Hp H. destruct H; simpl in *; rewrite ?length_app; simpl; try lia.
  all: try (rewrite H; simpl; lia).
  destruct Hp as (-> & -> & _). simpl. lia.
Qed.

(** The messages that are still to be sent to the client. *)
Definition in_hand (c : copier) : nat := match c with Sending _ => 1 | _ => 0 end.
Definition to_deliver (s : state) : nat := in_hand (down s) + length (outgoing (be s)).

(** The upstream has ended the call, and the client has closed its side and takes the
    messages that are left; or the client has gone. *)
Definition finished (s : state) : Prop :=
  gone (cl s) = true ∨ is_Some (ended (be s)) ∧ half_closed (cl s) = true ∧ to_deliver s ≤ credit (cl s).

Lemma handler_step_finished s s' : phase s → handler_step s s' → finished s → finished s'.
Proof.
  unfold finished, to_deliver, phase. intros Hp H. destruct H; simpl in *; try done;
    (intros [?|(? & ? & ?)]; [by left|right; split_and!; try done; try congruence]).
  - destruct Hp as (_ & -> & _). done.
  - rewrite H in *. simpl in *. lia.
  - lia.
  - lia.
Qed.

(** The handler waits for nothing but its peers. *)
Lemma handler_progress `{!Inhabited E} s :
  phase s → finished s → (∃ r, main s = Returned r) ∨ ∃ s', handler_step s s'.
Proof.
  intros Hp Hf. destruct s as [c b ch x mn u d]. unfold phase, finished, to_deliver in *. simpl in *.
  destruct mn as [|n f|r]; [|destruct Hp as (Hu & Hd & Hn & Hcount)|by left; exists r]; right.
  { eexists. apply h_header. tauto. }
  destruct u as [| |m|e]; [done| | |].
  - destruct (incoming c) as [|m rest] eqn:Hi; [|eexists; by apply h_up_receive].
    destruct Hf as [?|(_ & ? & _)]; [eexists; by apply (h_up_gone _ _ _ _ _ _ inhabitant)|eexists; by apply h_up_eof].
  - destruct Hf as [?|([? ?] & _)].
    + eexists. apply (h_up_send_over _ _ _ _ _ _ _ EOF). auto.
    + eexists. apply (h_up_send_over _ _ _ _ _ _ _ EOF). left. eauto.
  - destruct d as [| |m|e']; [done| | |].
    + destruct (outgoing b) as [|m rest] eqn:Ho; [|eexists; by apply h_down_receive].
      destruct Hf as [?|([[o t] Hb] & _)]; [|eexists; by eapply h_down_end].
      eexists. apply (h_down_cancelled _ _ _ _ _ _ inhabitant). by right.
    + destruct (gone c) eqn:Hg; [eexists; by apply (h_down_send_gone _ _ _ _ _ _ _ inhabitant)|].
      destruct Hf as [?|(_ & _ & Hcr)]; [done|]. simpl in Hcr. eexists. apply h_down_send; [done|lia].
    + destruct n as [|n]; [eexists; apply h_return|]. destruct ch as [|e0 ch]; [simpl in Hcount; lia|].
      eexists. apply h_collect.
Qed.

(** C36: once the upstream has ended the call, and the client has closed its side and
    its flow control takes the messages still to be delivered, or else the client has
    gone, the handler comes to an end: it makes at most [operations_left] more
    operations, and whatever it has done, it can go on until it returns.  (A client
    that stays but does not read keeps it waiting: [unread_call_waits].) *)
Theorem grpc_proxy_completes `{!Inhabited E} s s' n :
  reachable s → finished s → nsteps handler_step n s s' →
  n + operations_left s' ≤ operations_left s ∧
  ∃ s'' r, rtc handler_step s' s'' ∧ main s'' = Returned r.
Proof.
  intros Hr Hf Hn. assert (Hs' : n + operations_left s' ≤ operations_left s ∧ phase s' ∧ finished s').
  { apply reachable_invariant in Hr. destruct Hr as [Hp _ _ _ _ _ _].
    induction Hn as [s|n s s1 s2 Hs _ IH]; [by split_and!; [lia|..]|].
    pose proof (handler_step_decreases _ _ Hp Hs). destruct IH as (? & ? & ?).
    - eapply step_phase; [by left|done].
    - eapply handler_step_finished; [exact Hp|exact Hs|done].
    - split_and!; [lia|done|done]. }
  destruct Hs' as (Hle & Hp & Hf'). split; [done|]. clear Hle Hn Hr Hf s n.
  remember (operations_left s') as k eqn:Hk. revert s' Hk Hp Hf'. induction k as [k IH] using lt_wf_ind. intros s -> Hp Hf'.
  destruct (handler_progress s Hp Hf') as [[r Hm]|[s1 Hs]]; [by exists s, r|].
  destruct (IH (operations_left s1)) with s1 as (s2 & r & Hrun & Hm).
  - by apply handler_step_decreases.
  - done.
  - eapply step_phase; [by left|done].
  - eapply handler_step_finished; [exact Hp|exact Hs|done].
  - exists s2, r. split; [by eapply rtc_l|done].
Qed.

(** ** The call hangs *)

(** An upstream that answers a request: it sends its header, or ends the call, once
    it has a message or the half-close. *)
Definition responds (s s' : state) : Prop :=
  header (be s') ≠ header (be s) ∨ ended (be s') ≠ ended (be s) → received (be s) ≠ [] ∨ send_closed (be s) = true.

Inductive served : state → Prop :=
| s_start : served start
| s_step s s' : served s → step s s' → responds s s' → served s'.

(** The handler reads the header before it forwards the first message, so with such
    an upstream the call makes no progress until the client gives up. *)
Theorem responding_upstream_starves s :
  served s → gone (cl s) = false → main s = AwaitHeader ∧ received (be s) = [] ∧ delivered (cl s) = [].
Proof.
  intros H Hg. assert (Hi : gone (cl s) = true ∨ (main s = AwaitHeader ∧ up s = NotStarted ∧ down s = NotStarted ∧
    header (be s) = None ∧ ended (be s) = None ∧ received (be s) = [] ∧ send_closed (be s) = false ∧ delivered (cl s) = [])).
  { clear Hg. induction H as [|s s' _ IH Hs Hr]; [by right|]. unfold responds in Hr.
    destruct Hs as [Hs|Hs]; destruct Hs; simpl in *;
      (destruct IH as [IH|(? & ? & ? & ? & ? & ? & ? & ?)]; [by left|]); simplify_eq; try (by right); try (by left); try (by auto 10).
    - destruct H as [[? ?]|[[? ?]|?]]; [congruence..|by left].
    - right. by destruct Hr as [?|?]; [left; congruence|congruence..].
    - right. by destruct Hr as [?|?]; [right; congruence|congruence..]. }
  destruct Hi as [?|(? & _ & _ & _ & _ & ? & _ & ?)]; [congruence|done].
Qed.

(** A client that has closed its side but does not read: the handler waits with the
    message it has for it. *)
Theorem unread_call_waits (m : M) : ∃ s,
  reachable s ∧ half_closed (cl s) = true ∧ ended (be s) = Some (None, ∅) ∧ gone (cl s) = false ∧
  main s = Collecting 1 None ∧ ∀ s', ¬ handler_step s s'.
Proof.
  exists (mkState (mkClient [] [] true false [] (Some ∅ ≫= forwarded) None 0) (mkBackend [] true (Some ∅) [] [m] (Some (None, ∅)) 0) [] false
    (Collecting 1 None) (Stopped EOF) (Sending m)).
  split_and!; try done.
  - pose proof r_start as H. unfold start in H.
    eapply r_step in H; [|right; apply p_half_close].
    eapply r_step in H; [|right; by apply (p_header _ _ _ _ _ _ _ ∅)].
    eapply r_step in H; [|right; apply (p_reply _ _ _ _ _ _ _ m); [by eexists|done]].
    eapply r_step in H; [|left; apply h_header; left; by eexists].
    eapply r_step in H; [|left; by apply h_up_eof].
    eapply r_step in H; [|left; by apply (h_collect _ _ EOF [])].
    eapply r_step in H; [|left; by apply (h_down_receive _ _ _ _ _ _ m [])].
    eapply r_step in H; [|right; by apply (p_end _ _ _ _ _ _ _ None ∅)].
    exact H.
  - intros s' H. inversion H; simplify_eq/=; naive_solver lia.
Qed.

(** After the upstream has refused a call whose client keeps its side open, the
    handler waits for the client: [cancel] does not end the copying from the client,
    which reads from the client's own stream. *)
Theorem refusal_not_reported (e : E) : ∃ s,
  reachable s ∧ ended (be s) = Some (Some e, ∅) ∧ gone (cl s) = false ∧
  main s = Collecting 1 (Some e) ∧ ∀ s', ¬ handler_step s s'.
Proof.
  exists (mkState (mkClient [] [] false false [] None None 0) (mkBackend [] false None [] [] (Some (Some e, ∅)) 0) [] true
    (Collecting 1 (Some e)) Receiving (Stopped (Failed e))).
  split_and!; try done.
  - eapply r_step; [eapply r_step; [eapply r_step; [eapply r_step; [apply r_start|]|]|]|].
    + right. by apply (p_end _ _ _ _ _ _ _ (Some e) ∅).
    + left. apply h_header. right. left. by eexists.
    + left. by eapply (h_down_end _ _ _ _ _ _ (Some e) ∅).
    + left. apply (h_collect _ _ (Failed e) [] false 1 None).
  - intros s' H. inversion H; simplify_eq/=; naive_solver.
Qed.

End proxy.
End GrpcProxy.

(** ** One call *)

Module GrpcProxySamples.
Import GrpcProxy.

(** The client sends one message and closes its side; the upstream sends its header,
    answers and ends the call. *)
Definition reply_header : MD := {["content-type" := ["application/grpc"]; "x-trace" := ["7"]]}.
Definition passed_header : MD := {["x-trace" := ["7"]]}.
Definition answered : client := mkClient [] ["ping"] true false ["pong"] (Some passed_header) None 0.
Definition finished_backend : backend (E := string) :=
  mkBackend ["ping"] true (Some reply_header) [] ["pong"] (Some (None, ∅)) 0.
Definition finished_call : state (M := string) (E := string) :=
  mkState answered finished_backend [] false (Returned None) (Stopped EOF) (Stopped EOF).

(** After the header was read. *)
Definition open_call : state (M := string) (E := string) :=
  mkState (mkClient ["ping"] ["ping"] true false [] (Some passed_header) None 1)
    (mkBackend [] false (Some reply_header) [] [] None 1) [] false (Collecting 2 None) Receiving Receiving.

Lemma header_passed : Some reply_header ≫= forwarded = Some passed_header.
Proof. vm_compute. reflexivity. Qed.

Lemma open_reachable : reachable open_call.
Proof.
  eapply r_step; [eapply r_step; [eapply r_step; [eapply r_step; [eapply r_step; [eapply r_step; [apply r_start|]|]|]|]|]|].
  - right. apply p_read.
  - right. apply p_be_read.
  - right. by apply (p_send _ _ _ _ _ _ _ "ping").
  - right. apply p_half_close.
  - right. by apply (p_header _ _ _ _ _ _ _ reply_header).
  - left. unfold open_call. rewrite <-header_passed. apply (h_header (mkClient ["ping"] ["ping"] true false [] None None 1)). left. by eexists.
Qed.

Lemma finished_reachable : reachable finished_call.
Proof.
  pose proof open_reachable as H. unfold open_call in H.
  eapply r_step in H; [|left; by eapply h_up_receive].
  eapply r_step in H; [|left; eapply h_up_send; first [done|simpl; lia]].
  eapply r_step in H; [|right; eapply (p_reply _ _ _ _ _ _ _ "pong"); [by eexists|done]].
  eapply r_step in H; [|left; by eapply h_up_eof].
  eapply r_step in H; [|left; by eapply h_down_receive].
  eapply r_step in H; [|left; eapply h_down_send; first [done|simpl; lia]].
  eapply r_step in H; [|right; by eapply (p_end _ _ _ _ _ _ _ None ∅)].
  eapply r_step in H; [|left; by eapply h_down_end].
  eapply r_step in H; [|left; eapply h_collect].
  eapply r_step in H; [|left; eapply h_collect].
  eapply r_step in H; [|left; eapply h_return].
  exact H.
Qed.

Lemma grpc_proxy_faithful_witness :
  delivered (cl finished_call) = backend_sent (be finished_call) ∧
  (∃ t, ended (be finished_call) = Some (None, t) ∧ trailer_out (cl finished_call) = forwarded t) ∧
  (gone (cl finished_call) = false → header_out (cl finished_call) = header (be finished_call) ≫= forwarded).
Proof. apply (grpc_proxy_faithful finished_call finished_reachable). reflexivity. Defined.

(** The upstream ends the open call: the handler still has the client's message. *)
Definition ended_call : state (M := string) (E := string) :=
  mkState (cl open_call) (mkBackend [] false (Some reply_header) [] [] (Some (Some "unavailable", ∅)) 1) [] false
    (Collecting 2 None) Receiving Receiving.

Lemma ended_reachable : reachable ended_call.
Proof.
  eapply r_step; [exact open_reachable|]. right. exact (p_end (cl open_call) (be open_call) [] false (Collecting 2 None) Receiving Receiving (Some "unavailable") ∅ eq_refl).
Qed.

Lemma grpc_proxy_completes_witness : ∃ s'' r, rtc handler_step ended_call s'' ∧ main s'' = Returned r.
Proof.
  apply (proj2 (grpc_proxy_completes ended_call ended_call 0 ended_reachable
    (or_intror (conj (ex_intro _ _ eq_refl) (conj eq_refl (le_0_n 1)))) (nsteps_O _ _))).
Defined.

End GrpcProxySamples.
