(* ===== verification/Hostname.v ===== *)
(** * Hostnames of custom domains

    [src/internal/helper/domain.go] (the same code is in
    [src/helper/domain.go]): the normalisation a registration applies to the
    customer's input.  A specification [wf_hostname] of the accepted names, the
    agreement of the two, and the agreement with the gateway's own normalisation
    of Host headers ([Loader.NormalizeHost]). *)

From Stdlib Require Import Ascii.
From S2P Require Import Prelude GoStrings GoNet Model Http Auth Loader.

Module Hostname.

(** ** [domain.go] *)

Definition maxHostnameLength : nat := 253.

Inductive error := ErrInvalidHostname.

(** One byte of a label.  The source ranges over runes; a rune outside ASCII
    has only bytes from 128 on, which are rejected as well. *)
Definition label_byte (c : ascii) : bool := is_lower c || is_digit c || Ascii.eqb c "-".

Definition validHostnameLabel (label : string) : bool :=
  if String.eqb label "" || (63 <? len label)%nat then false
  else if bool_decide (String.get 0 label = Some "-"%char) ||
          bool_decide (String.get (len label - 1) label = Some "-"%char) then false
  else sforallb label_byte label.

(** The spelling the checks look at. *)
Definition canonical (input : string) : string := TrimSuffix (ToLower (TrimSpace input)) ".".

Definition NormalizeHostname (input : string) : result error string :=
  let hostname := TrimSpace input in
  let hostname := ToLower hostname in
  let hostname := TrimSuffix hostname "." in
  if String.eqb hostname "" then Err ErrInvalidHostname
  else if (maxHostnameLength <? len hostname)%nat then Err ErrInvalidHostname
  else if Contains hostname "://" then Err ErrInvalidHostname
  else if ContainsAny hostname "/?#" then Err ErrInvalidHostname
  else if Contains hostname ":" then Err ErrInvalidHostname
  else if Contains hostname "*" then Err ErrInvalidHostname
  else if String.eqb hostname "localhost" then Err ErrInvalidHostname
  else if bool_decide (is_Some (GoNet.ParseIP hostname)) then Err ErrInvalidHostname
  else
    let labels := Split "." hostname in
    if (length labels <? 3)%nat then Err ErrInvalidHostname
    else if forallb validHostnameLabel labels then Ok hostname
    else Err ErrInvalidHostname.

(** ** The accepted names *)

(** RFC 1035 labels, at least three of them, not an IP address. *)
Record wf_label (l : string) : Prop := {
  wfl_len : (1 ≤ len l ≤ 63)%nat;
  wfl_first : ∀ s, l ≠ String "-" s;
  wfl_last : HasSuffix l "-" = false;
  wfl_bytes : sforallb label_byte l = true;
}.

Record wf_hostname (h : string) : Prop := {
  wfh_len : (len h ≤ 253)%nat;
  wfh_labels : ∃ labels, h = Join labels "." ∧ (3 ≤ length labels)%nat ∧ Forall wf_label labels;
  wfh_ip : GoNet.ParseIP h = None;
}.

(** ** Lemmas on bytes *)

(** Every byte of an accepted name. *)
Definition name_byte (c : ascii) : bool := label_byte c || Ascii.eqb c ".".

Lemma name_byte_facts c : name_byte c = true →
  is_graphic c = true ∧ Loader.host_byte c = true ∧ Ascii.eqb (lower_ascii c) c = true.
Proof. by destruct c as [[] [] [] [] [] [] [] []]. Qed.

Lemma label_byte_nodot c : label_byte c = true → Ascii.eqb c "." = false.
Proof. by destruct c as [[] [] [] [] [] [] [] []]. Qed.

Lemma Contains_head_false c p s : contains_byte c s = false → Contains s (String c p) = false.
Proof.
  induction s as [|a s IH]; simpl; intros H; [done|]. split_bool. rewrite IH by done.
  destruct (Ascii.eqb_spec c a) as [->|]; [by rewrite Ascii.eqb_refl in *|done].
Qed.

Lemma ContainsAny_false cs s f :
  sforallb f s = true → sforallb (λ c, negb (f c)) cs = true → ContainsAny s cs = false.
Proof.
  intros Hs Hcs. induction s as [|a s IH]; simpl in *; [done|]. split_bool. rewrite IH by done.
  rewrite orb_false_r. eapply sforallb_contains; [exact Hcs|]. cbv beta. by rewrite H.
Qed.

Lemma last_byte l : l ≠ "" →
  bool_decide (String.get (len l - 1) l = Some "-"%char) = HasSuffix l "-".
Proof.
  intros Hne. apply eq_true_iff_eq. rewrite bool_decide_eq_true, HasSuffix_spec.
  induction l as [|a l IH]; [done|]. destruct l as [|b l].
  - simpl. split.
    + intros [= ->]. by exists "".
    + intros [[|x r] Hr]; [by injection Hr as ->|]. exfalso. by destruct r.
  - replace (len (String a (String b l)) - 1) with (S (len (String b l) - 1)) by (simpl; lia).
    change (String.get (S ?n) (String a ?t)) with (String.get n t). rewrite IH by done. split.
    + intros [r ->]. by exists (String a r).
    + intros [[|x r] Hr]; [done|]. exists r. by injection Hr.
Qed.

(** ** The validity check is the specification *)

Lemma validHostnameLabel_wf l : validHostnameLabel l = true ↔ wf_label l.
Proof.
  unfold validHostnameLabel. destruct (String.eqb_spec l "") as [->|Hne]; simpl.
  { split; [done|]. intros [[] _ _ _]. simpl in *. lia. }
  rewrite last_byte by done.
  assert (Hpos : (1 ≤ len l)%nat) by (destruct l; simpl; [done|lia]).
  destruct (Nat.ltb_spec 63 (len l)); [split; [done|by intros [[] _ _ _]; lia]|].
  destruct (HasSuffix l "-") eqn:Hs; rewrite ?orb_true_r, ?orb_false_r.
  { split; [done|intros []; congruence]. }
  case_bool_decide as Hf.
  - split; [done|]. intros [_ Hn _ _]. destruct l as [|a l]; [done|]. injection Hf as ->.
    by destruct (Hn l).
  - split; [|by intros []]. intros Hb. split; [lia| |done|done].
    intros s ->. by apply Hf.
Qed.

Lemma wf_label_nodot l : wf_label l → contains_byte "." l = false.
Proof.
  intros [_ _ _ Hb]. eapply sforallb_contains; [exact Hb|done].
Qed.

Lemma Join_bytes f labels sep :
  sforallb f sep = true → Forall (λ l, sforallb f l = true) labels → sforallb f (Join labels sep) = true.
Proof.
  intros Hsep. induction 1 as [|l [|l' ls] Hl Hls IH]; [done|done|].
  rewrite Join_cons2, !sforallb_app, Hl, Hsep. exact IH.
Qed.

Lemma wf_hostname_bytes h : wf_hostname h → sforallb name_byte h = true.
Proof.
  intros [_ (labels & -> & _ & Hl) _]. apply Join_bytes; [done|].
  eapply Forall_impl; [exact Hl|]. intros l [_ _ _ Hb]. eapply sforallb_impl; [|exact Hb].
  intros c Hc. unfold name_byte. by rewrite Hc.
Qed.

Lemma Join_last labels sep l : Join (labels ++ [l]) sep =
  match labels with [] => l | _ => Join labels sep +:+ sep +:+ l end.
Proof.
  induction labels as [|x [|y ls] IH]; [done|done|].
  change ((x :: y :: ls) ++ [l]) with (x :: y :: (ls ++ [l])). rewrite Join_cons2.
  change (y :: (ls ++ [l])) with ((y :: ls) ++ [l]). rewrite IH, Join_cons2, !sapp_assoc. done.
Qed.

Lemma wf_hostname_nodot h : wf_hostname h → HasSuffix h "." = false.
Proof.
  intros [_ (labels & -> & Hn & Hl) _].
  destruct labels as [|l labels _] using rev_ind; [simpl in Hn; lia|].
  apply Forall_app in Hl as [_ Hl]. inversion_clear Hl as [|?? Hw _].
  rewrite Join_last. destruct labels as [|x ls]; [simpl in Hn; lia|].
  rewrite <-sapp_assoc. apply HasSuffix_byte_app; [|by apply wf_label_nodot].
  intros ->. destruct Hw as [[] _ _ _]. simpl in *. lia.
Qed.

(** The redundant checks of the source pass for a well-formed name, and the
    remaining ones are its clauses. *)
Lemma NormalizeHostname_wf input h :
  NormalizeHostname input = Ok h ↔ h = canonical input ∧ wf_hostname h.
Proof.
  unfold NormalizeHostname. cbv zeta. fold (canonical input). set (c := canonical input). split.
  - repeat (match goal with |- (if ?b then _ else _) = _ → _ => destruct b eqn:? end; [done|]).
    destruct (forallb validHostnameLabel (Split "." c)) eqn:Hl; [|done]. intros [= <-]. split; [done|].
    rewrite bool_decide_eq_false, <-eq_None_not_Some in *. unfold maxHostnameLength in *.
    split; [by apply Nat.ltb_ge| |done].
    exists (Split "." c). split; [by rewrite (Join_Split "." c)|]. split; [by apply Nat.ltb_ge|].
    apply Forall_forall. intros l Hin. apply validHostnameLabel_wf.
    rewrite forallb_forall in Hl. by apply Hl, list_elem_of_In.
  - intros [-> Hwf]. pose proof (wf_hostname_bytes c Hwf) as Hb.
    destruct Hwf as [Hlen (labels & Hj & Hn & Hl) Hip].
    assert (Hsplit : Split "." c = labels).
    { rewrite Hj. apply Split_Join; [by intros ->; simpl in Hn; lia|].
      eapply Forall_impl; [exact Hl|]. apply wf_label_nodot. }
    assert (Hno : ∀ a, name_byte a = false → contains_byte a c = false).
    { intros a Ha. by eapply sforallb_contains. }
    destruct (String.eqb_spec c "") as [E|_]; [rewrite E in Hsplit; simpl in Hsplit; subst; simpl in Hn; lia|].
    unfold maxHostnameLength. rewrite (proj2 (Nat.ltb_ge _ _) Hlen), !Contains_head_false by (by apply Hno).
    rewrite (ContainsAny_false "/?#" c name_byte) by done.
    destruct (String.eqb_spec c "localhost") as [E|_]; [rewrite E in Hsplit; subst; simpl in Hn; lia|].
    rewrite Hip, Hsplit, (proj2 (Nat.ltb_ge _ _) Hn). rewrite bool_decide_eq_false_2 by (by intros [? ?]).
    assert (forallb validHostnameLabel labels = true) as ->; [|done].
    apply forallb_forall. intros l Hin%list_elem_of_In. apply validHostnameLabel_wf.
    by eapply Forall_forall in Hl.
Qed.

(** Every spelling of a well-formed name has it as canonical form. *)
Lemma canonical_spelling s h dot :
  ToLower s = h → wf_hostname h → canonical (s +:+ Loader.dot_of dot) = h.
Proof.
  intros <- Hwf. unfold canonical.
  pose proof (wf_hostname_bytes _ Hwf) as Hb.
  assert (Hg : sforallb is_graphic s = true).
  { clear Hwf. unfold ToLower in Hb. induction s as [|a s IH]; [done|]. simpl in *. split_bool.
    rewrite IH by done. rewrite andb_true_r.
    destruct a as [[] [] [] [] [] [] [] []]; vm_compute in H |- *; congruence. }
  rewrite TrimSpace_graphic.
  2: { rewrite sforallb_app, Hg. by destruct dot. }
  unfold ToLower. rewrite smap_app. fold (ToLower s).
  replace (smap lower_ascii (Loader.dot_of dot)) with (Loader.dot_of dot) by (by destruct dot).
  apply Loader.TrimSuffix_dot_of. by apply wf_hostname_nodot.
Qed.

Lemma spelling_host_bytes s h : ToLower s = h → wf_hostname h → sforallb Loader.host_byte s = true.
Proof.
  intros <- Hwf%wf_hostname_bytes. unfold ToLower in Hwf. induction s as [|a s IH]; [done|].
  simpl in *. split_bool. rewrite IH by done. rewrite andb_true_r.
  destruct a as [[] [] [] [] [] [] [] []]; vm_compute in H |- *; congruence.
Qed.

(** A normalised name is its own lower case. *)
Lemma wf_hostname_lower h : wf_hostname h → ToLower h = h.
Proof.
  intros Hb%wf_hostname_bytes. apply smap_id. eapply sforallb_impl; [|exact Hb]. apply name_byte_facts.
Qed.

Lemma gateway_spelling s h dot port :
  ToLower s = h → wf_hostname h → (∀ p, port = Some p → sforallb is_digit p = true) →
  Loader.NormalizeHost (s +:+ Loader.dot_of dot +:+ Loader.port_of port) = h.
Proof.
  intros Hs Hwf Hp. rewrite Loader.NormalizeHost_variants; [done| | |done].
  - by eapply spelling_host_bytes.
  - rewrite Hs. by apply wf_hostname_nodot.
Qed.

(** ** Properties *)

(** The chain of checks accepts exactly the names of at least three DNS
    labels (1 to 63 bytes of [a-z0-9-], no hyphen at either end), at most 253
    bytes long and not an IP address, after the input was trimmed, lower-cased
    and freed of one final dot; the result is that canonical form. *)
Theorem NormalizeHostname_spec input :
  match NormalizeHostname input with
  | Ok h => h = canonical input ∧ wf_hostname h
  | Err _ => ¬ wf_hostname (canonical input)
  end.
Proof.
  destruct (NormalizeHostname input) as [h|e] eqn:E; [by apply NormalizeHostname_wf|].
  intros Hwf. by rewrite (proj2 (NormalizeHostname_wf input _) (conj eq_refl Hwf)) in E.
Qed.

(** C38: round trip between registration and traffic: every spelling of a
    registered hostname (letters in any case, an optional final dot) registers
    as the same name, and the gateway reduces every such Host header, with or
    without a port, to exactly the stored name. *)
Theorem hostname_roundtrip input h s dot port :
  NormalizeHostname input = Ok h →
  ToLower s = h →
  (∀ p, port = Some p → sforallb is_digit p = true) →
  NormalizeHostname (s +:+ Loader.dot_of dot) = Ok h ∧
  Loader.NormalizeHost (s +:+ Loader.dot_of dot +:+ Loader.port_of port) = h.
Proof.
  intros [_ Hwf]%NormalizeHostname_wf Hs Hp. split; [|by apply gateway_spelling].
  apply NormalizeHostname_wf. split; [|done]. symmetry. by apply canonical_spelling.
Qed.

Lemma hostname_roundtrip_witness :
  NormalizeHostname "Api.Acme.IO." = Ok "api.acme.io" ∧
  Loader.NormalizeHost "Api.Acme.IO.:443" = "api.acme.io".
Proof.
  refine (hostname_roundtrip " API.acme.io. " "api.acme.io" "Api.Acme.IO" true (Some "443") _ _ _).
  - vm_compute. reflexivity.
  - vm_compute. reflexivity.
  - intros p [= <-]. vm_compute. reflexivity.
Defined.

Example hostname_rejects :
  (λ s, is_ok (NormalizeHostname s)) <$>
    ["https://api.acme.io"; "api.acme.io/x"; "api.acme.io:80"; "localhost"; "192.168.1.10";
     "*.acme.io"; "acme.io"; "-a.acme.io"; "a_b.acme.io"; ""] = replicate 10 false.
Proof. vm_compute. reflexivity. Qed.

End Hostname.
