(* ===== verification/CustomDomain.v ===== *)
(** * Custom domains: data, database and repository

    [src/internal/domain/custom_domain.go] and
    [src/internal/storage/custom_domain_repo.go].  A repository method is a
    program in a state-and-error monad over the database: every query may fail
    (the fault schedule decides), an UPDATE is atomic and guarded by its WHERE
    clause, and NOW() is the database clock.  The columns of one row are grouped
    by concern. *)

From Stdlib Require Import Ascii.
From S2P Require Import Prelude GoStrings Model.

Module CustomDomain.

(** ** [domain/custom_domain.go] *)

Inductive DomainStatus :=
| PendingVerification | Verified | PendingDNS | PendingCertificate | Active
| VerificationFailed | CertificateFailed | Disabled | Deleting.

Inductive RoutingStatus := RoutingPending | RoutingReady | RoutingFailed.

Inductive ProvisioningStatus :=
| NotStarted | RequestingCertificate | WaitingForValidationRecord | WaitingForDNS
| WaitingForCertificate | AttachingCertificate | Completed | Failed
| Deprovisioning | Deprovisioned | DeprovisionFailed.

#[global] Instance DomainStatus_eq_dec : EqDecision DomainStatus.
Proof. solve_decision. Defined.
#[global] Instance RoutingStatus_eq_dec : EqDecision RoutingStatus.
Proof. solve_decision. Defined.
#[global] Instance ProvisioningStatus_eq_dec : EqDecision ProvisioningStatus.
Proof. solve_decision. Defined.

(** The two column values the gateway compares. *)
Definition status_string (s : DomainStatus) : string :=
  match s with
  | PendingVerification => "pending_verification" | Verified => "verified"
  | PendingDNS => "pending_dns" | PendingCertificate => "pending_certificate"
  | Active => "active" | VerificationFailed => "verification_failed"
  | CertificateFailed => "certificate_failed" | Disabled => "disabled" | Deleting => "deleting"
  end.
Definition routing_string (s : RoutingStatus) : string :=
  match s with RoutingPending => "pending" | RoutingReady => "ready" | RoutingFailed => "failed" end.

Record Verification := mkVerification {
  VerificationTokenHash : string;
  VerificationRecordName : string;
  FailureReason : option string;
  VerifiedAt : option Z;
  LastCheckedAt : option Z;
}.

Record Routing := mkRouting {
  RoutingTarget : option string;
  Routing_status : RoutingStatus;
  RoutingCheckedAt : option Z;
  RoutingError : option string;
}.

Record Certificate := mkCertificate {
  CertificateARN : option string;
  CertificateStatus : option string;
  ManagedByEliteGate : bool;
  ValidationName : option string;
  ValidationValue : option string;
  RequestedAt : option Z;
  IssuedAt : option Z;
  AttachedAt : option Z;
}.

Record Provisioning := mkProvisioning {
  Provisioning_status : ProvisioningStatus;
  ProvisioningStartedAt : option Z;
  ProvisioningCompletedAt : option Z;
  DeprovisioningStartedAt : option Z;
  ProvisioningError : option string;
  ProvisioningAttempts : Z;
  NextRetryAt : option Z;
}.

Record ListenerRule := mkRule { ListenerRuleARN : option string; ListenerRulePriority : option Z }.

Record Lease := mkLease { LockedAt : option Z; LockedBy : option string; LeaseToken : option nat }.

Definition no_lease : Lease := mkLease None None None.

(** A row of [custom_domains]; identifiers are the text of their UUIDs, lease
    tokens are drawn from a supply of fresh ones. *)
Record t := mk {
  ID : string;
  ProjectID : string;
  Hostname : string;
  Status : DomainStatus;
  ActivatedAt : option Z;
  CreatedAt : Z;
  UpdatedAt : Z;
  DeletedAt : option Z;
  verification : Verification;
  routing : Routing;
  certificate : Certificate;
  provisioning : Provisioning;
  rule : ListenerRule;
  lease : Lease;
}.

Abbreviation pstatus c := (Provisioning_status (provisioning c)).
Abbreviation token c := (LeaseToken (lease c)).

Definition set_status (s : DomainStatus) (at_ : option Z) (c : t) : t :=
  mk (ID c) (ProjectID c) (Hostname c) s at_ (CreatedAt c) (UpdatedAt c) (DeletedAt c)
    (verification c) (routing c) (certificate c) (provisioning c) (rule c) (lease c).
Definition touch (now : Z) (c : t) : t :=
  mk (ID c) (ProjectID c) (Hostname c) (Status c) (ActivatedAt c) (CreatedAt c) now (DeletedAt c)
    (verification c) (routing c) (certificate c) (provisioning c) (rule c) (lease c).
Definition set_deleted (d : option Z) (c : t) : t :=
  mk (ID c) (ProjectID c) (Hostname c) (Status c) (ActivatedAt c) (CreatedAt c) (UpdatedAt c) d
    (verification c) (routing c) (certificate c) (provisioning c) (rule c) (lease c).
Definition set_verification (v : Verification) (c : t) : t :=
  mk (ID c) (ProjectID c) (Hostname c) (Status c) (ActivatedAt c) (CreatedAt c) (UpdatedAt c)
    (DeletedAt c) v (routing c) (certificate c) (provisioning c) (rule c) (lease c).
Definition set_routing (v : Routing) (c : t) : t :=
  mk (ID c) (ProjectID c) (Hostname c) (Status c) (ActivatedAt c) (CreatedAt c) (UpdatedAt c)
    (DeletedAt c) (verification c) v (certificate c) (provisioning c) (rule c) (lease c).
Definition set_certificate (v : Certificate) (c : t) : t :=
  mk (ID c) (ProjectID c) (Hostname c) (Status c) (ActivatedAt c) (CreatedAt c) (UpdatedAt c)
    (DeletedAt c) (verification c) (routing c) v (provisioning c) (rule c) (lease c).
Definition set_provisioning (v : Provisioning) (c : t) : t :=
  mk (ID c) (ProjectID c) (Hostname c) (Status c) (ActivatedAt c) (CreatedAt c) (UpdatedAt c)
    (DeletedAt c) (verification c) (routing c) (certificate c) v (rule c) (lease c).
Definition set_rule (v : ListenerRule) (c : t) : t :=
  mk (ID c) (ProjectID c) (Hostname c) (Status c) (ActivatedAt c) (CreatedAt c) (UpdatedAt c)
    (DeletedAt c) (verification c) (routing c) (certificate c) (provisioning c) v (lease c).
Definition set_lease (v : Lease) (c : t) : t :=
  mk (ID c) (ProjectID c) (Hostname c) (Status c) (ActivatedAt c) (CreatedAt c) (UpdatedAt c)
    (DeletedAt c) (verification c) (routing c) (certificate c) (provisioning c) (rule c) v.

(** [ProvisioningJob]: the columns a claim returns. *)
Record ProvisioningJob := mkJob {
  JobID : string;
  JobProjectID : string;
  JobHostname : string;
  JobStatus : DomainStatus;
  JobRoutingStatus : RoutingStatus;
  JobProvisioningStatus : ProvisioningStatus;
  JobCertificate : Certificate;
  JobRule : ListenerRule;
  JobAttempts : Z;
  JobNextRetryAt : option Z;
  JobStartedAt : option Z;
  JobLease : Lease;
  JobDeletedAt : option Z;
}.

Definition scanProvisioningJobRow (c : t) : ProvisioningJob :=
  mkJob (ID c) (ProjectID c) (Hostname c) (Status c) (Routing_status (routing c)) (pstatus c)
    (certificate c) (rule c) (ProvisioningAttempts (provisioning c)) (NextRetryAt (provisioning c))
    (ProvisioningStartedAt (provisioning c)) (lease c) (DeletedAt c).

(** ** The database and its programs *)

(** The columns of [gateways] the repository reads. *)
Record GatewayRow := mkGateway {
  GwProjectID : string;
  GwExternalID : string;
  GwPlan : string;
  GwStatus : string;
  GwProvisioningStatus : string;
  GwTargetGroupARN : option string;
  GwProvisionedAt : option Z;
  GwCreatedAt : Z;
  GwDeletedAt : option Z;
}.

Inductive error :=
| ErrDB                              (* the query failed *)
| ErrCustomDomainNotFound
| ErrHostnameConflict
| ErrStaleLease
| ErrInvalidStateTransition
| ErrDomainNotEligible
| ErrDomainNotEligibleForRetry
| ErrDomainAlreadyDeprovisioned
| ErrProjectGatewayIngressNotReady
| ErrLeaseMissing.                   (* job lease token missing *)

#[global] Instance error_eq_dec : EqDecision error.
Proof. solve_decision. Defined.

(** [faults] schedules the outcome of the coming queries ([true]: it fails; the
    empty schedule never fails); [supply] is the next fresh lease token. *)
Record db := mkDB {
  domains : gmap string t;
  gateways : list GatewayRow;
  db_now : Z;
  supply : nat;
  faults : list bool;
}.

Definition with_domains (m : gmap string t) (d : db) : db :=
  mkDB m (gateways d) (db_now d) (supply d) (faults d).

Definition M (A : Type) : Type := db → db * result error A.
Definition mret {A} (a : A) : M A := λ d, (d, Ok a).
Definition mfail {A} (e : error) : M A := λ d, (d, Err e).
Definition mbind {A B} (m : M A) (k : A → M B) : M B := λ d,
  match m d with
  | (d, Ok a) => k a d
  | (d, Err e) => (d, Err e)
  end.

Declare Scope repo_scope.
Delimit Scope repo_scope with repo.
Notation "'do' x ← c ; k" := (mbind c (λ x, k))
  (at level 10, x pattern, c at level 100, k at level 200) : repo_scope.
Open Scope repo_scope.

(** One round trip to the database: it consumes one entry of the schedule. *)
Definition query {A} (f : db → db * A) : M A := λ d,
  match faults d with
  | true :: fs => (mkDB (domains d) (gateways d) (db_now d) (supply d) fs, Err ErrDB)
  | _ :: fs => let '(d', a) := f (mkDB (domains d) (gateways d) (db_now d) (supply d) fs) in (d', Ok a)
  | [] => let '(d', a) := f d in (d', Ok a)
  end.

(** [SELECT ... WHERE id = $1 AND cond]. *)
Definition select_row (id : string) (cond : t → bool) : M (option t) :=
  query (λ d, (d, match domains d !! id with
                  | Some c => if cond c then Some c else None
                  | None => None
                  end)).

(** [UPDATE ... WHERE id = $1 AND cond RETURNING ...]; NOW() is the database
    clock. *)
Definition update_row (id : string) (cond : t → bool) (f : Z → t → t) : M (option t) :=
  query (λ d, match domains d !! id with
              | Some c =>
                  if cond c
                  then let c' := f (db_now d) c in
                       (with_domains (<[id := c']> (domains d)) d, Some c')
                  else (d, None)
              | None => (d, None)
              end).

Definition live (c : t) : bool := bool_decide (DeletedAt c = None).
Definition in_project (projectID : string) (c : t) : bool := String.eqb (ProjectID c) projectID.

(** ** Reading *)

Definition HostnameExists (hostname : string) : M bool :=
  query (λ d, (d, existsb (λ '(_, c), String.eqb (ToLower (Hostname c)) (ToLower hostname) && live c)
                    (map_to_list (domains d)))).

Definition GetByID (id : string) : M t :=
  do o ← select_row id live;
  match o with Some c => mret c | None => mfail ErrCustomDomainNotFound end.

Definition GetByIDForProject (id projectID : string) : M t :=
  do o ← select_row id (λ c, in_project projectID c && live c);
  match o with Some c => mret c | None => mfail ErrCustomDomainNotFound end.

(** Insertion into a list sorted by a key, after equal keys. *)
Fixpoint insert_by {A} (le : A → A → bool) (x : A) (l : list A) : list A :=
  match l with
  | [] => [x]
  | y :: l' => if le y x then y :: insert_by le x l' else x :: l
  end.
Definition sort_by {A} (le : A → A → bool) (l : list A) : list A := foldr (insert_by le) [] l.

Definition ListByProject (projectID : string) : M (list t) :=
  query (λ d, (d, sort_by (λ a b, (CreatedAt b <=? CreatedAt a)%Z)
    (filter (λ c, in_project projectID c && live c = true) (map_to_list (domains d)).*2))).

Definition sync_eligible (projectID : string) (c : t) : bool :=
  in_project projectID c && live c && bool_decide (Status c = Active) &&
  bool_decide (Routing_status (routing c) = RoutingReady).

Definition ListEligibleSyncDomains (projectID : string) : M (list CustomDomainSync.t) :=
  query (λ d, (d, (λ c, CustomDomainSync.mk (Hostname c) (status_string (Status c))
                          (routing_string (Routing_status (routing c)))) <$>
    sort_by (λ a b, (CreatedAt a <=? CreatedAt b)%Z)
      (filter (λ c, sync_eligible projectID c = true) (map_to_list (domains d)).*2))).

(** ** Registration and verification *)

(** [INSERT]: the primary key and the unique index on the lower-cased hostname
    of live rows raise 23505.  The caller's record is completed with the columns
    the database chose, so the inserted row is the result. *)
Definition Create (c : t) : M t :=
  do o ← query (λ d,
    let c := touch (db_now d)
      (set_certificate (mkCertificate (CertificateARN (certificate c))
         (Some (default "not_requested" (CertificateStatus (certificate c))))
         (ManagedByEliteGate (certificate c)) None None None None None) c) in
    let c := mk (ID c) (ProjectID c) (Hostname c) (Status c) (ActivatedAt c) (db_now d) (db_now d) None
      (verification c) (mkRouting (RoutingTarget (routing c)) (Routing_status (routing c)) None None)
      (certificate c)
      (mkProvisioning (pstatus c) None None None None 0 None) (mkRule None None) no_lease in
    if bool_decide (is_Some (domains d !! ID c)) ||
       existsb (λ '(_, x), String.eqb (ToLower (Hostname x)) (ToLower (Hostname c)) && live x)
         (map_to_list (domains d))
    then (d, None)
    else (with_domains (<[ID c := c]> (domains d)) d, Some c));
  match o with Some c => mret c | None => mfail ErrHostnameConflict end.

Definition MarkVerified (id projectID : string) : M t :=
  do o ← update_row id (λ c, in_project projectID c && live c)
    (λ now c, touch now (set_status Verified (ActivatedAt c)
       (set_verification (mkVerification (VerificationTokenHash (verification c))
          (VerificationRecordName (verification c)) None (Some now) (Some now)) c)));
  match o with Some c => mret c | None => mfail ErrCustomDomainNotFound end.

Definition RecordVerificationFailure (id projectID reason : string) : M unit :=
  do o ← update_row id (λ c, in_project projectID c && live c)
    (λ now c, touch now (set_verification (mkVerification (VerificationTokenHash (verification c))
       (VerificationRecordName (verification c)) (Some reason) (VerifiedAt (verification c)) (Some now)) c));
  match o with Some _ => mret () | None => mfail ErrCustomDomainNotFound end.

Definition SoftDelete (id projectID : string) : M unit :=
  do o ← update_row id (λ c, in_project projectID c && live c)
    (λ now c, touch now (set_deleted (Some now) c));
  match o with Some _ => mret () | None => mfail ErrCustomDomainNotFound end.

Definition UpdateRoutingStatus (id projectID : string) (status : RoutingStatus) (target : string)
    (routingError : option string) : M t :=
  do o ← update_row id (λ c, in_project projectID c && live c)
    (λ now c, touch now (set_routing (mkRouting (Some target) status (Some now) routingError) c));
  match o with Some c => mret c | None => mfail ErrCustomDomainNotFound end.

Definition MarkActive (id projectID : string) : M t :=
  do o ← update_row id (λ c, in_project projectID c && live c && bool_decide (Status c = Verified) &&
                             bool_decide (Routing_status (routing c) = RoutingReady))
    (λ now c, touch now (set_status Active (Some now) c));
  match o with Some c => mret c | None => mfail ErrCustomDomainNotFound end.

(** ** The provisioning queue *)

(** The statuses of the partial index: the jobs a worker may claim. *)
Definition queued (s : ProvisioningStatus) : bool :=
  match s with
  | RequestingCertificate | WaitingForValidationRecord | WaitingForDNS | WaitingForCertificate
  | AttachingCertificate | Deprovisioning => true
  | _ => false
  end.

(** Why a leased UPDATE matched no row. *)
Definition checkStaleOrTransitionError {A} (id : string) (leaseToken : nat)
    (expectedStatus : ProvisioningStatus) : M A :=
  do o ← select_row id (λ _, true);
  match o with
  | None => mfail ErrCustomDomainNotFound
  | Some c =>
      if negb (live c) then mfail ErrStaleLease
      else if negb (bool_decide (token c = Some leaseToken)) then mfail ErrStaleLease
      else if negb (bool_decide (pstatus c = expectedStatus)) then mfail ErrInvalidStateTransition
      else mfail ErrStaleLease
  end.

Definition opt_le (bound : Z) (o : option Z) : bool :=
  match o with None => true | Some x => (x <=? bound)%Z end.

(** The WHERE clause of the claim; [lockExpiry] is computed by the worker. *)
Definition claimable (now lockExpiry : Z) (c : t) : bool :=
  live c && queued (pstatus c) && opt_le now (NextRetryAt (provisioning c)) &&
  opt_le lockExpiry (LockedAt (lease c)).

(** ORDER BY next_retry_at ASC NULLS FIRST, created_at ASC. *)
Definition nulls_first (o : option Z) : Z * Z := match o with None => (0, 0) | Some x => (1, x) end%Z.
Definition claim_before (a b : t) : bool :=
  let '(na, xa) := nulls_first (NextRetryAt (provisioning a)) in
  let '(nb, xb) := nulls_first (NextRetryAt (provisioning b)) in
  (na <? nb)%Z || ((na =? nb)%Z && ((xa <? xb)%Z || ((xa =? xb)%Z && (CreatedAt a <=? CreatedAt b)%Z))).

(** LIMIT 1 of the ordered candidates; among equal ones, which SQL leaves open,
    the first in the order of the map. *)
Definition claim_min (best : option t) (c : t) : option t :=
  match best with
  | None => Some c
  | Some b => if claim_before b c then best else Some c
  end.
Definition next_job (now lockExpiry : Z) (m : gmap string t) : option t :=
  foldl claim_min None (filter (λ c, claimable now lockExpiry c = true) (map_to_list m).*2).

(** [app_now] is the clock of the worker; a non-positive timeout means five
    minutes. *)
Definition ClaimNextProvisioningJob (app_now : Z) (workerID : string) (lockTimeout : Z)
  : M (option ProvisioningJob) :=
  let lockTimeout := if (lockTimeout <=? 0)%Z then (5 * minute)%Z else lockTimeout in
  let lockExpiry := (app_now - lockTimeout)%Z in
  query (λ d,
    let leaseToken := supply d in
    let d := mkDB (domains d) (gateways d) (db_now d) (S (supply d)) (faults d) in
    match next_job (db_now d) lockExpiry (domains d) with
    | None => (d, None)
    | Some c =>
        let c' := touch (db_now d)
          (set_lease (mkLease (Some (db_now d)) (Some workerID) (Some leaseToken)) c) in
        (with_domains (<[ID c := c']> (domains d)) d, Some (scanProvisioningJobRow c'))
    end).

(** The WHERE clause shared by the leased updates. *)
Definition held (leaseToken : nat) (expected : ProvisioningStatus) (c : t) : bool :=
  bool_decide (token c = Some leaseToken) && bool_decide (pstatus c = expected) && live c.

(** A leased update and, when it matched nothing, the diagnosis. *)
Definition leased (id : string) (leaseToken : nat) (expected : ProvisioningStatus) (f : Z → t → t)
  : M unit :=
  do o ← update_row id (held leaseToken expected) f;
  match o with
  | Some _ => mret ()
  | None => checkStaleOrTransitionError id leaseToken expected
  end.

(** The provisioning columns a retry changes. *)
Definition reschedule (status : ProvisioningStatus) (err : option string) (attempts : Z)
    (next : option Z) (p : Provisioning) : Provisioning :=
  mkProvisioning status (ProvisioningStartedAt p) (ProvisioningCompletedAt p)
    (DeprovisioningStartedAt p) err attempts next.

Record AdvanceProvisioningParams := mkAdvance {
  AdvID : string;
  AdvLeaseToken : nat;
  AdvExpectedStatus : ProvisioningStatus;
  AdvNewStatus : ProvisioningStatus;
  AdvCertificateARN : option string;
  AdvCertificateStatus : option string;
  AdvManaged : option bool;
  AdvValidationName : option string;
  AdvValidationValue : option string;
  AdvRequestedAt : option Z;
  AdvIssuedAt : option Z;
  AdvAttachedAt : option Z;
  AdvNextRetryAt : option Z;
}.

(** COALESCE(new, old). *)
Definition coalesce {A} (new old : option A) : option A := match new with Some x => Some x | None => old end.

Definition advance_certificate (p : AdvanceProvisioningParams) (c : Certificate) : Certificate :=
  mkCertificate (coalesce (AdvCertificateARN p) (CertificateARN c))
    (coalesce (AdvCertificateStatus p) (CertificateStatus c))
    (default (ManagedByEliteGate c) (AdvManaged p))
    (coalesce (AdvValidationName p) (ValidationName c))
    (coalesce (AdvValidationValue p) (ValidationValue c))
    (coalesce (AdvRequestedAt p) (RequestedAt c)) (coalesce (AdvIssuedAt p) (IssuedAt c))
    (coalesce (AdvAttachedAt p) (AttachedAt c)).

Definition AdvanceProvisioningState (p : AdvanceProvisioningParams) : M unit :=
  leased (AdvID p) (AdvLeaseToken p) (AdvExpectedStatus p) (λ now c,
    touch now (set_lease no_lease (set_certificate (advance_certificate p (certificate c))
      (set_provisioning (reschedule (AdvNewStatus p) None (ProvisioningAttempts (provisioning c))
         (AdvNextRetryAt p) (provisioning c)) c)))).

Definition ScheduleProvisioningPoll (id : string) (leaseToken : nat) (expected : ProvisioningStatus)
    (nextPollAt : Z) : M unit :=
  leased id leaseToken expected (λ now c,
    touch now (set_lease no_lease (set_provisioning
      (reschedule (pstatus c) (ProvisioningError (provisioning c)) (ProvisioningAttempts (provisioning c))
         (Some nextPollAt) (provisioning c)) c))).

Definition ScheduleProvisioningRetry (id : string) (leaseToken : nat) (expected : ProvisioningStatus)
    (nextRetryAt : Z) (provisioningError : string) : M unit :=
  leased id leaseToken expected (λ now c,
    touch now (set_lease no_lease (set_provisioning
      (reschedule (pstatus c) (Some provisioningError) (ProvisioningAttempts (provisioning c) + 1)
         (Some nextRetryAt) (provisioning c)) c))).

Definition MarkProvisioningFailed (id : string) (leaseToken : nat) (expected : ProvisioningStatus)
    (provisioningError : string) : M unit :=
  leased id leaseToken expected (λ now c,
    touch now (set_lease no_lease (set_provisioning
      (reschedule Failed (Some provisioningError) (ProvisioningAttempts (provisioning c) + 1) None
         (provisioning c)) c))).

(** The active dedicated gateway of a project, latest provisioned first. *)
Definition ingress_ready (projectID : string) (g : GatewayRow) : bool :=
  String.eqb (GwProjectID g) projectID && bool_decide (GwDeletedAt g = None) &&
  String.eqb (GwPlan g) "dedicated" && String.eqb (GwStatus g) "active" &&
  String.eqb (GwProvisioningStatus g) "completed" &&
  match GwTargetGroupARN g with Some arn => negb (String.eqb (Trim " " arn) "") | None => false end.

Definition ingress_before (a b : GatewayRow) : bool :=
  match GwProvisionedAt a, GwProvisionedAt b with
  | Some x, Some y => (y <? x)%Z || ((x =? y)%Z && (GwCreatedAt b <=? GwCreatedAt a)%Z)
  | Some _, None => true
  | None, Some _ => false
  | None, None => (GwCreatedAt b <=? GwCreatedAt a)%Z
  end.

Record ProjectGatewayIngress := mkIngress { ExternalID : string; TargetGroupARN : string }.

Definition GetActiveProjectGatewayIngress (projectID : string) : M ProjectGatewayIngress :=
  do o ← query (λ d, (d, head (sort_by ingress_before
           (filter (λ g, ingress_ready projectID g = true) (gateways d)))));
  match o with
  | Some g => mret (mkIngress (GwExternalID g) (default "" (GwTargetGroupARN g)))
  | None => mfail ErrProjectGatewayIngressNotReady
  end.

(** The CHECK constraint and the partial unique index on the rule priority. *)
Definition priority_ok (id : string) (priority : Z) (m : gmap string t) : bool :=
  (40001 <=? priority)%Z && (priority <=? 50000)%Z &&
  forallb (λ '(id', c), String.eqb id' id || negb (live c) ||
             negb (bool_decide (ListenerRulePriority (rule c) = Some priority))) (map_to_list m).

Definition complete_row (listenerRuleARN : string) (priority : Z) (now : Z) (c : t) : t :=
  touch now (set_lease no_lease (set_rule (mkRule (Some listenerRuleARN) (Some priority))
    (set_certificate (mkCertificate (CertificateARN (certificate c)) (Some "issued")
         (ManagedByEliteGate (certificate c)) (ValidationName (certificate c))
         (ValidationValue (certificate c)) (RequestedAt (certificate c)) (IssuedAt (certificate c))
         (coalesce (AttachedAt (certificate c)) (Some now)))
      (set_provisioning (mkProvisioning Completed (ProvisioningStartedAt (provisioning c)) (Some now)
           (DeprovisioningStartedAt (provisioning c)) None (ProvisioningAttempts (provisioning c)) None)
        (set_status Active (coalesce (ActivatedAt c) (Some now)) c))))).

(** A row that would violate a constraint makes the statement fail. *)
Definition MarkProvisioningCompleted (id : string) (leaseToken : nat) (listenerRuleARN : string)
    (listenerRulePriority : Z) : M unit :=
  do o ← query (λ d,
    match domains d !! id with
    | Some c =>
        if held leaseToken AttachingCertificate c then
          if priority_ok id listenerRulePriority (domains d)
          then (with_domains (<[id := complete_row listenerRuleARN listenerRulePriority (db_now d) c]>
                  (domains d)) d, Ok true)
          else (d, Err ErrDB)
        else (d, Ok false)
    | None => (d, Ok false)
    end);
  match o with
  | Ok true => mret ()
  | Ok false => checkStaleOrTransitionError id leaseToken AttachingCertificate
  | Err e => mfail e
  end.

(** The WHERE clause of the two deprovisioning updates has no [deleted_at]. *)
Definition held_any (leaseToken : nat) (expected : ProvisioningStatus) (c : t) : bool :=
  bool_decide (token c = Some leaseToken) && bool_decide (pstatus c = expected).

Definition MarkDeprovisioned (id : string) (leaseToken : nat) : M unit :=
  do o ← update_row id (held_any leaseToken Deprovisioning) (λ now c,
    touch now (set_lease no_lease (set_deleted (Some now) (set_provisioning
      (reschedule Deprovisioned (ProvisioningError (provisioning c))
         (ProvisioningAttempts (provisioning c)) None (provisioning c)) c))));
  match o with
  | Some _ => mret ()
  | None => checkStaleOrTransitionError id leaseToken Deprovisioning
  end.

Definition MarkDeprovisionFailed (id : string) (leaseToken : nat) (errStr : string) : M unit :=
  do o ← update_row id (held_any leaseToken Deprovisioning) (λ now c,
    touch now (set_lease no_lease (set_provisioning
      (reschedule DeprovisionFailed (Some errStr) (ProvisioningAttempts (provisioning c))
         (NextRetryAt (provisioning c)) (provisioning c)) c)));
  match o with
  | Some _ => mret ()
  | None => checkStaleOrTransitionError id leaseToken Deprovisioning
  end.

Definition ReleaseProvisioningLease (id : string) (leaseToken : nat) : M unit :=
  do o ← update_row id (λ c, bool_decide (token c = Some leaseToken) && live c)
    (λ now c, touch now (set_lease no_lease c));
  match o with Some _ => mret () | None => mfail ErrStaleLease end.

(** ** Operations of the control plane on the queue *)

(** A fresh start in [status]: attempts and error are cleared, the job is due
    now and unlocked. *)
Definition restart (status : ProvisioningStatus) (now : Z) (c : t) : t :=
  touch now (set_lease no_lease (set_provisioning
    (mkProvisioning status (Some now) (ProvisioningCompletedAt (provisioning c))
       (DeprovisioningStartedAt (provisioning c)) None 0 (Some now)) c)).

Definition EnqueueProvisioning (id projectID : string) : M t :=
  do o ← update_row id (λ c, in_project projectID c && live c && bool_decide (Status c = Verified) &&
           bool_decide (Routing_status (routing c) = RoutingReady) &&
           (bool_decide (pstatus c = NotStarted) || bool_decide (pstatus c = Failed)))
    (restart RequestingCertificate);
  match o with
  | Some c => mret c
  | None =>
      do existing ← GetByIDForProject id projectID;
      if negb (bool_decide (Status existing = Verified)) ||
         negb (bool_decide (Routing_status (routing existing) = RoutingReady))
      then mfail ErrDomainNotEligible
      else match pstatus existing with
           | RequestingCertificate | WaitingForValidationRecord | WaitingForDNS
           | WaitingForCertificate | AttachingCertificate | Completed => mret existing
           | _ => mfail ErrDomainNotEligible
           end
  end.

Definition ResetProvisioningForRetry (id projectID : string) (targetStatus : ProvisioningStatus) : M t :=
  do o ← update_row id (λ c, in_project projectID c && live c && bool_decide (pstatus c = Failed))
    (restart targetStatus);
  match o with Some c => mret c | None => mfail ErrDomainNotEligibleForRetry end.

Definition EnqueueDeprovisioning (id projectID : string) : M t :=
  do o ← update_row id (λ c, in_project projectID c && live c &&
           negb (bool_decide (pstatus c = Deprovisioning)) && negb (bool_decide (pstatus c = Deprovisioned)))
    (λ now c, touch now (set_lease no_lease (set_provisioning
       (mkProvisioning Deprovisioning (ProvisioningStartedAt (provisioning c))
          (ProvisioningCompletedAt (provisioning c)) (Some now) None
          (ProvisioningAttempts (provisioning c)) (Some now)) c)));
  match o with
  | Some c => mret c
  | None =>
      do existing ← GetByIDForProject id projectID;
      if bool_decide (pstatus existing = Deprovisioning) || bool_decide (pstatus existing = Deprovisioned) ||
         negb (live existing)
      then mret existing
      else mfail ErrDomainAlreadyDeprovisioned
  end.

Definition ResetDeprovisioningForRetry (id projectID : string) : M t :=
  do o ← update_row id (λ c, in_project projectID c && live c &&
                             bool_decide (pstatus c = DeprovisionFailed))
    (λ now c, touch now (set_lease no_lease (set_provisioning
       (mkProvisioning Deprovisioning (ProvisioningStartedAt (provisioning c))
          (ProvisioningCompletedAt (provisioning c)) (Some now) None 0 (Some now)) c)));
  match o with Some c => mret c | None => mfail ErrDomainNotEligibleForRetry end.

Definition status_eq (s : ProvisioningStatus) (c : t) : bool := bool_decide (pstatus c = s).

(** The backlog per queued status; a status without rows has no entry. *)
Definition GetProvisioningQueueDepth : M (list (ProvisioningStatus * nat)) :=
  query (λ d, (d,
    omap (λ s, match length (filter (λ c, live c && status_eq s c = true) (map_to_list (domains d)).*2) with
               | 0 => None
               | n => Some (s, n)
               end)
      [RequestingCertificate; WaitingForValidationRecord; WaitingForDNS; WaitingForCertificate;
       AttachingCertificate; Deprovisioning])).

End CustomDomain.
