(* ===== verification/Provisioner.v ===== *)
(** * The custom-domain provisioning worker

    [src/cmd/worker/provisioner.go].  AWS is the interface [AWS]: the reply of
    each call is an arbitrary function of the calls and replies so far, and the
    worker's exchange with it is recorded as a list of events.  A handler is a
    program over the database and this record. *)

From Stdlib Require Import Ascii.
From S2P Require Import Prelude GoStrings Model CustomDomain.

(** ** [internal/aws/interfaces.go] *)

Inductive aws_kind :=
| ResourceNotFound | InvalidParameter | AccessDenied | Throttling | LimitExceeded
| HostRuleTargetConflict | OtherAWS.

Record aws_error := mkAWSError { kind : aws_kind; message : string }.

Record CertificateDetails := mkDetails {
  DetStatus : string;
  DetValidationName : string;
  DetValidationValue : string;
  DetIssuedAt : option Z;
  DetFailureReason : string;
}.

(** A call to AWS with its reply. *)
Inductive aws_event :=
| EvRequest (hostname idem : string) (r : result aws_error string)
| EvDescribe (arn : string) (r : result aws_error CertificateDetails)
| EvDelete (arn : string) (r : result aws_error unit)
| EvAttach (listener arn : string) (r : result aws_error unit)
| EvDetach (listener arn : string) (r : result aws_error unit)
| EvEnsureRule (listener hostname target : string) (lo hi : Z) (r : result aws_error (string * Z))
| EvDeleteRule (ruleARN : string) (r : result aws_error unit).

Abbreviation history := (list aws_event) (only parsing).

(** [CertificateManager] and [CustomDomainLoadBalancerManager]. *)
Class AWS := {
  RequestCertificate : history → string → string → result aws_error string;
  DescribeCertificate : history → string → result aws_error CertificateDetails;
  DeleteCertificate : history → string → result aws_error unit;
  AttachCertificateToListener : history → string → string → result aws_error unit;
  DetachCertificateFromListener : history → string → string → result aws_error unit;
  EnsureHostRule : history → string → string → string → Z → Z → result aws_error (string * Z);
  DeleteGatewayHostRule : history → string → result aws_error unit;
}.

Module Provisioner.
Import CustomDomain.

(** ** Delays and error classification *)

Definition CalculateRetryDelay (attempts : Z) : Z :=
  if (attempts <=? 1)%Z then 15 * second
  else if (attempts =? 2)%Z then 30 * second
  else if (attempts =? 3)%Z then 1 * minute
  else if (attempts =? 4)%Z then 2 * minute
  else 5 * minute.

Inductive ErrorCategory := Transient | Terminal.

#[global] Instance ErrorCategory_eq_dec : EqDecision ErrorCategory.
Proof. solve_decision. Defined.
#[global] Instance aws_kind_eq_dec : EqDecision aws_kind.
Proof. solve_decision. Defined.

Definition is_kind (k : aws_kind) (e : aws_error) : bool := bool_decide (kind e = k).

Definition ClassifyAWSError (e : aws_error) : ErrorCategory * string :=
  let lowered := ToLower (message e) in
  if is_kind ResourceNotFound e || Contains lowered "resourcenotfoundexception"
  then (Terminal, "ACM certificate resource not found")
  else if is_kind InvalidParameter e || Contains lowered "invalidparameterexception" ||
          Contains lowered "invalid domain"
  then (Terminal, "Invalid parameters for ACM certificate request")
  else if is_kind AccessDenied e || Contains lowered "accessdeniedexception" ||
          Contains lowered "access denied"
  then (Terminal, "AWS IAM access denied for ACM operation")
  else if is_kind Throttling e || is_kind LimitExceeded e ||
          Contains lowered "throttling" || Contains lowered "toomanyrequests" ||
          Contains lowered "limitexceeded" || Contains lowered "timeout" ||
          Contains lowered "connection refused" || Contains lowered "503" || Contains lowered "500"
  then (Transient, "AWS ACM service transient error / throttling")
  else (Transient, "AWS ACM operation failed transiently: " +:+ message e).

Definition isResourceNotFoundErr (e : aws_error) : bool :=
  let lowered := ToLower (message e) in
  is_kind ResourceNotFound e || Contains lowered "resourcenotfoundexception" ||
  Contains lowered "not found" || Contains lowered "does not exist".

Definition SanitizeACMFailureReason (reason : string) : string :=
  let r := ToUpper (TrimSpace reason) in
  if String.eqb r "DOMAIN_VALIDATION_TIMED_OUT" || String.eqb r "VALIDATION_TIMED_OUT"
  then "ACM domain validation timed out"
  else if String.eqb r "FAILURE_REASON_NO_AVAILABLE_CONTACTS"
  then "ACM validation failed: no available contacts"
  else if String.eqb r "FAILURE_REASON_ADDITIONAL_VERIFICATION_REQUIRED"
  then "ACM validation failed: additional verification required"
  else if String.eqb r "REVOKED" then "ACM certificate was revoked"
  else if String.eqb r "EXPIRED" then "ACM certificate expired"
  else if String.eqb r "INACTIVE" then "ACM certificate is inactive"
  else if negb (String.eqb reason "") then "ACM certificate failed: " +:+ reason
  else "ACM certificate issuance failed".

(** The five status texts that end an issuance. *)
Definition failed_status (s : string) : bool :=
  String.eqb s "FAILED" || String.eqb s "VALIDATION_TIMED_OUT" || String.eqb s "REVOKED" ||
  String.eqb s "EXPIRED" || String.eqb s "INACTIVE".

Definition failure_message (details : CertificateDetails) (statusUpper : string) : string :=
  if String.eqb (DetFailureReason details) "" then SanitizeACMFailureReason statusUpper
  else SanitizeACMFailureReason (DetFailureReason details).

(** ** Programs over the database and AWS *)

Record world := mkWorld { store : db; events : history; app_now : Z }.

Definition P (A : Type) : Type := world → world * result error A.
Definition pret {A} (a : A) : P A := λ w, (w, Ok a).
Definition pfail {A} (e : error) : P A := λ w, (w, Err e).
Definition pbind {A B} (m : P A) (k : A → P B) : P B := λ w,
  match m w with
  | (w, Ok a) => k a w
  | (w, Err e) => (w, Err e)
  end.

(** A repository call. *)
Definition repo {A} (m : M A) : P A := λ w,
  let '(d, r) := m (store w) in (mkWorld d (events w) (app_now w), r).

(** A repository call whose error the caller inspects. *)
Definition repo_try {A} (m : M A) : P (result error A) := λ w,
  let '(d, r) := m (store w) in (mkWorld d (events w) (app_now w), Ok r).

(** A call to AWS, recorded with its reply. *)
Definition call {A} (reply : history → result aws_error A) (ev : result aws_error A → aws_event)
  : P (result aws_error A) := λ w,
  let r := reply (events w) in (mkWorld (store w) (events w ++ [ev r]) (app_now w), Ok r).

(** [p.now()]. *)
Definition now : P Z := λ w, (w, Ok (app_now w)).

Notation "'run' x ← c ; k" := (pbind c (λ x, k))
  (at level 10, x pattern, c at level 100, k at level 200) : repo_scope.

Section provisioner.
Context `{!AWS}.
(** The worker's identity and listener; the hexadecimal SHA-256 digest. *)
Context (workerID listenerARN : string) (sha256_hex : string → string).

Definition GenerateACMIdempotencyToken (domainID : string) : string :=
  "eg" +:+ String.substring 0 30 (sha256_hex domainID).

Definition pollInterval : Z := 30 * second.

(** What the handlers do with a failed AWS call: give up, or retry later. *)
Definition fail_or_retry (job : ProvisioningJob) (lt : nat) (expected : ProvisioningStatus)
    (e : aws_error) : P unit :=
  match ClassifyAWSError e with
  | (Terminal, reason) => repo (MarkProvisioningFailed (JobID job) lt expected reason)
  | (Transient, reason) =>
      run t ← now;
      repo (ScheduleProvisioningRetry (JobID job) lt expected
              (t + CalculateRetryDelay (JobAttempts job + 1)) reason)
  end.

Definition no_arn (job : ProvisioningJob) : bool :=
  match CertificateARN (JobCertificate job) with
  | None => true
  | Some arn => String.eqb arn ""
  end.

Definition job_arn (job : ProvisioningJob) : string :=
  default "" (CertificateARN (JobCertificate job)).

(** The advance after a certificate is known. *)
Definition certificate_requested (job : ProvisioningJob) (lt : nat) (arn : string) (t : Z)
  : AdvanceProvisioningParams :=
  mkAdvance (JobID job) lt RequestingCertificate WaitingForValidationRecord (Some arn)
    (Some "pending_validation") (Some true) None None (Some t) None None (Some t).

Definition handleRequestingCertificate (job : ProvisioningJob) (lt : nat) : P unit :=
  if negb (no_arn job) then
    run t ← now; repo (AdvanceProvisioningState (certificate_requested job lt (job_arn job) t))
  else
    let idem := GenerateACMIdempotencyToken (JobID job) in
    run r ← call (λ h, RequestCertificate h (JobHostname job) idem) (EvRequest (JobHostname job) idem);
    match r with
    | Err e => fail_or_retry job lt RequestingCertificate e
    | Ok certARN =>
        run t ← now; repo (AdvanceProvisioningState (certificate_requested job lt certARN t))
    end.

Definition handleWaitingForValidationRecord (job : ProvisioningJob) (lt : nat) : P unit :=
  if no_arn job then
    repo (MarkProvisioningFailed (JobID job) lt WaitingForValidationRecord
            "Missing ACM certificate ARN in waiting_for_validation_record state")
  else
    run r ← call (λ h, DescribeCertificate h (job_arn job)) (EvDescribe (job_arn job));
    match r with
    | Err e => fail_or_retry job lt WaitingForValidationRecord e
    | Ok details =>
        if String.eqb (DetStatus details) "FAILED" || negb (String.eqb (DetFailureReason details) "") then
          repo (MarkProvisioningFailed (JobID job) lt WaitingForValidationRecord
                  ("ACM certificate failed validation: " +:+ DetFailureReason details))
        else
          run t ← now;
          let nextPollAt := (t + pollInterval)%Z in
          if String.eqb (DetValidationName details) "" || String.eqb (DetValidationValue details) "" then
            repo (ScheduleProvisioningPoll (JobID job) lt WaitingForValidationRecord nextPollAt)
          else
            repo (AdvanceProvisioningState (mkAdvance (JobID job) lt WaitingForValidationRecord WaitingForDNS
                    None (Some (DetStatus details)) None (Some (DetValidationName details))
                    (Some (DetValidationValue details)) None None None (Some nextPollAt)))
    end.

Definition handleWaitingForDNS (job : ProvisioningJob) (lt : nat) : P unit :=
  if no_arn job then
    repo (MarkProvisioningFailed (JobID job) lt WaitingForDNS
            "Missing ACM certificate ARN in waiting_for_dns state")
  else
    run r ← call (λ h, DescribeCertificate h (job_arn job)) (EvDescribe (job_arn job));
    match r with
    | Err e => fail_or_retry job lt WaitingForDNS e
    | Ok details =>
        let statusUpper := ToUpper (TrimSpace (DetStatus details)) in
        run t ← now;
        if String.eqb statusUpper "ISSUED" then
          let issuedAt := default t (DetIssuedAt details) in
          repo (AdvanceProvisioningState (mkAdvance (JobID job) lt WaitingForDNS AttachingCertificate
                  None (Some "issued") None None None None (Some issuedAt) None (Some t)))
        else if String.eqb statusUpper "PENDING_VALIDATION" then
          repo (ScheduleProvisioningPoll (JobID job) lt WaitingForDNS (t + pollInterval))
        else if failed_status statusUpper then
          repo (MarkProvisioningFailed (JobID job) lt WaitingForDNS (failure_message details statusUpper))
        else if (5 <=? JobAttempts job)%Z then
          repo (MarkProvisioningFailed (JobID job) lt WaitingForDNS
                  ("Unknown ACM certificate status: " +:+ statusUpper))
        else
          repo (ScheduleProvisioningRetry (JobID job) lt WaitingForDNS
                  (t + CalculateRetryDelay (JobAttempts job + 1))
                  ("Unrecognized ACM status: " +:+ statusUpper))
    end.

(** Steps 2 to 5 of the attachment, after the certificate was seen issued. *)
Definition attach_and_route (job : ProvisioningJob) (lt : nat) : P unit :=
  run r ← call (λ h, AttachCertificateToListener h listenerARN (job_arn job))
            (EvAttach listenerARN (job_arn job));
  match r with
  | Err e => fail_or_retry job lt AttachingCertificate e
  | Ok _ =>
      run ing ← repo_try (GetActiveProjectGatewayIngress (JobProjectID job));
      match ing with
      | Err e =>
          run t ← now;
          repo (ScheduleProvisioningRetry (JobID job) lt AttachingCertificate
                  (t + CalculateRetryDelay (JobAttempts job + 1))
                  (if bool_decide (e = ErrProjectGatewayIngressNotReady)
                   then "Project dedicated gateway ingress is not ready"
                   else "Failed to query active project gateway ingress: "))
      | Ok gatewayIngress =>
          run rr ← call (λ h, EnsureHostRule h listenerARN (JobHostname job)
                                (TargetGroupARN gatewayIngress) 40001 50000)
                     (EvEnsureRule listenerARN (JobHostname job) (TargetGroupARN gatewayIngress) 40001 50000);
          match rr with
          | Err e =>
              if is_kind HostRuleTargetConflict e then
                repo (MarkProvisioningFailed (JobID job) lt AttachingCertificate
                        "Custom domain hostname is already routed to another target group")
              else fail_or_retry job lt AttachingCertificate e
          | Ok (ruleARN, rulePriority) =>
              repo (MarkProvisioningCompleted (JobID job) lt ruleARN rulePriority)
          end
      end
  end.

Definition handleAttachingCertificate (job : ProvisioningJob) (lt : nat) : P unit :=
  if no_arn job then
    repo (MarkProvisioningFailed (JobID job) lt AttachingCertificate
            "Missing ACM certificate ARN in attaching_certificate state")
  else if negb (ManagedByEliteGate (JobCertificate job)) then
    repo (MarkProvisioningFailed (JobID job) lt AttachingCertificate "Certificate not managed by EliteGate")
  else
    run r ← call (λ h, DescribeCertificate h (job_arn job)) (EvDescribe (job_arn job));
    match r with
    | Err e => fail_or_retry job lt AttachingCertificate e
    | Ok details =>
        let statusUpper := ToUpper (TrimSpace (DetStatus details)) in
        run t ← now;
        if String.eqb statusUpper "ISSUED" then attach_and_route job lt
        else if String.eqb statusUpper "PENDING_VALIDATION" then
          repo (ScheduleProvisioningPoll (JobID job) lt AttachingCertificate (t + pollInterval))
        else if failed_status statusUpper then
          repo (MarkProvisioningFailed (JobID job) lt AttachingCertificate
                  (failure_message details statusUpper))
        else
          repo (ScheduleProvisioningRetry (JobID job) lt AttachingCertificate
                  (t + CalculateRetryDelay (JobAttempts job + 1))
                  ("Unrecognized ACM status during attachment: " +:+ statusUpper))
    end.

(** A step of the deprovisioning: success or an absent resource goes on. *)
Definition deprovision_step (job : ProvisioningJob) (lt : nat) (r : result aws_error unit)
    (next : P unit) : P unit :=
  match r with
  | Ok _ => next
  | Err e =>
      if isResourceNotFoundErr e then next
      else match ClassifyAWSError e with
           | (Transient, reason) =>
               run t ← now;
               repo (ScheduleProvisioningRetry (JobID job) lt Deprovisioning
                       (t + CalculateRetryDelay (JobAttempts job + 1)) reason)
           | (Terminal, reason) => repo (MarkDeprovisionFailed (JobID job) lt reason)
           end
  end.

(** Steps 2 to 4 for a certificate the platform manages; the worker is built
    with both AWS managers. *)
Definition release_certificate (job : ProvisioningJob) (lt : nat) : P unit :=
  let finish := repo (MarkDeprovisioned (JobID job) lt) in
  if no_arn job || negb (ManagedByEliteGate (JobCertificate job)) then finish
  else
    let certARN := job_arn job in
    let delete :=
      run r ← call (λ h, DeleteCertificate h certARN) (EvDelete certARN);
      deprovision_step job lt r finish in
    if String.eqb listenerARN "" then delete
    else
      run r ← call (λ h, DetachCertificateFromListener h listenerARN certARN)
                (EvDetach listenerARN certARN);
      deprovision_step job lt r delete.

Definition handleDeprovisioning (job : ProvisioningJob) (lt : nat) : P unit :=
  match ListenerRuleARN (JobRule job) with
  | Some ruleARN =>
      if String.eqb (TrimSpace ruleARN) "" then release_certificate job lt
      else
        run r ← call (λ h, DeleteGatewayHostRule h ruleARN) (EvDeleteRule ruleARN);
        deprovision_step job lt r (release_certificate job lt)
  | None => release_certificate job lt
  end.

(** The dispatch of [ProcessNextJob]; every handler first requires a lease. *)
Definition handle (job : ProvisioningJob) : P unit :=
  match LeaseToken (JobLease job) with
  | None => match JobProvisioningStatus job with
            | RequestingCertificate | WaitingForValidationRecord | WaitingForDNS
            | AttachingCertificate | Deprovisioning => pfail ErrLeaseMissing
            | _ => pret ()
            end
  | Some lt =>
      match JobProvisioningStatus job with
      | RequestingCertificate => handleRequestingCertificate job lt
      | WaitingForValidationRecord => handleWaitingForValidationRecord job lt
      | WaitingForDNS => handleWaitingForDNS job lt
      | AttachingCertificate => handleAttachingCertificate job lt
      | Deprovisioning => handleDeprovisioning job lt
      | _ => run _ ← repo_try (ReleaseProvisioningLease (JobID job) lt); pret ()
      end
  end.

Definition claim : P (option ProvisioningJob) := λ w,
  repo (ClaimNextProvisioningJob (app_now w) workerID (5 * minute)) w.

(** Whether a job was processed. *)
Definition ProcessNextJob : P bool :=
  run o ← claim;
  match o with
  | None => pret false
  | Some job => run _ ← handle job; pret true
  end.

End provisioner.

End Provisioner.
