(* ===== verification/DomainSystem.v ===== *)
(** * Effects of the repository and of the worker

    What each repository call and each handler of [Provisioner] may change in
    the rows, by a small program logic ([acts]), and what the recorded exchange
    with AWS shows of a row that a handler brought to an end ([completes]). *)

From S2P Require Import Prelude GoStrings Model CustomDomain Provisioner.

Module DomainSystem.
Import CustomDomain Provisioner.

(** ** What one worker step may do to a row *)

(** The edges of the worker's state machine; a retry or a poll stays. *)
Inductive worker_edge : ProvisioningStatus → ProvisioningStatus → Prop :=
| edge_stay s : queued s = true → s ≠ WaitingForCertificate → worker_edge s s
| edge_fail s : queued s = true → s ≠ WaitingForCertificate → s ≠ Deprovisioning → worker_edge s Failed
| edge_requested : worker_edge RequestingCertificate WaitingForValidationRecord
| edge_validation : worker_edge WaitingForValidationRecord WaitingForDNS
| edge_issued : worker_edge WaitingForDNS AttachingCertificate
| edge_completed : worker_edge AttachingCertificate Completed
| edge_deprovisioned : worker_edge Deprovisioning Deprovisioned
| edge_deprovision_failed : worker_edge Deprovisioning DeprovisionFailed.

(** The rule columns of a completed row. *)
Definition rule_set (c : t) : Prop :=
  ∃ arn prio, rule c = mkRule (Some arn) (Some prio) ∧ (40001 ≤ prio ≤ 50000)%Z.

Record row_step (c c' : t) : Prop := {
  step_id : ID c' = ID c;
  step_project : ProjectID c' = ProjectID c;
  step_hostname : Hostname c' = Hostname c;
  step_edge : worker_edge (pstatus c) (pstatus c');
  step_lease : lease c' = no_lease;
  step_deleted : is_Some (DeletedAt c') ↔ is_Some (DeletedAt c) ∨ pstatus c' = Deprovisioned;
  step_completed : pstatus c' = Completed →
    Status c' = Active ∧ CertificateStatus (certificate c') = Some "issued" ∧ rule_set c' ∧
    CertificateARN (certificate c') = CertificateARN (certificate c);
  step_rule : pstatus c' ≠ Completed → rule c' = rule c ∧ Status c' = Status c;
  step_certificate : pstatus c = Deprovisioning → certificate c' = certificate c;
  step_checks : verification c' = verification c ∧ routing c' = routing c;
}.

(** A worker holding lease [lt] in status [s] changes at most the row [id], and
    only if that row still has the lease and the status. *)
Definition row_effect (id : string) (lt : nat) (s : ProvisioningStatus) (m m' : gmap string t) : Prop :=
  m' = m ∨
  ∃ c c', m !! id = Some c ∧ token c = Some lt ∧ pstatus c = s ∧ m' = <[id := c']> m ∧ row_step c c' ∧
    (pstatus c' = Completed → ∃ prio, ListenerRulePriority (rule c') = Some prio ∧ priority_ok id prio m = true).

(** Nothing but the rows and the schedule of faults changes. *)
Record frame (d d' : db) : Prop := {
  frame_gateways : gateways d' = gateways d;
  frame_now : db_now d' = db_now d;
  frame_supply : supply d' = supply d;
}.

Lemma frame_refl d : frame d d.
Proof. by split. Qed.
Lemma frame_trans d1 d2 d3 : frame d1 d2 → frame d2 d3 → frame d1 d3.
Proof. intros [] []. split; congruence. Qed.

(** *** Queries *)

Lemma query_spec {A} (f : db → db * A) d d' r :
  query f d = (d', r) →
  (r = Err ErrDB ∧ domains d' = domains d ∧ frame d d') ∨
  (∃ fs a, let d0 := mkDB (domains d) (gateways d) (db_now d) (supply d) fs in
     f d0 = (d', a) ∧ r = Ok a).
Proof.
  unfold query. destruct (faults d) as [|[] fs] eqn:Hf; intros H.
  - right. exists []. replace (mkDB _ _ _ _ []) with d by (destruct d; simpl in *; congruence).
    destruct (f d) as [d1 a]. simplify_eq. eauto.
  - simplify_eq. left. split; [done|]. split; [done|by split].
  - right. exists fs. destruct (f (mkDB _ _ _ _ fs)) as [d1 a]. simplify_eq. eauto.
Qed.

Lemma update_row_spec id cond f d d' r :
  update_row id cond f d = (d', r) →
  frame d d' ∧
  ((domains d' = domains d ∧ (r = Err ErrDB ∨ r = Ok None)) ∨
   (∃ c, domains d !! id = Some c ∧ cond c = true ∧
      domains d' = <[id := f (db_now d) c]> (domains d) ∧ r = Ok (Some (f (db_now d) c)))).
Proof.
  intros [(-> & Hd & Hfr)|(fs & a & Hf & ->)]%query_spec; [auto|]. simpl in Hf.
  destruct (domains d !! id) as [c|]; [|simplify_eq; split; [by split|auto]].
  destruct (cond c) eqn:Hc; simplify_eq; (split; [by split|]); [right; eauto 10|auto].
Qed.

Lemma select_row_spec id cond d d' r :
  select_row id cond d = (d', r) → frame d d' ∧ domains d' = domains d.
Proof.
  intros [(-> & Hd & Hfr)|(fs & a & Hf & ->)]%query_spec; [auto|]. simplify_eq. by split.
Qed.

Lemma checkStale_spec {A} id lt s d d' (r : result error A) :
  checkStaleOrTransitionError id lt s d = (d', r) →
  frame d d' ∧ domains d' = domains d ∧ is_ok r = false.
Proof.
  unfold checkStaleOrTransitionError, mbind. destruct (select_row id _ d) as [d1 [o|e]] eqn:Hs;
    apply select_row_spec in Hs as [Hfr Hd]; intros H; [|by simplify_eq].
  destruct o as [c|]; unfold mfail in H; [|by simplify_eq]. repeat case_match; by simplify_eq.
Qed.

(** *** Leased updates *)

Lemma leased_update_spec id cond f lt s d d' r :
  (mbind (update_row id cond f) (λ o, match o with
     | Some _ => mret () | None => checkStaleOrTransitionError id lt s end)) d = (d', r) →
  frame d d' ∧
  ((domains d' = domains d ∧ is_ok r = false) ∨
   (∃ c, domains d !! id = Some c ∧ cond c = true ∧
      domains d' = <[id := f (db_now d) c]> (domains d) ∧ r = Ok ())).
Proof.
  unfold mbind. destruct (update_row id cond f d) as [d1 r1] eqn:Hu.
  apply update_row_spec in Hu as [Hfr [[Hd [-> | ->]]|(c & Hc & Hcond & Hd & ->)]]; intros H.
  - simplify_eq. auto.
  - apply checkStale_spec in H as (Hfr' & Hd' & Hr). split; [by eapply frame_trans|].
    left. split; [congruence|done].
  - unfold mret in H. simplify_eq. split; [done|]. right. eauto.
Qed.

Lemma held_spec lt s c : held lt s c = true ↔ token c = Some lt ∧ pstatus c = s ∧ DeletedAt c = None.
Proof. unfold held, live. rewrite !andb_true_iff, !bool_decide_eq_true. tauto. Qed.

Lemma held_any_spec lt s c : held_any lt s c = true ↔ token c = Some lt ∧ pstatus c = s.
Proof. unfold held_any. by rewrite andb_true_iff, !bool_decide_eq_true. Qed.

(** A leased update whose new rows are steps of the worker has the effect. *)
Lemma leased_effect id lt s f d d' r :
  (∀ now c, token c = Some lt → pstatus c = s → DeletedAt c = None →
     row_step c (f now c) ∧ pstatus (f now c) ≠ Completed) →
  leased id lt s f d = (d', r) →
  frame d d' ∧ row_effect id lt s (domains d) (domains d').
Proof.
  intros Hf H. apply leased_update_spec in H as [Hfr [[Hd _]|(c & Hc & Hh & Hd & _)]].
  - split; [done|]. by left.
  - apply held_spec in Hh as (H1 & H2 & H3). split; [done|]. right.
    destruct (Hf (db_now d) c) as [Hs Hne]; [done..|].
    exists c, (f (db_now d) c). by split_and!.
Qed.

(** *** Each repository method of the worker *)

(** A step that keeps the rule, the status and the deletion mark. *)
Lemma plain_step c c' :
  ID c' = ID c → ProjectID c' = ProjectID c → Hostname c' = Hostname c → lease c' = no_lease →
  DeletedAt c' = DeletedAt c → rule c' = rule c → Status c' = Status c →
  (pstatus c = Deprovisioning → certificate c' = certificate c) →
  verification c' = verification c → routing c' = routing c →
  worker_edge (pstatus c) (pstatus c') → pstatus c' ≠ Completed → pstatus c' ≠ Deprovisioned →
  row_step c c' ∧ pstatus c' ≠ Completed.
Proof. intros ???? Hd ???????. split; [|done]. split; try done. rewrite Hd. tauto. Qed.

(** The statuses a handler works in. *)
Definition handled (s : ProvisioningStatus) : Prop := queued s = true ∧ s ≠ WaitingForCertificate.

Lemma handled_open s : handled s → s ≠ Completed ∧ s ≠ Deprovisioned.
Proof. intros [Hq _]. by split; intros ->. Qed.

Lemma retry_effect id lt s at_ err d d' r :
  handled s → ScheduleProvisioningRetry id lt s at_ err d = (d', r) →
  frame d d' ∧ row_effect id lt s (domains d) (domains d').
Proof.
  intros Hs. apply leased_effect. intros now c Ht <- Hd. destruct (handled_open _ Hs), Hs.
  apply plain_step; try done. by apply edge_stay.
Qed.

Lemma poll_effect id lt s at_ d d' r :
  handled s → ScheduleProvisioningPoll id lt s at_ d = (d', r) →
  frame d d' ∧ row_effect id lt s (domains d) (domains d').
Proof.
  intros Hs. apply leased_effect. intros now c Ht <- Hd. destruct (handled_open _ Hs), Hs.
  apply plain_step; try done. by apply edge_stay.
Qed.

Lemma failed_effect id lt s err d d' r :
  handled s → s ≠ Deprovisioning → MarkProvisioningFailed id lt s err d = (d', r) →
  frame d d' ∧ row_effect id lt s (domains d) (domains d').
Proof.
  intros [Hq Hw] Hn. apply leased_effect. intros now c Ht <- Hd.
  apply plain_step; try done. by apply edge_fail.
Qed.

Lemma advance_effect p d d' r :
  worker_edge (AdvExpectedStatus p) (AdvNewStatus p) →
  AdvNewStatus p ≠ Completed → AdvNewStatus p ≠ Deprovisioned → AdvExpectedStatus p ≠ Deprovisioning →
  AdvanceProvisioningState p d = (d', r) →
  frame d d' ∧ row_effect (AdvID p) (AdvLeaseToken p) (AdvExpectedStatus p) (domains d) (domains d').
Proof.
  intros He Hc Hd' Hne. apply leased_effect. intros now c Ht Hs Hd. rewrite <-Hs in He, Hne.
  by apply plain_step.
Qed.

Lemma priority_ok_range id prio m : priority_ok id prio m = true → (40001 ≤ prio ≤ 50000)%Z.
Proof. unfold priority_ok. rewrite !andb_true_iff, !Z.leb_le. tauto. Qed.

Lemma complete_step arn prio now c :
  pstatus c = AttachingCertificate → (40001 ≤ prio ≤ 50000)%Z → row_step c (complete_row arn prio now c).
Proof.
  intros Hs Hp. split; simpl; try done; rewrite ?Hs; try done.
  - constructor.
  - naive_solver.
  - intros _. split_and!; try done. by exists arn, prio.
Qed.

Lemma MarkProvisioningCompleted_spec id lt arn prio d d' r :
  MarkProvisioningCompleted id lt arn prio d = (d', r) →
  frame d d' ∧
  ((domains d' = domains d ∧ is_ok r = false) ∨
   (∃ c, domains d !! id = Some c ∧ held lt AttachingCertificate c = true ∧
      priority_ok id prio (domains d) = true ∧
      domains d' = <[id := complete_row arn prio (db_now d) c]> (domains d) ∧ r = Ok ())).
Proof.
  unfold MarkProvisioningCompleted, mbind at 1. destruct (query _ d) as [d1 r1] eqn:Hq.
  apply query_spec in Hq as [(-> & Hd & Hfr)|(fs & a & Hf & ->)]; intros H; [simplify_eq; auto|].
  simpl in Hf.
  assert (Hno : frame d d1 → domains d1 = domains d → checkStaleOrTransitionError id lt
    AttachingCertificate d1 = (d', r) → frame d d' ∧ domains d' = domains d ∧ is_ok r = false).
  { intros Hfr Hd (Hfr' & Hd' & Hr)%checkStale_spec. split; [by eapply frame_trans|].
    split; [congruence|done]. }
  destruct (domains d !! id) as [c|] eqn:Hc.
  2: { simplify_eq. destruct Hno as (? & ? & ?); [by split|done|done|auto]. }
  destruct (held _ _ c) eqn:Hh.
  2: { simplify_eq. destruct Hno as (? & ? & ?); [by split|done|done|auto]. }
  destruct (priority_ok id prio _) eqn:Hp; unfold mret, mfail in H; simplify_eq.
  - split; [by split|]. right. eauto 10.
  - split; [by split|auto].
Qed.

Lemma completed_effect id lt arn prio d d' r :
  MarkProvisioningCompleted id lt arn prio d = (d', r) →
  frame d d' ∧ row_effect id lt AttachingCertificate (domains d) (domains d').
Proof.
  intros [Hfr [[Hd _]|(c & Hc & Hh & Hp & Hd & _)]]%MarkProvisioningCompleted_spec;
    (split; [done|]); [by left|right].
  apply held_spec in Hh as (H1 & H2 & H3). eexists c, _. split_and!; [done|done|done|done|..].
  - apply complete_step; [done|by eapply priority_ok_range].
  - intros _. by exists prio.
Qed.

Lemma deprovisioned_effect id lt d d' r :
  MarkDeprovisioned id lt d = (d', r) →
  frame d d' ∧ row_effect id lt Deprovisioning (domains d) (domains d').
Proof.
  intros [Hfr [[Hd _]|(c & Hc & Hh & Hd & _)]]%leased_update_spec; (split; [done|]); [by left|right].
  apply held_any_spec in Hh as [H1 H2]. eexists c, _. split_and!; [done|done|done|done| |done].
  split; simpl; try done; [rewrite H2; constructor|].
  split; [by right|eauto].
Qed.

Lemma deprovision_failed_effect id lt err d d' r :
  MarkDeprovisionFailed id lt err d = (d', r) →
  frame d d' ∧ row_effect id lt Deprovisioning (domains d) (domains d').
Proof.
  intros [Hfr [[Hd _]|(c & Hc & Hh & Hd & _)]]%leased_update_spec; (split; [done|]); [by left|right].
  apply held_any_spec in Hh as [H1 H2]. eexists c, _. split_and!; [done|done|done|done| |done].
  refine (proj1 (plain_step _ _ _ _ _ _ _ _ _ _ _ _ _ _ _)); simpl; try done. rewrite H2. constructor.
Qed.

(** ** Programs of the worker *)

(** A program that changes no row. *)
Definition reads {A} (m : P A) : Prop := ∀ w w' r,
  m w = (w', r) → frame (store w) (store w') ∧ domains (store w') = domains (store w) ∧
    app_now w' = app_now w.

(** A program with at most the effect of one step on the row [id]. *)
Definition acts (id : string) (lt : nat) (s : ProvisioningStatus) (m : P unit) : Prop := ∀ w w' r,
  m w = (w', r) → frame (store w) (store w') ∧ app_now w' = app_now w ∧
    row_effect id lt s (domains (store w)) (domains (store w')).

Lemma acts_bind {A} id lt s (m : P A) (k : A → P unit) :
  reads m → (∀ x, acts id lt s (k x)) → acts id lt s (pbind m k).
Proof.
  intros Hm Hk w w' r. unfold pbind. destruct (m w) as [w1 [x|e]] eqn:Hw.
  - destruct (Hm _ _ _ Hw) as (Hfr & Hd & Hn). intros H.
    destruct (Hk _ _ _ _ H) as (Hfr' & Hn' & He). split; [by eapply frame_trans|].
    split; [congruence|]. by rewrite Hd in He.
  - destruct (Hm _ _ _ Hw) as (Hfr & Hd & Hn). intros H. simplify_eq.
    split; [done|]. split; [done|]. by left.
Qed.

Lemma acts_repo id lt s (m : M unit) :
  (∀ d d' r, m d = (d', r) → frame d d' ∧ row_effect id lt s (domains d) (domains d')) →
  acts id lt s (repo m).
Proof.
  intros Hm w w' r. unfold repo. destruct (m (store w)) as [d r'] eqn:H. intros. simplify_eq/=.
  destruct (Hm _ _ _ H). auto.
Qed.

Lemma reads_call {A} (reply : list aws_event → result aws_error A) ev : reads (call reply ev).
Proof. intros w w' r H. unfold call in H. by simplify_eq/=. Qed.

Lemma reads_now : reads now.
Proof. intros w w' r H. unfold now in H. by simplify_eq/=. Qed.

Lemma ingress_spec pid d d' r :
  GetActiveProjectGatewayIngress pid d = (d', r) → frame d d' ∧ domains d' = domains d.
Proof.
  unfold GetActiveProjectGatewayIngress, mbind. destruct (query _ d) as [d1 r1] eqn:Hq.
  apply query_spec in Hq as [(-> & Hd & Hfr)|(fs & a & Hf & ->)]; intros H; [by simplify_eq|].
  simplify_eq/=. by destruct (head _); unfold mret, mfail in H; simplify_eq.
Qed.

Lemma reads_ingress pid : reads (repo_try (GetActiveProjectGatewayIngress pid)).
Proof.
  intros w w' r H. unfold repo_try in H.
  destruct (GetActiveProjectGatewayIngress pid (store w)) as [d r'] eqn:Hi.
  apply ingress_spec in Hi as [Hfr Hd]. by simplify_eq/=.
Qed.

Create HintDb worker.
#[local] Hint Resolve reads_call reads_now reads_ingress retry_effect poll_effect failed_effect
  completed_effect deprovisioned_effect deprovision_failed_effect : worker.

Section handlers.
Context {Cloud : AWS}.
Context (listenerARN : string) (sha256_hex : string → string).

(** Case analysis on a handler up to its final repository call. *)
Ltac handler_step :=
  match goal with
  | |- acts _ _ _ (pbind _ _) => apply acts_bind; [auto with worker|intros ?]
  | |- acts _ _ _ (repo _) => apply acts_repo; intros ??? Hrepo
  | |- acts _ _ _ (match ?x with _ => _ end) => destruct x eqn:?
  | |- acts _ _ _ (let _ := _ in _) => cbv zeta
  end.

Lemma handled_all :
  handled RequestingCertificate ∧ handled WaitingForValidationRecord ∧ handled WaitingForDNS ∧
  handled AttachingCertificate ∧ handled Deprovisioning.
Proof. by repeat split. Qed.

Lemma acts_fail_or_retry job lt s e :
  handled s → s ≠ Deprovisioning → acts (JobID job) lt s (fail_or_retry job lt s e).
Proof. intros. unfold fail_or_retry. repeat handler_step; eauto with worker. Qed.

Lemma acts_advance p :
  worker_edge (AdvExpectedStatus p) (AdvNewStatus p) →
  AdvNewStatus p ≠ Completed → AdvNewStatus p ≠ Deprovisioned → AdvExpectedStatus p ≠ Deprovisioning →
  acts (AdvID p) (AdvLeaseToken p) (AdvExpectedStatus p) (repo (AdvanceProvisioningState p)).
Proof. intros. apply acts_repo. intros d d' r. by apply advance_effect. Qed.

Lemma acts_requesting job lt :
  acts (JobID job) lt RequestingCertificate (handleRequestingCertificate sha256_hex job lt).
Proof.
  destruct handled_all as (H & _). unfold handleRequestingCertificate.
  destruct (negb (no_arn job)).
  - apply acts_bind; [auto with worker|intros t0].
    apply (acts_advance (certificate_requested job lt (job_arn job) t0)); [constructor|done..].
  - apply acts_bind; [auto with worker|intros [arn|e]]; [|by apply acts_fail_or_retry].
    apply acts_bind; [auto with worker|intros t0].
    apply (acts_advance (certificate_requested job lt arn t0)); [constructor|done..].
Qed.

Lemma acts_validation job lt :
  acts (JobID job) lt WaitingForValidationRecord (handleWaitingForValidationRecord job lt).
Proof.
  destruct handled_all as (_ & H & _). unfold handleWaitingForValidationRecord.
  repeat handler_step; eauto with worker; try (by apply acts_fail_or_retry).
  revert Hrepo. refine (advance_effect _ _ _ _ _ _ _ _); [constructor|done..].
Qed.

Lemma acts_dns job lt : acts (JobID job) lt WaitingForDNS (handleWaitingForDNS job lt).
Proof.
  destruct handled_all as (_ & _ & H & _). unfold handleWaitingForDNS.
  repeat handler_step; eauto with worker; try (by apply acts_fail_or_retry).
  revert Hrepo. refine (advance_effect _ _ _ _ _ _ _ _); [constructor|done..].
Qed.

Lemma acts_route job lt : acts (JobID job) lt AttachingCertificate (attach_and_route listenerARN job lt).
Proof.
  destruct handled_all as (_ & _ & _ & H & _). unfold attach_and_route.
  repeat handler_step; eauto with worker; by apply acts_fail_or_retry.
Qed.

Lemma acts_attaching job lt :
  acts (JobID job) lt AttachingCertificate (handleAttachingCertificate listenerARN job lt).
Proof.
  destruct handled_all as (_ & _ & _ & H & _). unfold handleAttachingCertificate.
  repeat handler_step; eauto with worker; first [by apply acts_fail_or_retry|apply acts_route].
Qed.

Lemma acts_step job lt r next :
  acts (JobID job) lt Deprovisioning next →
  acts (JobID job) lt Deprovisioning (deprovision_step job lt r next).
Proof.
  destruct handled_all as (_ & _ & _ & _ & H). intros Hn. unfold deprovision_step.
  repeat handler_step; eauto with worker.
Qed.

Lemma acts_release job lt : acts (JobID job) lt Deprovisioning (release_certificate listenerARN job lt).
Proof.
  assert (Hf : acts (JobID job) lt Deprovisioning (repo (MarkDeprovisioned (JobID job) lt))).
  { apply acts_repo. intros d d' r. apply deprovisioned_effect. }
  unfold release_certificate. cbv zeta. destruct (_ || _); [done|].
  assert (Hd : acts (JobID job) lt Deprovisioning
    (pbind (call (λ h, DeleteCertificate h (job_arn job)) (EvDelete (job_arn job)))
       (λ r, deprovision_step job lt r (repo (MarkDeprovisioned (JobID job) lt))))).
  { apply acts_bind; [auto with worker|]. intros r. by apply acts_step. }
  destruct (String.eqb listenerARN ""); [done|].
  apply acts_bind; [auto with worker|]. intros r. by apply acts_step.
Qed.

Lemma acts_deprovisioning job lt :
  acts (JobID job) lt Deprovisioning (handleDeprovisioning listenerARN job lt).
Proof.
  unfold handleDeprovisioning. destruct (ListenerRuleARN _) as [arn|]; [|apply acts_release].
  destruct (String.eqb _ ""); [apply acts_release|].
  apply acts_bind; [auto with worker|]. intros r. apply acts_step, acts_release.
Qed.

(** The lease is handed back without touching anything else. *)
Definition release_effect (id : string) (lt : nat) (m m' : gmap string t) : Prop :=
  m' = m ∨ ∃ c now, m !! id = Some c ∧ token c = Some lt ∧ DeletedAt c = None ∧
    m' = <[id := touch now (set_lease no_lease c)]> m.

Lemma release_lease_effect id lt d d' r :
  ReleaseProvisioningLease id lt d = (d', r) →
  frame d d' ∧ release_effect id lt (domains d) (domains d').
Proof.
  unfold ReleaseProvisioningLease, mbind. destruct (update_row _ _ _ d) as [d1 r1] eqn:Hu.
  apply update_row_spec in Hu as [Hfr [[Hd Hr]|(c & Hc & Hh & Hd & ->)]]; intros H.
  - destruct Hr as [-> | ->]; unfold mfail in H; simplify_eq; (split; [done|by left]).
  - unfold mret in H. simplify_eq. split; [done|]. right. exists c, (db_now d).
    unfold live in Hh. split_bool. auto.
Qed.

(** What handling a job may do to the rows. *)
Definition job_effect (job : ProvisioningJob) (m m' : gmap string t) : Prop :=
  m' = m ∨
  ∃ lt, LeaseToken (JobLease job) = Some lt ∧
    ((handled (JobProvisioningStatus job) ∧ row_effect (JobID job) lt (JobProvisioningStatus job) m m') ∨
     (¬ handled (JobProvisioningStatus job) ∧ release_effect (JobID job) lt m m')).

Lemma handle_effect job w w' r :
  handle listenerARN sha256_hex job w = (w', r) →
  frame (store w) (store w') ∧ app_now w' = app_now w ∧
  job_effect job (domains (store w)) (domains (store w')).
Proof.
  unfold handle, job_effect. destruct (LeaseToken (JobLease job)) as [lt|].
  2: { intros H. destruct (JobProvisioningStatus job); unfold pfail, pret in H; simplify_eq;
       (split; [apply frame_refl|auto]). }
  assert (Hrel : ∀ w w' r, pbind (repo_try (ReleaseProvisioningLease (JobID job) lt)) (λ _, pret ()) w
     = (w', r) → frame (store w) (store w') ∧ app_now w' = app_now w ∧
     release_effect (JobID job) lt (domains (store w)) (domains (store w'))).
  { clear. intros w w' r. unfold pbind, repo_try. destruct (ReleaseProvisioningLease _ _ _) as [d r1] eqn:Hr.
    apply release_lease_effect in Hr as [Hfr He]. unfold pret. intros H. by simplify_eq/=. }
  destruct handled_all as (H1 & H2 & H3 & H4 & H5).
  destruct (JobProvisioningStatus job) eqn:Hs; intros H.
  all: try (apply Hrel in H as (Hfr & Hn & He); split_and!; [done|done|right; exists lt;
    split; [done|right; split; [by intros [Hq Hne]|done]]]).
  - destruct (acts_requesting _ _ _ _ _ H) as (Hfr & Hn & He). split_and!; eauto 10.
  - destruct (acts_validation _ _ _ _ _ H) as (Hfr & Hn & He). split_and!; eauto 10.
  - destruct (acts_dns _ _ _ _ _ H) as (Hfr & Hn & He). split_and!; eauto 10.
  - destruct (acts_attaching _ _ _ _ _ H) as (Hfr & Hn & He). split_and!; eauto 10.
  - destruct (acts_deprovisioning _ _ _ _ _ H) as (Hfr & Hn & He). split_and!; eauto 10.
Qed.

(** ** What a completion rests on *)

Definition issued (det : CertificateDetails) : Prop :=
  GoStrings.ToUpper (TrimSpace (DetStatus det)) = "ISSUED".

(** AWS confirmed, in the recorded exchange, that the certificate of the row is
    issued, attached it to the listener and routed the row's hostname by the
    row's rule. *)
Definition confirmed (ev : list aws_event) (c : t) : Prop :=
  ∃ arn ruleARN prio target det,
    CertificateARN (certificate c) = Some arn ∧ arn ≠ "" ∧
    rule c = mkRule (Some ruleARN) (Some prio) ∧ (40001 ≤ prio ≤ 50000)%Z ∧
    EvDescribe arn (Ok det) ∈ ev ∧ issued det ∧
    EvAttach listenerARN arn (Ok ()) ∈ ev ∧
    EvEnsureRule listenerARN (Hostname c) target 40001 50000 (Ok (ruleARN, prio)) ∈ ev.

Lemma confirmed_mono ev ev' c : (∀ e, e ∈ ev → e ∈ ev') → confirmed ev c → confirmed ev' c.
Proof using listenerARN.
  clear sha256_hex. intros H (arn & ru & prio & tg & det & ? & ? & ? & ? & ? & ? & ? & ?).
  exists arn, ru, prio, tg, det. split_and!; auto; tauto.
Qed.

(** The resource is gone: the call succeeded, or AWS does not know it. *)
Definition gone (r : result aws_error unit) : Prop :=
  match r with Ok _ => True | Err e => isResourceNotFoundErr e = true end.

(** The recorded exchange removed the row's rule, and detached and deleted its
    certificate if the platform manages it. *)
Definition released (ev : list aws_event) (c : t) : Prop :=
  (∀ ruleARN, ListenerRuleARN (rule c) = Some ruleARN → TrimSpace ruleARN ≠ "" →
     ∃ r, EvDeleteRule ruleARN r ∈ ev ∧ gone r) ∧
  (∀ arn, CertificateARN (certificate c) = Some arn → arn ≠ "" →
     ManagedByEliteGate (certificate c) = true →
     (listenerARN ≠ "" → ∃ r, EvDetach listenerARN arn r ∈ ev ∧ gone r) ∧
     ∃ r, EvDelete arn r ∈ ev ∧ gone r).

Lemma released_mono ev ev' c : (∀ e, e ∈ ev → e ∈ ev') → released ev c → released ev' c.
Proof using listenerARN.
  clear sha256_hex. intros H [H1 H2]. split.
  - intros ru Hru Hne. destruct (H1 ru Hru Hne) as (r & ? & ?). eauto.
  - intros arn Ha Hne Hm. destruct (H2 arn Ha Hne Hm) as [H3 (r & ? & ?)]. split; [|eauto].
    intros Hl. destruct (H3 Hl) as (r' & ? & ?). eauto.
Qed.

(** What the exchange must show of a row that a worker brought to an end. *)
Definition closed_out (ev : list aws_event) (c : t) : Prop :=
  match pstatus c with
  | Completed => confirmed ev c
  | Deprovisioned => released ev c
  | _ => True
  end.

Lemma closed_out_mono ev ev' c : (∀ e, e ∈ ev → e ∈ ev') → closed_out ev c → closed_out ev' c.
Proof using listenerARN.
  clear sha256_hex. intros H. unfold closed_out.
  destruct (pstatus c); try done; [apply confirmed_mono|apply released_mono]; auto.
Qed.

(** The row a job was claimed from, as far as the handlers rely on it. *)
Definition current (job : ProvisioningJob) (c : t) : Prop :=
  pstatus c = JobProvisioningStatus job ∧ certificate c = JobCertificate job ∧ rule c = JobRule job ∧
  Hostname c = JobHostname job ∧ ProjectID c = JobProjectID job.

(** Rows are unchanged, except that the row of the job may be changed under
    its lease, and is closed out if it was brought to an end. *)
Definition completes (job : ProvisioningJob) (lt : nat) (ev : list aws_event) (m : P unit) : Prop :=
  ∀ w w' r, (∀ e, e ∈ ev → e ∈ events w) → m w = (w', r) →
    (∀ e, e ∈ events w → e ∈ events w') ∧
    ∀ id c', domains (store w') !! id = Some c' →
      domains (store w) !! id = Some c' ∨
      ∃ c, id = JobID job ∧ domains (store w) !! id = Some c ∧ token c = Some lt ∧
        (current job c → closed_out (events w') c').

Lemma completes_bind {A} job lt ev (m : P A) (k : A → P unit) (ev' : A → list aws_event) :
  (∀ w w' r, (∀ e, e ∈ ev → e ∈ events w) → m w = (w', r) → domains (store w') = domains (store w) ∧
     (∀ e, e ∈ events w → e ∈ events w') ∧
     ∀ x, r = Ok x → ∀ e, e ∈ ev' x → e ∈ events w') →
  (∀ x, completes job lt (ev' x) (k x)) → completes job lt ev (pbind m k).
Proof.
  intros Hm Hk w w' r Hev H. unfold pbind in H. destruct (m w) as [w1 [x|e]] eqn:Hw.
  - destruct (Hm _ _ _ Hev Hw) as (Hd & Hmono & Hx).
    destruct (Hk x _ _ _ (Hx x eq_refl) H) as [Hmono' Hc]. split; [auto|].
    intros id c' H1. rewrite <-Hd. eauto.
  - simplify_eq. destruct (Hm _ _ _ Hev Hw) as (Hd & Hmono & _). split; [auto|].
    intros id c' H1. rewrite <-Hd. auto.
Qed.

Lemma completes_call {A} job lt ev (reply : list aws_event → result aws_error A) mk (k : result aws_error A → P unit) :
  (∀ x, completes job lt (mk x :: ev) (k x)) → completes job lt ev (pbind (call reply mk) k).
Proof.
  intros Hk. apply (completes_bind _ _ _ _ _ (λ x, mk x :: ev)); [|done].
  intros w w' r Hev H. unfold call in H. simplify_eq/=. split; [done|].
  split; [set_solver|]. intros x [= <-] e. rewrite elem_of_cons, elem_of_app, list_elem_of_singleton.
  intros [->|He]; [by right|left; auto].
Qed.

Lemma completes_read {A} job lt ev (m : P A) k :
  reads m → (∀ w w' r, m w = (w', r) → events w' = events w) →
  (∀ x, completes job lt ev (k x)) → completes job lt ev (pbind m k).
Proof.
  intros Hr He Hk. apply (completes_bind _ _ _ _ _ (λ _, ev)); [|done].
  intros w w' r Hev H. destruct (Hr _ _ _ H) as (_ & Hd & _). rewrite (He _ _ _ H). auto.
Qed.

(** The two ends of a domain's life. *)
Definition ended (s : ProvisioningStatus) : bool :=
  match s with Completed | Deprovisioned => true | _ => false end.

Lemma not_ended ev c : ended (pstatus c) = false → closed_out ev c.
Proof using listenerARN. clear sha256_hex. unfold closed_out. by destruct (pstatus c). Qed.

(** A guarded update of the job's row under its lease. *)
Lemma completes_update job lt ev (m : M unit) :
  (∀ d d' r, m d = (d', r) → domains d' = domains d ∨
     ∃ c c', domains d !! JobID job = Some c ∧ token c = Some lt ∧ domains d' = <[JobID job := c']> (domains d) ∧
       (current job c → ∀ ev', (∀ e, e ∈ ev → e ∈ ev') → closed_out ev' c')) →
  completes job lt ev (repo m).
Proof.
  intros Hm w w' r Hev. unfold repo. destruct (m (store w)) as [d r'] eqn:Hd. intros H. simplify_eq/=.
  split; [done|]. intros id x. destruct (Hm _ _ _ Hd) as [->|(c & c' & Hc & Ht & -> & Hok)]; [auto|].
  intros [[<- <-]|[_ Hx]]%lookup_insert_Some; [right|by left]. exists c. split_and!; auto.
Qed.

(** A leased update away from an end. *)
Lemma completes_leased job lt ev s f :
  (∀ now c, pstatus c = s → ended (pstatus (f now c)) = false) →
  completes job lt ev (repo (leased (JobID job) lt s f)).
Proof.
  intros Hf. apply completes_update.
  intros d d' r [_ [[Hd _]|(c & Hc & Hh & Hd & _)]]%leased_update_spec; [by left|right].
  apply held_spec in Hh as (Ht & Hs & _). eexists c, _. split_and!; [done..|].
  intros _ ev' _. by apply not_ended, Hf.
Qed.

Lemma completes_retry job lt ev s at_ err :
  ended s = false → completes job lt ev (repo (ScheduleProvisioningRetry (JobID job) lt s at_ err)).
Proof. intros H. apply completes_leased. by intros now0 c <-. Qed.

Lemma completes_poll job lt ev s at_ :
  ended s = false → completes job lt ev (repo (ScheduleProvisioningPoll (JobID job) lt s at_)).
Proof. intros H. apply completes_leased. by intros now0 c <-. Qed.

Lemma completes_failed job lt ev s err :
  completes job lt ev (repo (MarkProvisioningFailed (JobID job) lt s err)).
Proof. by apply completes_leased. Qed.

Lemma completes_advance job lt ev p :
  AdvID p = JobID job → AdvLeaseToken p = lt → ended (AdvNewStatus p) = false →
  completes job lt ev (repo (AdvanceProvisioningState p)).
Proof. intros Hid Hlt H. unfold AdvanceProvisioningState. rewrite Hid, Hlt. by apply completes_leased. Qed.

Lemma completes_error job lt ev s e :
  ended s = false → completes job lt ev (fail_or_retry job lt s e).
Proof.
  intros Hs. unfold fail_or_retry. destruct (ClassifyAWSError e) as [[] reason].
  - apply completes_read; [apply reads_now|intros ??? H; by unfold now in H; simplify_eq|].
    intros t0. by apply completes_retry.
  - apply completes_failed.
Qed.

(** The last step of the attachment. *)
Lemma completes_completed job lt ev arn ruleARN prio target det :
  CertificateARN (JobCertificate job) = Some arn → arn ≠ "" →
  EvDescribe arn (Ok det) ∈ ev → issued det → EvAttach listenerARN arn (Ok ()) ∈ ev →
  EvEnsureRule listenerARN (JobHostname job) target 40001 50000 (Ok (ruleARN, prio)) ∈ ev →
  completes job lt ev (repo (MarkProvisioningCompleted (JobID job) lt ruleARN prio)).
Proof.
  intros Harn Hne Hdesc Hiss Hatt Hrule. apply completes_update.
  intros d d' r [_ [[Hd _]|(c & Hc & Hh & Hp & Hd & _)]]%MarkProvisioningCompleted_spec; [by left|right].
  apply held_spec in Hh as (Ht & _ & _). eexists c, _. split_and!; [done..|].
  intros (_ & Hcert & _ & Hh & _) ev' Hev. exists arn, ruleARN, prio, target, det.
  apply priority_ok_range in Hp. split_and!; simpl; try tauto; try (by apply Hev).
  - by rewrite Hcert.
  - rewrite Hh. by apply Hev.
Qed.

Lemma completes_ingress job lt ev pid k :
  (∀ x, completes job lt ev (k x)) →
  completes job lt ev (pbind (repo_try (GetActiveProjectGatewayIngress pid)) k).
Proof.
  apply completes_read; [apply reads_ingress|]. intros w w' r H. unfold repo_try in H.
  destruct (GetActiveProjectGatewayIngress _ _). by simplify_eq.
Qed.

Lemma completes_now job lt ev k :
  (∀ t0, completes job lt ev (k t0)) → completes job lt ev (pbind now k).
Proof.
  apply completes_read; [apply reads_now|]. intros w w' r H. unfold now in H. by simplify_eq.
Qed.

Ltac completes_step :=
  match goal with
  | |- completes _ _ _ (pbind (call _ _) _) => apply completes_call; intros ?
  | |- completes _ _ _ (pbind now _) => apply completes_now; intros ?
  | |- completes _ _ _ (pbind (repo_try _) _) => apply completes_ingress; intros ?
  | |- completes _ _ _ (fail_or_retry _ _ _ _) => by apply completes_error
  | |- completes _ _ _ (repo (ScheduleProvisioningRetry _ _ _ _ _)) => by apply completes_retry
  | |- completes _ _ _ (repo (ScheduleProvisioningPoll _ _ _ _)) => by apply completes_poll
  | |- completes _ _ _ (repo (MarkProvisioningFailed _ _ _ _)) => apply completes_failed
  | |- completes _ _ _ (repo (AdvanceProvisioningState _)) => by apply completes_advance
  | |- completes _ _ _ (match ?x with _ => _ end) => destruct x eqn:?
  | |- completes _ _ _ (let _ := _ in _) => cbv zeta
  end.

Lemma completes_attaching job lt :
  completes job lt [] (handleAttachingCertificate listenerARN job lt).
Proof.
  unfold handleAttachingCertificate. destruct (no_arn job) eqn:Hn; [apply completes_failed|].
  unfold no_arn, job_arn in *. destruct (CertificateARN (JobCertificate job)) as [arn|] eqn:Harn; [|done].
  apply String.eqb_neq in Hn. simpl. repeat completes_step.
  unfold attach_and_route, job_arn. rewrite Harn. simpl. repeat completes_step.
  match goal with u : unit |- _ => destruct u end.
  eapply completes_completed; [done|done|..].
  - rewrite !elem_of_cons. auto.
  - unfold issued. by apply String.eqb_eq.
  - rewrite !elem_of_cons. auto.
  - rewrite !elem_of_cons. auto.
Qed.

(** The last step of the removal. *)
Lemma completes_deprovisioned job lt ev :
  (∀ ruleARN, ListenerRuleARN (JobRule job) = Some ruleARN → TrimSpace ruleARN ≠ "" →
     ∃ r, EvDeleteRule ruleARN r ∈ ev ∧ gone r) →
  (∀ arn, CertificateARN (JobCertificate job) = Some arn → arn ≠ "" →
     ManagedByEliteGate (JobCertificate job) = true →
     (listenerARN ≠ "" → ∃ r, EvDetach listenerARN arn r ∈ ev ∧ gone r) ∧
     ∃ r, EvDelete arn r ∈ ev ∧ gone r) →
  completes job lt ev (repo (MarkDeprovisioned (JobID job) lt)).
Proof.
  intros Hru Hce. apply completes_update.
  intros d d' r [_ [[Hd _]|(c & Hc & Hh & Hd & _)]]%leased_update_spec; [by left|right].
  apply held_any_spec in Hh as (Ht & _). eexists c, _. split_and!; [done..|].
  intros (_ & Hcert & Hrule & _) ev' Hev. apply (released_mono ev); [done|].
  split; simpl; rewrite ?Hcert, ?Hrule; done.
Qed.

Lemma completes_deprovision_failed job lt ev err :
  completes job lt ev (repo (MarkDeprovisionFailed (JobID job) lt err)).
Proof.
  apply completes_update.
  intros d d' r [_ [[Hd _]|(c & Hc & Hh & Hd & _)]]%leased_update_spec; [by left|right].
  apply held_any_spec in Hh as (Ht & _). eexists c, _. by split_and!.
Qed.

Lemma completes_step_call job lt ev (reply : list aws_event → result aws_error unit) mk
    (next : P unit) :
  (∀ r, gone r → completes job lt (mk r :: ev) next) →
  completes job lt ev (pbind (call reply mk) (λ r, deprovision_step job lt r next)).
Proof.
  intros Hn. apply completes_call. intros [u|e]; simpl; [by apply Hn|].
  destruct (isResourceNotFoundErr e) eqn:He; [by apply Hn|].
  destruct (ClassifyAWSError e) as [[] reason].
  - apply completes_now. intros t0. by apply completes_retry.
  - apply completes_deprovision_failed.
Qed.

Lemma completes_release job lt ev :
  (∀ ruleARN, ListenerRuleARN (JobRule job) = Some ruleARN → TrimSpace ruleARN ≠ "" →
     ∃ r, EvDeleteRule ruleARN r ∈ ev ∧ gone r) →
  completes job lt ev (release_certificate listenerARN job lt).
Proof.
  intros Hru. unfold release_certificate, no_arn, job_arn. cbv zeta.
  assert (Hru' : ∀ x ruleARN, ListenerRuleARN (JobRule job) = Some ruleARN → TrimSpace ruleARN ≠ "" →
     ∃ r, EvDeleteRule ruleARN r ∈ x ++ ev ∧ gone r).
  { intros x ru H1 H2. destruct (Hru _ H1 H2) as (r & ? & ?). exists r. rewrite elem_of_app. auto. }
  destruct (CertificateARN (JobCertificate job)) as [arn|] eqn:Harn; simpl.
  2: { apply completes_deprovisioned; [done|congruence]. }
  destruct (String.eqb arn "" || negb (ManagedByEliteGate (JobCertificate job))) eqn:Hc.
  { apply completes_deprovisioned; [done|]. intros a Ha Hne Hm. simplify_eq.
    apply String.eqb_neq in Hne. by rewrite Hne, Hm in Hc. }
  destruct (String.eqb_spec listenerARN "") as [Hl|Hl].
  - apply completes_step_call. intros r Hr. apply completes_deprovisioned; [apply (Hru' [_])|].
    intros a Ha _ _. simplify_eq. split; [done|]. exists r. rewrite elem_of_cons. auto.
  - apply completes_step_call. intros r Hr. apply completes_step_call. intros r' Hr'.
    apply completes_deprovisioned; [apply (Hru' [_; _])|].
    intros a Ha _ _. simplify_eq. split; [intros _; exists r|exists r']; rewrite !elem_of_cons; auto.
Qed.

Lemma completes_handle job lt :
  LeaseToken (JobLease job) = Some lt → handled (JobProvisioningStatus job) →
  completes job lt [] (handle listenerARN sha256_hex job).
Proof.
  intros Hlt [Hq Hw]. unfold handle. rewrite Hlt. destruct (JobProvisioningStatus job) eqn:Hs; try done.
  - unfold handleRequestingCertificate. repeat completes_step.
  - unfold handleWaitingForValidationRecord. repeat completes_step.
  - unfold handleWaitingForDNS. repeat completes_step.
  - apply completes_attaching.
  - unfold handleDeprovisioning. destruct (ListenerRuleARN _) as [ru|] eqn:Hru.
    2: { apply completes_release. congruence. }
    destruct (String.eqb_spec (TrimSpace ru) "") as [Hb|Hb].
    { apply completes_release. congruence. }
    apply completes_step_call. intros r Hr. apply completes_release. intros ru' Hru' _. simplify_eq.
    exists r. rewrite elem_of_cons. auto.
Qed.

End handlers.

End DomainSystem.
