(* ===== verification/Lifecycle.v ===== *)
(** * The life of a custom domain

    Control-plane requests, claims, handlers of any number of workers, crashes
    and the passing of time as one step relation over the repository of
    [CustomDomain] and the worker of [Provisioner]; an invariant of every state
    it reaches; and what follows for completed, deprovisioned and leased rows.
    A handler is one step: of its queries only the last one writes, so steps of
    others during its AWS calls are the same as steps before it. *)

From S2P Require Import Prelude GoStrings Model CustomDomain Provisioner DomainSystem.

Module Lifecycle.
Import CustomDomain Provisioner DomainSystem.

(** ** Requests of the control plane *)

Inductive request :=
| ReqCreate (c : t)
| ReqVerified (id projectID : string)
| ReqVerificationFailure (id projectID reason : string)
| ReqRouting (id projectID : string) (status : RoutingStatus) (target : string) (err : option string)
| ReqProvision (id projectID : string)
| ReqRetry (id projectID : string) (target : ProvisioningStatus)
| ReqDeprovision (id projectID : string)
| ReqRetryDeprovision (id projectID : string).

(** A registration starts unverified and unprovisioned; a retry resumes at a step of the
    issuance. *)
Definition admissible (q : request) : Prop :=
  match q with
  | ReqCreate c => pstatus c = NotStarted ∧ Status c = PendingVerification
  | ReqRetry _ _ target => handled target ∧ target ≠ Deprovisioning
  | _ => True
  end.

Definition void {A} (m : M A) : M unit := do _ ← m; mret ().

Definition run_request (q : request) : M unit :=
  match q with
  | ReqCreate c => void (Create c)
  | ReqVerified id pid => void (MarkVerified id pid)
  | ReqVerificationFailure id pid reason => RecordVerificationFailure id pid reason
  | ReqRouting id pid st target err => void (UpdateRoutingStatus id pid st target err)
  | ReqProvision id pid => void (EnqueueProvisioning id pid)
  | ReqRetry id pid target => void (ResetProvisioningForRetry id pid target)
  | ReqDeprovision id pid => void (EnqueueDeprovisioning id pid)
  | ReqRetryDeprovision id pid => void (ResetDeprovisioningForRetry id pid)
  end.

(** *** What a request may do to a row *)

Inductive control_edge : ProvisioningStatus → ProvisioningStatus → Prop :=
| ctl_same s : control_edge s s
| ctl_provision s : s = NotStarted ∨ s = Failed → control_edge s RequestingCertificate
| ctl_retry target : handled target → target ≠ Deprovisioning → control_edge Failed target
| ctl_deprovision s : s ≠ Deprovisioned → control_edge s Deprovisioning.

Record control_change (c c' : t) : Prop := {
  ctl_id : ID c' = ID c;
  ctl_project : ProjectID c' = ProjectID c;
  ctl_hostname : Hostname c' = Hostname c;
  ctl_certificate : certificate c' = certificate c;
  ctl_rule : rule c' = rule c;
  ctl_live : DeletedAt c = None ∧ DeletedAt c' = None;
  ctl_lease : lease c' = no_lease ∨ (lease c' = lease c ∧ pstatus c' = pstatus c);
  ctl_edge : control_edge (pstatus c) (pstatus c');
  ctl_status : Status c' = Active → Status c = Active;
}.

(** A row a registration adds: new key, no live row with its hostname. *)
Record created (m : gmap string t) (c : t) : Prop := {
  cr_id : m !! ID c = None;
  cr_hostname : ∀ id' c', m !! id' = Some c' → DeletedAt c' = None →
    GoStrings.ToLower (Hostname c') ≠ GoStrings.ToLower (Hostname c);
  cr_row : lease c = no_lease ∧ pstatus c = NotStarted ∧ DeletedAt c = None ∧ rule c = mkRule None None ∧
    Status c = PendingVerification;
}.

Lemma guarded_update {A} id cond f (k : t → A) (m : M A) d d' r :
  (∀ d d' r, m d = (d', r) → frame d d' ∧ domains d' = domains d) →
  (mbind (update_row id cond f) (λ o, match o with Some c => mret (k c) | None => m end)) d = (d', r) →
  frame d d' ∧
  (domains d' = domains d ∨
   ∃ c, domains d !! id = Some c ∧ cond c = true ∧ domains d' = <[id := f (db_now d) c]> (domains d)).
Proof.
  intros Hm. unfold mbind. destruct (update_row id cond f d) as [d1 r1] eqn:Hu.
  apply update_row_spec in Hu as [Hfr [[Hd [-> | ->]]|(c & Hc & Hcond & Hd & ->)]]; intros H.
  - simplify_eq. auto.
  - apply Hm in H as [Hfr' Hd']. split; [by eapply frame_trans|]. left. congruence.
  - unfold mret in H. simplify_eq. split; [done|]. right. eauto.
Qed.

Lemma mfail_spec {A} e d d' (r : result error A) :
  mfail e d = (d', r) → frame d d' ∧ domains d' = domains d.
Proof. unfold mfail. intros. by simplify_eq. Qed.

Lemma GetByIDForProject_spec {A} id pid (k : t → M A) d d' r :
  (∀ c d d' r, k c d = (d', r) → frame d d' ∧ domains d' = domains d) →
  (do c ← GetByIDForProject id pid; k c) d = (d', r) → frame d d' ∧ domains d' = domains d.
Proof.
  intros Hk. unfold GetByIDForProject, mbind. destruct (select_row _ _ d) as [d1 [[c|]|e]] eqn:Hs;
    apply select_row_spec in Hs as [Hfr Hd]; unfold mret, mfail; intros H; [|by simplify_eq..].
  apply Hk in H as [Hfr' Hd']. split; [by eapply frame_trans|congruence].
Qed.

Lemma void_spec {A} (m : M A) d d' r : void m d = (d', r) → ∃ r', m d = (d', r').
Proof.
  unfold void, mbind, mret. destruct (m d) as [d1 [x|e]]; intros H; simplify_eq; eauto.
Qed.

Lemma Create_spec c d d' r :
  pstatus c = NotStarted → Status c = PendingVerification → Create c d = (d', r) →
  frame d d' ∧ (domains d' = domains d ∨
    ∃ c', created (domains d) c' ∧ domains d' = <[ID c' := c']> (domains d)).
Proof.
  intros Hs Hst. unfold Create, mbind. destruct (query _ d) as [d1 r1] eqn:Hq.
  apply query_spec in Hq as [(-> & Hd & Hfr)|(fs & a & Hf & ->)]; intros H; [simplify_eq; auto|].
  cbv zeta in Hf. set (c' := mk _ _ _ _ _ _ _ _ _ _ _ _ _ _) in Hf. simpl in Hf.
  destruct (bool_decide _ || existsb _ _) eqn:Hex; simplify_eq; unfold mret, mfail in H; simplify_eq.
  - split; [by split|]. by left.
  - split; [by split|]. right. apply orb_false_iff in Hex as [Hid Hex].
    apply bool_decide_eq_false, eq_None_not_Some in Hid. exists c'. split; [|done]. split; [done| |done].
    intros i x Hx Hl He. rewrite <-not_true_iff_false, existsb_exists in Hex. apply Hex.
    exists (i, x). split; [by apply list_elem_of_In, elem_of_map_to_list|].
    apply andb_true_iff. split; [by apply String.eqb_eq|]. unfold live. by apply bool_decide_eq_true.
Qed.

(** A request changes at most one live row, or adds one. *)
Definition request_effect (m m' : gmap string t) : Prop :=
  m' = m ∨
  (∃ id c c', m !! id = Some c ∧ m' = <[id := c']> m ∧ control_change c c') ∨
  ∃ c', created m c' ∧ m' = <[ID c' := c']> m.

Lemma guarded_request {A} id cond f (k : t → A) (m : M A) d d' r :
  (∀ d d' r, m d = (d', r) → frame d d' ∧ domains d' = domains d) →
  (∀ now c, cond c = true → control_change c (f now c)) →
  (mbind (update_row id cond f) (λ o, match o with Some c => mret (k c) | None => m end)) d = (d', r) →
  frame d d' ∧ request_effect (domains d) (domains d').
Proof.
  intros Hm Hf H. apply (guarded_update _ _ _ _ _ _ _ _ Hm) in H as [Hfr [Hd|(c & Hc & Hcond & Hd)]];
    (split; [done|]); [by left|]. right; left. eauto 10.
Qed.

Lemma control_keep c c' :
  ID c' = ID c → ProjectID c' = ProjectID c → Hostname c' = Hostname c →
  certificate c' = certificate c → rule c' = rule c → DeletedAt c' = DeletedAt c →
  lease c' = lease c → provisioning c' = provisioning c → (Status c' = Active → Status c = Active) →
  live c = true → control_change c c'.
Proof.
  unfold live. rewrite bool_decide_eq_true. intros ?????? Hl Hp Hs Hd. split; try congruence.
  - split; congruence.
  - right. by rewrite Hp.
  - rewrite Hp. constructor.
  - done.
Qed.

Lemma control_restart now c p :
  live c = true → control_edge (pstatus c) (Provisioning_status p) →
  control_change c (touch now (set_lease no_lease (set_provisioning p c))).
Proof. unfold live. rewrite bool_decide_eq_true. intros Hd He. split; simpl; auto. Qed.

Lemma run_request_effect q d d' r :
  admissible q → run_request q d = (d', r) → frame d d' ∧ request_effect (domains d) (domains d').
Proof.
  intros Ha. destruct q; simpl.
  all: try (intros [r' H]%void_spec; revert H).
  1: { destruct Ha as [Ha1 Ha2]. intros [Hfr [?|?]]%Create_spec; [| |done..]; (split; [done|]); [by left|by right; right]. }
  all: refine (guarded_request _ _ _ _ _ _ _ _ _ _);
    [first [exact (mfail_spec _)|intros ???; apply GetByIDForProject_spec; intros c]
    |intros now0 c Hc; rewrite ?andb_true_iff, ?orb_true_iff, ?negb_true_iff, ?bool_decide_eq_true,
       ?bool_decide_eq_false in Hc;
     first [apply control_keep; [done..|tauto]|apply control_restart; [tauto|]]].
  all: try (intros ???; unfold mret, mfail; repeat case_match; intros; simplify_eq; by split).
  - constructor. tauto.
  - destruct Ha, Hc as [_ ->]. by constructor.
  - constructor. tauto.
  - destruct Hc as [_ ->]. by constructor.
Qed.

Lemma control_edge_final s s' : control_edge s s' →
  (s' = Deprovisioned → s = Deprovisioned) ∧ (s' = Completed → s = Completed).
Proof. intros []; try done. destruct H as [Hq _]. split; intros ->; done. Qed.

(** *** What a claim does *)

Lemma claim_before_refl a : claim_before a a = true.
Proof. unfold claim_before. destruct (nulls_first _) as [n x]. lia. Qed.
Lemma claim_before_total a b : claim_before a b = true ∨ claim_before b a = true.
Proof.
  unfold claim_before. destruct (nulls_first (NextRetryAt (provisioning a))) as [n x],
    (nulls_first (NextRetryAt (provisioning b))) as [n' x']. lia.
Qed.
Lemma claim_before_trans a b c :
  claim_before a b = true → claim_before b c = true → claim_before a c = true.
Proof.
  unfold claim_before. destruct (nulls_first (NextRetryAt (provisioning a))) as [n x],
    (nulls_first (NextRetryAt (provisioning b))) as [n' x'],
    (nulls_first (NextRetryAt (provisioning c))) as [n'' x'']. lia.
Qed.

Lemma claim_min_spec l best :
  match foldl claim_min best l with
  | Some c => (best = Some c ∨ c ∈ l) ∧ (∀ b, best = Some b → claim_before c b = true) ∧
      ∀ x, x ∈ l → claim_before c x = true
  | None => best = None ∧ l = []
  end.
Proof.
  revert best. induction l as [|y l IH]; intros best; simpl.
  - destruct best as [b|]; [|done]. split; [by left|]. split; [|by intros x ?%elem_of_nil].
    intros ? [= <-]. apply claim_before_refl.
  - specialize (IH (claim_min best y)). destruct (foldl claim_min _ l) as [c|].
    2: { destruct IH as [Hb _]. destruct best as [b|]; simpl in Hb; [|done]. by destruct (claim_before b y). }
    destruct IH as (Hin & Hmin & Hl).
    assert (Hkey : (best = Some c ∨ c = y ∨ c ∈ l) ∧ claim_before c y = true ∧
      ∀ b, best = Some b → claim_before c b = true).
    { destruct best as [b|]; simpl in *.
      - destruct (claim_before b y) eqn:Hby.
        + split; [destruct Hin; auto|]. specialize (Hmin b eq_refl). split; [by eapply claim_before_trans|].
          by intros ? [= <-].
        + split; [destruct Hin as [[= <-]|]; auto|]. specialize (Hmin y eq_refl). split; [done|].
          intros ? [= <-]. destruct (claim_before_total b y) as [?|?]; [congruence|].
          by eapply claim_before_trans.
      - split; [destruct Hin as [[= <-]|]; auto|]. split; [auto|done]. }
    destruct Hkey as (H1 & H2 & H3). split; [|split; [done|]].
    + rewrite elem_of_cons. tauto.
    + intros x [->|Hx]%elem_of_cons; auto.
Qed.

Lemma elem_of_rows (m : gmap string t) (c : t) : c ∈ (map_to_list m).*2 ↔ ∃ id, m !! id = Some c.
Proof.
  rewrite list_elem_of_fmap. split.
  - intros ([id c'] & -> & H%elem_of_map_to_list). eauto.
  - intros [id H]. exists (id, c). split; [done|]. by apply elem_of_map_to_list.
Qed.

(** The next job is a claimable row no claimable row goes before. *)
Lemma next_job_spec now expiry m :
  match next_job now expiry m with
  | Some c => (∃ id, m !! id = Some c) ∧ claimable now expiry c = true ∧
      ∀ id' c', m !! id' = Some c' → claimable now expiry c' = true → claim_before c c' = true
  | None => ∀ id c, m !! id = Some c → claimable now expiry c = false
  end.
Proof.
  unfold next_job. pose proof (claim_min_spec (filter (λ c, claimable now expiry c = true)
    (map_to_list m).*2) None) as H.
  destruct (foldl claim_min None _) as [c|].
  - destruct H as ([?|Hin] & _ & Hmin); [done|].
    apply list_elem_of_filter in Hin as [Hcl Hin]. split; [by apply elem_of_rows|]. split; [done|].
    intros id' c' Hc' Hcl'. apply Hmin, list_elem_of_filter. split; [done|]. apply elem_of_rows. eauto.
  - destruct H as [_ H]. intros id c Hc. apply not_true_iff_false. intros Hcl.
    eapply not_elem_of_nil. rewrite <-H. apply list_elem_of_filter. split; [exact Hcl|].
    apply elem_of_rows. eauto.
Qed.

(** The row a claim leaves. *)
Definition lease_row (now : Z) (worker : string) (lt : nat) (c : t) : t :=
  touch now (set_lease (mkLease (Some now) (Some worker) (Some lt)) c).

Lemma claim_spec worker w w' r :
  claim worker w = (w', r) →
  events w' = events w ∧ app_now w' = app_now w ∧
  match r with
  | Ok (Some job) => ∃ c,
      next_job (db_now (store w)) (app_now w - 5 * minute) (domains (store w)) = Some c ∧
      job = scanProvisioningJobRow (lease_row (db_now (store w)) worker (supply (store w)) c) ∧
      domains (store w') = <[ID c := lease_row (db_now (store w)) worker (supply (store w)) c]>
        (domains (store w)) ∧
      supply (store w') = S (supply (store w)) ∧ gateways (store w') = gateways (store w) ∧
      db_now (store w') = db_now (store w)
  | Ok None => domains (store w') = domains (store w) ∧ supply (store w) ≤ supply (store w') ∧
      next_job (db_now (store w)) (app_now w - 5 * minute) (domains (store w)) = None
  | Err _ => domains (store w') = domains (store w) ∧ supply (store w') = supply (store w)
  end.
Proof.
  unfold claim, repo, ClaimNextProvisioningJob. change (5 * minute <=? 0)%Z with false.
  destruct (query _ (store w)) as [d r'] eqn:Hq. intros H. simplify_eq/=. split; [done|]. split; [done|].
  apply query_spec in Hq as [(-> & Hd & Hfr)|(fs & a & Hf & ->)]; [by destruct Hfr|].
  cbn [domains db_now supply gateways faults] in Hf.
  destruct (next_job _ _ _) as [c|] eqn:Hn; simplify_eq/=; [|auto with lia].
  exists c. by split_and!.
Qed.

(** ** The system *)

Record sys := mkSys { sw : world; jobs : list ProvisioningJob }.
Abbreviation rows s := (domains (store (sw s))).
Abbreviation log s := (events (sw s)).

Definition with_store (d : db) (w : world) : world := mkWorld d (events w) (app_now w).

Section system.
Context {Cloud : AWS}.
Context (listenerARN : string) (sha256_hex : string → string).

(** A claim, a handler or a crash of a worker, and the world around. *)
Inductive worker_step : sys → sys → Prop :=
| step_claim worker w js w' job :
    claim worker w = (w', Ok (Some job)) → worker_step (mkSys w js) (mkSys w' (js ++ [job]))
| step_claim_none worker w js w' r :
    claim worker w = (w', r) → (∀ job, r ≠ Ok (Some job)) → worker_step (mkSys w js) (mkSys w' js)
| step_handle w js1 job js2 w' r :
    handle listenerARN sha256_hex job w = (w', r) →
    worker_step (mkSys w (js1 ++ job :: js2)) (mkSys w' (js1 ++ js2))
| step_crash w js1 job js2 : worker_step (mkSys w (js1 ++ job :: js2)) (mkSys w (js1 ++ js2))
| step_env w js gws now_db fs now_app :
    worker_step (mkSys w js)
      (mkSys (mkWorld (mkDB (domains (store w)) gws now_db (supply (store w)) fs) (events w) now_app) js).

Inductive step : sys → sys → Prop :=
| step_request q w js d r :
    admissible q → run_request q (store w) = (d, r) → step (mkSys w js) (mkSys (with_store d w) js)
| step_worker s s' : worker_step s s' → step s s'.

Inductive initial : sys → Prop :=
| initial_intro gws now_db fs now_app : initial (mkSys (mkWorld (mkDB ∅ gws now_db 0 fs) [] now_app) []).

Inductive reachable : sys → Prop :=
| reachable_init s : initial s → reachable s
| reachable_step s s' : reachable s → step s s' → reachable s'.

(** ** The invariant *)

Definition fresh_hostname (m : gmap string t) (id : string) (c : t) : Prop :=
  ∀ id' c', m !! id' = Some c' → id' ≠ id → DeletedAt c' = None →
    GoStrings.ToLower (Hostname c') ≠ GoStrings.ToLower (Hostname c).

(** The statuses that follow a completion. *)
Definition settled (s : ProvisioningStatus) : bool :=
  match s with Completed | Deprovisioning | Deprovisioned | DeprovisionFailed => true | _ => false end.

(** What holds of one row, whatever the others are. *)
Record row_ok (supply : nat) (ev : list aws_event) (id : string) (c : t) : Prop := {
  ok_id : ID c = id;
  ok_lease : lease c = no_lease ∨
    ∃ at_ who lt, lease c = mkLease (Some at_) (Some who) (Some lt) ∧ lt < supply;
  ok_queued : lease c ≠ no_lease → queued (pstatus c) = true;
  ok_deleted : is_Some (DeletedAt c) ↔ pstatus c = Deprovisioned;
  ok_closed : closed_out listenerARN ev c;
  ok_active : Status c = Active → settled (pstatus c) = true ∧ confirmed listenerARN ev c;
}.

(** The two partial unique indexes and the uniqueness of leases. *)
Record distinct (m : gmap string t) : Prop := {
  distinct_token : ∀ i j a b lt, m !! i = Some a → m !! j = Some b →
    token a = Some lt → token b = Some lt → i = j;
  distinct_hostname : ∀ i j a b, m !! i = Some a → m !! j = Some b →
    DeletedAt a = None → DeletedAt b = None →
    GoStrings.ToLower (Hostname a) = GoStrings.ToLower (Hostname b) → i = j;
  distinct_priority : ∀ i j a b prio, m !! i = Some a → m !! j = Some b →
    DeletedAt a = None → DeletedAt b = None →
    ListenerRulePriority (rule a) = Some prio → ListenerRulePriority (rule b) = Some prio → i = j;
}.

(** A job in the hands of a worker: if its lease is still the row's, it shows
    the row. *)
Definition job_ok (supply : nat) (m : gmap string t) (job : ProvisioningJob) : Prop :=
  ∃ lt, LeaseToken (JobLease job) = Some lt ∧ lt < supply ∧
    ∀ id c, m !! id = Some c → token c = Some lt → id = JobID job ∧ current job c.

Record inv (s : sys) : Prop := {
  inv_rows : ∀ id c, rows s !! id = Some c → row_ok (supply (store (sw s))) (log s) id c;
  inv_distinct : distinct (rows s);
  inv_jobs : ∀ job, job ∈ jobs s → job_ok (supply (store (sw s))) (rows s) job;
  inv_nodup : NoDup ((λ job, LeaseToken (JobLease job)) <$> jobs s);
}.

(** *** Updates of one row *)

(** A change of a row other than its claim. *)
Record change (ev : list aws_event) (m : gmap string t) (id : string) (c c' : t) : Prop := {
  ch_id : ID c' = ID c;
  ch_project : ProjectID c' = ProjectID c;
  ch_hostname : Hostname c' = Hostname c;
  ch_lease : lease c' = no_lease ∨
    (lease c' = lease c ∧ pstatus c' = pstatus c ∧ certificate c' = certificate c ∧ rule c' = rule c);
  ch_deleted : is_Some (DeletedAt c') ↔ is_Some (DeletedAt c) ∨ pstatus c' = Deprovisioned;
  ch_final : pstatus c = Deprovisioned → pstatus c' = Deprovisioned;
  ch_closed : closed_out listenerARN ev c';
  ch_active : Status c' = Active → settled (pstatus c') = true ∧ confirmed listenerARN ev c';
  ch_priority : ListenerRulePriority (rule c') = ListenerRulePriority (rule c) ∨
    ∃ prio, ListenerRulePriority (rule c') = Some prio ∧ priority_ok id prio m = true;
}.

Lemma row_ok_mono n n' ev ev' id c :
  n ≤ n' → (∀ e, e ∈ ev → e ∈ ev') → row_ok n ev id c → row_ok n' ev' id c.
Proof.
  intros Hn He [H1 H2 H3 H4 H5 H6]. split; try done.
  - destruct H2 as [?|(a & b & lt & ? & ?)]; [by left|right]. exists a, b, lt. split; [done|lia].
  - by apply (closed_out_mono _ ev).
  - intros [Hs Hc]%H6. split; [done|]. by apply (confirmed_mono _ ev).
Qed.

Lemma job_ok_mono n n' m job : n ≤ n' → job_ok n m job → job_ok n' m job.
Proof. intros Hn (lt & H1 & H2 & H3). exists lt. split_and!; [done|lia|done]. Qed.

Lemma change_row_ok n ev ev' m id c c' :
  (∀ e, e ∈ ev → e ∈ ev') → row_ok n ev id c → change ev' m id c c' → row_ok n ev' id c'.
Proof.
  intros He [H1 H2 H3 H4 _ _] []. split.
  - congruence.
  - destruct ch_lease0 as [?|[-> _]]; [by left|done].
  - destruct ch_lease0 as [?|[-> [-> _]]]; [done|done].
  - rewrite ch_deleted0, H4. split; [intros [?|?]; auto|auto].
  - done.
  - done.
Qed.

Lemma token_lease c c' lt : lease c' = no_lease ∨ lease c' = lease c → token c' = Some lt → token c = Some lt.
Proof. intros [-> | ->]; [done|auto]. Qed.

Lemma priority_ok_other id prio m id' c' :
  priority_ok id prio m = true → m !! id' = Some c' → id' ≠ id → DeletedAt c' = None →
  ListenerRulePriority (rule c') ≠ Some prio.
Proof.
  unfold priority_ok. rewrite !andb_true_iff, forallb_forall. intros [_ H] Hm Hne Hd Hp.
  specialize (H (id', c') (proj1 (list_elem_of_In _ _) (proj2 (elem_of_map_to_list _ _ _) Hm))).
  apply String.eqb_neq in Hne. unfold live in H. by rewrite Hne, !bool_decide_eq_true_2 in H.
Qed.

Lemma change_distinct ev m id c c' :
  m !! id = Some c → change ev m id c c' → distinct m → distinct (<[id := c']> m).
Proof.
  intros Hc [H1 H2 Hh Hl Hdel _ _ _ Hp] [D1 D2 D3].
  assert (Hlive : DeletedAt c' = None → DeletedAt c = None).
  { intros E. destruct (DeletedAt c) eqn:E'; [|done].
    destruct (proj2 Hdel) as [? ?]; [left; by eexists|congruence]. }
  split.
  - intros i j a b lt Hi Hj Ha Hb.
    apply lookup_insert_Some in Hi as [[<- <-]|[Hi Hma]]; apply lookup_insert_Some in Hj as [[<- <-]|[Hj Hmb]].
    + done.
    + apply (D1 id j c b lt); try done. apply (token_lease c c'); [|done]. destruct Hl as [?|[? _]]; auto.
    + apply (D1 i id a c lt); try done. apply (token_lease c c'); [|done]. destruct Hl as [?|[? _]]; auto.
    + eauto.
  - intros i j a b Hi Hj Ha Hb He.
    apply lookup_insert_Some in Hi as [[<- <-]|[Hi Hma]]; apply lookup_insert_Some in Hj as [[<- <-]|[Hj Hmb]].
    + done.
    + apply (D2 id j c b); try done; [auto|congruence].
    + apply (D2 i id a c); try done; [auto|congruence].
    + eauto.
  - intros i j a b prio Hi Hj Ha Hb Hpa Hpb.
    apply lookup_insert_Some in Hi as [[<- <-]|[Hi Hma]]; apply lookup_insert_Some in Hj as [[<- <-]|[Hj Hmb]].
    + done.
    + destruct Hp as [Hp|(p & Hp & Hok)]; [apply (D3 id j c b prio); try done; [auto|congruence]|].
      exfalso. apply (priority_ok_other _ _ _ _ _ Hok Hmb); [done|done|congruence].
    + destruct Hp as [Hp|(p & Hp & Hok)]; [apply (D3 i id a c prio); try done; [auto|congruence]|].
      exfalso. apply (priority_ok_other _ _ _ _ _ Hok Hma); [done|done|congruence].
    + eauto.
Qed.

Lemma change_job_ok n ev m id c c' job :
  m !! id = Some c → change ev m id c c' → job_ok n m job → job_ok n (<[id := c']> m) job.
Proof.
  intros Hc [H1 Hpr Hh Hl _ _ _ _ _] (lt & Hlt & Hn & Hjob). exists lt. split_and!; [done|done|].
  intros i a Hi Ha. apply lookup_insert_Some in Hi as [[<- <-]|[_ Hi]]; [|auto].
  destruct Hl as [Hl|(Hl & Hs & Hce & Hru)]; [by rewrite Hl in Ha|]. rewrite Hl in Ha.
  destruct (Hjob _ _ Hc Ha) as [Hid (E1 & E2 & E3 & E4 & E5)]. split; [done|].
  split_and!; congruence.
Qed.

(** One changed row, more events, fewer jobs. *)
Lemma inv_change s w' js' id c c' :
  inv s → rows s !! id = Some c → change (events w') (rows s) id c c' →
  domains (store w') = <[id := c']> (rows s) → supply (store w') = supply (store (sw s)) →
  (∀ e, e ∈ log s → e ∈ events w') → js' `sublist_of` jobs s → inv (mkSys w' js').
Proof.
  intros [Ir Id Ij In] Hc Hch Hd Hs He Hjs. split; simpl; rewrite ?Hd, ?Hs.
  - intros i a Hi. apply lookup_insert_Some in Hi as [[<- <-]|[_ Hi]].
    + by eapply change_row_ok; [| |exact Hch]; [done|apply Ir].
    + eapply row_ok_mono; [done|exact He|]. by apply Ir.
  - by eapply change_distinct.
  - intros job Hjob. eapply change_job_ok; [done..|]. apply Ij. by eapply elem_of_sublist.
  - eapply sublist_NoDup; [exact In|]. by apply fmap_sublist.
Qed.

Lemma inv_same s w' js' :
  inv s → domains (store w') = rows s → supply (store (sw s)) ≤ supply (store w') →
  (∀ e, e ∈ log s → e ∈ events w') → js' `sublist_of` jobs s → inv (mkSys w' js').
Proof.
  intros [Ir Id Ij In] Hd Hs He Hjs. split; simpl; rewrite ?Hd; try done.
  - intros i a Hi. eapply row_ok_mono; [exact Hs|exact He|]. by apply Ir.
  - intros job Hjob. eapply job_ok_mono; [exact Hs|]. apply Ij. by eapply elem_of_sublist.
  - eapply sublist_NoDup; [exact In|]. by apply fmap_sublist.
Qed.

(** *** Preservation *)

Lemma inv_create s d' c :
  inv s → created (rows s) c → domains d' = <[ID c := c]> (rows s) →
  supply d' = supply (store (sw s)) → inv (mkSys (with_store d' (sw s)) (jobs s)).
Proof.
  intros [Ir Id Ij In] [Hid Hho (Hl & Hs & Hdel & Hru & Hst)] Hd Hsu. split; simpl; rewrite ?Hd, ?Hsu; try done.
  - intros i a Hi. apply lookup_insert_Some in Hi as [[<- <-]|[_ Hi]]; [|by apply Ir].
    split; [done|by left|done| |apply not_ended; by rewrite Hs|by rewrite Hst].
    rewrite Hdel, Hs. split; [by intros [? ?]|done].
  - destruct Id as [D1 D2 D3]. split.
    + intros i j a b lt Hi Hj Ha Hb.
      apply lookup_insert_Some in Hi as [[<- <-]|[_ Hi]]; [by rewrite Hl in Ha|].
      apply lookup_insert_Some in Hj as [[<- <-]|[_ Hj]]; [by rewrite Hl in Hb|]. eauto.
    + intros i j a b Hi Hj Ha Hb He.
      apply lookup_insert_Some in Hi as [[<- <-]|[_ Hi]]; apply lookup_insert_Some in Hj as [[<- <-]|[_ Hj]].
      * done.
      * by destruct (Hho _ _ Hj Hb).
      * by destruct (Hho _ _ Hi Ha).
      * eauto.
    + intros i j a b prio Hi Hj Ha Hb Hpa Hpb.
      apply lookup_insert_Some in Hi as [[<- <-]|[_ Hi]]; [by rewrite Hru in Hpa|].
      apply lookup_insert_Some in Hj as [[<- <-]|[_ Hj]]; [by rewrite Hru in Hpb|]. eauto.
  - intros job Hjob. destruct (Ij _ Hjob) as (lt & Hlt & Hn & Hc). exists lt. split_and!; [done|done|].
    intros i a Hi Ha. apply lookup_insert_Some in Hi as [[<- <-]|[_ Hi]]; [by rewrite Hl in Ha|auto].
Qed.

Lemma confirmed_same ev c c' :
  certificate c' = certificate c → rule c' = rule c → Hostname c' = Hostname c →
  confirmed listenerARN ev c → confirmed listenerARN ev c'.
Proof.
  intros H1 H2 H3 (arn & ru & prio & tg & det & ?). exists arn, ru, prio, tg, det. by rewrite H1, H2, H3.
Qed.

Lemma control_is_change n ev m id c c' :
  row_ok n ev id c → control_change c c' → change ev m id c c'.
Proof.
  intros [R1 R2 R3 R4 R5 R6] [H1 H2 H3 H4 H5 [Hd Hd'] Hl He Hst].
  assert (Hs : pstatus c ≠ Deprovisioned).
  { intros [x Hx]%R4. congruence. }
  assert (Hs' : pstatus c' ≠ Deprovisioned).
  { intros E. by apply Hs, (control_edge_final _ _ He). }
  split; try done; try congruence.
  - destruct Hl as [?|[? ?]]; [by left|by right].
  - rewrite Hd, Hd'. split; [by intros [? ?]|]. intros [[? ?]|?]; done.
  - unfold closed_out in *. destruct (pstatus c') eqn:E; try done.
    rewrite (proj2 (control_edge_final _ _ He) eq_refl) in R5.
    by apply (confirmed_same _ _ _ H4 H5 H3).
  - intros [Hse Hc]%Hst%R6. split; [|by apply (confirmed_same _ _ _ H4 H5 H3)].
    by destruct He as [|? [-> | ->]| |].
  - left. by rewrite H5.
Qed.

Lemma worker_is_change n ev ev' m id lt job c c' :
  (∀ e, e ∈ ev → e ∈ ev') → row_ok n ev id c → handled (pstatus c) → row_step c c' →
  (pstatus c' = Completed → ∃ prio, ListenerRulePriority (rule c') = Some prio ∧ priority_ok id prio m = true) →
  closed_out listenerARN ev' c' →
  token c = Some lt → LeaseToken (JobLease job) = Some lt → change ev' m id c c'.
Proof.
  intros Hmono Hok Hs [H1 H2 H3 He Hl Hd Hc Hr Hce] Hp Hconf Ht Hjob. split; try done; auto.
  - intros E. by destruct (handled_open _ Hs).
  - intros Ha. destruct (decide (pstatus c' = Completed)) as [E|E].
    { unfold closed_out in Hconf. rewrite E in Hconf |- *. done. }
    destruct (Hr E) as [Hru Hst]. rewrite Hst in Ha. destruct (ok_active _ _ _ _ Hok Ha) as [Hse Hcf].
    assert (Hdep : pstatus c = Deprovisioning) by (destruct Hs as [Hq _]; by destruct (pstatus c)).
    split; [rewrite Hdep in He; inversion He as [| | | | | | |]; by subst|].
    apply (confirmed_same _ _ _ (Hce Hdep) Hru H3). by apply (confirmed_mono _ ev).
  - destruct (decide (pstatus c' = Completed)) as [E|E]; [right; auto|left].
    by destruct (Hr E) as [-> _].
Qed.

Lemma release_is_change n ev m id c now :
  row_ok n ev id c → pstatus c ≠ Deprovisioned →
  change ev m id c (touch now (set_lease no_lease c)).
Proof.
  intros [R1 R2 R3 R4 R5 R6] Hnd. split; simpl; auto; try done.
  intuition congruence.
Qed.

Lemma sublist_drop_mid {A} (l1 : list A) x l2 : (l1 ++ l2) `sublist_of` (l1 ++ x :: l2).
Proof. apply sublist_app; [done|]. by apply sublist_cons. Qed.

(** The exchange with AWS is only ever extended. *)
Definition appends {A} (m : P A) : Prop := ∀ w w' r, m w = (w', r) → ∃ ev, events w' = events w ++ ev.

Lemma appends_bind {A B} (m : P A) (k : A → P B) : appends m → (∀ x, appends (k x)) → appends (pbind m k).
Proof.
  intros Hm Hk w w' r. unfold pbind. destruct (m w) as [w1 [x|e]] eqn:Hw; intros H.
  - destruct (Hm _ _ _ Hw) as [ev1 H1], (Hk _ _ _ _ H) as [ev2 ->]. exists (ev1 ++ ev2). by rewrite H1, app_assoc.
  - simplify_eq. eauto.
Qed.
Lemma appends_repo {A} (m : M A) : appends (repo m).
Proof. intros w w' r. unfold repo. destruct (m (store w)). intros. simplify_eq. exists []. by rewrite app_nil_r. Qed.
Lemma appends_repo_try {A} (m : M A) : appends (repo_try m).
Proof. intros w w' r. unfold repo_try. destruct (m (store w)). intros. simplify_eq. exists []. by rewrite app_nil_r. Qed.
Lemma appends_now : appends now.
Proof. intros w w' r. unfold now. intros. simplify_eq. exists []. by rewrite app_nil_r. Qed.
Lemma appends_call {A} (reply : list aws_event → result aws_error A) mk : appends (call reply mk).
Proof. intros w w' r. unfold call. intros. simplify_eq/=. eauto. Qed.
Lemma appends_ret {A} (x : result error A) : appends (λ w, (w, x)).
Proof. intros w w' r. intros. simplify_eq. exists []. by rewrite app_nil_r. Qed.

Lemma handle_appends job : appends (handle listenerARN sha256_hex job).
Proof.
  unfold handle, handleRequestingCertificate, handleWaitingForValidationRecord, handleWaitingForDNS,
    handleAttachingCertificate, attach_and_route, handleDeprovisioning, release_certificate,
    deprovision_step, fail_or_retry.
  repeat first [apply appends_repo|apply appends_repo_try|apply appends_now|apply appends_call
    |apply appends_ret|apply appends_bind; [|intros ?]|case_match].
Qed.

Lemma handle_log job w w' r :
  handle listenerARN sha256_hex job w = (w', r) → ∀ e, e ∈ events w → e ∈ events w'.
Proof.
  intros [ev ->]%handle_appends e. rewrite elem_of_app. auto.
Qed.

Lemma inv_handle w js1 job js2 w' r :
  inv (mkSys w (js1 ++ job :: js2)) → handle listenerARN sha256_hex job w = (w', r) →
  inv (mkSys w' (js1 ++ js2)).
Proof.
  intros Hinv H. destruct (handle_effect _ _ _ _ _ _ H) as ([_ _ Hsup] & _ & He).
  pose proof (handle_log _ _ _ _ H) as Hlog. simpl in *.
  pose proof (sublist_drop_mid js1 job js2) as Hsub.
  destruct He as [Hsame|(lt & Hlt & [(Hh & He)|(Hh & He)])].
  { apply (inv_same _ _ _ Hinv); simpl; auto; by rewrite Hsup. }
  - destruct He as [Hsame|(c & c' & Hc & Ht & Hs & Hd & Hstep & Hprio)].
    { apply (inv_same _ _ _ Hinv); simpl; auto; by rewrite Hsup. }
    pose proof (inv_rows _ Hinv _ _ Hc) as Hok.
    destruct (inv_jobs _ Hinv job) as (lt' & Hlt' & _ & Hcur).
    { simpl. rewrite elem_of_app, elem_of_cons. auto. }
    simplify_eq. destruct (Hcur _ _ Hc Ht) as [_ Hcurrent].
    apply (inv_change _ _ _ (JobID job) c c' Hinv Hc); simpl; auto.
    rewrite <-Hs in Hh. eapply worker_is_change; eauto.
    destruct (completes_handle listenerARN sha256_hex job lt Hlt ltac:(by rewrite <-Hs) w w' r) as [_ Hall]; [|done|].
    { intros e. by rewrite elem_of_nil. }
    destruct (Hall (JobID job) c') as [Hold|(c0 & _ & Hc0 & _ & Hconf)]; [by rewrite Hd, lookup_insert_eq| |].
    + rewrite Hc in Hold. injection Hold as ->. apply (closed_out_mono _ (events w)); [done|]. apply Hok.
    + rewrite Hc in Hc0. injection Hc0 as <-. auto.
  - destruct He as [Hsame|(c & now0 & Hc & Ht & Hdel & Hd)].
    { apply (inv_same _ _ _ Hinv); simpl; auto; by rewrite Hsup. }
    pose proof (inv_rows _ Hinv _ _ Hc) as Hok.
    assert (Hq : queued (pstatus c) = true).
    { apply (ok_queued _ _ _ _ Hok). intros E. by rewrite E in Ht. }
    apply (inv_change _ _ _ (JobID job) c (touch now0 (set_lease no_lease c)) Hinv Hc); simpl; auto.
    eapply release_is_change; [by eapply row_ok_mono; [| |exact Hok]|]. intros E. by rewrite E in Hq.
Qed.

Lemma lease_below s id c lt :
  inv s → rows s !! id = Some c → token c = Some lt → lt < supply (store (sw s)).
Proof.
  intros Hinv Hc Ht. destruct (ok_lease _ _ _ _ (inv_rows _ Hinv _ _ Hc)) as [E|(a & b & lt' & E & Hl)];
    rewrite E in Ht; by simplify_eq/=.
Qed.

Lemma inv_claim worker w js w' job :
  inv (mkSys w js) → claim worker w = (w', Ok (Some job)) → inv (mkSys w' (js ++ [job])).
Proof.
  intros Hinv H. pose proof (λ id c lt, lease_below _ id c lt Hinv) as Hbelow.
  destruct Hinv as [Ir Id Ij In]. simpl in *.
  apply claim_spec in H as (He & _ & c & Hn & -> & Hd & Hs & _ & _).
  pose proof (next_job_spec (db_now (store w)) (app_now w - 5 * minute) (domains (store w))) as Hnext.
  rewrite Hn in Hnext. destruct Hnext as ([id Hc] & Hcl & _).
  pose proof (Ir _ _ Hc) as [R1 R2 R3 R4 R5 R6]. subst id.
  unfold claimable, live in Hcl. split_bool.
  set (c' := lease_row _ _ _ c) in *.
  assert (Hother : ∀ i a, <[ID c := c']> (domains (store w)) !! i = Some a →
    (i = ID c ∧ a = c') ∨ (i ≠ ID c ∧ domains (store w) !! i = Some a)).
  { intros i a Hi. apply lookup_insert_Some in Hi as [[<- <-]|[? Hi]]; auto. }
  split; simpl; rewrite ?Hd, ?Hs, ?He.
  - intros i a [[-> ->]|[_ Hi]]%Hother.
    + split; try done. right. eexists _, _, _. split; [done|lia].
    + eapply row_ok_mono; [| |by apply Ir]; [lia|done].
  - destruct Id as [D1 D2 D3]. split.
    + intros i j a b lt [[-> ->]|[Hi Hma]]%Hother [[-> ->]|[Hj Hmb]]%Hother Ha Hb; [done| | |eauto].
      * simplify_eq/=. specialize (Hbelow _ _ _ Hmb Hb). lia.
      * simplify_eq/=. specialize (Hbelow _ _ _ Hma Ha). lia.
    + intros i j a b [[-> ->]|[Hi Hma]]%Hother [[-> ->]|[Hj Hmb]]%Hother; [done|..]; by eauto.
    + intros i j a b prio [[-> ->]|[Hi Hma]]%Hother [[-> ->]|[Hj Hmb]]%Hother; [done|..]; by eauto.
  - intros job [Hjob| ->%list_elem_of_singleton]%elem_of_app.
    + destruct (Ij _ Hjob) as (lt & Hlt & Hl & Hcur). exists lt. split_and!; [done|lia|].
      intros i a [[-> ->]|[_ Hi]]%Hother Ha; [|auto]. simplify_eq/=. lia.
    + exists (supply (store w)). split_and!; [done|lia|].
      intros i a [[-> ->]|[_ Hi]]%Hother Ha; [done|]. specialize (Hbelow _ _ _ Hi Ha). lia.
  - rewrite fmap_app. apply NoDup_app. split_and!; [done| |by apply NoDup_singleton].
    intros x (job & -> & Hjob)%list_elem_of_fmap Hx%list_elem_of_singleton.
    destruct (Ij _ Hjob) as (lt & Hlt & Hl & _). rewrite Hlt in Hx. simplify_eq/=. lia.
Qed.

Lemma step_inv s s' : inv s → step s s' → inv s'.
Proof.
  intros Hinv Hstep. destruct Hstep as [q w js d r Ha Hq|? ? [worker w js w' job Hc|worker w js w' r Hc Hr
    |w js1 job js2 w' r Hh|w js1 job js2|w js gws now_db fs now_app]].
  - apply run_request_effect in Hq as [[_ _ Hsup] He]; [|done].
    destruct He as [Hd|[(id & c & c' & Hc & Hd & Hch)|(c & Hcr & Hd)]].
    + apply (inv_same _ _ _ Hinv); simpl; auto. by rewrite Hsup.
    + apply (inv_change _ _ _ id c c' Hinv Hc); simpl; auto.
      eapply control_is_change; [|done]. by apply (inv_rows _ Hinv).
    + by apply (inv_create _ _ c Hinv).
  - by eapply inv_claim.
  - apply claim_spec in Hc as (He & _ & Hc). apply (inv_same _ _ _ Hinv); simpl; rewrite ?He; auto;
      destruct r as [[job|]|e]; try by destruct (Hr job).
    all: destruct Hc as (? & ?); intuition lia.
  - by eapply inv_handle.
  - apply (inv_same _ _ _ Hinv); simpl; auto using sublist_drop_mid.
  - apply (inv_same _ _ _ Hinv); simpl; auto.
Qed.

Lemma initial_inv s : initial s → inv s.
Proof.
  intros []. split; simpl; [by intros ?? ?%lookup_empty_Some|split; by intros ??????%lookup_empty_Some
    |by intros ? ?%elem_of_nil|constructor].
Qed.

Lemma reachable_inv s : reachable s → inv s.
Proof. induction 1; [by apply initial_inv|by eapply step_inv]. Qed.

End system.

End Lifecycle.
