(* ===== verification/Guarantees.v ===== *)
(** * What the custom-domain machinery guarantees

    Consequences of the invariant of [Lifecycle]: a completed domain rests on
    AWS's confirmations, a deprovisioned one on the removal of its resources,
    calls to AWS come in order, a lost lease writes nothing, claims take the
    first due row, statuses follow the state machine, and a cooperating AWS
    brings a domain to completion. *)

From S2P Require Import Prelude GoStrings Model CustomDomain Provisioner DomainSystem Lifecycle.

Module Guarantees.
Import CustomDomain Provisioner DomainSystem Lifecycle.

Section guarantees.
Context {Cloud : AWS}.
Context (listenerARN : string) (sha256_hex : string → string).

(** ** The order of the calls *)

(** What must have been seen before a call is made. *)
Definition justified (before : list aws_event) (e : aws_event) : Prop :=
  match e with
  | EvAttach _ arn _ => ∃ det, EvDescribe arn (Ok det) ∈ before ∧ issued det
  | EvEnsureRule l _ _ lo hi _ => lo = 40001%Z ∧ hi = 50000%Z ∧ ∃ arn, EvAttach l arn (Ok ()) ∈ before
  | EvDelete arn _ => listenerARN ≠ "" → ∃ r, EvDetach listenerARN arn r ∈ before ∧ gone r
  | _ => True
  end.

Definition log_ok (l : list aws_event) : Prop :=
  ∀ before e after, l = before ++ e :: after → justified before e.

Lemma justified_mono l l' e : (∀ x, x ∈ l → x ∈ l') → justified l e → justified l' e.
Proof.
  intros H. destruct e; simpl; try done.
  - intros Hd Hl. destruct (Hd Hl) as (r' & ? & ?). eauto.
  - intros (det & ? & ?). eauto.
  - intros (? & ? & a & ?). eauto.
Qed.

Lemma log_ok_snoc l e : log_ok l → justified l e → log_ok (l ++ [e]).
Proof.
  intros Hl He before e' after Heq. destruct after as [|x after _] using rev_ind.
  - apply app_inj_tail in Heq as [<- <-]. done.
  - rewrite app_comm_cons, app_assoc in Heq. apply app_inj_tail in Heq as [-> _]. by eapply Hl.
Qed.

(** A program whose calls, given [ev], are justified when they are made. *)
Definition orderly (ev : list aws_event) (m : P unit) : Prop := ∀ w w' r,
  (∀ e, e ∈ ev → e ∈ events w) → log_ok (events w) → m w = (w', r) → log_ok (events w').

Lemma orderly_call {A} ev (reply : list aws_event → result aws_error A) mk (k : result aws_error A → P unit) :
  (∀ x, justified ev (mk x)) → (∀ x, orderly (mk x :: ev) (k x)) → orderly ev (pbind (call reply mk) k).
Proof.
  intros Hj Hk w w' r Hev Hl. unfold pbind, call. apply Hk; simpl.
  - intros e. rewrite elem_of_cons, elem_of_app, list_elem_of_singleton. intros [->|He]; auto.
  - apply log_ok_snoc; [done|]. by eapply justified_mono.
Qed.

Lemma orderly_now ev k : (∀ t0, orderly ev (k t0)) → orderly ev (pbind now k).
Proof. intros Hk w w' r Hev Hl. unfold pbind, now. by apply Hk. Qed.

Lemma orderly_repo ev (m : M unit) : orderly ev (repo m).
Proof. intros w w' r Hev Hl. unfold repo. destruct (m (store w)). intros. by simplify_eq. Qed.

Lemma orderly_repo_try {A} ev (m : M A) k : (∀ x, orderly ev (k x)) → orderly ev (pbind (repo_try m) k).
Proof.
  intros Hk w w' r Hev Hl. unfold pbind, repo_try. destruct (m (store w)) as [d x]. by apply (Hk x).
Qed.

Lemma orderly_ret ev (x : result error unit) : orderly ev (λ w, (w, x)).
Proof. intros w w' r Hev Hl H. by simplify_eq. Qed.

Ltac orderly_step :=
  match goal with
  | |- orderly _ (pbind (call _ _) _) => apply orderly_call; [intros ?|intros ?]
  | |- orderly _ (pbind now _) => apply orderly_now; intros ?
  | |- orderly _ (pbind (repo_try _) _) => apply orderly_repo_try; intros ?
  | |- orderly _ (repo _) => apply orderly_repo
  | |- orderly _ (pret _) => apply orderly_ret
  | |- orderly _ (pfail _) => apply orderly_ret
  | |- orderly _ (fail_or_retry _ _ _ _) => unfold fail_or_retry
  | |- orderly _ (match ?x with _ => _ end) => destruct x eqn:?
  | |- orderly _ (let _ := _ in _) => cbv zeta
  end.

Lemma orderly_attaching job lt : orderly [] (handleAttachingCertificate listenerARN job lt).
Proof.
  unfold handleAttachingCertificate, attach_and_route. repeat orderly_step; try done; simpl.
  - match goal with H : String.eqb _ "ISSUED" = true |- _ => apply String.eqb_eq in H end.
    eexists. rewrite elem_of_cons. eauto.
  - match goal with u : unit |- _ => destruct u end. split_and!; [done..|].
    eexists. rewrite elem_of_cons. eauto.
Qed.

Lemma orderly_step_call ev job lt (reply : list aws_event → result aws_error unit) mk next :
  (∀ r, justified ev (mk r)) → (∀ r, gone r → orderly (mk r :: ev) next) →
  orderly ev (pbind (call reply mk) (λ r, deprovision_step job lt r next)).
Proof.
  intros Hj Hn. apply orderly_call; [done|]. intros [u|e]; simpl; [by apply Hn|].
  destruct (isResourceNotFoundErr e) eqn:He; [by apply Hn|]. repeat orderly_step.
Qed.

Lemma orderly_release ev job lt : orderly ev (release_certificate listenerARN job lt).
Proof.
  unfold release_certificate. cbv zeta. destruct (_ || _); [apply orderly_repo|].
  destruct (String.eqb_spec listenerARN "") as [Hl|Hl].
  - apply orderly_step_call; [by intros r Hne|]. intros. apply orderly_repo.
  - apply orderly_step_call; [done|]. intros r Hr. apply orderly_step_call.
    + intros r' _. exists r. rewrite elem_of_cons. auto.
    + intros. apply orderly_repo.
Qed.

Lemma orderly_handle job : orderly [] (handle listenerARN sha256_hex job).
Proof.
  unfold handle. destruct (LeaseToken (JobLease job)) as [lt|]; [|repeat orderly_step].
  destruct (JobProvisioningStatus job); try (repeat orderly_step; fail).
  - unfold handleRequestingCertificate. repeat orderly_step; done.
  - unfold handleWaitingForValidationRecord. repeat orderly_step; done.
  - unfold handleWaitingForDNS. repeat orderly_step; done.
  - apply orderly_attaching.
  - unfold handleDeprovisioning. repeat case_match; try apply orderly_release.
    apply orderly_step_call; [done|]. intros. apply orderly_release.
Qed.

Lemma log_ok_step s s' : log_ok (log s) → step listenerARN sha256_hex s s' → log_ok (log s').
Proof.
  intros Hl Hstep. destruct Hstep as [|? ? []]; simpl in *; try done.
  - by destruct (claim_spec _ _ _ _ H) as [-> _].
  - by destruct (claim_spec _ _ _ _ H) as [-> _].
  - eapply orderly_handle; [|exact Hl|done]. intros e. by rewrite elem_of_nil.
Qed.

Lemma log_ok_reachable s : reachable listenerARN sha256_hex s → log_ok (log s).
Proof.
  induction 1 as [s []|s s' _ IH Hstep]; [|by eapply log_ok_step]. simpl.
  intros [|? ?] e after Heq; done.
Qed.

(** ** Leases *)

(** Handling a job whose lease is not the row's changes no row. *)
Lemma lost_lease job w w' r :
  handle listenerARN sha256_hex job w = (w', r) →
  (∀ c, domains (store w) !! JobID job = Some c → token c ≠ LeaseToken (JobLease job)) →
  domains (store w') = domains (store w).
Proof.
  intros (_ & _ & He)%handle_effect Hlost.
  destruct He as [?|(lt & Hlt & [[_ [?|(c & c' & Hc & Ht & _)]]|[_ [?|(c & now0 & Hc & Ht & _)]]])];
    try done; by destruct (Hlost c Hc); rewrite Hlt.
Qed.

(** C19: of two workers that hold jobs of the same domain - because a lease
    expired and was claimed again, or the control plane took it back - at most
    one can still change a row. *)
Theorem at_most_one_worker_writes s l1 j1 l2 j2 l3 :
  reachable listenerARN sha256_hex s → jobs s = l1 ++ j1 :: l2 ++ j2 :: l3 → JobID j1 = JobID j2 →
  (∀ w' r, handle listenerARN sha256_hex j1 (sw s) = (w', r) → domains (store w') = rows s) ∨
  (∀ w' r, handle listenerARN sha256_hex j2 (sw s) = (w', r) → domains (store w') = rows s).
Proof.
  intros Hreach Hjobs Hid. pose proof (inv_nodup _ _ (reachable_inv _ _ _ Hreach)) as Hnd.
  rewrite Hjobs, fmap_app, fmap_cons, fmap_app, fmap_cons in Hnd.
  assert (Hne : LeaseToken (JobLease j1) ≠ LeaseToken (JobLease j2)).
  { intros E. apply NoDup_app in Hnd as (_ & _ & Hnd). apply NoDup_cons in Hnd as [Hnd _].
    apply Hnd. rewrite E, elem_of_app, elem_of_cons. auto. }
  destruct (rows s !! JobID j1) as [c|] eqn:Hc.
  2: { left. intros w' r H. apply (lost_lease _ _ _ _ H). congruence. }
  destruct (decide (token c = LeaseToken (JobLease j1))) as [E|E].
  - right. intros w' r H. apply (lost_lease _ _ _ _ H). intros c' Hc' E'. rewrite <-Hid in Hc'. congruence.
  - left. intros w' r H. apply (lost_lease _ _ _ _ H). congruence.
Qed.

(** A claim takes, among the rows that are queued, due and not locked
    within the last five minutes, one that no other goes before; it writes a
    fresh lease into that row and nothing else, and until that lease is five
    minutes old the row cannot be claimed again. *)
Theorem claim_takes_first_due s worker w' job :
  reachable listenerARN sha256_hex s → claim worker (sw s) = (w', Ok (Some job)) →
  let now := db_now (store (sw s)) in
  let expiry := (app_now (sw s) - 5 * minute)%Z in
  ∃ c lt, rows s !! JobID job = Some c ∧ claimable now expiry c = true ∧
    (∀ id' c', rows s !! id' = Some c' → claimable now expiry c' = true → claim_before c c' = true) ∧
    (∀ id' c', rows s !! id' = Some c' → token c' ≠ Some lt) ∧
    job = scanProvisioningJobRow (lease_row now worker lt c) ∧
    domains (store w') = <[JobID job := lease_row now worker lt c]> (rows s) ∧
    ∀ now' expiry', (expiry' < now)%Z → claimable now' expiry' (lease_row now worker lt c) = false.
Proof.
  intros Hreach (_ & _ & c & Hn & -> & Hd & _)%claim_spec. pose proof (reachable_inv _ _ _ Hreach) as Hinv.
  pose proof (next_job_spec (db_now (store (sw s))) (app_now (sw s) - 5 * minute) (rows s)) as Hspec.
  rewrite Hn in Hspec. destruct Hspec as ([id Hc] & Hcl & Hmin).
  pose proof (ok_id _ _ _ _ _ (inv_rows _ _ Hinv _ _ Hc)) as Hid.
  exists c, (supply (store (sw s))). simpl. rewrite Hid in *. split_and!; try done.
  - intros id' c' Hc' Ht. pose proof (lease_below _ _ _ _ _ Hinv Hc' Ht). lia.
  - intros now' expiry' Hlt. unfold claimable. simpl. rewrite andb_false_iff. right. lia.
Qed.

(** ** Ends *)

(** C2: a domain is completed only when AWS confirmed, in calls the worker
    made, that its certificate is issued, that the certificate is attached to the
    listener, and that the listener routes its hostname by the rule the row
    records. *)
Theorem completed_domain_confirmed s id c :
  reachable listenerARN sha256_hex s → rows s !! id = Some c → pstatus c = Completed →
  confirmed listenerARN (log s) c.
Proof.
  intros Hreach Hc Hs.
  pose proof (ok_closed _ _ _ _ _ (inv_rows _ _ (reachable_inv _ _ _ Hreach) _ _ Hc)) as H.
  unfold closed_out in H. by rewrite Hs in H.
Qed.

(** C27: a row is marked deleted exactly when it is deprovisioned, and then its
    listener rule was removed, and its managed certificate detached and deleted,
    by calls that succeeded or found nothing. *)
Theorem deleted_domain_released s id c :
  reachable listenerARN sha256_hex s → rows s !! id = Some c →
  (is_Some (DeletedAt c) ↔ pstatus c = Deprovisioned) ∧
  (is_Some (DeletedAt c) → released listenerARN (log s) c).
Proof.
  intros Hreach Hc. pose proof (inv_rows _ _ (reachable_inv _ _ _ Hreach) _ _ Hc) as [_ _ _ Hdel Hcl].
  split; [done|]. intros Hs%Hdel. unfold closed_out in Hcl. by rewrite Hs in Hcl.
Qed.

(** Every attachment follows a description that saw the certificate issued,
    every listener rule asks for a priority in 40001..50000 and follows a
    successful attachment, every certificate deletion follows its detachment. *)
Theorem aws_calls_in_order s : reachable listenerARN sha256_hex s → log_ok (log s).
Proof. apply log_ok_reachable. Qed.

(** At no time do two live rows share a hostname, whatever its case, or a
    listener rule priority, or two rows a lease. *)
Theorem live_rows_distinct s i j a b :
  reachable listenerARN sha256_hex s → rows s !! i = Some a → rows s !! j = Some b → i ≠ j →
  (is_Some (token a) → token a ≠ token b) ∧
  (DeletedAt a = None → DeletedAt b = None →
   GoStrings.ToLower (Hostname a) ≠ GoStrings.ToLower (Hostname b) ∧
   (is_Some (ListenerRulePriority (rule a)) → ListenerRulePriority (rule a) ≠ ListenerRulePriority (rule b))).
Proof.
  intros Hreach Ha Hb Hij. pose proof (inv_distinct _ _ (reachable_inv _ _ _ Hreach)) as [D1 D2 D3].
  split; [intros [lt Ht] E; apply Hij; by eapply D1; [..|rewrite <-E]|].
  intros Hda Hdb. split; [intros E; apply Hij; by eapply D2|].
  intros [p Hp] E. apply Hij. by eapply (D3 i j a b p); [..|rewrite <-E].
Qed.

(** ** The state machine *)

Lemma edge_of_request id c m m' s :
  inv listenerARN s → rows s = m → m !! id = Some c → request_effect m m' →
  ∃ c', m' !! id = Some c' ∧ Hostname c' = Hostname c ∧ ProjectID c' = ProjectID c ∧
    control_edge (pstatus c) (pstatus c') ∧ (pstatus c = Deprovisioned → c' = c).
Proof.
  intros Hinv Hm Hc He.
  assert (Hsame : control_edge (pstatus c) (pstatus c)) by constructor.
  destruct He as [->|[(i & a & a' & Ha & -> & Hch)|(c' & Hcr & ->)]]; [by eauto 10| |].
  - destruct (decide (i = id)) as [->|Hne]; [|rewrite lookup_insert_ne by done; by eauto 10].
    rewrite Hc in Ha. injection Ha as <-. rewrite lookup_insert_eq. exists a'.
    destruct Hch. split_and!; try done. subst m.
    intros [x Hx]%(ok_deleted _ _ _ _ _ (inv_rows _ _ Hinv _ _ Hc)). destruct ctl_live0. congruence.
  - destruct Hcr as [Hno _ _]. destruct (decide (ID c' = id)) as [<-|Hne]; [congruence|].
    rewrite lookup_insert_ne by done. by eauto 10.
Qed.

Lemma edge_of_handle job w w' r id c :
  handle listenerARN sha256_hex job w = (w', r) → domains (store w) !! id = Some c →
  (is_Some (DeletedAt c) ↔ pstatus c = Deprovisioned) →
  ∃ c', domains (store w') !! id = Some c' ∧ Hostname c' = Hostname c ∧ ProjectID c' = ProjectID c ∧
    (c' = c ∨ pstatus c' = pstatus c ∨ worker_edge (pstatus c) (pstatus c')) ∧
    (pstatus c = Deprovisioned → c' = c).
Proof.
  intros (_ & _ & He)%handle_effect Hc Hdel.
  destruct He as [->|(lt & Hlt & [[Hh [->|(a & a' & Ha & Ht & Hs & -> & Hst & _)]]
    |[_ [->|(a & now0 & Ha & Ht & Hl & ->)]]])]; [by eauto 10..| |by eauto 10|].
  - destruct (decide (JobID job = id)) as [<-|Hne]; [|rewrite lookup_insert_ne by done; by eauto 10].
    rewrite Hc in Ha. injection Ha as <-. rewrite lookup_insert_eq. exists a'. destruct Hst.
    split_and!; auto. intros E. rewrite <-Hs in Hh. by destruct (handled_open _ Hh).
  - destruct (decide (JobID job = id)) as [<-|Hne]; [|rewrite lookup_insert_ne by done; by eauto 10].
    rewrite Hc in Ha. injection Ha as <-. rewrite lookup_insert_eq. eexists. split_and!; [done..|by auto|].
    intros [x Hx]%Hdel. congruence.
Qed.

(** C28: no step removes a row or changes its hostname or project; a row's
    provisioning status moves only along the edges of the worker and of the
    control plane; a deprovisioned row never changes again. *)
Theorem status_follows_state_machine s s' id c :
  reachable listenerARN sha256_hex s → step listenerARN sha256_hex s s' → rows s !! id = Some c →
  ∃ c', rows s' !! id = Some c' ∧ Hostname c' = Hostname c ∧ ProjectID c' = ProjectID c ∧
    (control_edge (pstatus c) (pstatus c') ∨ worker_edge (pstatus c) (pstatus c')) ∧
    (pstatus c = Deprovisioned → c' = c).
Proof.
  intros Hreach Hstep Hc. pose proof (reachable_inv _ _ _ Hreach) as Hinv.
  assert (Hsame : control_edge (pstatus c) (pstatus c)) by constructor.
  pose proof (ok_deleted _ _ _ _ _ (inv_rows _ _ Hinv _ _ Hc)) as Hdel.
  destruct Hstep as [q w js d r Ha Hq|? ? [worker w js w' job Hcl|worker w js w' r Hcl Hr
    |w js1 job js2 w' r Hh|w js1 job js2|w js gws now_db fs now_app]]; simpl in *.
  - apply run_request_effect in Hq as [_ He]; [|done].
    destruct (edge_of_request id c _ _ _ Hinv eq_refl Hc He) as (c' & ? & ? & ? & ? & ?). eauto 10.
  - apply claim_spec in Hcl as (_ & _ & a & Hn & _ & Hd & _).
    pose proof (next_job_spec (db_now (store w)) (app_now w - 5 * minute) (domains (store w))) as Hsp.
    rewrite Hn in Hsp. destruct Hsp as ([i Hi] & Hcl & _).
    pose proof (ok_id _ _ _ _ _ (inv_rows _ _ Hinv _ _ Hi)) as Hid. rewrite Hd, Hid.
    destruct (decide (i = id)) as [->|Hne]; [|rewrite lookup_insert_ne by done; by eauto 10].
    simpl in Hi. rewrite Hc in Hi. injection Hi as <-. rewrite lookup_insert_eq. eexists.
    split_and!; [done..|by left|]. intros [x Hx]%Hdel. unfold claimable, live in Hcl. split_bool. congruence.
  - apply claim_spec in Hcl as (_ & _ & Hcl). assert (domains (store w') = domains (store w)) as ->.
    { destruct r as [[job|]|e]; [by destruct (Hr job)|apply Hcl..]. }
    by eauto 10.
  - destruct (edge_of_handle _ _ _ _ _ _ Hh Hc Hdel) as (c' & H1 & H2 & H3 & H4 & H5).
    exists c'. split_and!; try done. destruct H4 as [->|[->|?]]; auto.
  - by eauto 10.
  - by eauto 10.
Qed.

End guarantees.

End Guarantees.
