(* ===== verification/Progress.v ===== *)
(** * Progress of the provisioning worker

    What a failed call to AWS schedules, and that with a cooperating AWS and a
    ready gateway the worker brings a domain from the request of its certificate
    to completion, one status per job. *)

From S2P Require Import Prelude GoStrings Model CustomDomain Provisioner DomainSystem Lifecycle.

Module Progress.
Import CustomDomain Provisioner DomainSystem Lifecycle.

(** ** Without faults *)

Lemma query_ok {A} (f : db → db * A) d :
  faults d = [] → query f d = (let '(d', a) := f d in (d', Ok a)).
Proof. unfold query. by intros ->. Qed.

Lemma leased_ok id lt s f d c :
  faults d = [] → domains d !! id = Some c → held lt s c = true →
  leased id lt s f d = (with_domains (<[id := f (db_now d) c]> (domains d)) d, Ok ()).
Proof.
  intros Hf Hc Hh. unfold leased, mbind, update_row. rewrite query_ok by done. by rewrite Hc, Hh.
Qed.

Lemma ingress_ok pid d g :
  faults d = [] → head (sort_by ingress_before (filter (λ g, ingress_ready pid g = true) (gateways d))) = Some g →
  GetActiveProjectGatewayIngress pid d = (d, Ok (mkIngress (GwExternalID g) (default "" (GwTargetGroupARN g)))).
Proof. intros Hf Hg. unfold GetActiveProjectGatewayIngress, mbind. rewrite query_ok by done. by rewrite Hg. Qed.

(** A claim takes some row that is queued, due and unlocked, if there is one. *)
Lemma claim_takes_queued worker w :
  faults (store w) = [] →
  (∃ id c, domains (store w) !! id = Some c ∧ claimable (db_now (store w)) (app_now w - 5 * minute) c = true ∧
     (ID c = id →
      claim worker w =
       (let c' := lease_row (db_now (store w)) worker (supply (store w)) c in
        (mkWorld (mkDB (<[id := c']> (domains (store w))) (gateways (store w)) (db_now (store w))
                    (S (supply (store w))) []) (events w) (app_now w),
         Ok (Some (scanProvisioningJobRow c')))))) ∨
  ((∀ id c, domains (store w) !! id = Some c → claimable (db_now (store w)) (app_now w - 5 * minute) c = false) ∧
   claim worker w =
     (mkWorld (mkDB (domains (store w)) (gateways (store w)) (db_now (store w)) (S (supply (store w))) [])
        (events w) (app_now w), Ok None)).
Proof.
  intros Hf. unfold claim, repo, ClaimNextProvisioningJob.
  change (5 * minute <=? 0)%Z with false. cbv iota. rewrite query_ok by done.
  cbn [domains db_now supply gateways faults].
  pose proof (next_job_spec (db_now (store w)) (app_now w - 5 * minute) (domains (store w))) as Hspec.
  destruct (next_job _ _ _) as [c|]; [left|right].
  - destruct Hspec as ([id Hc] & Hcl & _). exists id, c. split_and!; [done..|]. intros <-. by rewrite Hf.
  - split; [done|]. by rewrite Hf.
Qed.

Lemma CalculateRetryDelay_bounds n : (15 * second ≤ CalculateRetryDelay n ≤ 5 * minute)%Z.
Proof. unfold CalculateRetryDelay, minute. repeat case_match; unfold second; lia. Qed.

(** When a call to AWS fails, a terminal error fails the provisioning and
    takes the job off the queue, a transient one leaves the status and schedules
    the next attempt 15 seconds to 5 minutes from now; either way the attempt is
    counted, the error recorded, the lease given back and no other row touched. *)
Theorem failed_call_outcome job lt s e w c :
  faults (store w) = [] → domains (store w) !! JobID job = Some c → held lt s c = true →
  ∃ c', fail_or_retry job lt s e w =
      (mkWorld (with_domains (<[JobID job := c']> (domains (store w))) (store w)) (events w) (app_now w), Ok ()) ∧
    lease c' = no_lease ∧ rule c' = rule c ∧ certificate c' = certificate c ∧ Status c' = Status c ∧
    ProvisioningAttempts (provisioning c') = (ProvisioningAttempts (provisioning c) + 1)%Z ∧
    ProvisioningError (provisioning c') = Some (ClassifyAWSError e).2 ∧
    match (ClassifyAWSError e).1 with
    | Terminal => pstatus c' = Failed ∧ NextRetryAt (provisioning c') = None
    | Transient => pstatus c' = s ∧ ∃ delay, NextRetryAt (provisioning c') = Some (app_now w + delay)%Z ∧
        delay = CalculateRetryDelay (JobAttempts job + 1) ∧ (15 * second ≤ delay ≤ 5 * minute)%Z
    end.
Proof.
  intros Hf Hc Hh. pose proof Hh as (_ & Hs & _)%held_spec. unfold fail_or_retry.
  destruct (ClassifyAWSError e) as [[] reason]; unfold pbind, now, repo; simpl.
  - unfold ScheduleProvisioningRetry. erewrite leased_ok by done. eexists. split; [done|]. simpl.
    split_and!; try done. eexists. split_and!; try done; apply CalculateRetryDelay_bounds.
  - unfold MarkProvisioningFailed. erewrite leased_ok by done. eexists. split; [done|]. by split_and!.
Qed.

(** ** Progress *)

Section progress.
Context {Cloud : AWS}.
Context (workerID listenerARN : string) (sha256_hex : string → string).
Context (prio_of : string → Z).

(** A cloud that answers every call with success, and gives a host always the same
    rule priority. *)
Record cooperative : Prop := {
  coop_request : ∀ h host tok, ∃ arn, RequestCertificate h host tok = Ok arn ∧ arn ≠ "";
  coop_describe : ∀ h arn, ∃ det, DescribeCertificate h arn = Ok det ∧ issued det ∧
    DetFailureReason det = "" ∧ DetValidationName det ≠ "" ∧ DetValidationValue det ≠ "";
  coop_attach : ∀ h l arn, AttachCertificateToListener h l arn = Ok ();
  coop_rule : ∀ h l host tg, ∃ arn, EnsureHostRule h l host tg 40001 50000 = Ok (arn, prio_of host) ∧
    (40001 ≤ prio_of host ≤ 50000)%Z;
}.

Definition next_status (s : ProvisioningStatus) : ProvisioningStatus :=
  match s with
  | RequestingCertificate => WaitingForValidationRecord
  | WaitingForValidationRecord => WaitingForDNS
  | WaitingForDNS => AttachingCertificate
  | AttachingCertificate => Completed
  | _ => s
  end.

Definition issuing (s : ProvisioningStatus) : bool :=
  match s with
  | RequestingCertificate | WaitingForValidationRecord | WaitingForDNS | AttachingCertificate => true
  | _ => false
  end.

(** The certificate a job in status [s] has been given. *)
Definition has_certificate (s : ProvisioningStatus) (ce : Certificate) : Prop :=
  s = RequestingCertificate ∨
  (∃ arn, CertificateARN ce = Some arn ∧ arn ≠ "") ∧ ManagedByEliteGate ce = true.

(** The project of a row has a gateway that can take its traffic. *)
Definition routable (d : db) (pid : string) : Prop :=
  ∃ g, head (sort_by ingress_before (filter (λ g, ingress_ready pid g = true) (gateways d))) = Some g.

(** No other live row uses the priority. *)
Definition priority_free (id : string) (prio : Z) (m : gmap string t) : Prop :=
  ∀ id' c', m !! id' = Some c' → id' ≠ id → live c' = true → ListenerRulePriority (rule c') ≠ Some prio.

Lemma priority_free_ok id m prio :
  priority_free id prio m → (40001 ≤ prio ≤ 50000)%Z → priority_ok id prio m = true.
Proof.
  intros Hfree Hp. unfold priority_ok. rewrite !andb_true_iff, !Z.leb_le. split; [lia|].
  apply forallb_forall. intros [id' c'] Hin%list_elem_of_In%elem_of_map_to_list.
  destruct (String.eqb_spec id' id) as [->|Hne]; [done|]. destruct (live c') eqn:Hl; [|done].
  by rewrite (bool_decide_eq_false_2 (_ = Some prio)) by by apply (Hfree id').
Qed.

(** What one job does in the presence of cooperation. *)
Record advanced (w : world) (c c' : t) : Prop := {
  adv_status : pstatus c' = next_status (pstatus c);
  adv_id : ID c' = ID c;
  adv_project : ProjectID c' = ProjectID c;
  adv_hostname : Hostname c' = Hostname c;
  adv_rule : rule c' = rule c ∨ ListenerRulePriority (rule c') = Some (prio_of (Hostname c));
  adv_deleted : DeletedAt c' = DeletedAt c;
  adv_lease : lease c' = no_lease;
  adv_due : opt_le (app_now w + pollInterval) (NextRetryAt (provisioning c')) = true;
  adv_certificate : has_certificate (pstatus c') (certificate c');
}.

Lemma issued_not_failed det : issued det → DetStatus det ≠ "FAILED".
Proof. unfold issued. intros H E. by rewrite E in H. Qed.

Lemma has_arn job arn : CertificateARN (JobCertificate job) = Some arn → arn ≠ "" →
  no_arn job = false ∧ job_arn job = arn.
Proof.
  intros H Hne. unfold no_arn, job_arn. rewrite H. split; [by apply String.eqb_neq|done].
Qed.

(** The outcome of a job: its row advanced, nothing else changed. *)
Definition done_with (job : ProvisioningJob) (w : world) (c : t) (o : world * result error unit) : Prop :=
  ∃ c' ev, o = (mkWorld (with_domains (<[JobID job := c']> (domains (store w))) (store w)) ev (app_now w), Ok ()) ∧
    advanced w c c' ∧ (pstatus c' = Completed → Status c' = Active).

Section handlers.
Context (job : ProvisioningJob) (lt : nat) (w : world) (c : t).
Hypothesis Hcoop : cooperative.
Hypothesis Hfaults : faults (store w) = [].
Hypothesis Hrow : domains (store w) !! JobID job = Some c.
Hypothesis Htoken : token c = Some lt.
Hypothesis Hlive : DeletedAt c = None.
Hypothesis Hcurrent : current job c.
Hypothesis Hcert : has_certificate (pstatus c) (certificate c).

Lemma held_now s : pstatus c = s → held lt s c = true.
Proof. intros Hs. by apply held_spec. Qed.

Lemma arn_known : pstatus c ≠ RequestingCertificate →
  ∃ arn, no_arn job = false ∧ job_arn job = arn ∧ CertificateARN (certificate c) = Some arn ∧ arn ≠ "" ∧
    ManagedByEliteGate (JobCertificate job) = true.
Proof.
  intros Hs. destruct Hcurrent as (_ & Hce & _). destruct Hcert as [?|((arn & Ha & Hne) & Hm)]; [done|].
  exists arn. rewrite Hce in Ha, Hm. destruct (has_arn job arn) as [H1 H2]; [done..|].
  by rewrite Hce.
Qed.

Lemma advance_now s p ev :
  pstatus c = s → AdvID p = JobID job → AdvLeaseToken p = lt → AdvExpectedStatus p = s →
  AdvNewStatus p = next_status s → next_status s ≠ Completed →
  opt_le (app_now w + pollInterval) (AdvNextRetryAt p) = true →
  has_certificate (next_status s) (advance_certificate p (certificate c)) →
  done_with job w c (repo (AdvanceProvisioningState p) (mkWorld (store w) ev (app_now w))).
Proof.
  intros Hs H1 H2 H3 H4 Hne Hdue Hc. unfold repo, AdvanceProvisioningState. simpl. rewrite H1, H2, H3.
  erewrite leased_ok; [|done|exact Hrow|by apply held_now]. eexists _, ev. split; [done|]. rewrite H4. split.
  - split; simpl; rewrite ?Hs; try done. by left.
  - simpl. congruence.
Qed.

Lemma requesting_done : pstatus c = RequestingCertificate →
  done_with job w c (handleRequestingCertificate sha256_hex job lt w).
Proof.
  intros Hs. unfold handleRequestingCertificate. destruct (no_arn job) eqn:Hn; simpl.
  - destruct (coop_request Hcoop (events w) (JobHostname job) (GenerateACMIdempotencyToken sha256_hex (JobID job))) as (arn & Hr & Hne).
    unfold pbind, call, now. simpl. rewrite Hr. apply (advance_now RequestingCertificate); simpl; try done.
    + unfold pollInterval, second. lia.
    + right. split; [by exists arn|done].
  - unfold pbind, now. apply (advance_now RequestingCertificate); simpl; try done.
    + unfold pollInterval, second. lia.
    + right. split; [|done]. exists (job_arn job). unfold no_arn, job_arn in *.
      destruct (CertificateARN (JobCertificate job)); [|done]. by apply String.eqb_neq in Hn.
Qed.

Lemma validation_done : pstatus c = WaitingForValidationRecord →
  done_with job w c (handleWaitingForValidationRecord job lt w).
Proof.
  intros Hs. destruct arn_known as (arn & Hn & Ha & Hc & Hne & Hm); [congruence|].
  unfold handleWaitingForValidationRecord. rewrite Hn, Ha.
  destruct (coop_describe Hcoop (events w) arn) as (det & Hd & Hiss & Hf & Hname & Hval).
  pose proof (issued_not_failed _ Hiss) as Hnf. apply String.eqb_neq in Hnf, Hname, Hval.
  unfold pbind at 1, call, now. rewrite Hd. rewrite Hnf, Hf. simpl. unfold pbind. rewrite Hname, Hval. simpl.
  apply (advance_now WaitingForValidationRecord); simpl; try done; [lia|].
  right. destruct Hcurrent as (_ & Hce & _). simpl. rewrite Hce in *. split; [by exists arn|done].
Qed.

Lemma dns_done : pstatus c = WaitingForDNS → done_with job w c (handleWaitingForDNS job lt w).
Proof.
  intros Hs. destruct arn_known as (arn & Hn & Ha & Hc & Hne & Hm); [congruence|].
  unfold handleWaitingForDNS. rewrite Hn, Ha.
  destruct (coop_describe Hcoop (events w) arn) as (det & Hd & Hiss & _).
  unfold pbind at 1, call, now. rewrite Hd. unfold issued in Hiss. unfold pbind. rewrite Hiss.
  apply (advance_now WaitingForDNS); simpl; try done; [unfold pollInterval, second; lia|].
  right. destruct Hcurrent as (_ & Hce & _). simpl. rewrite Hce in *. split; [by exists arn|done].
Qed.

Lemma attaching_done : pstatus c = AttachingCertificate →
  routable (store w) (ProjectID c) → priority_free (JobID job) (prio_of (Hostname c)) (domains (store w)) →
  done_with job w c (handleAttachingCertificate listenerARN job lt w).
Proof.
  intros Hs [g Hg] Hfree. destruct arn_known as (arn & Hn & Ha & Hc & Hne & Hm); [congruence|].
  unfold handleAttachingCertificate. rewrite Hn, Hm, Ha. simpl.
  destruct (coop_describe Hcoop (events w) arn) as (det & Hd & Hiss & _).
  unfold pbind at 1, call at 1. rewrite Hd. unfold issued in Hiss. unfold pbind at 1, now. rewrite Hiss. simpl.
  unfold attach_and_route, pbind at 1, call at 1. rewrite (coop_attach Hcoop). unfold pbind at 1, repo_try. simpl.
  destruct Hcurrent as (_ & Hce & _ & Hho & Hpr). rewrite <-Hpr. erewrite ingress_ok by done.
  unfold pbind, call. simpl. match goal with |- context [EnsureHostRule ?h ?l ?host ?tg _ _] =>
    destruct (coop_rule Hcoop h l host tg) as (ru & He & Hp) end. rewrite He. rewrite <-Hho in Hp |- *.
  unfold repo, MarkProvisioningCompleted, mbind. simpl. rewrite query_ok by done.
  rewrite Hrow, held_now by done. erewrite priority_free_ok by done.
  eexists _, _. split; [done|]. split; [|done]. split; simpl; rewrite ?Hs; try done; [by right|].
  right. rewrite Hce in *. split; [by exists arn|done].
Qed.

Lemma handle_done :
  LeaseToken (JobLease job) = Some lt → issuing (pstatus c) = true →
  routable (store w) (ProjectID c) →
  priority_free (JobID job) (prio_of (Hostname c)) (domains (store w)) →
  done_with job w c (handle listenerARN sha256_hex job w).
Proof.
  intros Hlt Hi Hr Hp. unfold handle. rewrite Hlt. rewrite <-(proj1 Hcurrent).
  remember (pstatus c) as s eqn:Hs in Hi |- *. symmetry in Hs. destruct s; try done.
  - by apply requesting_done.
  - by apply validation_done.
  - by apply dns_done.
  - by apply attaching_done.
Qed.

End handlers.

(** *** The loop *)

(** Both clocks advance by one poll interval. *)
Definition tick (w : world) : world :=
  mkWorld (mkDB (domains (store w)) (gateways (store w)) (db_now (store w) + pollInterval)%Z
             (supply (store w)) (faults (store w))) (events w) (app_now w + pollInterval)%Z.

(** [n] rounds of the worker's loop, a poll interval apart. *)
Fixpoint rounds (n : nat) (w : world) : world :=
  match n with
  | 0 => w
  | S n => rounds n (ProcessNextJob workerID listenerARN sha256_hex (tick w)).1
  end.

(** A row that its next job can work on at the next round. *)
Record runnable (w : world) (c : t) : Prop := {
  run_status : issuing (pstatus c) = true;
  run_lease : lease c = no_lease;
  run_due : opt_le (app_now w + pollInterval) (NextRetryAt (provisioning c)) = true;
  run_certificate : has_certificate (pstatus c) (certificate c);
  run_routable : routable (store w) (ProjectID c);
}.

(** Every queued domain is runnable, none of them a removal, and the priorities of
    the hosts are distinct. *)
Record ready (w : world) : Prop := {
  ready_faults : faults (store w) = [];
  ready_clock : (app_now w ≤ db_now (store w))%Z;
  ready_id id c : domains (store w) !! id = Some c → ID c = id;
  ready_queued id c : domains (store w) !! id = Some c → live c = true → queued (pstatus c) = true → runnable w c;
  ready_rule id c prio : domains (store w) !! id = Some c → live c = true →
    ListenerRulePriority (rule c) = Some prio → prio = prio_of (Hostname c);
  ready_distinct id c id' c' : domains (store w) !! id = Some c → domains (store w) !! id' = Some c' →
    live c = true → live c' = true → id' ≠ id → prio_of (Hostname c') ≠ prio_of (Hostname c);
}.

Lemma opt_le_mono a b o : (a ≤ b)%Z → opt_le a o = true → opt_le b o = true.
Proof. destruct o; simpl; [lia|done]. Qed.

Lemma runnable_later w w' c :
  runnable w c → (app_now w' = app_now w + pollInterval)%Z → gateways (store w') = gateways (store w) → runnable w' c.
Proof.
  intros [H1 H2 H3 H4 H5] Ha Hg. split; try done; [|unfold routable; by rewrite Hg].
  eapply opt_le_mono; [|exact H3]. unfold pollInterval, second in *. lia.
Qed.

(** With a row advanced a ready world is ready for the next round. *)
Lemma ready_advanced w w' id c c' :
  ready w → domains (store w) !! id = Some c → live c = true → issuing (pstatus c) = true → advanced w' c c' →
  domains (store w') = <[id := c']> (domains (store w)) → gateways (store w') = gateways (store w) →
  faults (store w') = [] → app_now w' = (app_now w + pollInterval)%Z → (app_now w' ≤ db_now (store w'))%Z → ready w'.
Proof.
  intros [Hf Hck Hid Hq Hru Hdi] Hc Hl Hi [A1 A2 A3 A4 A5 A6 A7 A8 A9] Hdom Hg Hf' Hnow Hck'.
  pose proof (Hid _ _ Hc) as Hidc.
  assert (Hback : ∀ i x, domains (store w') !! i = Some x → live x = true →
    ∃ y, domains (store w) !! i = Some y ∧ live y = true ∧ Hostname x = Hostname y).
  { intros i x. rewrite Hdom. destruct (decide (i = id)) as [->|Hne]; [rewrite lookup_insert_eq; intros [= <-]; by exists c|].
    rewrite lookup_insert_ne by done. intros Hx. by exists x. }
  split; try done.
  - intros i x. rewrite Hdom. destruct (decide (i = id)) as [->|Hne]; [rewrite lookup_insert_eq; intros [= <-]; congruence|].
    rewrite lookup_insert_ne by done. apply Hid.
  - intros i x. rewrite Hdom. destruct (decide (i = id)) as [->|Hne].
    + rewrite lookup_insert_eq. intros [= <-] _ Hq'. rewrite A1 in Hq'. split; try done.
      * rewrite A1. by destruct (pstatus c).
      * unfold routable. rewrite A3, Hg. eapply (run_routable w), Hq; [exact Hc|done|]. by destruct (pstatus c).
    + rewrite lookup_insert_ne by done. intros Hx Hlx Hqx. eapply runnable_later; [by eapply Hq|done|done].
  - intros i x prio. rewrite Hdom. destruct (decide (i = id)) as [->|Hne].
    + rewrite lookup_insert_eq. intros [= <-] _. rewrite A4. destruct A5 as [->| ->]; [by apply (Hru id)|congruence].
    + rewrite lookup_insert_ne by done. apply Hru.
  - intros i x i' x' Hx Hx' Hlx Hlx' Hne.
    destruct (Hback _ _ Hx Hlx) as (y & Hy & Hly & ->), (Hback _ _ Hx' Hlx') as (y' & Hy' & Hly' & ->). by eapply Hdi.
Qed.

(** A round in which nothing is due. *)
Lemma ready_idle w d ev now :
  ready w → d = mkDB (domains (store w)) (gateways (store w)) (db_now (store w) + pollInterval)%Z (S (supply (store w))) [] →
  now = (app_now w + pollInterval)%Z → ready (mkWorld d ev now).
Proof.
  intros [Hf Hck Hid Hq Hru Hdi] -> ->. split; simpl; try done; [lia|].
  intros id c Hc Hl Hqc. eapply runnable_later; [by eapply Hq|done|done].
Qed.

Lemma ready_due w id c :
  ready w → domains (store w) !! id = Some c → live c = true → issuing (pstatus c) = true →
  claimable (db_now (store (tick w))) (app_now (tick w) - 5 * minute) c = true.
Proof.
  intros Hr Hc Hl Hi. assert (Hqc : queued (pstatus c) = true) by by destruct (pstatus c).
  destruct (ready_queued _ Hr _ _ Hc Hl Hqc) as [_ Hle Hdue _ _]. unfold claimable. simpl. rewrite Hl, Hqc, Hle. simpl.
  rewrite andb_true_r. eapply opt_le_mono; [|exact Hdue]. pose proof (ready_clock _ Hr). lia.
Qed.

(** A round of a ready world advances one domain, if one is left, and the world is
    ready for the next. *)
Lemma round_spec w :
  cooperative → ready w →
  let w' := (ProcessNextJob workerID listenerARN sha256_hex (tick w)).1 in
  ready w' ∧
  ((∃ id c c', domains (store w) !! id = Some c ∧ live c = true ∧ issuing (pstatus c) = true ∧
      domains (store w') = <[id := c']> (domains (store w)) ∧ live c' = true ∧
      pstatus c' = next_status (pstatus c) ∧ (pstatus c' = Completed → Status c' = Active)) ∨
   (∀ id c, domains (store w) !! id = Some c → live c = true → issuing (pstatus c) = false) ∧
   domains (store w') = domains (store w)).
Proof.
  intros Hcoop Hr. cbv zeta. pose proof Hr as [Hf Hck Hid Hq Hru Hdi].
  destruct (claim_takes_queued workerID (tick w) Hf) as [(id & c & Hc & Hcl & Hclaim)|[Hno Hclaim]].
  2: { unfold ProcessNextJob, pbind. rewrite Hclaim. cbn [fst pret]. split; [by eapply ready_idle|]. right. split; [|done].
    intros id c Hc Hl. destruct (issuing (pstatus c)) eqn:Hi; [|done].
    pose proof (ready_due _ _ _ Hr Hc Hl Hi) as Hdue. by rewrite (Hno _ _ Hc) in Hdue. }
  simpl in Hc. specialize (Hclaim (Hid _ _ Hc)).
  assert (live c = true ∧ queued (pstatus c) = true) as [Hl Hqc] by (unfold claimable in Hcl; by split_bool).
  pose proof (Hid _ _ Hc) as Hidc. destruct (Hq _ _ Hc Hl Hqc) as [Hi Hlease Hdue Hcert Hroute].
  apply bool_decide_eq_true in Hl as Hdel. cbv zeta in Hclaim. simpl in Hclaim.
  set (c1 := lease_row _ workerID (supply (store w)) c) in Hclaim.
  set (w1 := mkWorld _ _ _) in Hclaim. set (job := scanProvisioningJobRow c1) in Hclaim.
  assert (Hr1 : domains (store w1) !! id = Some c1) by apply lookup_insert_eq.
  destruct (handle_done job (supply (store w)) w1 c1) as (c' & ev & Hh & Hadv & Hact); try done.
  { by rewrite <-Hidc in Hr1. }
  { simpl. rewrite Hidc. intros i x Hx Hne Hlx Hp. rewrite lookup_insert_ne in Hx by done.
    apply (Hdi id c i x Hc Hx Hl Hlx Hne). by rewrite (Hru _ _ _ Hx Hlx Hp). }
  unfold ProcessNextJob, pbind. rewrite Hclaim, Hh. cbn [fst pret].
  assert (Ha : advanced w1 c c') by by destruct Hadv; split. clear Hadv.
  assert (Hdom : <[JobID job := c']> (domains (store w1)) = <[id := c']> (domains (store w))).
  { simpl. rewrite Hidc. apply insert_insert_eq. }
  split.
  - eapply ready_advanced; [exact Hr|exact Hc|done|done|destruct Ha; by split|exact Hdom|done..|]. simpl. lia.
  - left. exists id, c, c'. split_and!; [done..|exact Hdom| |by apply (adv_status _ _ _ Ha)|done].
    unfold live. by rewrite (adv_deleted _ _ _ Ha).
Qed.

(** ** How many rounds *)

(** The rounds a domain still needs, and all domains together. *)
Definition steps (c : t) : nat :=
  if live c then
    match pstatus c with
    | RequestingCertificate => 4
    | WaitingForValidationRecord => 3
    | WaitingForDNS => 2
    | AttachingCertificate => 1
    | _ => 0
    end
  else 0.
Definition todo (m : gmap string t) : nat := map_fold (λ _ c n, steps c + n) 0 m.

Lemma todo_insert m id c c' : m !! id = Some c → todo (<[id := c']> m) + steps c = todo m + steps c'.
Proof.
  intros Hc. unfold todo. assert (Hcomm : ∀ (j1 j2 : string) (z1 z2 : t) y, j1 ≠ j2 →
    steps z1 + (steps z2 + y) = steps z2 + (steps z1 + y)) by (intros; lia).
  rewrite (map_fold_delete_L _ _ id c m); [|by intros; lia|done].
  rewrite (map_fold_delete_L _ _ id c' (<[id := c']> m)); [|by intros; lia|apply lookup_insert_eq].
  rewrite delete_insert_eq. lia.
Qed.

Lemma todo_positive m id c : m !! id = Some c → steps c ≤ todo m.
Proof.
  intros Hc. unfold todo. rewrite (map_fold_delete_L _ _ id c m); [lia|by intros; lia|done].
Qed.

Lemma todo_bound m : todo m ≤ 4 * size m.
Proof.
  induction m as [|id c m Hn IH] using map_ind; [done|]. rewrite map_size_insert_None by done. unfold todo in *.
  rewrite map_fold_insert_L; [|by intros; lia|done].
  assert (steps c ≤ 4) by (unfold steps; destruct (live c); [destruct (pstatus c); lia|lia]). lia.
Qed.

(** Under way, or brought to its end. *)
Definition on_its_way (c : t) : Prop :=
  live c = true ∧ (issuing (pstatus c) = true ∨ pstatus c = Completed ∧ Status c = Active).


End progress.

End Progress.
