(* ===== verification/Scenario.v ===== *)
(** * Concrete runs of the custom-domain machinery

    The step relation of [Lifecycle] as an executable interpreter, sound for it,
    and runs that show that the hypotheses of the theorems on reachable states
    hold of real histories. *)

From S2P Require Import Prelude GoStrings Model CustomDomain Provisioner DomainSystem Lifecycle.
From S2P Require Import Guarantees Progress.

Module Scenario.
Import CustomDomain Provisioner DomainSystem Lifecycle Guarantees Progress.

(** ** The interpreter *)

Inductive action :=
| ARequest (q : request)
| AClaim (worker : string)
| AHandle (i : nat)
| ACrash (i : nat)
| AWait (dt : Z).

Definition admissibleb (q : request) : bool :=
  match q with
  | ReqCreate c => bool_decide (pstatus c = NotStarted) && bool_decide (Status c = PendingVerification)
  | ReqRetry _ _ target =>
      queued target && negb (bool_decide (target = WaitingForCertificate)) &&
      negb (bool_decide (target = Deprovisioning))
  | _ => true
  end.

Lemma admissibleb_sound q : admissibleb q = true → admissible q.
Proof.
  destruct q; simpl; try done.
  - by rewrite andb_true_iff, !bool_decide_eq_true.
  - rewrite !andb_true_iff, !negb_true_iff, !bool_decide_eq_false. intros [[? ?] ?]. by repeat split.
Qed.

Section interpreter.
Context {Cloud : AWS}.
Context (listenerARN : string) (sha256_hex : string → string).

Definition drop_job (i : nat) (js : list ProvisioningJob) : list ProvisioningJob :=
  take i js ++ drop (S i) js.

Definition exec (a : action) (s : sys) : option sys :=
  let '(mkSys w js) := s in
  match a with
  | ARequest q =>
      if admissibleb q then Some (mkSys (with_store (run_request q (store w)).1 w) js) else None
  | AClaim worker =>
      let '(w', r) := claim worker w in
      Some (mkSys w' (match r with Ok (Some job) => js ++ [job] | _ => js end))
  | AHandle i =>
      match js !! i with
      | Some job => Some (mkSys (handle listenerARN sha256_hex job w).1 (drop_job i js))
      | None => None
      end
  | ACrash i => match js !! i with Some _ => Some (mkSys w (drop_job i js)) | None => None end
  | AWait dt =>
      Some (mkSys (mkWorld (mkDB (domains (store w)) (gateways (store w)) (db_now (store w) + dt)%Z
                              (supply (store w)) (faults (store w))) (events w) (app_now w + dt)%Z) js)
  end.

Fixpoint exec_all (l : list action) (s : sys) : option sys :=
  match l with
  | [] => Some s
  | a :: l => match exec a s with Some s' => exec_all l s' | None => None end
  end.

Lemma exec_worker a s s' :
  (∀ q, a ≠ ARequest q) → exec a s = Some s' → worker_step listenerARN sha256_hex s s'.
Proof.
  destruct s as [w js]. destruct a as [q|worker|i|i|dt]; intros Hn; simpl.
  - by destruct (Hn q).
  - destruct (claim worker w) as [w' r] eqn:Hc. intros [= <-].
    destruct r as [[job|]|e]; [by eapply step_claim|by eapply step_claim_none..].
  - destruct (js !! i) as [job|] eqn:Hi; [|done]. intros [= <-].
    destruct (handle listenerARN sha256_hex job w) as [w' r] eqn:Hh.
    rewrite <-(take_drop_middle _ _ _ Hi) at 1. by eapply step_handle.
  - destruct (js !! i) as [job|] eqn:Hi; [|done]. intros [= <-].
    rewrite <-(take_drop_middle _ _ _ Hi) at 1. apply step_crash.
  - intros [= <-]. apply step_env.
Qed.

Lemma exec_sound a s s' : exec a s = Some s' → step listenerARN sha256_hex s s'.
Proof.
  destruct a as [q|worker|i|i|dt]; try (intros H; eapply step_worker, exec_worker; [|exact H]; by intros).
  destruct s as [w js]. simpl.
  destruct (admissibleb q) eqn:Hq; [|done]. intros [= <-]. destruct (run_request q (store w)) as [d r] eqn:Hr.
  by eapply step_request; [apply admissibleb_sound|].
Qed.

Lemma exec_all_reachable l s s' :
  reachable listenerARN sha256_hex s → exec_all l s = Some s' → reachable listenerARN sha256_hex s'.
Proof.
  revert s. induction l as [|a l IH]; intros s Hs; simpl; [by intros [= <-]|].
  destruct (exec a s) as [s1|] eqn:He; [|done]. apply IH. eapply reachable_step; [exact Hs|by eapply exec_sound].
Qed.

End interpreter.

(** ** A cloud and a domain *)

Definition sample_details : CertificateDetails :=
  mkDetails "ISSUED" "_x.app.acme.io" "_y.acm.aws" (Some 5%Z) "".

#[local] Instance sample_cloud : AWS := {
  RequestCertificate _ host _ := Ok ("arn:cert:" +:+ host)%string;
  DescribeCertificate _ _ := Ok sample_details;
  DeleteCertificate _ _ := Ok ();
  AttachCertificateToListener _ _ _ := Ok ();
  DetachCertificateFromListener _ _ _ := Err (mkAWSError ResourceNotFound "gone");
  EnsureHostRule _ _ _ _ _ _ := Ok ("arn:rule:1", 40001%Z);
  DeleteGatewayHostRule _ _ := Ok ();
}.

Definition sample_gateway : GatewayRow :=
  mkGateway "p1" "gw-1" "dedicated" "active" "completed" (Some "arn:tg:1") (Some 1%Z) 1 None.

Definition sample_domain (id host : string) : t :=
  mk id "p1" host PendingVerification None 0 0 None (mkVerification "h" "_eg" None None None)
    (mkRouting None RoutingPending None None) (mkCertificate None None false None None None None None)
    (mkProvisioning NotStarted None None None None 0 None) (mkRule None None) no_lease.

Definition sample_start : sys := mkSys (mkWorld (mkDB ∅ [sample_gateway] 0 0 []) [] 0) [].

Abbreviation run_all l := (exec_all "arn:listener" id l).

(** Registration, verification, routing check, enqueueing. *)
Definition sample_register (id host : string) : list action :=
  [ARequest (ReqCreate (sample_domain id host)); ARequest (ReqVerified id "p1");
   ARequest (ReqRouting id "p1" RoutingReady "lb" None); ARequest (ReqProvision id "p1")].

Definition sample_round : list action := [AWait (30 * second); AClaim "w1"; AHandle 0].

Definition sample_issue : list action :=
  sample_register "d1" "App.acme.io" ++ sample_round ++ sample_round ++ sample_round ++ sample_round.

Definition sample_remove : list action :=
  sample_issue ++ [ARequest (ReqDeprovision "d1" "p1")] ++ sample_round.

(** Two domains; a worker loses the lease of the first to another after six
    minutes. *)
Definition sample_lost : list action :=
  sample_register "d1" "App.acme.io" ++ [AClaim "w1"; AWait (6 * minute); AClaim "w2"] ++
  sample_register "d2" "web.acme.io".

Definition sample_state (l : list action) : sys := default sample_start (run_all l sample_start).

Lemma history_reachable l s : run_all l sample_start = Some s → reachable "arn:listener" id s.
Proof. intros H. eapply exec_all_reachable; [|exact H]. apply reachable_init, initial_intro. Qed.

Definition sample_row (l : list action) (id : string) : t :=
  default (sample_domain id "") (rows (sample_state l) !! id).

Lemma sample_state_reachable l : is_Some (run_all l sample_start) → reachable "arn:listener" id (sample_state l).
Proof. intros [s Hs]. unfold sample_state. rewrite Hs. by apply (history_reachable l). Qed.

Lemma is_Some_bool {A} (o : option A) : match o with Some _ => true | None => false end = true → is_Some o.
Proof. destruct o; [eauto|done]. Qed.

Lemma sample_issue_reachable : reachable "arn:listener" id (sample_state sample_issue).
Proof. apply sample_state_reachable, is_Some_bool. vm_compute. reflexivity. Qed.
Lemma sample_remove_reachable : reachable "arn:listener" id (sample_state sample_remove).
Proof. apply sample_state_reachable, is_Some_bool. vm_compute. reflexivity. Qed.
Lemma sample_lost_reachable : reachable "arn:listener" id (sample_state sample_lost).
Proof. apply sample_state_reachable, is_Some_bool. vm_compute. reflexivity. Qed.

Lemma sample_issue_row : rows (sample_state sample_issue) !! "d1" = Some (sample_row sample_issue "d1").
Proof. vm_compute. reflexivity. Qed.
Lemma sample_remove_row : rows (sample_state sample_remove) !! "d1" = Some (sample_row sample_remove "d1").
Proof. vm_compute. reflexivity. Qed.
Lemma sample_lost_row id :
  id = "d1" ∨ id = "d2" → rows (sample_state sample_lost) !! id = Some (sample_row sample_lost id).
Proof. intros [-> | ->]; vm_compute; reflexivity. Qed.

(** ** Witnesses *)

Lemma completed_domain_confirmed_witness :
  pstatus (sample_row sample_issue "d1") = Completed ∧
  confirmed "arn:listener" (log (sample_state sample_issue)) (sample_row sample_issue "d1").
Proof.
  split; [vm_compute; reflexivity|].
  apply (completed_domain_confirmed "arn:listener" id _ "d1");
    [apply sample_issue_reachable|apply sample_issue_row|vm_compute; reflexivity].
Defined.

Lemma deleted_domain_released_witness :
  is_Some (DeletedAt (sample_row sample_remove "d1")) ∧
  released "arn:listener" (log (sample_state sample_remove)) (sample_row sample_remove "d1").
Proof.
  assert (H : is_Some (DeletedAt (sample_row sample_remove "d1")))
    by (apply is_Some_bool; vm_compute; reflexivity).
  split; [exact H|]. revert H.
  apply (deleted_domain_released "arn:listener" id _ "d1");
    [apply sample_remove_reachable|apply sample_remove_row].
Defined.

Lemma aws_calls_in_order_witness :
  length (log (sample_state sample_remove)) = 9 ∧ log_ok "arn:listener" (log (sample_state sample_remove)).
Proof.
  split; [vm_compute; reflexivity|].
  apply (aws_calls_in_order "arn:listener" id). apply sample_remove_reachable.
Defined.

Lemma live_rows_distinct_witness :
  DeletedAt (sample_row sample_lost "d1") = None ∧ DeletedAt (sample_row sample_lost "d2") = None ∧
  GoStrings.ToLower (Hostname (sample_row sample_lost "d1")) ≠
    GoStrings.ToLower (Hostname (sample_row sample_lost "d2")).
Proof.
  split; [vm_compute; reflexivity|]. split; [vm_compute; reflexivity|].
  apply (live_rows_distinct "arn:listener" id (sample_state sample_lost) "d1" "d2");
    [apply sample_lost_reachable|apply sample_lost_row; auto|apply sample_lost_row; auto|discriminate
    |vm_compute; reflexivity|vm_compute; reflexivity].
Defined.

Definition sample_job (i : nat) : ProvisioningJob :=
  default (scanProvisioningJobRow (sample_domain "" "")) (jobs (sample_state sample_lost) !! i).

Lemma at_most_one_worker_writes_witness :
  JobID (sample_job 0) = "d1" ∧ JobID (sample_job 1) = "d1" ∧
  ((∀ w' r, handle "arn:listener" id (sample_job 0) (sw (sample_state sample_lost)) = (w', r) →
      domains (store w') = rows (sample_state sample_lost)) ∨
   (∀ w' r, handle "arn:listener" id (sample_job 1) (sw (sample_state sample_lost)) = (w', r) →
      domains (store w') = rows (sample_state sample_lost))).
Proof.
  split; [vm_compute; reflexivity|]. split; [vm_compute; reflexivity|].
  apply (at_most_one_worker_writes "arn:listener" id (sample_state sample_lost) [] _ [] _ []);
    [apply sample_lost_reachable|vm_compute; reflexivity|vm_compute; reflexivity].
Defined.

(** The state in which a fresh registration is claimed. *)
Definition sample_claimed : sys := sample_state (sample_register "d1" "App.acme.io").

Lemma claim_takes_first_due_witness :
  ∃ w' job c, claim "w1" (sw sample_claimed) = (w', Ok (Some job)) ∧
    rows sample_claimed !! JobID job = Some c ∧
    claimable (db_now (store (sw sample_claimed))) (app_now (sw sample_claimed) - 5 * minute) c = true.
Proof.
  destruct (claim "w1" (sw sample_claimed)) as [w' r] eqn:Hc.
  assert (Hr : ∃ job, r = Ok (Some job)).
  { assert (E : (claim "w1" (sw sample_claimed)).2 = r) by (rewrite Hc; reflexivity).
    rewrite <-E. vm_compute. eexists. reflexivity. }
  destruct Hr as [job ->]. exists w', job.
  destruct (claim_takes_first_due "arn:listener" id sample_claimed "w1" w' job) as (c & lt & H1 & H2 & _);
    [apply sample_state_reachable, is_Some_bool; vm_compute; reflexivity|exact Hc|].
  exists c. auto.
Defined.

Lemma status_follows_state_machine_witness :
  ∃ c', rows (sample_state (sample_issue ++ [ARequest (ReqDeprovision "d1" "p1")])) !! "d1" = Some c' ∧
    (control_edge Completed (pstatus c') ∨ worker_edge Completed (pstatus c')).
Proof.
  destruct (status_follows_state_machine "arn:listener" id (sample_state sample_issue)
    (sample_state (sample_issue ++ [ARequest (ReqDeprovision "d1" "p1")])) "d1" (sample_row sample_issue "d1"))
    as (c' & H1 & _ & _ & H2 & _).
  - apply sample_issue_reachable.
  - apply (exec_sound _ _ (ARequest (ReqDeprovision "d1" "p1"))). vm_compute. reflexivity.
  - apply sample_issue_row.
  - exists c'. split; [exact H1|exact H2].
Defined.

Definition sample_throttled : aws_error := mkAWSError Throttling "Rate exceeded".

Lemma failed_call_outcome_witness :
  ∃ c', fail_or_retry (sample_job 1) 1 RequestingCertificate sample_throttled (sw (sample_state sample_lost)) =
      (mkWorld (with_domains (<["d1" := c']> (rows (sample_state sample_lost)))
         (store (sw (sample_state sample_lost)))) (log (sample_state sample_lost))
         (app_now (sw (sample_state sample_lost))), Ok ()) ∧
    pstatus c' = RequestingCertificate.
Proof.
  destruct (failed_call_outcome (sample_job 1) 1 RequestingCertificate sample_throttled
    (sw (sample_state sample_lost)) (sample_row sample_lost "d1")) as (c' & H1 & _ & _ & _ & _ & _ & _ & H2).
  - vm_compute. reflexivity.
  - apply (sample_lost_row "d1"). auto.
  - vm_compute. reflexivity.
  - assert (E : (ClassifyAWSError sample_throttled).1 = Transient) by (vm_compute; reflexivity).
    rewrite E in H2. destruct H2 as [H2 _]. exists c'. split; [exact H1|exact H2].
Defined.

(** A cloud with a rule priority per host, and two domains that were enqueued. *)
Definition sample_priority (host : string) : Z := if String.eqb host "web.acme.io" then 40002 else 40001.
#[local] Instance busy_cloud : AWS := {
  RequestCertificate _ host _ := Ok ("arn:cert:" +:+ host)%string;
  DescribeCertificate _ _ := Ok sample_details;
  DeleteCertificate _ _ := Ok ();
  AttachCertificateToListener _ _ _ := Ok ();
  DetachCertificateFromListener _ _ _ := Ok ();
  EnsureHostRule _ _ host _ _ _ := Ok ("arn:rule:" +:+ host, sample_priority host)%string;
  DeleteGatewayHostRule _ _ := Ok ();
}.

Lemma busy_cooperative : cooperative (Cloud := busy_cloud) sample_priority.
Proof.
  split; intros; simpl; try (eexists; split; [reflexivity|done]).
  - done.
  - eexists. split; [reflexivity|]. unfold sample_priority. destruct (String.eqb _ _); lia.
Qed.

Definition two_enqueued : world :=
  sw (sample_state (sample_register "d1" "App.acme.io" ++ sample_register "d2" "web.acme.io")).
Definition enqueued_row (id : string) : t := default (sample_domain id "") (domains (store two_enqueued) !! id).

Lemma lookup_two {V} (m : gmap string V) i j x y k v :
  m = <[i := x]> (<[j := y]> ∅) → m !! k = Some v → k = i ∧ v = x ∨ k = j ∧ v = y.
Proof.
  intros -> [[<- <-]|[_ [[<- <-]|[_ H]]%lookup_insert_Some]]%lookup_insert_Some; [by left|by right|].
  by rewrite lookup_empty in H.
Qed.

Lemma two_enqueued_rows id c :
  domains (store two_enqueued) !! id = Some c → (id = "d1" ∨ id = "d2") ∧ c = enqueued_row id.
Proof.
  intros H. apply (lookup_two _ "d1" "d2" (enqueued_row "d1") (enqueued_row "d2")) in H;
    [|vm_compute; reflexivity].
  destruct H as [[-> ->]|[-> ->]]; (split; [|reflexivity]); [by left|by right].
Qed.

Lemma two_enqueued_ready : ready sample_priority two_enqueued.
Proof.
  split.
  - vm_compute. reflexivity.
  - vm_compute. discriminate.
  - intros id c [[-> | ->] ->]%two_enqueued_rows; vm_compute; reflexivity.
  - intros id c [[-> | ->] ->]%two_enqueued_rows _ _;
      (split; [vm_compute; reflexivity..|left; vm_compute; reflexivity|exists sample_gateway; vm_compute; reflexivity]).
  - intros id c prio [[-> | ->] ->]%two_enqueued_rows _ H; vm_compute in H; discriminate H.
  - intros i c i' c' [[-> | ->] ->]%two_enqueued_rows [[-> | ->] ->]%two_enqueued_rows _ _ Hne;
      first [by destruct Hne|vm_compute; discriminate].
Qed.


End Scenario.
