(* ===== verification/EndToEnd.v ===== *)
(** * From the custom domain to the gateway

    The control plane hands the gateway of a project the domains
    [ListEligibleSyncDomains] selects; the loader's reload turns them into the
    map by which the gateway recognises hosts.  What the two guarantee together,
    over the reachable states of [Lifecycle]. *)

From S2P Require Import Prelude GoStrings Model Http Auth Loader.
From S2P Require Import CustomDomain Provisioner DomainSystem Lifecycle Scenario.

Module EndToEnd.
Import CustomDomain Provisioner DomainSystem Lifecycle.

Lemma elem_of_insert_by {A} (le : A → A → bool) (x y : A) l : y ∈ insert_by le x l ↔ y = x ∨ y ∈ l.
Proof.
  induction l as [|z l IH]; simpl; [by rewrite list_elem_of_singleton, elem_of_nil; tauto|].
  destruct (le z x); rewrite !elem_of_cons, ?IH; tauto.
Qed.

Lemma elem_of_sort_by {A} (le : A → A → bool) (y : A) l : y ∈ sort_by le l ↔ y ∈ l.
Proof.
  induction l as [|x l IH]; simpl; [done|]. by rewrite elem_of_insert_by, IH, elem_of_cons.
Qed.

(** The rows a sync hands out. *)
Lemma synced_spec pid d d' cds cd :
  ListEligibleSyncDomains pid d = (d', Ok cds) →
  cd ∈ cds ↔ ∃ id c, domains d !! id = Some c ∧ sync_eligible pid c = true ∧
    cd = CustomDomainSync.mk (Hostname c) (status_string (Status c))
           (routing_string (Routing_status (routing c))).
Proof.
  intros [(? & _ & _)|(fs & a & Hf & E)]%query_spec; [done|]. injection E as ->. injection Hf as _ <-.
  simpl. rewrite list_elem_of_fmap. split.
  - intros (c & -> & [He [id Hc]%elem_of_rows]%elem_of_sort_by%list_elem_of_filter). eauto.
  - intros (id & c & Hc & He & ->). exists c. split; [done|].
    apply elem_of_sort_by, list_elem_of_filter. split; [done|]. apply elem_of_rows. eauto.
Qed.

Lemma sync_eligible_spec pid c :
  sync_eligible pid c = true ↔
  ProjectID c = pid ∧ DeletedAt c = None ∧ Status c = Active ∧ Routing_status (routing c) = RoutingReady.
Proof.
  unfold sync_eligible, in_project, live. rewrite !andb_true_iff, !bool_decide_eq_true, String.eqb_eq. tauto.
Qed.

Section end_to_end.
Context {Cloud : AWS}.
Context (listenerARN : string) (sha256_hex : string → string).
Context (GetSecret : option (string → string → result string string)).
Context (redis_prefix : string).
Context (iter : gmap string Loader.UpstreamPool → list (string * Loader.UpstreamPool)).
Context (projectID : string).

(** C9: after a reload with the domains the control plane selected, a host the
    gateway recognises is, up to spelling, the hostname of a live, active domain
    of the project whose certificate, attachment and listener rule AWS confirmed
    to the worker; and every live, active domain with ready routing is
    recognised under its hostname. *)
Theorem gateway_serves_confirmed_domains s d' cds env snap l l' host :
  reachable listenerARN sha256_hex s →
  ListEligibleSyncDomains projectID (store (sw s)) = (d', Ok cds) →
  Loader.SnapCustomDomains snap = cds →
  Loader.reload GetSecret redis_prefix iter projectID env (Ok snap) l = (l', Ok ()) →
  Loader.NormalizeHost host ≠ "" →
  (is_Some (Loader.LookupDomain (Loader.Current l') host) ↔
   ∃ id c, rows s !! id = Some c ∧ DeletedAt c = None ∧ ProjectID c = projectID ∧ Status c = Active ∧
     Routing_status (routing c) = RoutingReady ∧
     Loader.NormalizeHost (Hostname c) = Loader.NormalizeHost host) ∧
  (is_Some (Loader.LookupDomain (Loader.Current l') host) →
   ∃ id c, rows s !! id = Some c ∧ DeletedAt c = None ∧ ProjectID c = projectID ∧
     Loader.NormalizeHost (Hostname c) = Loader.NormalizeHost host ∧
     confirmed listenerARN (log s) c).
Proof.
  intros Hreach Hsync Hsnap Hload Hne. apply Loader.reload_domain_map in Hload.
  assert (Hiff : is_Some (Loader.LookupDomain (Loader.Current l') host) ↔
    ∃ id c, rows s !! id = Some c ∧ DeletedAt c = None ∧ ProjectID c = projectID ∧ Status c = Active ∧
      Routing_status (routing c) = RoutingReady ∧
      Loader.NormalizeHost (Hostname c) = Loader.NormalizeHost host).
  { rewrite Loader.LookupDomain_map, Hload, Loader.domain_map_known, Hsnap. split.
    - intros (cd & Hin & _ & Hn). apply (synced_spec _ _ _ _ _ Hsync) in Hin as (id & c & Hc & He & ->).
      apply sync_eligible_spec in He. exists id, c. tauto.
    - intros (id & c & Hc & Hd & Hp & Hs & Hr & Hn).
      exists (CustomDomainSync.mk (Hostname c) (status_string (Status c))
        (routing_string (Routing_status (routing c)))). split; [|split; [|exact Hn]].
      + apply (synced_spec _ _ _ _ _ Hsync). exists id, c. split; [done|]. split; [|done].
        by apply sync_eligible_spec.
      + unfold Loader.routed. cbn [CustomDomainSync.Hostname CustomDomainSync.Status
          CustomDomainSync.RoutingStatus]. rewrite Hs, Hr, Hn. apply String.eqb_neq in Hne. by rewrite Hne. }
  split; [done|]. intros (id & c & Hc & Hd & Hp & Hs & _ & Hn)%Hiff. exists id, c.
  split_and!; try done. apply (ok_active _ _ _ _ _ (inv_rows _ _ (reachable_inv _ _ _ Hreach) _ _ Hc) Hs).
Qed.

End end_to_end.

(** ** A concrete run *)

Definition sample_synced : list CustomDomainSync.t := [CustomDomainSync.mk "App.acme.io" "active" "ready"].
Definition sample_snap : Loader.TenantSnapshot := Loader.mkTenantSnapshot [] [] ∅ [] sample_synced None.
Definition sample_env : KeyStore.env := KeyStore.mkEnv 0 false false false None.

Lemma gateway_serves_confirmed_domains_witness :
  ∃ id c, rows (Scenario.sample_state Scenario.sample_issue) !! id = Some c ∧ DeletedAt c = None ∧
    ProjectID c = "p1" ∧ Loader.NormalizeHost (Hostname c) = Loader.NormalizeHost "app.ACME.io:443" ∧
    confirmed "arn:listener" (log (Scenario.sample_state Scenario.sample_issue)) c.
Proof.
  refine (proj2 (gateway_serves_confirmed_domains "arn:listener" id None "" map_to_list "p1"
    (Scenario.sample_state Scenario.sample_issue) (store (sw (Scenario.sample_state Scenario.sample_issue)))
    sample_synced sample_env sample_snap Loader.NewLoader
    (Loader.reload None "" map_to_list "p1" sample_env (Ok sample_snap) Loader.NewLoader).1
    "app.ACME.io:443" _ _ _ _ _) _).
  - apply Scenario.sample_issue_reachable.
  - vm_compute. reflexivity.
  - reflexivity.
  - vm_compute. reflexivity.
  - vm_compute. discriminate.
  - eexists. vm_compute. reflexivity.
Defined.

End EndToEnd.
