(* ===== verification/DomainService.v ===== *)
(** * The custom-domain service of the control plane

    [src/internal/admin/service/custom_domain_service.go].  A method of the
    service is a program that calls the repository and the DNS resolver and may
    be interleaved with everything else between two calls, so it is a tree of
    calls ([prog]) and not a function on the database.  The interfaces
    [CustomDomainRepository] and [DNSResolver] are the calls of that tree.
    SHA-256 and the random source are parameters. *)

From Stdlib Require Import Ascii.
From S2P Require Import Prelude GoStrings Model Hostname CustomDomain.

(** ** [encoding/base64], [RawURLEncoding.EncodeToString] *)

Definition base64url_alphabet : string :=
  "ABCDEFGHIJKLMNOPQRSTUVWXYZabcdefghijklmnopqrstuvwxyz0123456789-_".

Definition base64url_digit (n : N) : ascii :=
  default "A"%char (String.get (N.to_nat (n mod 64)) base64url_alphabet).

(** Three bytes give four digits; a rest of one or two bytes gives two or three
    digits and no padding. *)
Fixpoint RawURLEncode (s : string) : string :=
  match s with
  | String a (String b (String c s')) =>
      let v := (65536 * N_of_ascii a + 256 * N_of_ascii b + N_of_ascii c)%N in
      String (base64url_digit (v / 262144)) (String (base64url_digit (v / 4096))
        (String (base64url_digit (v / 64)) (String (base64url_digit v) (RawURLEncode s'))))
  | String a (String b EmptyString) =>
      let v := (65536 * N_of_ascii a + 256 * N_of_ascii b)%N in
      String (base64url_digit (v / 262144)) (String (base64url_digit (v / 4096))
        (String (base64url_digit (v / 64)) EmptyString))
  | String a EmptyString =>
      let v := (65536 * N_of_ascii a)%N in
      String (base64url_digit (v / 262144)) (String (base64url_digit (v / 4096)) EmptyString)
  | EmptyString => EmptyString
  end.

Module DomainService.
Import CustomDomain.

(** ** Errors and interfaces *)

Inductive svc_error :=
| ErrInvalidCustomDomainHostname
| ErrCustomDomainAlreadyExists
| ErrNotFound                         (* the service's [ErrCustomDomainNotFound] *)
| ErrVerificationRecordNotFound
| ErrVerificationTokenMismatch
| ErrCustomDomainNotVerified
| ErrCNAMERecordNotFound
| ErrCNAMERoutingMismatch
| ErrCustomDomainRoutingNotReady
| ErrAutomationDisabled
| ErrNotEligibleForRetry              (* the service's [ErrDomainNotEligibleForRetry] *)
| ErrRandom                           (* reading random bytes failed *)
| ErrLookup                           (* a DNS failure other than an absent name *)
| Wrapped (e : error).                (* [fmt.Errorf "...: %w"] of a repository error *)

#[global] Instance svc_error_eq_dec : EqDecision svc_error.
Proof. solve_decision. Defined.

(** [net.DNSError] as the service looks at it. *)
Record DNSError := mkDNSError { IsNotFound : bool; DNSText : string }.

(** The methods of [CustomDomainRepository] with their result types. *)
Inductive CustomDomainRepository : Type → Type :=
| CallHostnameExists (hostname : string) : CustomDomainRepository bool
| CallCreate (c : t) : CustomDomainRepository t
| CallGetByIDForProject (id projectID : string) : CustomDomainRepository t
| CallListByProject (projectID : string) : CustomDomainRepository (list t)
| CallMarkVerified (id projectID : string) : CustomDomainRepository t
| CallMarkActive (id projectID : string) : CustomDomainRepository t
| CallRecordVerificationFailure (id projectID reason : string) : CustomDomainRepository unit
| CallSoftDelete (id projectID : string) : CustomDomainRepository unit
| CallUpdateRoutingStatus (id projectID : string) (status : RoutingStatus) (target : string)
    (routingError : option string) : CustomDomainRepository t
| CallEnqueueProvisioning (id projectID : string) : CustomDomainRepository t
| CallResetProvisioningForRetry (id projectID : string) (target : ProvisioningStatus)
    : CustomDomainRepository t
| CallEnqueueDeprovisioning (id projectID : string) : CustomDomainRepository t
| CallMarkDeprovisionFailed (id : string) (leaseToken : nat) (errStr : string)
    : CustomDomainRepository unit
| CallResetDeprovisioningForRetry (id projectID : string) : CustomDomainRepository t
| CallGetActiveProjectGatewayIngress (projectID : string)
    : CustomDomainRepository ProjectGatewayIngress.

(** [storage.CustomDomainRepo] implements the interface. *)
Definition repo_call {X} (c : CustomDomainRepository X) : M X :=
  match c in CustomDomainRepository X return M X with
  | CallHostnameExists h => HostnameExists h
  | CallCreate c => Create c
  | CallGetByIDForProject id pid => GetByIDForProject id pid
  | CallListByProject pid => ListByProject pid
  | CallMarkVerified id pid => MarkVerified id pid
  | CallMarkActive id pid => MarkActive id pid
  | CallRecordVerificationFailure id pid reason => RecordVerificationFailure id pid reason
  | CallSoftDelete id pid => SoftDelete id pid
  | CallUpdateRoutingStatus id pid st target err => UpdateRoutingStatus id pid st target err
  | CallEnqueueProvisioning id pid => EnqueueProvisioning id pid
  | CallResetProvisioningForRetry id pid target => ResetProvisioningForRetry id pid target
  | CallEnqueueDeprovisioning id pid => EnqueueDeprovisioning id pid
  | CallMarkDeprovisionFailed id lt err => MarkDeprovisionFailed id lt err
  | CallResetDeprovisioningForRetry id pid => ResetDeprovisioningForRetry id pid
  | CallGetActiveProjectGatewayIngress pid => GetActiveProjectGatewayIngress pid
  end.

(** A method of the service: its result, or its next call and what it does with
    the reply. *)
Inductive prog (A : Type) : Type :=
| Done (r : result svc_error A)
| Repo {X : Type} (c : CustomDomainRepository X) (k : result error X → prog A)
| LookupTXT (name : string) (k : result DNSError (list string) → prog A)
| LookupCNAME (host : string) (k : result DNSError string → prog A).
#[global] Arguments Done {A} r.
#[global] Arguments Repo {A X} c k.
#[global] Arguments LookupTXT {A} name k.
#[global] Arguments LookupCNAME {A} host k.

Abbreviation ret a := (Done (Ok a)).
Abbreviation fail e := (Done (Err e)).

(** A call and a branch on its error, the pattern [x, err := ...; if err != nil]. *)
Definition try {A X} (c : CustomDomainRepository X) (on_error : error → svc_error) (k : X → prog A)
  : prog A :=
  Repo c (λ r, match r with Ok x => k x | Err e => fail (on_error e) end).

Definition not_found_or_wrapped (e : error) : svc_error :=
  if bool_decide (e = ErrCustomDomainNotFound) then ErrNotFound else Wrapped e.

(** A call whose result the service drops or only logs. *)
Definition ignore {A X} (c : CustomDomainRepository X) (k : prog A) : prog A := Repo c (λ _, k).

(** ** Pure helpers *)

Definition customDomainVerificationTokenBytes : nat := 32.
Definition customDomainVerificationPrefix : string := "elitegate-verification=".
Definition customDomainVerificationRecord : string := "_elitegate-verification".

Definition secureHashEqual (first second : string) : bool :=
  if negb (len first =? len second)%nat then false else String.eqb first second.

Definition normalizeCNAME (cname : string) : string := TrimSuffix (ToLower (TrimSpace cname)) ".".

Definition sanitizeProvisioningError (errStr : string) : string :=
  let s := ToUpper (TrimSpace errStr) in
  if String.eqb s "DOMAIN_VALIDATION_TIMED_OUT" || String.eqb s "VALIDATION_TIMED_OUT"
  then "ACM domain validation timed out"
  else if String.eqb s "FAILURE_REASON_NO_AVAILABLE_CONTACTS"
  then "ACM validation failed: no available contacts"
  else if String.eqb s "FAILURE_REASON_ADDITIONAL_VERIFICATION_REQUIRED"
  then "ACM validation failed: additional verification required"
  else if String.eqb s "REVOKED" then "ACM certificate was revoked"
  else if String.eqb s "EXPIRED" then "ACM certificate expired"
  else if String.eqb s "INACTIVE" then "ACM certificate is inactive"
  else "An error occurred during certificate provisioning. Please retry or contact support.".

(** The content of an optional column, absent and empty alike. *)
Definition filled (o : option string) : bool :=
  match o with Some s => negb (String.eqb s "") | None => false end.

Definition retry_target (c : t) : ProvisioningStatus :=
  if filled (CertificateARN (certificate c)) then
    if negb (filled (ValidationName (certificate c))) then WaitingForValidationRecord
    else if bool_decide (CertificateStatus (certificate c) = Some "issued") then AttachingCertificate
    else WaitingForDNS
  else RequestingCertificate.

(** [domain.ActivationState] and the responses. *)
Inductive ActivationState := ActivationQueued | ActivationInProgress | ActivationAlreadyActive.

Record CreateCustomDomainResponse := mkCreateResponse {
  RespID : string;
  RespProjectID : string;
  RespHostname : string;
  RespStatus : DomainStatus;
  RespRecordName : string;
  RespRecordValue : string;
  RespCreatedAt : Z;
}.

Record ProvisioningStatusResponse := mkStatusResponse {
  PsID : string;
  PsHostname : string;
  PsStatus : DomainStatus;
  PsRoutingStatus : RoutingStatus;
  PsProvisioningStatus : ProvisioningStatus;
  PsCertificateStatus : option string;
  PsValidationName : option string;
  PsValidationValue : option string;
  PsLastError : option string;
  PsAttempts : Z;
  PsNextRetryAt : option Z;
  PsIssuedAt : option Z;
  PsAttachedAt : option Z;
  PsActivatedAt : option Z;
  PsGatewayExternalID : option string;
  PsGatewayType : option string;
  PsHostRoutingActive : bool;
}.

Section service.
(** The configuration of the service, and the hexadecimal SHA-256 digest. *)
Context (gatewayPublicHost : string) (automationEnabled : bool) (sha256_hex : string → string).

Definition hashCustomDomainVerificationToken (token : string) : string := sha256_hex token.

(** [randomBytes] is what [rand.Read] delivers, if it succeeds. *)
Definition generateCustomDomainVerificationToken (randomBytes : option string) : option string :=
  RawURLEncode <$> randomBytes.

(** The token of one TXT record, if the record has the prefix. *)
Definition record_matches (expectedTokenHash txtRecord : string) : bool :=
  let txtRecord := TrimSpace txtRecord in
  if negb (HasPrefix txtRecord customDomainVerificationPrefix) then false
  else
    let token := TrimSpace (TrimPrefix txtRecord customDomainVerificationPrefix) in
    if String.eqb token "" then false
    else secureHashEqual (hashCustomDomainVerificationToken token) expectedTokenHash.

Fixpoint containsMatchingVerificationToken (txtRecords : list string) (expectedTokenHash : string) : bool :=
  match txtRecords with
  | [] => false
  | txtRecord :: rest =>
      if record_matches expectedTokenHash txtRecord then true
      else containsMatchingVerificationToken rest expectedTokenHash
  end.

(** ** Registration and verification *)

(** The row the service fills in: the columns it leaves out are empty, and the
    repository turns an empty provisioning status into [NotStarted]. *)
Definition new_domain (newID projectID hostname tokenHash : string) : t :=
  mk newID projectID hostname PendingVerification None 0 0 None
    (mkVerification tokenHash (customDomainVerificationRecord +:+ "." +:+ hostname) None None None)
    (mkRouting (Some gatewayPublicHost) RoutingPending None None)
    (mkCertificate None None false None None None None None)
    (mkProvisioning NotStarted None None None None 0 None)
    (mkRule None None) no_lease.

Definition CreateCustomDomain (newID : string) (randomBytes : option string)
    (projectID rawHostname : string) : prog CreateCustomDomainResponse :=
  match Hostname.NormalizeHostname rawHostname with
  | Err _ => fail ErrInvalidCustomDomainHostname
  | Ok hostname =>
      try (CallHostnameExists hostname) Wrapped (λ exists_,
      if exists_ : bool then fail ErrCustomDomainAlreadyExists
      else match generateCustomDomainVerificationToken randomBytes with
      | None => fail ErrRandom
      | Some token =>
          let c := new_domain newID projectID hostname (hashCustomDomainVerificationToken token) in
          try (CallCreate c)
            (λ e, if bool_decide (e = ErrHostnameConflict) then ErrCustomDomainAlreadyExists else Wrapped e)
            (λ c, ret (mkCreateResponse (ID c) (ProjectID c) (Hostname c) (Status c)
                         (VerificationRecordName (verification c))
                         (customDomainVerificationPrefix +:+ token) (CreatedAt c)))
      end)
  end.

Definition VerifyCustomDomain (projectID customDomainID : string) : prog t :=
  try (CallGetByIDForProject customDomainID projectID) not_found_or_wrapped (λ c,
  if bool_decide (Status c = Verified) || bool_decide (Status c = Active) then ret c
  else LookupTXT (VerificationRecordName (verification c)) (λ r,
    match r with
    | Err e =>
        if IsNotFound e then
          ignore (CallRecordVerificationFailure (ID c) (ProjectID c) "DNS verification TXT record missing")
            (fail ErrVerificationRecordNotFound)
        else fail ErrLookup
    | Ok txtRecords =>
        if negb (containsMatchingVerificationToken txtRecords (VerificationTokenHash (verification c))) then
          ignore (CallRecordVerificationFailure (ID c) (ProjectID c) "DNS verification token does not match")
            (fail ErrVerificationTokenMismatch)
        else try (CallMarkVerified (ID c) (ProjectID c)) not_found_or_wrapped (λ c, ret c)
    end)).

Definition ListCustomDomains (projectID : string) : prog (list t) :=
  try (CallListByProject projectID) Wrapped (λ l, ret l).

Definition GetCustomDomain (projectID customDomainID : string) : prog t :=
  try (CallGetByIDForProject customDomainID projectID) not_found_or_wrapped (λ c, ret c).

(** ** Removal *)

Definition DeleteCustomDomain (projectID customDomainID : string) : prog t :=
  if negb automationEnabled then fail ErrAutomationDisabled
  else try (CallEnqueueDeprovisioning customDomainID projectID) not_found_or_wrapped (λ c, ret c).

Definition RetryDeprovisioning (projectID customDomainID : string) : prog t :=
  if negb automationEnabled then fail ErrAutomationDisabled
  else
    try (CallGetByIDForProject customDomainID projectID) not_found_or_wrapped (λ c,
    if negb (bool_decide (pstatus c = DeprovisionFailed)) then fail ErrNotEligibleForRetry
    else try (CallResetDeprovisioningForRetry customDomainID projectID) Wrapped (λ c, ret c)).

(** ** Routing *)

Definition CheckCustomDomainRouting (projectID customDomainID : string) : prog t :=
  try (CallGetByIDForProject customDomainID projectID) not_found_or_wrapped (λ c,
  if negb (bool_decide (Status c = Verified)) && negb (bool_decide (Status c = Active))
  then fail ErrCustomDomainNotVerified
  else
    let expectedTarget := normalizeCNAME gatewayPublicHost in
    LookupCNAME (Hostname c) (λ r,
    match r with
    | Err e =>
        ignore (CallUpdateRoutingStatus (ID c) (ProjectID c) RoutingFailed expectedTarget
                  (Some ("DNS CNAME lookup failed: " +:+ DNSText e)))
          (fail ErrCNAMERecordNotFound)
    | Ok resolvedCNAME =>
        let actualTarget := normalizeCNAME resolvedCNAME in
        if negb (String.eqb actualTarget expectedTarget) then
          ignore (CallUpdateRoutingStatus (ID c) (ProjectID c) RoutingFailed expectedTarget
                    (Some ("expected " +:+ expectedTarget +:+ ", got " +:+ actualTarget)))
            (fail ErrCNAMERoutingMismatch)
        else try (CallUpdateRoutingStatus (ID c) (ProjectID c) RoutingReady expectedTarget None) Wrapped
               (λ c, ret c)
    end)).

(** ** Activation *)

Definition performRetry {A} (c : t) (on_error : error → svc_error) (k : t → prog A) : prog A :=
  try (CallResetProvisioningForRetry (ID c) (ProjectID c) (retry_target c)) on_error k.

Definition ActivateCustomDomain (projectID customDomainID : string) : prog (t * ActivationState) :=
  if negb automationEnabled then fail ErrAutomationDisabled
  else
    try (CallGetByIDForProject customDomainID projectID) not_found_or_wrapped (λ c,
    if bool_decide (Status c = Active) || bool_decide (pstatus c = Completed)
    then ret (c, ActivationAlreadyActive)
    else match pstatus c with
    | RequestingCertificate | WaitingForValidationRecord | WaitingForDNS | WaitingForCertificate
    | AttachingCertificate => ret (c, ActivationInProgress)
    | _ =>
        if negb (bool_decide (Status c = Verified)) then fail ErrCustomDomainNotVerified
        else if negb (bool_decide (Routing_status (routing c) = RoutingReady))
        then fail ErrCustomDomainRoutingNotReady
        else if bool_decide (pstatus c = Failed)
        then performRetry c Wrapped (λ c, ret (c, ActivationQueued))
        else try (CallEnqueueProvisioning customDomainID projectID) Wrapped (λ c, ret (c, ActivationQueued))
    end).

Definition RetryProvisioning (projectID customDomainID : string) : prog t :=
  if negb automationEnabled then fail ErrAutomationDisabled
  else
    try (CallGetByIDForProject customDomainID projectID) not_found_or_wrapped (λ c,
    if negb (bool_decide (pstatus c = Failed)) then fail ErrNotEligibleForRetry
    else if negb (bool_decide (Status c = Verified)) then fail ErrCustomDomainNotVerified
    else if negb (bool_decide (Routing_status (routing c) = RoutingReady))
    then fail ErrCustomDomainRoutingNotReady
    else performRetry c Wrapped (λ c, ret c)).

Definition status_response (c : t) (gatewayExternalID : option string) : ProvisioningStatusResponse :=
  let showValidation := bool_decide (pstatus c = WaitingForValidationRecord) ||
                        bool_decide (pstatus c = WaitingForDNS) in
  let hostRoutingActive :=
    match ListenerRuleARN (rule c) with Some a => negb (String.eqb (TrimSpace a) "") | None => false end in
  mkStatusResponse (ID c) (Hostname c) (Status c) (Routing_status (routing c)) (pstatus c)
    (CertificateStatus (certificate c))
    (if showValidation then ValidationName (certificate c) else None)
    (if showValidation then ValidationValue (certificate c) else None)
    (if filled (ProvisioningError (provisioning c))
     then Some (sanitizeProvisioningError (default "" (ProvisioningError (provisioning c)))) else None)
    (ProvisioningAttempts (provisioning c)) (NextRetryAt (provisioning c)) (IssuedAt (certificate c))
    (AttachedAt (certificate c)) (ActivatedAt c) gatewayExternalID
    (if hostRoutingActive then Some "dedicated" else None) hostRoutingActive.

Definition GetProvisioningStatus (projectID customDomainID : string) : prog ProvisioningStatusResponse :=
  try (CallGetByIDForProject customDomainID projectID) not_found_or_wrapped (λ c,
  if PsHostRoutingActive (status_response c None) then
    Repo (CallGetActiveProjectGatewayIngress projectID) (λ r,
      ret (status_response c
        match r with
        | Ok ingress => if negb (String.eqb (TrimSpace (ExternalID ingress)) "")
                        then Some (TrimSpace (ExternalID ingress)) else None
        | Err _ => None
        end))
  else ret (status_response c None)).

End service.

End DomainService.
