(* ===== verification/ControlPlane.v ===== *)
(** * The custom-domain service among its workers

    Any number of calls of the service run at the same time as the workers of
    [Lifecycle]: between two repository calls of a method everything else may
    happen.  The system keeps the answers of the DNS resolver; what the service
    records as verified or routed rests on them. *)

From S2P Require Import Prelude GoStrings Model Hostname CustomDomain Provisioner DomainSystem Lifecycle.
From S2P Require Import DomainService Scenario.

Module ControlPlane.
Import CustomDomain Provisioner DomainSystem Lifecycle DomainService.

(** ** One method alone *)

(** The DNS as one method sees it. *)
Record resolver := mkResolver {
  TXT : string → result DNSError (list string);
  CNAME : string → result DNSError string;
}.

Fixpoint run_prog {A} (dns : resolver) (p : prog A) (d : db) : db * result svc_error A :=
  match p with
  | Done r => (d, r)
  | Repo c k => let '(d', r) := repo_call c d in run_prog dns (k r) d'
  | LookupTXT name k => run_prog dns (k (TXT dns name)) d
  | LookupCNAME host k => run_prog dns (k (CNAME dns host)) d
  end.

(** ** The system *)

(** An answer the resolver gave. *)
Inductive observation :=
| ObsTXT (name : string) (records : list string)
| ObsCNAME (host cname : string).

Inductive task :=
| Task {A : Type} (p : prog A).

Record csys := mkC { core : sys; dns : list observation; tasks : list task }.

Section control_plane.
Context {Cloud : AWS}.
Context (listenerARN : string) (sha256_hex : string → string).
Context (gatewayPublicHost : string) (automationEnabled : bool).

(** The methods of the service, at any arguments. *)
Inductive method : task → Prop :=
| m_create newID rnd pid raw :
    method (Task (CreateCustomDomain gatewayPublicHost sha256_hex newID rnd pid raw))
| m_verify pid id : method (Task (VerifyCustomDomain sha256_hex pid id))
| m_list pid : method (Task (ListCustomDomains pid))
| m_get pid id : method (Task (GetCustomDomain pid id))
| m_delete pid id : method (Task (DeleteCustomDomain automationEnabled pid id))
| m_retry_deprovisioning pid id : method (Task (RetryDeprovisioning automationEnabled pid id))
| m_routing pid id : method (Task (CheckCustomDomainRouting gatewayPublicHost pid id))
| m_activate pid id : method (Task (ActivateCustomDomain automationEnabled pid id))
| m_status pid id : method (Task (GetProvisioningStatus pid id))
| m_retry pid id : method (Task (RetryProvisioning automationEnabled pid id)).

Inductive cstep : csys → csys → Prop :=
| c_begin s D ts t : method t → cstep (mkC s D ts) (mkC s D (ts ++ [t]))
| c_call {A X} w js D l1 (c : CustomDomainRepository X) (k : result error X → prog A) l2 d r :
    repo_call c (store w) = (d, r) →
    cstep (mkC (mkSys w js) D (l1 ++ Task (Repo c k) :: l2))
      (mkC (mkSys (with_store d w) js) D (l1 ++ Task (k r) :: l2))
| c_txt {A} s D l1 name (k : result DNSError (list string) → prog A) l2 r :
    cstep (mkC s D (l1 ++ Task (LookupTXT name k) :: l2))
      (mkC s (D ++ match r with Ok records => [ObsTXT name records] | Err _ => [] end)
         (l1 ++ Task (k r) :: l2))
| c_cname {A} s D l1 host (k : result DNSError string → prog A) l2 r :
    cstep (mkC s D (l1 ++ Task (LookupCNAME host k) :: l2))
      (mkC s (D ++ match r with Ok cname => [ObsCNAME host cname] | Err _ => [] end)
         (l1 ++ Task (k r) :: l2))
| c_end s D l1 t l2 : cstep (mkC s D (l1 ++ t :: l2)) (mkC s D (l1 ++ l2))
| c_worker s s' D ts : worker_step listenerARN sha256_hex s s' → cstep (mkC s D ts) (mkC s' D ts).

Inductive creachable : csys → Prop :=
| creach_init s : initial s → creachable (mkC s [] [])
| creach_step s s' : creachable s → cstep s s' → creachable s'.

(** ** What the service has seen *)

(** A TXT record of the domain's record name carries the token. *)
Definition ownership_proved (D : list observation) (c : t) : Prop :=
  ∃ records, ObsTXT (VerificationRecordName (verification c)) records ∈ D ∧
    containsMatchingVerificationToken sha256_hex records (VerificationTokenHash (verification c)) = true.

(** The domain's CNAME is the public host of the gateways. *)
Definition routing_proved (D : list observation) (c : t) : Prop :=
  ∃ cname, ObsCNAME (Hostname c) cname ∈ D ∧ normalizeCNAME cname = normalizeCNAME gatewayPublicHost.

(** The statuses only a verified domain enters. *)
Definition issuance (s : ProvisioningStatus) : bool :=
  match s with
  | RequestingCertificate | WaitingForValidationRecord | WaitingForDNS | WaitingForCertificate
  | AttachingCertificate | Completed | Failed => true
  | _ => false
  end.

Record proved (D : list observation) (c : t) : Prop := {
  pr_ownership : Status c = Verified ∨ Status c = Active ∨ issuance (pstatus c) = true →
    ownership_proved D c;
  pr_routing : Routing_status (routing c) = RoutingReady → routing_proved D c;
}.

(** What of a row never changes. *)
Record same_origin (c c' : t) : Prop := {
  so_id : ID c' = ID c;
  so_name : VerificationRecordName (verification c') = VerificationRecordName (verification c);
  so_hash : VerificationTokenHash (verification c') = VerificationTokenHash (verification c);
  so_hostname : Hostname c' = Hostname c;
}.

#[global] Instance same_origin_refl : Reflexive same_origin.
Proof. intros c. by split. Qed.
#[global] Instance same_origin_trans : Transitive same_origin.
Proof. intros a b c [] []. split; congruence. Qed.

Lemma ownership_same D c c' : same_origin c c' → ownership_proved D c → ownership_proved D c'.
Proof. intros [_ Hn Hh _] (rs & ? & ?). exists rs. by rewrite Hn, Hh. Qed.
Lemma routing_same D c c' : same_origin c c' → routing_proved D c → routing_proved D c'.
Proof. intros [_ _ _ Hh] (cn & ? & ?). exists cn. by rewrite Hh. Qed.

Lemma ownership_mono D D' c : D ⊆ D' → ownership_proved D c → ownership_proved D' c.
Proof. intros H (rs & ? & ?). exists rs. auto. Qed.
Lemma routing_mono D D' c : D ⊆ D' → routing_proved D c → routing_proved D' c.
Proof. intros H (cn & ? & ?). exists cn. auto. Qed.
Lemma proved_mono D D' c : D ⊆ D' → proved D c → proved D' c.
Proof. intros H [H1 H2]. split; eauto using ownership_mono, routing_mono. Qed.

(** ** The discipline of the service's programs *)

(** [K] are the rows the program has read.  What it must know when it makes a
    call. *)
Definition guard {X} (K : list t) (D : list observation) (c : CustomDomainRepository X) : Prop :=
  match c with
  | CallCreate c => pstatus c = NotStarted ∧ Status c = PendingVerification ∧
      Routing_status (routing c) = RoutingPending
  | CallMarkVerified id _ => ∃ c, c ∈ K ∧ ID c = id ∧ ownership_proved D c
  | CallUpdateRoutingStatus id _ st _ _ =>
      st = RoutingReady → ∃ c, c ∈ K ∧ ID c = id ∧ routing_proved D c
  | CallResetProvisioningForRetry _ _ target => handled target ∧ target ≠ Deprovisioning
  | CallMarkActive _ _ | CallSoftDelete _ _ | CallMarkDeprovisionFailed _ _ _ => False
  | _ => True
  end.

Definition learn {X} (c : CustomDomainRepository X) : result error X → list t → list t :=
  match c in CustomDomainRepository X return result error X → list t → list t with
  | CallGetByIDForProject _ _ => λ r K, match r with Ok c => c :: K | Err _ => K end
  | _ => λ _ K, K
  end.

Fixpoint disciplined {A} (K : list t) (D : list observation) (p : prog A) : Prop :=
  match p with
  | Done _ => True
  | Repo c k => guard K D c ∧ ∀ r, disciplined (learn c r K) D (k r)
  | LookupTXT name k => ∀ r, disciplined K
      (D ++ match r with Ok records => [ObsTXT name records] | Err _ => [] end) (k r)
  | LookupCNAME host k => ∀ r, disciplined K
      (D ++ match r with Ok cname => [ObsCNAME host cname] | Err _ => [] end) (k r)
  end.

Lemma guard_mono {X} K D D' (c : CustomDomainRepository X) : D ⊆ D' → guard K D c → guard K D' c.
Proof.
  intros H. destruct c; simpl; try done.
  - intros (c & ? & ? & ?). exists c. eauto using ownership_mono.
  - intros Hg Hst. destruct (Hg Hst) as (c & ? & ? & ?). exists c. eauto using routing_mono.
Qed.

Lemma app_mono (D D' E : list observation) : D ⊆ D' → D ++ E ⊆ D' ++ E.
Proof. intros H o. rewrite !elem_of_app. naive_solver. Qed.

Lemma disciplined_mono {A} K D D' (p : prog A) : D ⊆ D' → disciplined K D p → disciplined K D' p.
Proof.
  revert K D D'. induction p as [r|X c k IH|name k IH|host k IH]; intros K D D' H; simpl.
  - done.
  - intros [Hg Hk]. split; [by eapply guard_mono|]. intros r. eapply IH; [exact H|apply Hk].
  - intros Hk r. eapply IH; [|apply Hk]. by apply app_mono.
  - intros Hk r. eapply IH; [|apply Hk]. by apply app_mono.
Qed.

Lemma disciplined_try {A X} K D (c : CustomDomainRepository X) on_error (k : X → prog A) :
  guard K D c → (∀ x, disciplined (learn c (Ok x) K) D (k x)) → disciplined K D (try c on_error k).
Proof. intros Hg Hk. split; [done|]. intros [x|e]; [apply Hk|exact I]. Qed.

(** The last lookup's answer is among the observations. *)
Lemma observed (D : list observation) o : o ∈ D ++ [o].
Proof. rewrite elem_of_app, list_elem_of_singleton. by right. Qed.

Lemma retry_target_handled c : handled (retry_target c) ∧ retry_target c ≠ Deprovisioning.
Proof. unfold retry_target, handled. repeat case_match; by split_and!. Qed.

Definition task_ok (K : list t) (D : list observation) (x : task) : Prop :=
  match x with Task p => disciplined K D p end.

Ltac discipline :=
  repeat match goal with
  | |- disciplined _ _ (try _ _ _) => apply disciplined_try; [cbn [guard]|intros ?; cbn [learn]]
  | |- disciplined _ _ (Done _) => exact I
  | |- disciplined _ _ (performRetry _ _ _) => apply disciplined_try; [cbn [guard]|intros ?; cbn [learn]]
  | |- disciplined _ _ (ignore _ _) => split; [cbn [guard]|intros ?; cbn [learn]]
  | |- disciplined _ _ (Repo _ _) => split; [cbn [guard]|intros ?; cbn [learn]]
  | |- disciplined _ _ (LookupTXT _ _) => intros ?
  | |- disciplined _ _ (LookupCNAME _ _) => intros ?
  | |- disciplined _ _ (match ?x with _ => _ end) => destruct x eqn:?
  | |- True => exact I
  end.

Lemma method_disciplined x D : method x → task_ok [] D x.
Proof.
  pose proof retry_target_handled as Hretry.
  destruct 1; cbn [task_ok]; cbv delta [CreateCustomDomain VerifyCustomDomain ListCustomDomains
    GetCustomDomain DeleteCustomDomain RetryDeprovisioning CheckCustomDomainRouting
    ActivateCustomDomain GetProvisioningStatus RetryProvisioning]; cbv beta zeta; discipline;
    try apply Hretry; try done.
  - apply negb_false_iff in Heqb0. eexists. split; [by left|]. split; [done|].
    eexists. split; [apply observed|done].
  - intros _. apply negb_false_iff, String.eqb_eq in Heqb0. eexists. split; [by left|]. split; [done|].
    eexists. split; [apply observed|done].
Qed.

(** ** Rows *)

Definition rows_proved (D : list observation) (m : gmap string t) : Prop :=
  ∀ id c, m !! id = Some c → proved D c.
Definition origins (m m' : gmap string t) : Prop :=
  ∀ id c, m !! id = Some c → ∃ c', m' !! id = Some c' ∧ same_origin c c'.
Definition known (K : list t) (m : gmap string t) : Prop :=
  ∀ c, c ∈ K → ∃ c', m !! ID c = Some c' ∧ same_origin c c'.

Lemma origins_refl m : origins m m.
Proof. intros id c H. by exists c. Qed.

Lemma known_origins K m m' : origins m m' → known K m → known K m'.
Proof.
  intros Ho Hk c Hc. destruct (Hk c Hc) as (c1 & H1 & S1). destruct (Ho _ _ H1) as (c2 & H2 & S2).
  exists c2. split; [done|]. by etrans.
Qed.

Lemma rows_insert D m id c c' :
  m !! id = Some c → rows_proved D m → proved D c' → same_origin c c' →
  rows_proved D (<[id := c']> m) ∧ origins m (<[id := c']> m).
Proof.
  intros Hc Hm Hp Ho. split.
  - intros i x [[<- <-]|[_ Hx]]%lookup_insert_Some; [done|]. by apply (Hm i).
  - intros i x Hx. destruct (decide (i = id)) as [->|Hne].
    + exists c'. rewrite lookup_insert_eq. by simplify_eq.
    + exists x. by rewrite lookup_insert_ne.
Qed.

Lemma rows_same D m m' : m' = m → rows_proved D m → rows_proved D m' ∧ origins m m'.
Proof. intros -> H. split; [done|apply origins_refl]. Qed.

(** A change that keeps origin, status and routing status and enters no
    issuance. *)
Lemma proved_keep D c c' :
  same_origin c c' → (Status c' = Status c ∨ (Status c' = Active ∧ issuance (pstatus c) = true)) →
  Routing_status (routing c') = Routing_status (routing c) →
  (issuance (pstatus c') = true → issuance (pstatus c) = true ∨ Status c = Verified) →
  proved D c → proved D c'.
Proof.
  intros Ho Hs Hr Hi [H1 H2]. split.
  - intros H. apply (ownership_same _ c); [done|]. apply H1.
    destruct H as [H|[H|H]]; [..|destruct (Hi H); auto]; destruct Hs as [Hs|[Hs ?]]; rewrite Hs in H; auto.
  - intros H. apply (routing_same _ c); [done|]. apply H2. congruence.
Qed.

(** ** Calls of the repository *)

Definition read_only {X} (c : CustomDomainRepository X) : bool :=
  match c with
  | CallHostnameExists _ | CallGetByIDForProject _ _ | CallListByProject _
  | CallGetActiveProjectGatewayIngress _ => true
  | _ => false
  end.

Lemma read_only_spec {X} (c : CustomDomainRepository X) d d' r :
  read_only c = true → repo_call c d = (d', r) → frame d d' ∧ domains d' = domains d.
Proof.
  destruct c; try done; intros _; simpl.
  - intros [(_ & ? & ?)|(fs & a & Hf & _)]%query_spec; [done|]. simplify_eq. by split.
  - unfold GetByIDForProject, mbind. destruct (select_row _ _ d) as [d1 [[c|]|e]] eqn:Hs;
      apply select_row_spec in Hs; unfold mret, mfail; intros; by simplify_eq.
  - intros [(_ & ? & ?)|(fs & a & Hf & _)]%query_spec; [done|]. simplify_eq. by split.
  - apply ingress_spec.
Qed.

Lemma get_returns id pid d d' c :
  GetByIDForProject id pid d = (d', Ok c) → domains d !! id = Some c.
Proof.
  unfold GetByIDForProject, mbind. destruct (select_row _ _ d) as [d1 [o|e]] eqn:Hs; [|done].
  unfold mret, mfail. destruct o as [x|]; [|done]. intros [= <- <-]. revert Hs.
  intros [(? & _)|(fs & a & Hf & Hr)]%query_spec; [done|]. simplify_eq/=.
  destruct (domains d !! id) as [y|]; [|done]. destruct (_ && _); by simplify_eq.
Qed.

Lemma void_run {A} (m : M A) d : (void m d).1 = (m d).1.
Proof. unfold void, mbind, mret. by destruct (m d) as [d' [x|e]]. Qed.

(** A call the service makes is a request of [Lifecycle] or changes nothing. *)
Lemma call_refines {X} K D (c : CustomDomainRepository X) w js d r :
  guard K D c → repo_call c (store w) = (d, r) →
  step listenerARN sha256_hex (mkSys w js) (mkSys (with_store d w) js).
Proof.
  intros Hg Hc. destruct (read_only c) eqn:Hro.
  - destruct (read_only_spec _ _ _ _ Hro Hc) as [[Hg' Hn Hs] Hd]. apply step_worker.
    destruct d as [dom gws nw sup fs]; simpl in *; subst.
    apply (step_env _ _ w js (gateways (store w)) (db_now (store w)) fs (app_now w)).
  - assert (Hq : ∃ q, admissible q ∧ (run_request q (store w)).1 = d).
    { destruct c; simpl in *; try done;
        [exists (ReqCreate c)|exists (ReqVerified id projectID)|exists (ReqVerificationFailure id projectID reason)
        |exists (ReqRouting id projectID status target routingError)|exists (ReqProvision id projectID)
        |exists (ReqRetry id projectID target)|exists (ReqDeprovision id projectID)
        |exists (ReqRetryDeprovision id projectID)]; cbn [run_request]; rewrite ?void_run, Hc;
        (split; [|done]); simpl; tauto. }
    destruct Hq as (q & Ha & Hr). destruct (run_request q (store w)) as [d1 r1] eqn:E. simpl in Hr. subst d1.
    by eapply step_request.
Qed.

(** One guarded UPDATE among the rows. *)
Lemma update_rows {A} D id cond f (k : t → A) (m : M A) d d' r :
  (∀ d d' r, m d = (d', r) → frame d d' ∧ domains d' = domains d) →
  (∀ now c, domains d !! id = Some c → cond c = true → proved D c →
     same_origin c (f now c) ∧ proved D (f now c)) →
  rows_proved D (domains d) →
  (mbind (update_row id cond f) (λ o, match o with Some c => mret (k c) | None => m end)) d = (d', r) →
  rows_proved D (domains d') ∧ origins (domains d) (domains d').
Proof.
  intros Hm Hf Hp H. apply (guarded_update _ _ _ _ _ _ _ _ Hm) in H as [_ [Hd|(c & Hc & Hcond & ->)]].
  - by apply rows_same.
  - destruct (Hf (db_now d) c Hc Hcond (Hp _ _ Hc)). by apply (rows_insert _ _ _ c).
Qed.

Lemma create_rows D c d d' r :
  pstatus c = NotStarted → Status c = PendingVerification → Routing_status (routing c) = RoutingPending →
  rows_proved D (domains d) → Create c d = (d', r) →
  rows_proved D (domains d') ∧ origins (domains d) (domains d').
Proof.
  intros Hs Hst Hr Hp. unfold Create, mbind. destruct (query _ d) as [d1 r1] eqn:Hq.
  assert (Hdom : domains d1 = domains d ∨ ∃ c', domains d1 = <[ID c := c']> (domains d) ∧
    domains d !! ID c = None ∧ pstatus c' = NotStarted ∧ Status c' = PendingVerification ∧
    Routing_status (routing c') = RoutingPending).
  { apply query_spec in Hq as [(_ & ? & _)|(fs & a & Hf & _)]; [by left|]. cbv zeta in Hf. simpl in Hf.
    destruct (bool_decide _ || existsb _ _) eqn:Hex; simplify_eq; [by left|right].
    apply orb_false_iff in Hex as [Hid _]. apply bool_decide_eq_false, eq_None_not_Some in Hid.
    eexists. split; [reflexivity|]. by split_and!. }
  intros H. assert (d' = d1) as -> by (destruct r1 as [[x|]|]; unfold mret, mfail in H; by simplify_eq).
  destruct Hdom as [Hd|(c' & -> & Hn & H1 & H2 & H3)]; [by apply rows_same|]. split.
  - intros i x [[<- <-]|[_ Hx]]%lookup_insert_Some; [|by apply (Hp i)].
    split; [rewrite H1, H2; naive_solver|by rewrite H3].
  - intros i x Hx. exists x. rewrite lookup_insert_ne; [by split|]. by intros <-; simplify_eq.
Qed.

(** The row of a known domain. *)
Lemma known_row K m c id x :
  known K m → c ∈ K → ID c = id → m !! id = Some x → same_origin c x.
Proof. intros Hk Hc <- Hx. destruct (Hk c Hc) as (c' & H & ?). by simplify_eq. Qed.

Ltac reads_only := first [exact (mfail_spec _)
  |intros ???; apply GetByIDForProject_spec; intros ????; unfold mret, mfail; cbv beta;
   repeat case_match; intros; simplify_eq; by split].

(** What the guard buys: every call keeps the rows proved. *)
Lemma call_rows {X} K D (c : CustomDomainRepository X) d d' r :
  guard K D c → known K (domains d) → rows_proved D (domains d) → repo_call c d = (d', r) →
  rows_proved D (domains d') ∧ origins (domains d) (domains d').
Proof.
  intros Hg Hk Hp Hc. destruct (read_only c) eqn:Hro.
  { destruct (read_only_spec _ _ _ _ Hro Hc) as [_ Hd]. by apply rows_same. }
  destruct c; try done; cbn [repo_call] in Hc.
  1: { destruct Hg as (? & ? & ?). by eapply create_rows. }
  all: revert Hc; refine (update_rows _ _ _ _ (λ c, _) _ _ _ _ _ _ Hp); [reads_only|intros now c Hrow Hc Hc'].
  all: cbn [guard] in Hg; rewrite ?andb_true_iff, ?orb_true_iff, ?negb_true_iff, ?bool_decide_eq_true in Hc;
    (split; [by split|]).
  - destruct Hg as (c0 & H0 & Hid & Ho). pose proof (known_row _ _ _ _ _ Hk H0 Hid Hrow) as Hso.
    destruct Hc' as [H1 H2]. split; [|exact H2]. intros _. cbn.
    apply (ownership_same _ c0); [|done]. destruct Hso. by split.
  - apply (proved_keep _ c); [by split|by left|done|by left|done].
  - destruct Hc' as [H1 H2]. split; [exact H1|]. cbn. intros Hst.
    destruct (Hg Hst) as (c0 & H0 & Hid & Ho). pose proof (known_row _ _ _ _ _ Hk H0 Hid Hrow) as [].
    apply (routing_same _ c0); [by split|done].
  - apply (proved_keep _ c); [by split|by left|done| |done]. intros _. right. tauto.
  - apply (proved_keep _ c); [by split|by left|done| |done]. intros _. left. destruct Hc as [_ ->]. done.
  - by apply (proved_keep _ c); [by split|by left|done| |done].
  - by apply (proved_keep _ c); [by split|by left|done| |done].
Qed.

(** ** Workers *)

Lemma row_step_proved D c c' :
  row_step c c' → proved D c → same_origin c c' ∧ proved D c'.
Proof.
  intros [Hid Hpr Hh He _ _ Hc Hr _ [Hv Hro]] Hp.
  assert (Hso : same_origin c c') by (split; congruence).
  split; [done|]. apply (proved_keep _ c); try done.
  - destruct (decide (pstatus c' = Completed)) as [E|E].
    + destruct (Hc E) as (Hs & _). right. split; [done|]. clear Hc Hr Hs. revert E.
      by destruct He as [s Hq| | | | | | |]; [intros ->|..].
    + left. by apply Hr.
  - by rewrite Hro.
  - intros Hi. left. destruct He as [s Hq|s Hq| | | | | |]; try done. by destruct s.
Qed.

Lemma worker_rows D s s' :
  inv listenerARN s → worker_step listenerARN sha256_hex s s' → rows_proved D (rows s) →
  rows_proved D (rows s') ∧ origins (rows s) (rows s').
Proof.
  intros Hinv Hstep Hp. destruct Hstep as [worker w js w' job Hc|worker w js w' r Hc Hr
    |w js1 job js2 w' r Hh|w js1 job js2|w js gws now_db fs now_app]; simpl in *.
  - apply claim_spec in Hc as (_ & _ & c & Hn & _ & Hd & _).
    pose proof (next_job_spec (db_now (store w)) (app_now w - 5 * minute) (domains (store w))) as Hsp.
    rewrite Hn in Hsp. destruct Hsp as ([i Hi] & _).
    pose proof (ok_id _ _ _ _ _ (inv_rows _ _ Hinv _ _ Hi)) as Hid. subst i. rewrite Hd.
    apply (rows_insert _ _ _ c); [done|done| |by split]. apply (proved_keep _ c); [by split|by left|done|by left|by eapply Hp].
  - apply claim_spec in Hc as (_ & _ & Hc). apply rows_same; [|done].
    destruct r as [[job|]|e]; [by destruct (Hr job)|by destruct Hc..].
  - destruct (handle_effect _ _ _ _ _ _ Hh) as (_ & _ & He).
    destruct He as [Hsame|(lt & Hlt & [(_ & He)|(_ & He)])]; [by apply rows_same|..].
    + destruct He as [Hsame|(c & c' & Hc & _ & _ & Hd & Hst & _)]; [by apply rows_same|]. rewrite Hd.
      destruct (row_step_proved D _ _ Hst (Hp _ _ Hc)). by apply (rows_insert _ _ _ c).
    + destruct He as [Hsame|(c & now0 & Hc & _ & _ & Hd)]; [by apply rows_same|]. rewrite Hd.
      apply (rows_insert _ _ _ c); [done|done| |by split]. apply (proved_keep _ c); [by split|by left|done|by left|by eapply Hp].
  - by apply rows_same.
  - by apply rows_same.
Qed.

(** ** The invariant of the system *)

Record cinv (s : csys) : Prop := {
  ci_core : reachable listenerARN sha256_hex (core s);
  ci_rows : rows_proved (dns s) (rows (core s));
  ci_tasks : ∀ x, x ∈ tasks s → ∃ K, known K (rows (core s)) ∧ task_ok K (dns s) x;
}.

Lemma task_ok_mono K D D' x : D ⊆ D' → task_ok K D x → task_ok K D' x.
Proof. destruct x. apply disciplined_mono. Qed.

Lemma elem_of_mid {A} (x y : A) l1 l2 : x ∈ l1 ++ y :: l2 ↔ x = y ∨ x ∈ l1 ++ l2.
Proof. rewrite !elem_of_app, elem_of_cons. tauto. Qed.

Lemma cinv_step s s' : cinv s → cstep s s' → cinv s'.
Proof.
  intros [Ic Ir It] Hstep. destruct Hstep as [s D ts x Hm|A X w js D l1 c k l2 d r Hc
    |A s D l1 name k l2 r|A s D l1 host k l2 r|s D l1 x l2|s s' D ts Hw]; simpl in *.
  - split; [done..|]. intros y [Hy| ->%list_elem_of_singleton]%elem_of_app; [auto|].
    exists []. split; [by intros c ?%elem_of_nil|by apply method_disciplined].
  - destruct (It (Task (Repo c k))) as (K & Hk & Hg & Hd); [apply elem_of_mid; auto|].
    pose proof (call_refines _ _ _ _ js _ _ Hg Hc) as Hst.
    destruct (call_rows _ _ _ _ _ _ Hg Hk Ir Hc) as [Hp Ho]. split; simpl; [by eapply reachable_step|done|].
    intros y [->|Hy]%elem_of_mid.
    2: { destruct (It y) as (K' & ? & ?); [apply elem_of_mid; auto|]. exists K'. split; [|done].
         by eapply known_origins. }
    exists (learn c r K). split; [|apply Hd]. apply (known_origins _ (domains (store w))); [done|].
    destruct c; try done. simpl. destruct r as [x|e]; [|done]. intros y [->|Hy]%elem_of_cons; [|auto].
    simpl in Hc. apply get_returns in Hc.
    rewrite (ok_id _ _ _ _ _ (inv_rows _ _ (reachable_inv _ _ _ Ic) _ _ Hc)). by exists x.
  - destruct (It (Task (LookupTXT name k))) as (K & Hk & Hd); [apply elem_of_mid; auto|].
    split; simpl; [done| |].
    + intros i c Hc. eapply proved_mono; [|by apply (Ir i)]. set_solver.
    + intros y [->|Hy]%elem_of_mid; [by exists K; split; [done|apply Hd]|].
      destruct (It y) as (K' & ? & ?); [apply elem_of_mid; auto|]. exists K'. split; [done|].
      eapply task_ok_mono; [|done]. set_solver.
  - destruct (It (Task (LookupCNAME host k))) as (K & Hk & Hd); [apply elem_of_mid; auto|].
    split; simpl; [done| |].
    + intros i c Hc. eapply proved_mono; [|by apply (Ir i)]. set_solver.
    + intros y [->|Hy]%elem_of_mid; [by exists K; split; [done|apply Hd]|].
      destruct (It y) as (K' & ? & ?); [apply elem_of_mid; auto|]. exists K'. split; [done|].
      eapply task_ok_mono; [|done]. set_solver.
  - split; [done..|]. intros y Hy. apply It. apply elem_of_mid. auto.
  - destruct (worker_rows D _ _ (reachable_inv _ _ _ Ic) Hw Ir) as [Hp Ho].
    split; simpl; [by eapply reachable_step; [|apply step_worker]|done|].
    intros y Hy. destruct (It y Hy) as (K & ? & ?). exists K. split; [|done]. by eapply known_origins.
Qed.

Lemma creachable_inv s : creachable s → cinv s.
Proof.
  induction 1 as [s Hs|s s' _ IH Hstep]; [|by eapply cinv_step].
  split; simpl; [by constructor| |by intros ? ?%elem_of_nil].
  destruct Hs. simpl. by intros ?? ?%lookup_empty_Some.
Qed.

(** ** A method that runs undisturbed *)

(** The answers it gets. *)
Fixpoint answers {A} (res : resolver) (p : prog A) (d : db) : list observation :=
  match p with
  | Done _ => []
  | Repo c k => let '(d', r) := repo_call c d in answers res (k r) d'
  | LookupTXT name k =>
      match TXT res name with Ok records => [ObsTXT name records] | Err _ => [] end ++
      answers res (k (TXT res name)) d
  | LookupCNAME host k =>
      match CNAME res host with Ok cname => [ObsCNAME host cname] | Err _ => [] end ++
      answers res (k (CNAME res host)) d
  end.

Lemma run_task {A} (res : resolver) (p : prog A) w js D ts :
  creachable (mkC (mkSys w js) D (ts ++ [Task p])) →
  creachable (mkC (mkSys (with_store (run_prog res p (store w)).1 w) js)
                (D ++ answers res p (store w)) ts).
Proof.
  revert w D. induction p as [r|X c k IH|name k IH|host k IH]; intros w D H; simpl.
  - assert (Hr := creach_step _ _ H (c_end _ _ ts _ [])). rewrite !app_nil_r in *.
    by destruct w as [[]].
  - destruct (repo_call c (store w)) as [d r] eqn:Hc.
    specialize (IH r (with_store d w) D). simpl in IH. apply IH.
    eapply creach_step; [exact H|]. by eapply c_call.
  - rewrite app_assoc. apply IH. eapply creach_step; [exact H|]. apply c_txt.
  - rewrite app_assoc. apply IH. eapply creach_step; [exact H|]. apply c_cname.
Qed.

Lemma run_method {A} (res : resolver) (p : prog A) w js D :
  method (Task p) → creachable (mkC (mkSys w js) D []) →
  creachable (mkC (mkSys (with_store (run_prog res p (store w)).1 w) js)
                (D ++ answers res p (store w)) []).
Proof.
  intros Hm H. apply run_task. eapply creach_step; [exact H|]. by apply (c_begin _ _ []).
Qed.

(** ** Registration, then verification *)

Lemma token_graphic s : sforallb is_graphic (RawURLEncode s) = true.
Proof.
  assert (Hd : ∀ n, is_graphic (base64url_digit n) = true).
  { intros n. unfold base64url_digit. assert (N.to_nat (n mod 64) < 64)%nat as Hlt.
    { pose proof (N.mod_lt n 64). lia. }
    revert Hlt. generalize (N.to_nat (n mod 64)). intros m Hm.
    do 64 (destruct m as [|m]; [done|]). lia. }
  assert (Hn : ∀ n s, len s < n → sforallb is_graphic (RawURLEncode s) = true).
  { clear s. intros n. induction n as [|n IH]; [lia|]. intros [|a [|b [|c s]]] Hl; cbn [RawURLEncode];
      cbv zeta; cbn [sforallb]; rewrite ?Hd; cbn [andb]; [done..|].
    apply IH. simpl in Hl. lia. }
  by apply (Hn (S (len s))); lia.
Qed.

Lemma token_nonempty s : s ≠ "" → RawURLEncode s ≠ "".
Proof. by destruct s as [|a [|b [|c s]]]. Qed.

(** The record a registration announces is one the verification accepts. *)
Lemma announced_record_matches s records :
  s ≠ "" → customDomainVerificationPrefix +:+ RawURLEncode s ∈ records →
  containsMatchingVerificationToken sha256_hex records (sha256_hex (RawURLEncode s)) = true.
Proof.
  intros Hs. induction records as [|x l IH]; [by intros ?%elem_of_nil|].
  intros [<-|Hx]%elem_of_cons; cbn [containsMatchingVerificationToken].
  2: { rewrite IH by done. by destruct (record_matches _ _ x). }
  assert (record_matches sha256_hex (sha256_hex (RawURLEncode s))
    (customDomainVerificationPrefix +:+ RawURLEncode s) = true) as ->; [|done].
  unfold record_matches. cbv zeta. rewrite TrimSpace_graphic.
  2: { rewrite sforallb_app, token_graphic. done. }
  rewrite HasPrefix_app, TrimPrefix_app, TrimSpace_graphic by apply token_graphic. cbn [negb].
  destruct (String.eqb_spec (RawURLEncode s) "") as [E|_]; [by apply token_nonempty in E|].
  unfold secureHashEqual, hashCustomDomainVerificationToken. by rewrite Nat.eqb_refl, String.eqb_refl.
Qed.

Lemma service_query_ok {A} (f : db → db * A) d : faults d = [] → query f d = let '(d', a) := f d in (d', Ok a).
Proof. unfold query. by intros ->. Qed.

Lemma GetByID_ok id pid d c :
  faults d = [] → domains d !! id = Some c → ProjectID c = pid → DeletedAt c = None →
  GetByIDForProject id pid d = (d, Ok c).
Proof.
  intros Hf Hc <- Hl. unfold GetByIDForProject, select_row, mbind. rewrite service_query_ok by done.
  rewrite Hc. unfold in_project, live. by rewrite String.eqb_refl, bool_decide_eq_true_2.
Qed.

(** What a successful registration leaves behind. *)
Lemma create_result res newID rnd pid raw d d1 resp :
  faults d = [] →
  run_prog res (CreateCustomDomain gatewayPublicHost sha256_hex newID rnd pid raw) d = (d1, Ok resp) →
  ∃ s c, rnd = Some s ∧ faults d1 = [] ∧ domains d1 !! newID = Some c ∧ ID c = newID ∧ ProjectID c = pid ∧
    DeletedAt c = None ∧ Status c = PendingVerification ∧ db_now d1 = db_now d ∧
    VerificationTokenHash (verification c) = sha256_hex (RawURLEncode s) ∧
    VerificationRecordName (verification c) = RespRecordName resp ∧ RespID resp = newID ∧
    RespRecordValue resp = customDomainVerificationPrefix +:+ RawURLEncode s.
Proof.
  intros Hf. unfold CreateCustomDomain. destruct (Hostname.NormalizeHostname raw) as [h|]; [|done].
  cbn [try run_prog repo_call]. unfold HostnameExists. rewrite service_query_ok by done.
  destruct (existsb _ _); [done|]. destruct rnd as [s|]; [|done]. cbn [generateCustomDomainVerificationToken fmap option_fmap option_map].
  cbn [try run_prog repo_call]. unfold Create, mbind at 1. rewrite service_query_ok by done. cbv zeta.
  destruct (bool_decide _ || existsb _ _) eqn:Hex; [by intros [=]|]. unfold mret. intros [= <- <-].
  exists s. eexists. split; [done|]. split; [done|]. split; [apply lookup_insert_eq|]. by split_and!.
Qed.

(** Round trip of a registration: once the record the registration answered
    with is among the TXT records of the announced name, the verification of the
    new domain succeeds. *)
Theorem create_then_verify res newID bytes pid raw d d1 resp records res' :
  faults d = [] → bytes ≠ "" →
  run_prog res (CreateCustomDomain gatewayPublicHost sha256_hex newID (Some bytes) pid raw) d = (d1, Ok resp) →
  TXT res' (RespRecordName resp) = Ok records → RespRecordValue resp ∈ records →
  ∃ d2 c, run_prog res' (VerifyCustomDomain sha256_hex pid (RespID resp)) d1 = (d2, Ok c) ∧
    domains d2 !! RespID resp = Some c ∧ Status c = Verified ∧ VerifiedAt (verification c) = Some (db_now d).
Proof.
  intros Hf Hne Hcr Htxt Hin.
  destruct (create_result _ _ _ _ _ _ _ _ Hf Hcr)
    as (s & c & [= <-] & Hf1 & Hc & Hid & Hp & Hl & Hst & Hnow & Hh & Hn & Hri & Hv).
  unfold VerifyCustomDomain. cbn [try run_prog repo_call].
  rewrite Hri, (GetByID_ok _ _ _ c) by done. rewrite Hst. cbn [run_prog bool_decide orb].
  rewrite !bool_decide_eq_false_2 by done. cbn [orb run_prog]. rewrite Hn, Htxt, Hh.
  rewrite Hv in Hin. rewrite announced_record_matches by done. cbn [negb try run_prog repo_call].
  unfold MarkVerified, update_row, mbind. rewrite service_query_ok by done. rewrite Hid, Hc. unfold in_project, live.
  rewrite Hp, String.eqb_refl, bool_decide_eq_true_2 by done. cbn [andb mret run_prog].
  eexists _, _. split; [reflexivity|]. cbn. by rewrite lookup_insert_eq, Hnow.
Qed.

(** ** Activation and deletion on their own *)

Lemma get_row id pid d d' c :
  faults d = [] → GetByIDForProject id pid d = (d', Ok c) →
  d' = d ∧ domains d !! id = Some c ∧ ProjectID c = pid ∧ DeletedAt c = None.
Proof.
  intros Hf. unfold GetByIDForProject, select_row, mbind. rewrite service_query_ok by done.
  destruct (domains d !! id) as [x|]; [|done]. destruct (in_project pid x && live x) eqn:Hc; [|done].
  unfold mret. intros [= -> ->]. unfold in_project, live in Hc. split_bool.
  by apply String.eqb_eq in H as ->.
Qed.

(** A guarded UPDATE on its own. *)
Lemma service_update_alone id cond f d c :
  faults d = [] → domains d !! id = Some c →
  update_row id cond f d =
    if cond c then (with_domains (<[id := f (db_now d) c]> (domains d)) d, Ok (Some (f (db_now d) c)))
    else (d, Ok None).
Proof.
  intros Hf Hc. unfold update_row. rewrite service_query_ok by done. rewrite Hc. by destruct (cond c).
Qed.

(** The two ways back into the queue. *)
Lemma enqueue_alone id pid d x d' c :
  faults d = [] → domains d !! id = Some x → issuance (pstatus x) = false ∨ pstatus x = Failed →
  EnqueueProvisioning id pid d = (d', Ok c) →
  c = restart RequestingCertificate (db_now d) x ∧ d' = with_domains (<[id := c]> (domains d)) d.
Proof.
  intros Hf Hx Hs. unfold EnqueueProvisioning, mbind. rewrite (service_update_alone _ _ _ _ _ Hf Hx).
  destruct (_ && _); [unfold mret; by intros [= <- <-]|].
  destruct (GetByIDForProject id pid d) as [d0 [y|e]] eqn:Hg; [|done].
  apply get_row in Hg as (-> & Hy & _); [|done]. simplify_eq. unfold mret, mfail.
  destruct (_ || _); [done|]. destruct (pstatus x); by destruct Hs.
Qed.

Lemma reset_alone id pid target d x d' c :
  faults d = [] → domains d !! id = Some x → ResetProvisioningForRetry id pid target d = (d', Ok c) →
  c = restart target (db_now d) x ∧ d' = with_domains (<[id := c]> (domains d)) d.
Proof.
  intros Hf Hx. unfold ResetProvisioningForRetry, mbind. rewrite (service_update_alone _ _ _ _ _ Hf Hx).
  destruct (_ && _); [unfold mret; by intros [= <- <-]|done].
Qed.

(** A row the activation has put back into the queue. *)
Lemma activate_again res id pid d c :
  faults d = [] → domains d !! id = Some c → ProjectID c = pid → DeletedAt c = None →
  Status c ≠ Active → handled (pstatus c) → pstatus c ≠ Deprovisioning →
  automationEnabled = true →
  run_prog res (ActivateCustomDomain automationEnabled pid id) d = (d, Ok (c, ActivationInProgress)).
Proof.
  intros Hf Hc Hp Hl Hs [Hq Hw] Hd ->. unfold ActivateCustomDomain. cbn [negb try run_prog repo_call].
  rewrite (GetByID_ok _ _ _ c) by done. rewrite (bool_decide_eq_false_2 (Status c = Active)) by done.
  by destruct (pstatus c) eqn:E.
Qed.

(** Activating twice queues once: when a call of the activation has queued a
    domain, a second call right after it reports that the provisioning is in
    progress and changes nothing. *)
Theorem activation_queues_once res id pid s d1 c :
  reachable listenerARN sha256_hex s → faults (store (sw s)) = [] →
  run_prog res (ActivateCustomDomain automationEnabled pid id) (store (sw s)) =
    (d1, Ok (c, ActivationQueued)) →
  domains d1 !! id = Some c ∧ handled (pstatus c) ∧ ProvisioningAttempts (provisioning c) = 0%Z ∧
  run_prog res (ActivateCustomDomain automationEnabled pid id) d1 = (d1, Ok (c, ActivationInProgress)).
Proof.
  intros Hreach Hf H. pose proof (reachable_inv _ _ _ Hreach) as Hinv.
  destruct automationEnabled eqn:Hauto; [|done]. unfold ActivateCustomDomain in H at 1.
  cbn [negb try run_prog repo_call] in H.
  destruct (GetByIDForProject id pid (store (sw s))) as [d0 [x|e]] eqn:Hg; [|done].
  destruct (get_row _ _ _ _ _ Hf Hg) as (-> & Hx & Hp & Hl).
  pose proof (ok_id _ _ _ _ _ (inv_rows _ _ Hinv _ _ Hx)) as Hid.
  destruct (bool_decide (Status x = Active) || bool_decide (pstatus x = Completed)) eqn:H0; [done|].
  assert (Hv : Status x = Verified → Routing_status (routing x) = RoutingReady →
    ∀ target, handled target ∧ target ≠ Deprovisioning →
    ∀ c, c = restart target (db_now (store (sw s))) x →
    d1 = with_domains (<[id := c]> (rows s)) (store (sw s)) →
    domains d1 !! id = Some c ∧ handled (pstatus c) ∧ ProvisioningAttempts (provisioning c) = 0%Z ∧
    run_prog res (ActivateCustomDomain true pid id) d1 = (d1, Ok (c, ActivationInProgress))).
  { intros Hs _ target [Ht Hnd] c' -> ->. split; [apply lookup_insert_eq|]. split; [done|]. split; [done|].
    rewrite <-Hauto. apply activate_again; try done; simpl; [apply lookup_insert_eq|by rewrite Hs]. }
  clear Hauto. destruct (bool_decide_reflect (pstatus x = Failed)) as [Hps|Hps].
  - rewrite Hps in H. destruct (bool_decide_reflect (Status x = Verified)) as [Hs|]; [|done].
    destruct (bool_decide_reflect (Routing_status (routing x) = RoutingReady)) as [Hr|]; [|done].
    cbn [negb run_prog performRetry try repo_call] in H. rewrite Hid, Hp in H.
    destruct (ResetProvisioningForRetry id pid (retry_target x) (store (sw s))) as [d2 [y|e]] eqn:He; [|done].
    cbn [run_prog] in H. simplify_eq. apply (reset_alone _ _ _ _ _ _ _ Hf Hx) in He as [-> ->].
    by apply (Hv Hs Hr (retry_target x) (retry_target_handled x)).
  - assert (Hsplit : issuance (pstatus x) = false → domains d1 !! id = Some c ∧ handled (pstatus c) ∧
      ProvisioningAttempts (provisioning c) = 0%Z ∧
      run_prog res (ActivateCustomDomain true pid id) d1 = (d1, Ok (c, ActivationInProgress))).
    { intros Hi.
      destruct (bool_decide_reflect (Status x = Verified)) as [Hs|]; [|by destruct (pstatus x)].
      destruct (bool_decide_reflect (Routing_status (routing x) = RoutingReady)) as [Hr|];
        [|by destruct (pstatus x)].
      assert (He : run_prog res (try (CallEnqueueProvisioning id pid) Wrapped
        (λ c, ret (c, ActivationQueued))) (store (sw s)) = (d1, Ok (c, ActivationQueued))).
      { by destruct (pstatus x). }
      cbn [run_prog try repo_call] in He.
      destruct (EnqueueProvisioning id pid (store (sw s))) as [d2 [y|e]] eqn:Hq; [|done].
      cbn [run_prog] in He. simplify_eq.
      apply (enqueue_alone _ _ _ _ _ _ Hf Hx) in Hq as [-> ->]; [|by left].
      apply (Hv Hs Hr RequestingCertificate); [by split_and!|done..]. }
    destruct (issuance (pstatus x)) eqn:Hi; [|by apply Hsplit].
    apply orb_false_iff in H0 as [_ H0%bool_decide_eq_false]. by destruct (pstatus x).
Qed.

(** Deletion: a live domain of the project is queued for deprovisioning and
    its row returned (a second request returns it unchanged); a domain whose
    removal is complete is reported as not found. *)
Theorem delete_outcome res id pid s c :
  reachable listenerARN sha256_hex s → faults (store (sw s)) = [] → automationEnabled = true →
  rows s !! id = Some c → ProjectID c = pid →
  let '(d1, r) := run_prog res (DeleteCustomDomain automationEnabled pid id) (store (sw s)) in
  if bool_decide (pstatus c = Deprovisioned) then d1 = store (sw s) ∧ r = Err ErrNotFound
  else ∃ c', r = Ok c' ∧ domains d1 = <[id := c']> (rows s) ∧ pstatus c' = Deprovisioning ∧
    DeletedAt c' = None ∧ (pstatus c = Deprovisioning → c' = c).
Proof.
  intros Hreach Hf -> Hc Hp. pose proof (inv_rows _ _ (reachable_inv _ _ _ Hreach) _ _ Hc) as Hok.
  unfold DeleteCustomDomain. cbn [negb try run_prog repo_call]. unfold EnqueueDeprovisioning, mbind.
  rewrite (service_update_alone _ _ _ _ _ Hf Hc). unfold in_project at 1. rewrite Hp, String.eqb_refl. unfold live at 1.
  destruct (bool_decide_reflect (pstatus c = Deprovisioned)) as [Hs|Hs].
  - assert (is_Some (DeletedAt c)) as Hd by (by apply (ok_deleted _ _ _ _ _ Hok)).
    rewrite (bool_decide_eq_false_2 (DeletedAt c = None)) by (by destruct Hd as [? ->]). cbn [andb].
    unfold GetByIDForProject, select_row, mbind. rewrite service_query_ok by done. rewrite Hc.
    unfold live. rewrite (bool_decide_eq_false_2 (DeletedAt c = None)) by (by destruct Hd as [? ->]).
    rewrite andb_false_r. done.
  - assert (DeletedAt c = None) as Hd.
    { destruct (DeletedAt c) eqn:E; [|done]. destruct Hs. apply (ok_deleted _ _ _ _ _ Hok). by rewrite E. }
    rewrite (bool_decide_eq_true_2 (DeletedAt c = None)) by done.
    cbn [andb negb]. rewrite andb_true_r. destruct (bool_decide_reflect (pstatus c = Deprovisioning)) as [E|E].
    + cbn [negb]. rewrite (GetByID_ok _ _ _ c) by done. rewrite E. cbn. exists c. split_and!; try done.
      by rewrite insert_id.
    + cbn. eexists. by split_and!.
Qed.

(** ** Theorems *)

(** C3: the service refines the life cycle: whatever calls of its methods run,
    interleaved with each other and with the workers, every state of the
    database and of AWS is one [Lifecycle] reaches with admissible requests, so
    every guarantee of that system holds of the real one. *)
Theorem service_refines_lifecycle s :
  creachable s → reachable listenerARN sha256_hex (core s).
Proof. intros H. apply (creachable_inv _ H). Qed.

(** A domain is recorded as verified or active, or in any state of the
    certificate issuance, only if a TXT lookup of its own record name returned a
    record with a token that hashes to the hash stored at registration; and its
    routing is recorded as ready only if a CNAME lookup of its hostname returned
    the public host of the gateways. *)
Theorem status_rests_on_dns s id c :
  creachable s → rows (core s) !! id = Some c →
  (Status c = Verified ∨ Status c = Active ∨ issuance (pstatus c) = true → ownership_proved (dns s) c) ∧
  (Routing_status (routing c) = RoutingReady → routing_proved (dns s) c).
Proof. intros H Hc. by destruct (ci_rows _ (creachable_inv _ H) _ _ Hc). Qed.

End control_plane.
(** ** A concrete run *)

Import Scenario.
#[local] Existing Instance sample_cloud.

Definition sample_sha (s : string) : string := s.
Definition sample_dns : resolver :=
  mkResolver (λ _, Ok ["v=spf1 -all"; "elitegate-verification=YWJj "]) (λ _, Ok "Edge.elitegate.io.").
Definition sample_db : db := mkDB ∅ [] 100 0 [].
Definition sample_world : world := mkWorld sample_db [] 100.

Definition registration : prog CreateCustomDomainResponse :=
  CreateCustomDomain "edge.elitegate.io" sample_sha "d1" (Some "abc") "p1" " App.Acme.io".
Definition db1 : db := (run_prog sample_dns registration sample_db).1.
Definition db2 : db := (run_prog sample_dns (VerifyCustomDomain sample_sha "p1" "d1") db1).1.
Definition db3 : db := (run_prog sample_dns (CheckCustomDomainRouting "edge.elitegate.io" "p1" "d1") db2).1.
Definition db4 : db := (run_prog sample_dns (ActivateCustomDomain true "p1" "d1") db3).1.

Definition sample_observations : list observation :=
  (([] ++ answers sample_dns registration sample_db) ++
   answers sample_dns (VerifyCustomDomain sample_sha "p1" "d1") db1) ++
  answers sample_dns (CheckCustomDomainRouting "edge.elitegate.io" "p1" "d1") db2.

Definition sample_csys : csys := mkC (mkSys (with_store db3 sample_world) []) sample_observations [].

Lemma sample_csys_reachable :
  creachable "arn:listener" sample_sha "edge.elitegate.io" true sample_csys.
Proof.
  unfold sample_csys, sample_observations.
  refine (run_method _ _ _ _ sample_dns _ (with_store db2 sample_world) [] _ _ _); [constructor|].
  refine (run_method _ _ _ _ sample_dns _ (with_store db1 sample_world) [] _ _ _); [constructor|].
  refine (run_method _ _ _ _ sample_dns _ sample_world [] [] _ _); [constructor|].
  constructor. constructor.
Qed.

Lemma sample_core_reachable : reachable "arn:listener" sample_sha (core sample_csys).
Proof. apply (ci_core _ _ _ _ (creachable_inv _ _ _ _ _ sample_csys_reachable)). Qed.

Lemma service_refines_lifecycle_witness :
  reachable "arn:listener" sample_sha (core sample_csys) ∧
  (Status <$> rows (core sample_csys) !! "d1") = Some Verified.
Proof.
  split; [exact (service_refines_lifecycle "arn:listener" sample_sha "edge.elitegate.io" true
    sample_csys sample_csys_reachable)|]. vm_compute. reflexivity.
Defined.

Definition sample_row : t := default (new_domain "" "" "" "" "") (domains db3 !! "d1").

Lemma status_rests_on_dns_witness :
  ownership_proved sample_sha sample_observations sample_row ∧
  routing_proved "edge.elitegate.io" sample_observations sample_row.
Proof.
  destruct (status_rests_on_dns "arn:listener" sample_sha "edge.elitegate.io" true sample_csys "d1" sample_row)
    as [H1 H2].
  - exact sample_csys_reachable.
  - vm_compute. reflexivity.
  - split; [apply H1; left; vm_compute; reflexivity|apply H2; vm_compute; reflexivity].
Defined.

Lemma create_then_verify_witness :
  ∃ d2 c, run_prog sample_dns (VerifyCustomDomain sample_sha "p1" "d1") db1 = (d2, Ok c) ∧
    domains d2 !! "d1" = Some c ∧ Status c = Verified ∧ VerifiedAt (verification c) = Some 100%Z.
Proof.
  refine (create_then_verify sample_sha "edge.elitegate.io" sample_dns "d1" "abc" "p1" " App.Acme.io"
    sample_db db1 (mkCreateResponse "d1" "p1" "app.acme.io" PendingVerification
      "_elitegate-verification.app.acme.io" "elitegate-verification=YWJj" 100)
    ["elitegate-verification=YWJj"] (mkResolver (λ _, Ok ["elitegate-verification=YWJj"]) (λ _, Ok "")) _ _ _ _ _).
  - reflexivity.
  - discriminate.
  - vm_compute. reflexivity.
  - reflexivity.
  - by left.
Defined.

Definition queued_row : t := default sample_row (domains db4 !! "d1").

Lemma activation_queues_once_witness :
  pstatus queued_row = RequestingCertificate ∧
  run_prog sample_dns (ActivateCustomDomain true "p1" "d1") db4 = (db4, Ok (queued_row, ActivationInProgress)).
Proof.
  split; [vm_compute; reflexivity|].
  refine (proj2 (proj2 (proj2 (activation_queues_once "arn:listener" sample_sha true sample_dns "d1" "p1"
    (core sample_csys) db4 queued_row sample_core_reachable _ _)))).
  - vm_compute. reflexivity.
  - vm_compute. reflexivity.
Defined.

Lemma delete_outcome_witness :
  ∃ d1 c', run_prog sample_dns (DeleteCustomDomain true "p1" "d1") db3 = (d1, Ok c') ∧
    pstatus c' = Deprovisioning.
Proof.
  assert (Hf : faults db3 = []) by (vm_compute; reflexivity).
  assert (Hc : rows (core sample_csys) !! "d1" = Some sample_row) by (vm_compute; reflexivity).
  assert (Hp : ProjectID sample_row = "p1") by (vm_compute; reflexivity).
  assert (Hs : bool_decide (pstatus sample_row = Deprovisioned) = false) by (vm_compute; reflexivity).
  pose proof (delete_outcome "arn:listener" sample_sha true sample_dns "d1" "p1" (core sample_csys) sample_row
    sample_core_reachable Hf eq_refl Hc Hp) as H.
  rewrite Hs in H. change (store (sw (core sample_csys))) with db3 in H.
  destruct (run_prog sample_dns (DeleteCustomDomain true "p1" "d1") db3) as [d1 r].
  destruct H as (c' & -> & _ & H & _). exists d1, c'. split; [reflexivity|exact H].
Defined.

End ControlPlane.
