(* ===== verification/GatewayALB.v ===== *)
(** * The load-balancer adapter

    [src/internal/aws/gateway_alb.go]: target groups and host-header rules of the
    Application Load Balancer.  The ELBv2 client of the AWS SDK is the interface
    [ELBv2]: a reply is an arbitrary function of the calls and replies so far,
    which are recorded.  A paginator of the SDK is the list of the replies its
    [NextPage] gives until [HasMorePages] says no. *)

From Stdlib Require Import Ascii.
From stdpp Require Import pretty.
From S2P Require Import Prelude GoStrings GoNet.

(** ** [fmt.Sscanf s "%d"] into an [int32] *)

(** Leading space other than a newline is skipped; a sign and at least one digit
    must follow, and what comes after them is left unread. *)
Definition scan_space : list string := filter (λ s, s ≠ bytes [10]) white_space.

Fixpoint scan_digits (acc : option Z) (s : string) : option Z :=
  match s with
  | EmptyString => acc
  | String c s' =>
      match GoNet.dec_digit c with
      | Some d => scan_digits (Some (default 0 acc * 10 + d)%Z) s'
      | None => acc
      end
  end.

Definition Sscanf_d (s : string) : option Z :=
  let s := trim_tokens (len s) scan_space s in
  let v := if HasPrefix s "-" then Z.opp <$> scan_digits None (sdrop 1 s)
           else if HasPrefix s "+" then scan_digits None (sdrop 1 s)
           else scan_digits None s in
  match v with
  | Some p => if (- 2 ^ 31 <=? p)%Z && (p <? 2 ^ 31)%Z then Some p else None
  | None => None
  end.

(** ** The ELBv2 client *)

Record sdk_error := mkSdkError { PriorityInUse : bool; sdk_message : string }.

Record RuleAction := mkAction { is_forward : bool; TargetGroup : option string }.

(** The parts of a listener rule the adapter reads; a condition is the list of
    values of its host-header configuration, if it has one. *)
Record Rule := mkRule {
  RuleArn : option string;
  Priority : option string;
  Conditions : list (option (list string));
  Actions : list RuleAction;
}.

Inductive elb_event :=
| EvDescribeTargetGroups (name : string) (r : result sdk_error (list (option string)))
| EvCreateTargetGroup (name vpcID : string) (r : result sdk_error (list (option string)))
| EvRegisterTargets (tg instance : string) (port : Z) (r : result sdk_error unit)
| EvDescribeTargetHealth (tg instance : string) (port : Z) (r : result sdk_error (list (option string)))
| EvDescribeRules (listener : string) (r : result sdk_error (list Rule))
| EvListRules (listener : string) (pages : list (result sdk_error (list Rule)))
| EvCreateRule (listener : string) (priority : Z) (host tg : string)
    (r : result sdk_error (list (option string)))
| EvDeleteRule (arn : string) (r : result sdk_error unit)
| EvDeregisterTargets (tg instance : string) (port : Z) (r : result sdk_error unit)
| EvDeleteTargetGroup (tg : string) (r : result sdk_error unit).

Abbreviation elb_log := (list elb_event) (only parsing).

(** [gatewayALBAPI]; a listed object is its ARN or state, when it has one. *)
Class ELBv2 := {
  DescribeTargetGroups : elb_log → string → result sdk_error (list (option string));
  CreateTargetGroup : elb_log → string → string → result sdk_error (list (option string));
  RegisterTargets : elb_log → string → string → Z → result sdk_error unit;
  DescribeTargetHealth : elb_log → string → string → Z → result sdk_error (list (option string));
  DescribeRules : elb_log → string → result sdk_error (list Rule);
  DescribeRulesPaginator : elb_log → string → list (result sdk_error (list Rule));
  CreateRule : elb_log → string → Z → string → string → result sdk_error (list (option string));
  DeleteRule : elb_log → string → result sdk_error unit;
  DeregisterTargets : elb_log → string → string → Z → result sdk_error unit;
  DeleteTargetGroup : elb_log → string → result sdk_error unit;
}.

Module GatewayALB.

Inductive error :=
| AutomationDisabled | ClientNotInitialized | ClientUnsupported
| MissingArguments | InvalidPriorityRange | NoFreePriority | PriorityRace
| NoTargetGroupARN | NoRuleARN
| ErrHostRuleTargetConflict
| Api (e : sdk_error).

(** [Client]: the automation flag of its configuration, if it has one, and
    whether its ALB client implements [gatewayALBAPI], if there is one. *)
Record Client := mkClient { AutomationEnabled : option bool; albClient : option bool }.

(** Programs that call the API. *)
Definition C (A : Type) : Type := elb_log → elb_log * result error A.
Definition cret {A} (a : A) : C A := λ h, (h, Ok a).
Definition cfail {A} (e : error) : C A := λ h, (h, Err e).
Definition cbind {A B} (m : C A) (k : A → C B) : C B := λ h,
  match m h with
  | (h, Ok a) => k a h
  | (h, Err e) => (h, Err e)
  end.
Definition api {A} (reply : elb_log → A) (ev : A → elb_event) : C A := λ h,
  (h ++ [ev (reply h)], Ok (reply h)).

#[local] Notation "'call' x ← c ; k" := (cbind c (λ x, k)) (at level 10, x pattern, c at level 100, k at level 200).

Definition gatewayALBClient (c : Client) : option error :=
  match AutomationEnabled c with
  | Some true =>
      match albClient c with
      | None => Some ClientNotInitialized
      | Some false => Some ClientUnsupported
      | Some true => None
      end
  | _ => Some AutomationDisabled
  end.

Definition with_client {A} (c : Client) (k : C A) : C A :=
  match gatewayALBClient c with Some e => cfail e | None => k end.

(** [alb.go]. *)
Definition isNotFoundError (e : sdk_error) : bool :=
  let msg := ToLower (sdk_message e) in Contains msg "notfound" || Contains msg "does not exist".

Definition isPriorityInUseError (e : sdk_error) : bool :=
  let lowered := ToLower (sdk_message e) in
  PriorityInUse e || Contains lowered "priorityinuse" || Contains lowered "priority in use".

(** [sdkaws.ToString]. *)
Definition ToString (o : option string) : string := default "" o.

(** ** Host-header rules *)

Definition normalize_host (h : string) : string := TrimSuffix (ToLower (TrimSpace h)) ".".

Definition host_matches (expectedHost : string) (r : Rule) : bool :=
  existsb (λ cond, match cond with
                   | Some values => existsb (λ v, String.eqb (normalize_host v) expectedHost) values
                   | None => false
                   end) (Conditions r).

(** The priority a rule has in the adapter's eyes; [default] has none. *)
Definition scan_priority (r : Rule) : option Z :=
  match Priority r with
  | Some p => if String.eqb p "default" then None else Sscanf_d p
  | None => None
  end.

Definition forwards_to (tg : string) (r : Rule) : bool :=
  existsb (λ a, is_forward a && String.eqb (ToString (TargetGroup a)) tg) (Actions r).

Definition findCustomDomainHostRuleDetails (rules : list Rule) (hostname targetGroupARN : string)
  : string * Z * bool :=
  let expectedHost := normalize_host hostname in
  match find_first (host_matches expectedHost) rules with
  | None => ("", 0%Z, false)
  | Some r =>
      if forwards_to targetGroupARN r then (ToString (RuleArn r), default 0%Z (scan_priority r), false)
      else ("", 0%Z, true)
  end.

Definition findGatewayHostRule (rules : list Rule) (hostname targetGroupARN : string) : string * bool :=
  let '(arn, _, conflict) := findCustomDomainHostRuleDetails rules hostname targetGroupARN in (arn, conflict).

(** All pages, or the first failure. *)
Fixpoint collect_pages (acc : list Rule) (pages : list (result sdk_error (list Rule)))
  : result sdk_error (list Rule) :=
  match pages with
  | [] => Ok acc
  | Ok rules :: pages => collect_pages (acc ++ rules) pages
  | Err e :: _ => Err e
  end.

(** The priorities taken by the rules. *)
Definition assigned (rules : list Rule) (p : Z) : bool :=
  existsb (λ r, bool_decide (scan_priority r = Some p)) rules.

(** The loop [for p := minPriority; p <= maxPriority; p++]. *)
Definition select_priority (lo hi : Z) (rules : list Rule) : option Z :=
  find_first (λ p, negb (assigned rules p)) (seqZ lo (hi - lo + 1)).

Definition maxAttempts : nat := 5.

Section adapter.
Context {Elb : ELBv2}.
Context (c : Client).

(** One round of [EnsureHostRule] per attempt left. *)
Fixpoint ensure_attempts (n : nat) (listenerARN hostname targetGroupARN : string) (lo hi : Z)
  : C (string * Z) :=
  match n with
  | O => cfail PriorityRace
  | S n =>
      call pages ← api (λ h, DescribeRulesPaginator h listenerARN) (EvListRules listenerARN);
      match collect_pages [] pages with
      | Err e => cfail (Api e)
      | Ok allRules =>
          let '(ruleARN, priority, conflict) :=
            findCustomDomainHostRuleDetails allRules hostname targetGroupARN in
          if negb (String.eqb ruleARN "") then cret (ruleARN, priority)
          else if conflict : bool then cfail ErrHostRuleTargetConflict
          else match select_priority lo hi allRules with
          | None => cfail NoFreePriority
          | Some selectedPriority =>
              call r ← api (λ h, CreateRule h listenerARN selectedPriority hostname targetGroupARN)
                         (EvCreateRule listenerARN selectedPriority hostname targetGroupARN);
              match r with
              | Err e =>
                  if isPriorityInUseError e then ensure_attempts n listenerARN hostname targetGroupARN lo hi
                  else cfail (Api e)
              | Ok (Some arn :: _) => cret (arn, selectedPriority)
              | Ok _ => cfail NoRuleARN
              end
          end
      end
  end.

Definition EnsureHostRule (listenerARN hostname targetGroupARN : string) (lo hi : Z) : C (string * Z) :=
  let listenerARN := TrimSpace listenerARN in
  let hostname := TrimSuffix (ToLower (TrimSpace hostname)) "." in
  let targetGroupARN := TrimSpace targetGroupARN in
  if String.eqb listenerARN "" || String.eqb hostname "" || String.eqb targetGroupARN ""
  then cfail MissingArguments
  else if (lo <? 1)%Z || (50000 <? hi)%Z || (hi <? lo)%Z then cfail InvalidPriorityRange
  else with_client c (ensure_attempts maxAttempts listenerARN hostname targetGroupARN lo hi).

Definition CreateGatewayHostRule (listenerARN hostname targetGroupARN : string) (priority : Z) : C string :=
  with_client c (
    call existing ← api (λ h, DescribeRules h listenerARN) (EvDescribeRules listenerARN);
    match existing with
    | Err e => cfail (Api e)
    | Ok rules =>
        let '(ruleARN, conflict) := findGatewayHostRule rules hostname targetGroupARN in
        if negb (String.eqb ruleARN "") then cret ruleARN
        else if conflict : bool then cfail ErrHostRuleTargetConflict
        else
          call r ← api (λ h, CreateRule h listenerARN priority hostname targetGroupARN)
                     (EvCreateRule listenerARN priority hostname targetGroupARN);
          match r with
          | Err e => cfail (Api e)
          | Ok (Some arn :: _) => cret arn
          | Ok _ => cfail NoRuleARN
          end
    end).

(** A call for which an absent resource is a success. *)
Definition gone_is_fine (m : C (result sdk_error unit)) : C unit :=
  call r ← m;
  match r with
  | Err e => if isNotFoundError e then cret () else cfail (Api e)
  | Ok _ => cret ()
  end.

Definition DeleteGatewayHostRule (ruleARN : string) : C unit :=
  with_client c (gone_is_fine (api (λ h, DeleteRule h ruleARN) (EvDeleteRule ruleARN))).

(** ** Target groups *)

Definition CreateGatewayTargetGroup (name vpcID : string) : C string :=
  with_client c (
    let name := TrimSpace name in
    let vpcID := TrimSpace vpcID in
    if String.eqb name "" || String.eqb vpcID "" then cfail MissingArguments
    else
      call existing ← api (λ h, DescribeTargetGroups h name) (EvDescribeTargetGroups name);
      let create :=
        call r ← api (λ h, CreateTargetGroup h name vpcID) (EvCreateTargetGroup name vpcID);
        match r with
        | Err e => cfail (Api e)
        | Ok (Some arn :: _) => cret arn
        | Ok _ => cfail NoTargetGroupARN
        end in
      match existing with
      | Ok (tg :: _) => if negb (String.eqb (ToString tg) "") then cret (ToString tg) else create
      | Ok [] => create
      | Err e => if negb (isNotFoundError e) then cfail (Api e) else create
      end).

Definition RegisterGatewayTarget (targetGroupARN instanceID : string) (port : Z) : C unit :=
  with_client c (
    call r ← api (λ h, RegisterTargets h targetGroupARN instanceID port)
               (EvRegisterTargets targetGroupARN instanceID port);
    match r with Err e => cfail (Api e) | Ok _ => cret () end).

Definition GetGatewayTargetHealth (targetGroupARN instanceID : string) (port : Z) : C string :=
  with_client c (
    call r ← api (λ h, DescribeTargetHealth h targetGroupARN instanceID port)
               (EvDescribeTargetHealth targetGroupARN instanceID port);
    match r with
    | Err e => cfail (Api e)
    | Ok (Some state :: _) => cret state
    | Ok _ => cret "unknown"
    end).

Definition DeregisterGatewayTarget (targetGroupARN instanceID : string) (port : Z) : C unit :=
  with_client c (gone_is_fine (api (λ h, DeregisterTargets h targetGroupARN instanceID port)
                                 (EvDeregisterTargets targetGroupARN instanceID port))).

Definition DeleteGatewayTargetGroup (targetGroupARN : string) : C unit :=
  with_client c (gone_is_fine (api (λ h, DeleteTargetGroup h targetGroupARN)
                                 (EvDeleteTargetGroup targetGroupARN))).

(** ** [EnsureHostRule]: what its answer means *)

(** The rule the code looks for: the first one for the host, if it forwards to
    the target group. *)
Definition routes (rules : list Rule) (host tg : string) (r : Rule) : Prop :=
  ∃ before after, rules = before ++ r :: after ∧ host_matches (normalize_host host) r = true ∧
    forwards_to tg r = true ∧ Forall (λ r, host_matches (normalize_host host) r = false) before.

Lemma find_details_spec rules host tg :
  match findCustomDomainHostRuleDetails rules host tg with
  | (arn, p, true) => arn = "" ∧ ∃ r, r ∈ rules ∧ host_matches (normalize_host host) r = true ∧
      forwards_to tg r = false
  | (arn, p, false) =>
      (∃ r, routes rules host tg r ∧ arn = ToString (RuleArn r) ∧ p = default 0%Z (scan_priority r)) ∨
      (arn = "" ∧ Forall (λ r, host_matches (normalize_host host) r = false) rules)
  end.
Proof.
  unfold findCustomDomainHostRuleDetails. destruct (find_first _ rules) as [r|] eqn:Hf.
  - apply find_first_split in Hf as (before & after & -> & Hm & Hb).
    destruct (forwards_to tg r) eqn:Ht.
    + left. exists r. split; [|done]. by exists before, after.
    + split; [done|]. exists r. split; [set_solver|done].
  - right. split; [done|]. apply Forall_forall, find_first_None, Hf.
Qed.

Lemma select_priority_spec lo hi rules :
  match select_priority lo hi rules with
  | Some p => (lo ≤ p ≤ hi)%Z ∧ assigned rules p = false ∧ ∀ q, (lo ≤ q < p)%Z → assigned rules q = true
  | None => ∀ q, (lo ≤ q ≤ hi)%Z → assigned rules q = true
  end.
Proof.
  unfold select_priority. destruct (find_first _ _) as [p|] eqn:Hf.
  - apply find_first_split in Hf as (before & after & Hs & Hp & Hb).
    assert (Hin : p ∈ seqZ lo (hi - lo + 1)) by (rewrite Hs; set_solver).
    apply elem_of_seqZ in Hin. split; [lia|]. split; [by apply negb_true_iff|].
    assert (Hlen : length before = Z.to_nat (p - lo)).
    { assert (Hl : seqZ lo (hi - lo + 1) !! length before = Some p) by (rewrite Hs; by apply list_lookup_middle).
      apply lookup_seqZ in Hl as [-> _]. lia. }
    intros q Hq. assert (Hl : seqZ lo (hi - lo + 1) !! Z.to_nat (q - lo) = Some q).
    { apply lookup_seqZ. lia. }
    rewrite Hs, lookup_app_l in Hl by lia. rewrite Forall_forall in Hb.
    apply negb_false_iff, Hb. by eapply list_elem_of_lookup_2.
  - intros q Hq. apply negb_false_iff. apply (proj1 (find_first_None _ _) Hf).
    apply elem_of_seqZ. lia.
Qed.

(** How a call of [EnsureHostRule] succeeds: with a rule already there, or with a
    rule it created right after a listing. *)
Definition found (l host tg : string) (h h' : elb_log) (arn : string) (p : Z) : Prop :=
  ∃ h0 pages rules r, h `prefix_of` h0 ∧ h' = h0 ++ [EvListRules l pages] ∧
    pages = DescribeRulesPaginator h0 l ∧ collect_pages [] pages = Ok rules ∧ routes rules host tg r ∧
    arn = ToString (RuleArn r) ∧ arn ≠ "" ∧ p = default 0%Z (scan_priority r).

Definition created (l host tg : string) (lo hi : Z) (h h' : elb_log) (arn : string) (p : Z) : Prop :=
  ∃ h0 pages rules rest, h `prefix_of` h0 ∧
    h' = h0 ++ [EvListRules l pages; EvCreateRule l p host tg (Ok (Some arn :: rest))] ∧
    pages = DescribeRulesPaginator h0 l ∧ collect_pages [] pages = Ok rules ∧
    CreateRule (h0 ++ [EvListRules l pages]) l p host tg = Ok (Some arn :: rest) ∧
    (∀ r, r ∈ rules → host_matches (normalize_host host) r = true → ∃ r', routes rules host tg r' ∧
       ToString (RuleArn r') = "") ∧
    (lo ≤ p ≤ hi)%Z ∧ assigned rules p = false ∧ ∀ q, (lo ≤ q < p)%Z → assigned rules q = true.

(** The attempts to create a rule that a log shows. *)
Definition is_create (e : elb_event) : bool := match e with EvCreateRule _ _ _ _ _ => true | _ => false end.
Definition creations (h : elb_log) : nat := length (filter (λ e, is_create e = true) h).

Lemma creations_app h1 h2 : creations (h1 ++ h2) = creations h1 + creations h2.
Proof. unfold creations. by rewrite filter_app, length_app. Qed.

Lemma find_details_none rules host tg p :
  findCustomDomainHostRuleDetails rules host tg = ("", p, false) →
  ∀ r, r ∈ rules → host_matches (normalize_host host) r = true → ∃ r', routes rules host tg r' ∧
    ToString (RuleArn r') = "".
Proof.
  intros H r Hr Hm. pose proof (find_details_spec rules host tg) as Hs. rewrite H in Hs.
  destruct Hs as [(r' & ? & E & _)|[_ Hall]]; [by exists r'|].
  rewrite Forall_forall in Hall. by rewrite (Hall r Hr) in Hm.
Qed.

Lemma ensure_attempts_spec n l host tg lo hi h h' r :
  ensure_attempts n l host tg lo hi h = (h', r) →
  h `prefix_of` h' ∧ creations h' ≤ creations h + n ∧ length h' ≤ length h + 2 * n ∧
  (∀ arn p, r = Ok (arn, p) → found l host tg h h' arn p ∨ created l host tg lo hi h h' arn p).
Proof.
  revert h. induction n as [|n IH]; intros h; cbn [ensure_attempts].
  { unfold cfail. intros [= <- <-]. split_and!; [done|lia|lia|done]. }
  unfold cbind at 1, api at 1. set (pages := DescribeRulesPaginator h l).
  set (h1 := h ++ [EvListRules l pages]).
  assert (Hp1 : h `prefix_of` h1) by apply prefix_app_r, reflexivity.
  assert (Hc1 : creations h1 = creations h) by (unfold h1; rewrite creations_app; change (creations [EvListRules l pages]) with 0; lia).
  assert (Hl1 : length h1 = S (length h)) by (unfold h1; rewrite length_app; simpl; lia).
  assert (Hstop : ∀ e, (h1, Err e) = (h', r) → h `prefix_of` h' ∧ creations h' ≤ creations h + S n ∧
    length h' ≤ length h + 2 * S n ∧
    (∀ arn p, r = Ok (arn, p) → found l host tg h h' arn p ∨ created l host tg lo hi h h' arn p)).
  { intros e [= <- <-]. split_and!; [done|lia|lia|done]. }
  destruct (collect_pages [] pages) as [rules|e] eqn:Hpages; [|apply Hstop].
  destruct (findCustomDomainHostRuleDetails rules host tg) as [[arn p] conflict] eqn:Hd.
  pose proof (find_details_spec rules host tg) as Hspec. rewrite Hd in Hspec.
  destruct (String.eqb_spec arn "") as [->|Harn]; cbn [negb].
  2: { destruct conflict; [by destruct Hspec|].
       destruct Hspec as [(rl & Hr & Ha & Hp)|[? _]]; [|done].
       unfold cret. intros [= <- <-]. split_and!; [done|lia|lia|]. intros arn' p' [= <- <-]. left.
       exists h, pages, rules, rl. by split_and!. }
  destruct conflict; [apply Hstop|].
  pose proof (select_priority_spec lo hi rules) as Hsel.
  destruct (select_priority lo hi rules) as [q|]; [|apply Hstop].
  unfold cbind, api. set (reply := CreateRule h1 l q host tg).
  set (h2 := h1 ++ [EvCreateRule l q host tg reply]).
  assert (Hp2 : h `prefix_of` h2) by by apply prefix_app_r.
  assert (Hc2 : creations h2 = S (creations h)) by (unfold h2; rewrite creations_app, Hc1; change (creations [EvCreateRule l q host tg reply]) with 1; lia).
  assert (Hl2 : length h2 = S (S (length h))) by (unfold h2; rewrite length_app, Hl1; simpl; lia).
  assert (Hstop2 : ∀ e, (h2, Err e) = (h', r) → h `prefix_of` h' ∧ creations h' ≤ creations h + S n ∧
    length h' ≤ length h + 2 * S n ∧
    (∀ arn p, r = Ok (arn, p) → found l host tg h h' arn p ∨ created l host tg lo hi h h' arn p)).
  { intros e [= <- <-]. split_and!; [done|lia|lia|done]. }
  destruct reply as [arns|e] eqn:Hr.
  - destruct arns as [|[arn|] rest]; [apply Hstop2| |apply Hstop2].
    unfold cret. intros [= <- <-]. split_and!; [done|lia|lia|]. intros arn' p' [= <- <-]. right.
    exists h, pages, rules, rest. split; [done|]. split; [unfold h2, h1; by rewrite <-app_assoc|].
    split; [done|]. split; [done|]. split; [done|]. split; [by eapply find_details_none|]. done.
  - destruct (isPriorityInUseError e); [|apply Hstop2]. intros H. apply IH in H as (H1 & H2 & H3 & H4).
    split_and!; [by etrans|lia|lia|]. intros arn p' Hok. destruct (H4 arn p' Hok) as [Hf|Hcr].
    + left. destruct Hf as (h0 & pg & rs & rr & ? & Hrest). exists h0, pg, rs, rr. split; [by etrans|done].
    + right. destruct Hcr as (h0 & pg & rs & rr & ? & Hrest). exists h0, pg, rs, rr. split; [by etrans|done].
Qed.

(** The attempts run unless an argument is refused. *)
Lemma EnsureHostRule_cases l host tg lo hi h h' r :
  EnsureHostRule l host tg lo hi h = (h', r) →
  (h' = h ∧ is_ok r = false) ∨
  ensure_attempts maxAttempts (TrimSpace l) (normalize_host host) (TrimSpace tg) lo hi h = (h', r) ∧
  (1 ≤ lo ≤ hi)%Z ∧ (hi ≤ 50000)%Z.
Proof.
  unfold EnsureHostRule. fold (normalize_host host).
  destruct (_ || _ || _); [unfold cfail; intros [= <- <-]; by left|].
  destruct ((lo <? 1)%Z || _ || _) eqn:Hrange; [unfold cfail; intros [= <- <-]; by left|].
  unfold with_client. destruct (gatewayALBClient c); [unfold cfail; intros [= <- <-]; by left|].
  intros H. right. split; [done|]. lia.
Qed.

(** [EnsureHostRule] ends within five attempts, each a listing of all rules
    and at most one creation.  A success names either the first rule of the last
    listing for the hostname, which forwards to the target group, or a rule
    created after a listing without one, at the lowest priority of the range
    that no listed rule has. *)
Theorem EnsureHostRule_spec l host tg lo hi h h' r :
  EnsureHostRule l host tg lo hi h = (h', r) →
  h `prefix_of` h' ∧ creations h' ≤ creations h + 5 ∧ length h' ≤ length h + 10 ∧
  ∀ arn p, r = Ok (arn, p) →
    found (TrimSpace l) (normalize_host host) (TrimSpace tg) h h' arn p ∨
    created (TrimSpace l) (normalize_host host) (TrimSpace tg) lo hi h h' arn p ∧ (1 ≤ p ≤ 50000)%Z.
Proof.
  intros [[-> Hr]|[H Hrange]]%EnsureHostRule_cases; [split_and!; [done|lia|lia|by intros ?? ->]|].
  apply ensure_attempts_spec in H as (H1 & H2 & H3 & H4). unfold maxAttempts in *.
  split_and!; [done|lia|lia|]. intros arn p Hok. destruct (H4 arn p Hok) as [?|Hc]; [by left|right].
  split; [done|]. destruct Hc as (? & ? & ? & ? & _ & _ & _ & _ & _ & _ & Hp & _). lia.
Qed.

End adapter.
(** ** A listener that behaves *)

(** The rules of a listener after the recorded calls: creations add a rule at the
    end, deletions remove it. *)
Section listener.
Context (base : list Rule) (listener : string).

Definition new_rule (arn : string) (p : Z) (host tg : string) : Rule :=
  mkRule (Some arn) (Some (pretty p)) [Some [host]] [mkAction true (Some tg)].

Definition apply_event (rules : list Rule) (ev : elb_event) : list Rule :=
  match ev with
  | EvCreateRule l p host tg (Ok (Some arn :: _)) =>
      if String.eqb l listener && negb (String.eqb arn "") then rules ++ [new_rule arn p host tg] else rules
  | EvDeleteRule arn (Ok _) => filter (λ r, RuleArn r ≠ Some arn) rules
  | _ => rules
  end.

Definition rules_after (h : elb_log) : list Rule := foldl apply_event base h.

Lemma rules_after_app h1 h2 : rules_after (h1 ++ h2) = foldl apply_event (rules_after h1) h2.
Proof. apply foldl_app. Qed.

Lemma rules_have_arns h :
  Forall (λ r, ToString (RuleArn r) ≠ "") base → Forall (λ r, ToString (RuleArn r) ≠ "") (rules_after h).
Proof.
  intros Hb. induction h as [|ev h IH] using rev_ind; [done|]. rewrite rules_after_app. simpl.
  destruct ev as [| | | | | |l p host tg [[|[arn|] ?]|]|arn [|]| |]; try done; simpl.
  - destruct (String.eqb l listener); [|done]. destruct (String.eqb_spec arn ""); [done|].
    apply Forall_app. split; [done|]. by repeat constructor.
  - apply Forall_forall. intros r [_ Hr]%list_elem_of_filter. rewrite Forall_forall in IH. by apply IH.
Qed.

Lemma collect_pages_ok acc ps : collect_pages acc (Ok <$> ps) = Ok (acc ++ concat ps).
Proof.
  revert acc. induction ps as [|q ps IH]; intros acc; simpl; [by rewrite app_nil_r|].
  by rewrite IH, <-app_assoc.
Qed.

(** A rule's priority is printed in decimal, so it is read back. *)
Lemma digit_char y : (y < 10)%N →
  GoNet.dec_digit (pretty_N_char y) = Some (Z.of_N y) ∧ is_digit (pretty_N_char y) = true.
Proof.
  intros Hy. assert (y = 0 ∨ y = 1 ∨ y = 2 ∨ y = 3 ∨ y = 4 ∨ y = 5 ∨ y = 6 ∨ y = 7 ∨ y = 8 ∨ y = 9)%N
    as H by lia. by repeat (destruct H as [->|H]; [done|]); subst.
Qed.

Lemma scan_pretty_go x :
  ∃ k : nat, ∀ a s, scan_digits a (pretty_N_go x s) =
    scan_digits (if decide (x = 0%N) then a else Some (default 0 a * 10 ^ Z.of_nat k + Z.of_N x)%Z) s.
Proof.
  induction (N.lt_wf_0 x) as [x _ IH]. destruct (decide (x = 0%N)) as [->|Hx].
  { exists 0. intros a s. by rewrite pretty_N_go_0. }
  destruct (IH (x / 10)%N) as [k Hk]; [apply N.div_lt; lia|].
  assert (Hd : (x mod 10 < 10)%N) by (apply N.mod_lt; lia).
  pose proof (N.div_mod x 10 ltac:(done)) as Hdm.
  exists (if decide ((x / 10)%N = 0%N) then 1 else S k). intros a s.
  rewrite pretty_N_go_step by lia. rewrite Hk. cbn [scan_digits]. rewrite (proj1 (digit_char _ Hd)).
  f_equal. f_equal. destruct (decide ((x / 10)%N = 0%N)) as [E|E]; cbn [default].
  - change (Z.of_nat 1) with 1%Z. lia.
  - rewrite Nat2Z.inj_succ, Z.pow_succ_r by lia. cbn. lia.
Qed.

Lemma pretty_go_head x s : (0 < x)%N → ∃ c t, pretty_N_go x s = String c t ∧ is_digit c = true.
Proof.
  revert s. induction (N.lt_wf_0 x) as [x _ IH]. intros s Hx. rewrite pretty_N_go_step by done.
  assert (Hd : (x mod 10 < 10)%N) by (apply N.mod_lt; lia).
  destruct (decide ((x / 10)%N = 0%N)) as [->|E].
  - rewrite pretty_N_go_0. eexists _, _. split; [done|]. by apply digit_char.
  - apply IH; [apply N.div_lt; lia|by apply N.neq_0_lt_0].
Qed.

Lemma scan_pretty arn p host tg : (1 ≤ p ≤ 50000)%Z → scan_priority (new_rule arn p host tg) = Some p.
Proof.
  intros Hp. unfold scan_priority. simpl.
  assert (Hpp : pretty p = pretty_N_go (Z.to_N p) "").
  { destruct p as [|p|p]; [lia| |lia]. done. }
  destruct (pretty_go_head (Z.to_N p) "") as (ch & t & Hs & Hc); [lia|].
  destruct (scan_pretty_go (Z.to_N p)) as [k Hk]. rewrite Hpp.
  destruct (String.eqb_spec (pretty_N_go (Z.to_N p) "") "default") as [E|_].
  { rewrite Hs in E. injection E as -> _. done. }
  unfold Sscanf_d. rewrite Hs. rewrite trim_tokens_id.
  2: { apply graphic_not_token; [by vm_compute|]. clear -Hc.
       unfold is_digit, is_graphic in *. rewrite !andb_true_iff, !Nat.leb_le in *. lia. }
  rewrite <-Hs.
  assert (HasPrefix (pretty_N_go (Z.to_N p) "") "-" = false ∧ HasPrefix (pretty_N_go (Z.to_N p) "") "+" = false)
    as [-> ->] by (rewrite Hs; clear -Hc; split; cbn [HasPrefix];
      [by destruct (Ascii.eqb_spec "-" ch); subst|by destruct (Ascii.eqb_spec "+" ch); subst]).
  rewrite Hk, decide_False by lia. cbn [scan_digits default]. rewrite Z2N.id by lia.
  replace (0 * 10 ^ Z.of_nat k + p)%Z with p by lia.
  assert ((- 2 ^ 31 <=? p)%Z = true) as -> by lia. by assert ((p <? 2 ^ 31)%Z = true) as -> by lia.
Qed.

Context {Elb : ELBv2} (c : Client).
Hypothesis base_arns : Forall (λ r, ToString (RuleArn r) ≠ "") base.
(** The listing shows the rules there are, and a created rule has an ARN. *)
Hypothesis listing : ∀ h, ∃ ps, DescribeRulesPaginator h listener = Ok <$> ps ∧ concat ps = rules_after h.
Hypothesis arn_given : ∀ h p host tg arns,
  CreateRule h listener p host tg = Ok arns → ∃ arn, arns = [Some arn] ∧ arn ≠ "".

Lemma ensure_finds host tg lo hi h r arn p :
  routes (rules_after h) host tg r → ToString (RuleArn r) = arn → arn ≠ "" →
  default 0%Z (scan_priority r) = p →
  ∃ pages, ensure_attempts maxAttempts listener host tg lo hi h = (h ++ [EvListRules listener pages], Ok (arn, p)).
Proof using listing.
  intros Hr Ha Hne Hp. unfold maxAttempts. cbn [ensure_attempts]. unfold cbind at 1, api at 1.
  destruct (listing h) as (ps & -> & Hps). rewrite collect_pages_ok. cbn [app]. rewrite Hps.
  assert (findCustomDomainHostRuleDetails (rules_after h) host tg = (arn, p, false)) as ->.
  { pose proof (find_details_spec (rules_after h) host tg) as Hs.
    destruct Hr as (before & after & Hrules & Hm & Hf & Hb). unfold findCustomDomainHostRuleDetails in *.
    assert (find_first (host_matches (normalize_host host)) (rules_after h) = Some r) as ->.
    { rewrite Hrules. clear -Hm Hb. induction Hb as [|x l Hx _ IH]; simpl; [by rewrite Hm|].
      by rewrite Hx. }
    rewrite Hf. by rewrite Ha, Hp. }
  destruct (String.eqb_spec arn "") as [|_]; [done|]. cbn [negb]. by eexists.
Qed.

Lemma normalize_new_rule arn p host tg :
  normalize_host host = host → host_matches (normalize_host host) (new_rule arn p host tg) = true.
Proof. intros Hn. unfold host_matches. simpl. rewrite !Hn, String.eqb_refl. done. Qed.

(** Idempotence of [EnsureHostRule] on a listener nobody else changes: after
    a success, the same call lists the rules, creates nothing and returns the same
    rule and priority. *)
Theorem EnsureHostRule_idempotent l host tg lo hi h h' arn p :
  TrimSpace l = listener → normalize_host (normalize_host host) = normalize_host host →
  EnsureHostRule c l host tg lo hi h = (h', Ok (arn, p)) →
  ∃ pages, EnsureHostRule c l host tg lo hi h' = (h' ++ [EvListRules listener pages], Ok (arn, p)).
Proof using listing arn_given base_arns.
  intros Hl Hn H. destruct (EnsureHostRule_cases _ _ _ _ _ _ _ _ _ H) as [[_ ?]|(Hatt & Hlo & Hhi)]; [done|].
  apply ensure_attempts_spec in Hatt as (_ & _ & _ & Hspec). revert H.
  unfold EnsureHostRule. fold (normalize_host host). rewrite Hl in *.
  destruct (_ || _ || _); [done|]. destruct ((lo <? 1)%Z || _ || _); [done|].
  unfold with_client. destruct (gatewayALBClient c); [done|]. intros _.
  destruct (Hspec arn p eq_refl) as [Hf|Hc].
  - destruct Hf as (h0 & pages & rules & r & _ & -> & -> & Hpages & Hr & Ha & Hne & Hp).
    apply (ensure_finds _ _ _ _ _ r); [|done..]. rewrite rules_after_app. cbn [foldl apply_event].
    destruct (listing h0) as (ps & Hps & Hc). rewrite Hps, collect_pages_ok in Hpages.
    injection Hpages as <-. by rewrite <-Hc.
  - destruct Hc as (h0 & pages & rules & rest & _ & -> & -> & Hpages & Hcr & Hnone & Hp & _ & _).
    destruct (arn_given _ _ _ _ _ Hcr) as (arn' & [= <- ->] & Hne).
    apply (ensure_finds _ _ _ _ _ (new_rule arn p (normalize_host host) (TrimSpace tg))); [|done|done|].
    + rewrite rules_after_app. cbn [foldl apply_event]. rewrite String.eqb_refl.
      destruct (String.eqb_spec arn "") as [|_]; [done|]. cbn [andb negb].
      destruct (listing h0) as (ps & Hps & Hc). rewrite Hps, collect_pages_ok in Hpages.
      injection Hpages as <-. rewrite Hc in Hnone. exists (rules_after h0), []. split; [done|].
      split; [by apply normalize_new_rule|].
      split; [unfold forwards_to; simpl; by rewrite String.eqb_refl|]. apply Forall_forall. intros r Hr.
      apply not_true_iff_false. intros Hm. destruct (Hnone r Hr Hm) as (r' & (b & a & Hrs & _) & He).
      pose proof (rules_have_arns h0 base_arns) as Hall. rewrite Forall_forall in Hall.
      apply (Hall r'); [|done]. rewrite Hrs. set_solver.
    + rewrite scan_pretty; [done|lia].
Qed.

End listener.

(** *** A concrete listener *)

(** Two pages: the first rule, then the others; creations succeed. *)
Definition sample_base : list Rule :=
  [mkRule (Some "arn:rule:default") (Some "default") [] [mkAction true (Some "arn:tg:shared")];
   mkRule (Some "arn:rule:1") (Some "40001") [Some ["Other.example.com"]] [mkAction true (Some "arn:tg:9")]].

Definition sample_pages (h : elb_log) : list (list Rule) :=
  match rules_after sample_base "arn:listener" h with r :: rs => [[r]; rs] | [] => [] end.

#[local] Instance sample_elb : ELBv2 := {
  DescribeTargetGroups _ _ := Ok [];
  CreateTargetGroup _ name _ := Ok [Some ("arn:tg:" +:+ name)%string];
  RegisterTargets _ _ _ _ := Ok ();
  DescribeTargetHealth _ _ _ _ := Ok [Some "healthy"];
  DescribeRules h l := Ok (default [] (head (sample_pages h)));
  DescribeRulesPaginator h l := Ok <$> sample_pages h;
  CreateRule h _ p _ _ := Ok [Some ("arn:rule:" +:+ pretty p)%string];
  DeleteRule _ _ := Ok ();
  DeregisterTargets _ _ _ _ := Ok ();
  DeleteTargetGroup _ _ := Ok ();
}.

Definition sample_client : Client := mkClient (Some true) (Some true).

Lemma sample_listing h :
  ∃ ps, DescribeRulesPaginator h "arn:listener" = Ok <$> ps ∧
    concat ps = rules_after sample_base "arn:listener" h.
Proof.
  exists (sample_pages h). split; [done|]. unfold sample_pages.
  destruct (rules_after sample_base "arn:listener" h); [done|]. simpl. by rewrite app_nil_r.
Qed.

Definition sample_ensured : elb_log :=
  (EnsureHostRule sample_client " arn:listener" "App.Acme.io." "arn:tg:1" 40001 40100 []).1.

Lemma EnsureHostRule_idempotent_witness :
  ∃ pages, EnsureHostRule sample_client " arn:listener" "App.Acme.io." "arn:tg:1" 40001 40100 sample_ensured =
    (sample_ensured ++ [EvListRules "arn:listener" pages], Ok ("arn:rule:40002", 40002%Z)).
Proof.
  refine (EnsureHostRule_idempotent sample_base "arn:listener" sample_client _ sample_listing _
    " arn:listener" "App.Acme.io." "arn:tg:1" 40001 40100 [] sample_ensured "arn:rule:40002" 40002 _ _ _).
  - repeat constructor; discriminate.
  - intros h p host tg arns [= <-]. by eexists.
  - vm_compute. reflexivity.
  - vm_compute. reflexivity.
  - vm_compute. reflexivity.
Defined.

Lemma EnsureHostRule_spec_witness :
  creations sample_ensured ≤ creations [] + 5 ∧
  created "arn:listener" "app.acme.io" "arn:tg:1" 40001 40100 [] sample_ensured "arn:rule:40002" 40002.
Proof.
  destruct (EnsureHostRule_spec sample_client " arn:listener" "App.Acme.io." "arn:tg:1" 40001 40100 []
    sample_ensured (Ok ("arn:rule:40002", 40002%Z))) as (_ & H2 & _ & H4).
  - vm_compute. reflexivity.
  - split; [exact H2|]. destruct (H4 _ _ eq_refl) as [Hf|[Hc _]]; [exfalso|exact Hc].
    destruct Hf as (h0 & pages & rules & r & _ & E & _). 
    assert (Hl : last sample_ensured = last (h0 ++ [EvListRules (TrimSpace " arn:listener") pages])) by (by f_equal).
    rewrite last_snoc in Hl. vm_compute in Hl. discriminate Hl.
Defined.

(** The rule of a dedicated gateway is looked for on the first page of the
    listener's rules only: when the rule created before is on the second page, a
    repeated [CreateGatewayHostRule] (a retry after the database update failed)
    creates a second rule instead of finding the first. *)
Theorem CreateGatewayHostRule_misses_second_page :
  let run := CreateGatewayHostRule sample_client "arn:listener" "gw-1.example.com" "arn:tg:1" in
  let '(h1, r1) := run 1000%Z [] in
  let '(h2, r2) := run 1001%Z h1 in
  r1 = Ok "arn:rule:1000" ∧ r2 = Ok "arn:rule:1001" ∧ creations h2 = 2 ∧
  (EnsureHostRule sample_client "arn:listener" "gw-1.example.com" "arn:tg:1" 1000 2000 h1).2 =
    Ok ("arn:rule:1000", 1000%Z).
Proof. vm_compute. split_and!; reflexivity. Qed.

End GatewayALB.
