(* ===== verification/GatewayRepo.v ===== *)
(** * Dedicated gateways: rows and repository

    [src/internal/storage/gateway_repo.go], [gateway_ingress_repo.go],
    [gateway_ingress_queue.go], [gateway_ingress_state.go] and
    [gateway_deprovision_repo.go].  A repository method is a program of
    [Store.M] over the table of gateways, whose key is [external_id] (a UNIQUE
    column; rows are never removed). *)

From Stdlib Require Import Ascii.
From stdpp Require Import gmap.
From S2P Require Import Prelude GoStrings GoNet Store.

Module GatewayRepo.
Export Store.
#[local] Open Scope store_scope.

(** ** Rows *)

Inductive GatewayStatus := Provisioning | Active | Failed | Decommissioned | Draining.

(** The values of [provisioning_status] the program writes or asks for. *)
Inductive IngressStatus :=
| NotStarted | ContainerReady | CreatingTargetGroup | RegisteringTarget | CreatingListenerRule
| WaitingForTargetHealth | Completed | IngressFailed | Deprovisioning | Deprovisioned.

#[global] Instance GatewayStatus_eq_dec : EqDecision GatewayStatus.
Proof. solve_decision. Defined.
#[global] Instance IngressStatus_eq_dec : EqDecision IngressStatus.
Proof. solve_decision. Defined.

Record Endpoint := mkEndpoint {
  EndpointIP : string;
  GatewayPort : string;
  PublicHost : option string;
  PublicPort : option string;
  PublicEndpoint : option string;
  HostPort : option Z;
}.

Record Ingress := mkIngress {
  TargetGroupARN : option string;
  ListenerRuleARN : option string;
  ListenerRulePriority : option Z;
}.

Record Queue := mkQueue {
  IngressState : IngressStatus;
  ProvisioningError : option string;
  RetryCount : Z;
  NextRetryAt : option Z;
}.

Record Lease := mkLease { LockedAt : option Z; LockedBy : option string; LeaseToken : option nat }.
Definition no_lease : Lease := mkLease None None None.

Record row := mkRow {
  ExternalID : string;
  ProjectID : string;
  Plan : string;
  Status : GatewayStatus;
  CreatedAt : Z;
  UpdatedAt : Z;
  DeletedAt : option Z;
  DrainStartedAt : option Z;
  ProvisionedAt : option Z;
  endpoint : Endpoint;
  ingress : Ingress;
  queue : Queue;
  lease : Lease;
}.

Abbreviation istate g := (IngressState (queue g)).
Abbreviation token g := (LeaseToken (lease g)).
Abbreviation target_group g := (TargetGroupARN (ingress g)).
Abbreviation rule_priority g := (ListenerRulePriority (ingress g)).

(** Replacing columns; every UPDATE also sets [updated_at]. *)
Definition set_status (s : GatewayStatus) (now : Z) (g : row) : row :=
  mkRow (ExternalID g) (ProjectID g) (Plan g) s (CreatedAt g) now (DeletedAt g) (DrainStartedAt g)
    (ProvisionedAt g) (endpoint g) (ingress g) (queue g) (lease g).
Definition set_deleted (now : Z) (g : row) : row :=
  mkRow (ExternalID g) (ProjectID g) (Plan g) (Status g) (CreatedAt g) (UpdatedAt g) (Some now)
    (DrainStartedAt g) (ProvisionedAt g) (endpoint g) (ingress g) (queue g) (lease g).
Definition set_drain (d : option Z) (g : row) : row :=
  mkRow (ExternalID g) (ProjectID g) (Plan g) (Status g) (CreatedAt g) (UpdatedAt g) (DeletedAt g) d
    (ProvisionedAt g) (endpoint g) (ingress g) (queue g) (lease g).
Definition set_provisioned (now : Z) (g : row) : row :=
  mkRow (ExternalID g) (ProjectID g) (Plan g) (Status g) (CreatedAt g) (UpdatedAt g) (DeletedAt g)
    (DrainStartedAt g) (Some now) (endpoint g) (ingress g) (queue g) (lease g).
Definition set_endpoint (e : Endpoint) (g : row) : row :=
  mkRow (ExternalID g) (ProjectID g) (Plan g) (Status g) (CreatedAt g) (UpdatedAt g) (DeletedAt g)
    (DrainStartedAt g) (ProvisionedAt g) e (ingress g) (queue g) (lease g).
Definition set_ingress (i : Ingress) (g : row) : row :=
  mkRow (ExternalID g) (ProjectID g) (Plan g) (Status g) (CreatedAt g) (UpdatedAt g) (DeletedAt g)
    (DrainStartedAt g) (ProvisionedAt g) (endpoint g) i (queue g) (lease g).
Definition set_queue (q : Queue) (g : row) : row :=
  mkRow (ExternalID g) (ProjectID g) (Plan g) (Status g) (CreatedAt g) (UpdatedAt g) (DeletedAt g)
    (DrainStartedAt g) (ProvisionedAt g) (endpoint g) (ingress g) q (lease g).
Definition set_lease (now : Z) (l : Lease) (g : row) : row :=
  mkRow (ExternalID g) (ProjectID g) (Plan g) (Status g) (CreatedAt g) now (DeletedAt g)
    (DrainStartedAt g) (ProvisionedAt g) (endpoint g) (ingress g) (queue g) l.
Definition touch (now : Z) (g : row) : row := set_lease now (lease g) g.

(** ** Errors and the monad *)

Inductive error :=
| ErrDB | ErrGatewayNotFound | ErrStaleGatewayIngressLease
| ErrInvalidHostPort | ErrInvalidPriorityRange | ErrNoPriority | ErrDuplicateID.

#[global] Instance error_eq_dec : EqDecision error.
Proof. solve_decision. Defined.
#[global] Instance gateway_db_error : DBError error := ErrDB.

Abbreviation G := (M (gmap string row) error).

Definition live (g : row) : bool := bool_decide (DeletedAt g = None).

(** The statement ran; it changed a row or it did not. *)
Definition or_not_found {A B} (o : option A) (k : A → B) : G B :=
  match o with Some x => mret (k x) | None => mfail ErrGatewayNotFound end.

(** ** [gateway_repo.go] *)

(** [INSERT]; the other columns have the defaults of the migrations. *)
Definition Provision (externalID projectID plan : string) : G unit :=
  let* ok := query (λ now m,
    match m !! externalID with
    | Some _ => (m, false)
    | None =>
        (<[externalID := mkRow externalID projectID plan Provisioning now now None None None
             (mkEndpoint "0.0.0.0" "0" None None None None) (mkIngress None None None)
             (mkQueue NotStarted None 0 None) no_lease]> m, true)
    end) in
  if ok : bool then mret () else mfail ErrDuplicateID.

Definition Register (externalID ip port publicHost publicPort : string) : G unit :=
  let* o := update_row externalID live (λ now g,
    set_status Active now (set_endpoint (mkEndpoint ip port (Some publicHost) (Some publicPort)
      (PublicEndpoint (endpoint g)) (HostPort (endpoint g))) g)) in
  or_not_found o (λ _, ()).

Definition UpdateStatus (externalID : string) (status : GatewayStatus) : G unit :=
  let* o := update_row externalID live (set_status status) in
  or_not_found o (λ _, ()).

Definition Decommission (externalID : string) : G unit :=
  let* o := update_row externalID live (λ now g, set_status Decommissioned now (set_deleted now g)) in
  or_not_found o (λ _, ()).

(** Inside a tenant's session, whose row-level policy shows the rows of the
    tenant's project only. *)
Definition GetGatewayStatus (tenant externalID : string) : G GatewayStatus :=
  let* o := select_row externalID (λ g, String.eqb (ProjectID g) tenant) in
  or_not_found o Status.

Definition GetGatewayStatusPlatform (externalID : string) : G GatewayStatus :=
  let* o := select_row externalID (λ _, true) in
  or_not_found o Status.

Definition created_before (a b : row) : bool := (CreatedAt a <=? CreatedAt b)%Z.

Fixpoint insert_row (x : row) (l : list row) : list row :=
  match l with
  | [] => [x]
  | y :: l' => if created_before y x then y :: insert_row x l' else x :: l
  end.
(** ORDER BY created_at ASC; rows created at one time stay in map order. *)
Definition by_creation (l : list row) : list row := foldl (λ acc x, insert_row x acc) [] l.

Definition all_rows (m : gmap string row) : list row := (map_to_list m).*2.

Definition ListActive : G (list row) :=
  query (λ _ m, (m, by_creation (filter (λ g, Status g = Active ∧ live g = true) (all_rows m)))).

Definition CountByStatus : G (list (GatewayStatus * nat)) :=
  query (λ _ m, (m,
    omap (λ s, match length (filter (λ g, Status g = s ∧ live g = true) (all_rows m)) with
               | O => None
               | n => Some (s, n)
               end) [Provisioning; Active; Failed; Decommissioned; Draining])).

Definition GetByExternalID (externalID : string) : G row :=
  let* o := select_row externalID live in
  or_not_found o (λ g, g).

(** The rows of the tenant's project and their number; a positive [limit] cuts
    out one page. *)
Definition ListByProject (tenant : string) (limit offset : nat) : G (list row * nat) :=
  let* total := query (λ _ m, (m, length (filter (λ g, ProjectID g = tenant ∧ live g = true) (all_rows m)))) in
  let* rows := query (λ _ m,
    let l := by_creation (filter (λ g, ProjectID g = tenant ∧ live g = true) (all_rows m)) in
    (m, if (0 <? limit)%nat then take limit (drop offset l) else l)) in
  mret (rows, total).

(** The rows of all live projects the administrator is a member of; the tables
    [project_members] (keyed by project and administrator) and [projects] are
    arguments. *)
Definition ListAllForAdmin (project_members : gset (string * string)) (live_projects : gset string)
    (adminUserID : string) (limit offset : nat) : G (list row * nat) :=
  let visible := filter (λ g, (ProjectID g, adminUserID) ∈ project_members ∧ Status g = Active ∧
                              live g = true ∧ ProjectID g ∈ live_projects) in
  let* total := query (λ _ m, (m, length (visible (all_rows m)))) in
  let* rows := query (λ _ m,
    let l := by_creation (visible (all_rows m)) in
    (m, if (0 <? limit)%nat then take limit (drop offset l) else l)) in
  mret (rows, total).

(** The first call sets the start of the drain; later calls read it. *)
Definition MarkDraining (externalID : string) : G (option Z) :=
  let* o := update_row externalID (λ g, live g && negb (bool_decide (Status g = Draining)) &&
                                        negb (bool_decide (Status g = Decommissioned)))
    (λ now g, set_status Draining now
       (set_drain (Some (default now (DrainStartedAt g))) g)) in
  match o with
  | Some g => mret (DrainStartedAt g)
  | None =>
      let* o := select_row externalID (λ _, true) in
      or_not_found o DrainStartedAt
  end.

(** [staleAfter] is an interval in nanoseconds. *)
Definition stale_draining (now staleAfter : Z) (g : row) : bool :=
  bool_decide (Status g = Draining) && live g && negb (bool_decide (istate g = Deprovisioning)) &&
  match DrainStartedAt g with Some t => (t <? now - staleAfter)%Z | None => false end.

Definition ListStaleDraining (staleAfter : Z) : G (list string) :=
  query (λ now m, (m, ExternalID <$> filter (λ g, stale_draining now staleAfter g = true) (all_rows m))).

(** ** [gateway_ingress_repo.go] *)

(** [strconv.Atoi]: an optional sign and digits, within the 64-bit range. *)
Definition Atoi (s : string) : option Z :=
  let v := if HasPrefix s "-" then
             match sdrop 1 s with EmptyString => None | t => Z.opp <$> GoNet.dec_value 0 t end
           else if HasPrefix s "+" then
             match sdrop 1 s with EmptyString => None | t => GoNet.dec_value 0 t end
           else match s with EmptyString => None | t => GoNet.dec_value 0 t end in
  match v with
  | Some n => if (- 2 ^ 63 <=? n)%Z && (n <? 2 ^ 63)%Z then Some n else None
  | None => None
  end.

Definition valid_port (p : Z) : bool := (1 <=? p)%Z && (p <=? 65535)%Z.

Definition MarkContainerReady (externalID endpointIP gatewayPort publicHost publicPort : string) : G unit :=
  match Atoi publicPort with
  | None => mfail ErrInvalidHostPort
  | Some hostPort =>
      if negb (valid_port hostPort) then mfail ErrInvalidHostPort
      else
        let* o := update_row externalID live (λ now g,
          set_status Provisioning now
            (set_queue (mkQueue ContainerReady None 0 (Some now))
              (set_endpoint (mkEndpoint endpointIP gatewayPort (Some publicHost) (Some publicPort)
                 (PublicEndpoint (endpoint g)) (Some hostPort)) g))) in
        or_not_found o (λ _, ())
  end.

(** ** [gateway_ingress_queue.go] *)

Record GatewayProvisioningJob := mkJob {
  JobExternalID : string;
  JobProjectID : string;
  JobHostPort : Z;
  JobTargetGroupARN : string;
  JobListenerRuleARN : string;
  JobListenerRulePriority : Z;
  JobStatus : IngressStatus;
  JobRetryCount : Z;
  JobLeaseToken : nat;
}.

(** The columns a claim returns, COALESCEd. *)
Definition job_of (lt : nat) (g : row) : GatewayProvisioningJob :=
  mkJob (ExternalID g) (ProjectID g) (default 0%Z (HostPort (endpoint g)))
    (default "" (TargetGroupARN (ingress g))) (default "" (ListenerRuleARN (ingress g)))
    (default 0%Z (rule_priority g)) (istate g) (RetryCount (queue g)) lt.

Definition queued (s : IngressStatus) : bool :=
  match s with
  | ContainerReady | CreatingTargetGroup | RegisteringTarget | WaitingForTargetHealth
  | CreatingListenerRule | Deprovisioning => true
  | _ => false
  end.

Definition opt_le (bound : Z) (o : option Z) : bool :=
  match o with None => true | Some x => (x <=? bound)%Z end.

Definition claimable (now lockExpiredBefore : Z) (g : row) : bool :=
  live g && queued (istate g) && opt_le now (NextRetryAt (queue g)) &&
  opt_le lockExpiredBefore (LockedAt (lease g)).

(** ORDER BY next_retry_at ASC NULLS FIRST, created_at ASC. *)
Definition claim_before (a b : row) : bool :=
  match NextRetryAt (queue a), NextRetryAt (queue b) with
  | None, None => (CreatedAt a <=? CreatedAt b)%Z
  | None, Some _ => true
  | Some _, None => false
  | Some x, Some y => (x <? y)%Z || ((x =? y)%Z && (CreatedAt a <=? CreatedAt b)%Z)
  end.

Definition claim_min (best : option row) (g : row) : option row :=
  match best with
  | None => Some g
  | Some b => if claim_before b g then best else Some g
  end.

Definition next_job (now lockExpiredBefore : Z) (m : gmap string row) : option row :=
  foldl claim_min None (filter (λ g, claimable now lockExpiredBefore g = true) (all_rows m)).

(** [app_now] is the clock of the worker. *)
Definition ClaimNextGatewayIngressJob (app_now : Z) (workerID : string) (lockTimeout : Z)
  : G (option GatewayProvisioningJob) :=
  let lockTimeout := if (lockTimeout <=? 0)%Z then (5 * minute)%Z else lockTimeout in
  let lockExpiredBefore := (app_now - lockTimeout)%Z in
  let* lt := fresh in
  query (λ now m,
    match next_job now lockExpiredBefore m with
    | None => (m, None)
    | Some g =>
        let g' := set_lease now (mkLease (Some now) (Some workerID) (Some lt)) g in
        (<[ExternalID g := g']> m, Some (job_of lt g'))
    end).

(** ** [gateway_ingress_state.go] *)

Definition held (lt : nat) (g : row) : bool := bool_decide (token g = Some lt) && live g.

(** [ensureGatewayIngressUpdated]. *)
Definition leased (externalID : string) (lt : nat) (f : Z → row → row) : G unit :=
  let* o := update_row externalID (held lt) f in
  match o with Some _ => mret () | None => mfail ErrStaleGatewayIngressLease end.

(** Hand the job back in another state, due at [next]. *)
Definition hand_back (s : IngressStatus) (next : option Z) (now : Z) (g : row) : row :=
  set_lease now no_lease (set_queue (mkQueue s None (RetryCount (queue g)) next) g).

Definition MarkGatewayTargetGroupCreated (externalID : string) (lt : nat) (targetGroupARN : string) : G unit :=
  leased externalID lt (λ now g, hand_back RegisteringTarget (Some now) now
    (set_ingress (mkIngress (Some targetGroupARN) (ListenerRuleARN (ingress g)) (rule_priority g)) g)).

Definition MarkGatewayTargetRegistered (externalID : string) (lt : nat) : G unit :=
  leased externalID lt (λ now g, hand_back CreatingListenerRule (Some now) now g).

(** The lowest candidate no live row has. *)
Definition free_priority (m : gmap string row) (p : Z) : bool :=
  negb (existsb (λ g, bool_decide (rule_priority g = Some p) && live g) (all_rows m)).

Definition allocate (lo hi : Z) (m : gmap string row) : option Z :=
  find_first (free_priority m) (seqZ lo (hi - lo + 1)).

(** One transaction under an advisory lock, so no other allocation runs between
    its queries; the row itself is locked FOR UPDATE. *)
Definition ReserveGatewayListenerRulePriority (externalID : string) (lt : nat) (lo hi : Z) : G Z :=
  if (lo <? 1)%Z || (50000 <? hi)%Z || (hi <? lo)%Z then mfail ErrInvalidPriorityRange
  else
    let* _ := query (λ _ m, (m, ())) in                    (* BEGIN *)
    transaction (
      let* _ := query (λ _ m, (m, ())) in                  (* pg_advisory_xact_lock *)
      let* o := select_row externalID (held lt) in
      match o with
      | None => mfail ErrStaleGatewayIngressLease
      | Some g =>
          let existingPriority := default 0%Z (rule_priority g) in
          if (0 <? existingPriority)%Z then
            let* _ := query (λ _ m, (m, ())) in            (* COMMIT *)
            mret existingPriority
          else
            let* candidate := query (λ _ m, (m, allocate lo hi m)) in
            match candidate with
            | None => mfail ErrNoPriority
            | Some priority =>
                let* _ := leased externalID lt (λ now g, touch now
                  (set_ingress (mkIngress (target_group g) (ListenerRuleARN (ingress g)) (Some priority)) g)) in
                let* _ := query (λ _ m, (m, ())) in        (* COMMIT *)
                mret priority
            end
      end).

Definition MarkGatewayListenerRuleCreated (externalID : string) (lt : nat) (ruleARN : string)
    (nextCheckAt : Z) : G unit :=
  leased externalID lt (λ now g, hand_back WaitingForTargetHealth (Some nextCheckAt) now
    (set_ingress (mkIngress (target_group g) (Some ruleARN) (rule_priority g)) g)).

Definition RescheduleGatewayHealthCheck (externalID : string) (lt : nat) (nextCheckAt : Z) : G unit :=
  leased externalID lt (λ now g, set_lease now no_lease
    (set_queue (mkQueue (istate g) (ProvisioningError (queue g)) (RetryCount (queue g)) (Some nextCheckAt)) g)).

Definition MarkGatewayIngressActive (externalID : string) (lt : nat) (hostname publicEndpoint : string)
  : G unit :=
  leased externalID lt (λ now g, set_status Active now (set_provisioned now (hand_back Completed None now
    (set_endpoint (mkEndpoint (EndpointIP (endpoint g)) (GatewayPort (endpoint g)) (Some hostname)
       (Some "443") (Some publicEndpoint) (HostPort (endpoint g))) g)))).

Definition ScheduleGatewayIngressRetry (externalID : string) (lt : nat) (message : string) (nextRetryAt : Z)
  : G unit :=
  leased externalID lt (λ now g, set_lease now no_lease
    (set_queue (mkQueue (istate g) (Some message) (RetryCount (queue g) + 1) (Some nextRetryAt)) g)).

Definition MarkGatewayIngressFailed (externalID : string) (lt : nat) (message : string) : G unit :=
  leased externalID lt (λ now g, set_status Failed now (set_lease now no_lease
    (set_queue (mkQueue IngressFailed (Some message) (RetryCount (queue g)) None) g))).

(** ** [gateway_deprovision_repo.go] *)

Definition queue_deprovisioning (drainTimeout : Z) (now : Z) (g : row) : row :=
  let started := default now (DrainStartedAt g) in
  let again := bool_decide (istate g = Deprovisioning) in
  set_status Draining now (set_drain (Some started) (set_lease now no_lease
    (set_queue (mkQueue Deprovisioning None
       (if again then RetryCount (queue g) else 0)
       (match NextRetryAt (queue g) with
        | Some t => if again then Some t else Some (started + drainTimeout)%Z
        | None => Some (started + drainTimeout)%Z
        end)) g))).

(** Start of the drain and earliest time of the cleanup; both are [None] (the
    zero time) for a gateway that is decommissioned already. *)
Definition QueueGatewayDeprovisioning (externalID : string) (drainTimeout : Z) : G (option Z * option Z) :=
  let drainTimeout := if (drainTimeout <? 0)%Z then 0%Z else drainTimeout in
  let* o := update_row externalID (λ g, live g && negb (bool_decide (Status g = Decommissioned)))
    (queue_deprovisioning drainTimeout) in
  match o with
  | Some g => mret (DrainStartedAt g, NextRetryAt (queue g))
  | None =>
      let* o := select_row externalID (λ _, true) in
      match o with
      | None => mfail ErrGatewayNotFound
      | Some g => if bool_decide (Status g = Decommissioned) then mret (None, None)
                  else mfail ErrGatewayNotFound
      end
  end.

Definition decommissioned_row (now : Z) (g : row) : row :=
  set_status Decommissioned now (set_deleted now (set_lease now no_lease
    (set_queue (mkQueue Deprovisioned None (RetryCount (queue g)) None)
      (set_ingress (mkIngress None None None)
        (set_endpoint (mkEndpoint (EndpointIP (endpoint g)) (GatewayPort (endpoint g)) (Some "") (Some "")
           None None) g))))).

Definition MarkGatewayDecommissioned (externalID : string) (lt : nat) : G unit :=
  let* o := update_row externalID (λ g, held lt g && bool_decide (istate g = Deprovisioning))
    decommissioned_row in
  match o with Some _ => mret () | None => mfail ErrStaleGatewayIngressLease end.

End GatewayRepo.
