(* ===== verification/GatewayProvisioner.v ===== *)
(** * Dedicated gateways: worker and handlers

    [src/cmd/worker/gateway_provisioner.go], [reconcileStaleDraining] of
    [src/cmd/worker/main.go], the handlers that create and remove gateways in
    [src/internal/admin/handler/gateway_handler.go] and
    [platform_handler.go].  Each is a program that calls the repository, the load
    balancer and the container manager; between two calls others may run. *)

From Stdlib Require Import Ascii.
From stdpp Require Import gmap pretty.
From S2P Require Import Prelude GoStrings Store Hostname GatewayRepo.
From S2P Require Provisioner.

Module GatewayProvisioner.
Import GatewayRepo.

(** ** Interfaces *)

(** The methods of [storage.GatewayRepo] the programs call. *)
Inductive GatewayProvisioningRepository : Type → Type :=
| CallClaim (workerID : string) (lockTimeout : Z)
    : GatewayProvisioningRepository (option GatewayProvisioningJob)
| CallTargetGroupCreated (externalID : string) (lt : nat) (arn : string) : GatewayProvisioningRepository unit
| CallTargetRegistered (externalID : string) (lt : nat) : GatewayProvisioningRepository unit
| CallReservePriority (externalID : string) (lt : nat) (lo hi : Z) : GatewayProvisioningRepository Z
| CallListenerRuleCreated (externalID : string) (lt : nat) (arn : string) (next : Z)
    : GatewayProvisioningRepository unit
| CallRescheduleHealthCheck (externalID : string) (lt : nat) (next : Z) : GatewayProvisioningRepository unit
| CallIngressActive (externalID : string) (lt : nat) (hostname endpoint : string)
    : GatewayProvisioningRepository unit
| CallScheduleRetry (externalID : string) (lt : nat) (message : string) (next : Z)
    : GatewayProvisioningRepository unit
| CallIngressFailed (externalID : string) (lt : nat) (message : string) : GatewayProvisioningRepository unit
| CallDecommissioned (externalID : string) (lt : nat) : GatewayProvisioningRepository unit
| CallProvision (externalID projectID plan : string) : GatewayProvisioningRepository unit
| CallContainerReady (externalID ip port publicHost publicPort : string) : GatewayProvisioningRepository unit
| CallUpdateStatus (externalID : string) (s : GatewayStatus) : GatewayProvisioningRepository unit
| CallGetStatus (tenant externalID : string) : GatewayProvisioningRepository GatewayStatus
| CallQueueDeprovisioning (externalID : string) (drainTimeout : Z)
    : GatewayProvisioningRepository (option Z * option Z)
| CallListStaleDraining (staleAfter : Z) : GatewayProvisioningRepository (list string)
| CallDecommission (externalID : string) : GatewayProvisioningRepository unit.

(** [app_now] is the clock of the calling process, which the claim reads. *)
Definition repo_call {X} (app_now : Z) (c : GatewayProvisioningRepository X) : G X :=
  match c in GatewayProvisioningRepository X return G X with
  | CallClaim w t => ClaimNextGatewayIngressJob app_now w t
  | CallTargetGroupCreated id lt arn => MarkGatewayTargetGroupCreated id lt arn
  | CallTargetRegistered id lt => MarkGatewayTargetRegistered id lt
  | CallReservePriority id lt lo hi => ReserveGatewayListenerRulePriority id lt lo hi
  | CallListenerRuleCreated id lt arn next => MarkGatewayListenerRuleCreated id lt arn next
  | CallRescheduleHealthCheck id lt next => RescheduleGatewayHealthCheck id lt next
  | CallIngressActive id lt host url => MarkGatewayIngressActive id lt host url
  | CallScheduleRetry id lt msg next => ScheduleGatewayIngressRetry id lt msg next
  | CallIngressFailed id lt msg => MarkGatewayIngressFailed id lt msg
  | CallDecommissioned id lt => MarkGatewayDecommissioned id lt
  | CallProvision id pid plan => Provision id pid plan
  | CallContainerReady id ip port host pport => MarkContainerReady id ip port host pport
  | CallUpdateStatus id s => UpdateStatus id s
  | CallGetStatus tenant id => GetGatewayStatus tenant id
  | CallQueueDeprovisioning id t => QueueGatewayDeprovisioning id t
  | CallListStaleDraining t => ListStaleDraining t
  | CallDecommission id => Decommission id
  end.

(** [DedicatedGatewayLoadBalancerManager] and [ContainerManager]; an error is
    its text. *)
Inductive Cloud : Type → Type :=
| CreateGatewayTargetGroup (name vpcID : string) : Cloud string
| RegisterGatewayTarget (tg instance : string) (port : Z) : Cloud unit
| GetGatewayTargetHealth (tg instance : string) (port : Z) : Cloud string
| CreateGatewayHostRule (listener hostname tg : string) (priority : Z) : Cloud string
| DeleteGatewayHostRule (arn : string) : Cloud unit
| DeregisterGatewayTarget (tg instance : string) (port : Z) : Cloud unit
| DeleteGatewayTargetGroup (tg : string) : Cloud unit
| ContainerProvision (id projectID plan : string) : Cloud (string * string * string * string)
| ContainerDecommission (id : string) : Cloud unit.

(** A call with its reply. *)
Inductive event :=
| EvCreateTargetGroup (name vpcID : string) (r : result string string)
| EvRegisterTarget (tg instance : string) (port : Z) (r : result string unit)
| EvTargetHealth (tg instance : string) (port : Z) (r : result string string)
| EvCreateHostRule (listener hostname tg : string) (priority : Z) (r : result string string)
| EvDeleteHostRule (arn : string) (r : result string unit)
| EvDeregisterTarget (tg instance : string) (port : Z) (r : result string unit)
| EvDeleteTargetGroup (tg : string) (r : result string unit)
| EvContainerProvision (id : string) (r : result string (string * string * string * string))
| EvContainerDecommission (id : string) (r : result string unit).

Definition event_of {X} (c : Cloud X) : result string X → event :=
  match c in Cloud X return result string X → event with
  | CreateGatewayTargetGroup n v => EvCreateTargetGroup n v
  | RegisterGatewayTarget tg i p => EvRegisterTarget tg i p
  | GetGatewayTargetHealth tg i p => EvTargetHealth tg i p
  | CreateGatewayHostRule l h tg p => EvCreateHostRule l h tg p
  | DeleteGatewayHostRule a => EvDeleteHostRule a
  | DeregisterGatewayTarget tg i p => EvDeregisterTarget tg i p
  | DeleteGatewayTargetGroup tg => EvDeleteTargetGroup tg
  | ContainerProvision id _ _ => EvContainerProvision id
  | ContainerDecommission id => EvContainerDecommission id
  end.

(** A program: its result or its next call. *)
Inductive prog (A : Type) : Type :=
| Done (a : A)
| Repo {X : Type} (c : GatewayProvisioningRepository X) (k : result error X → prog A)
| Call {X : Type} (c : Cloud X) (k : result string X → prog A)
| Now (k : Z → prog A).
#[global] Arguments Done {A} a.
#[global] Arguments Repo {A X} c k.
#[global] Arguments Call {A X} c k.
#[global] Arguments Now {A} k.

(** ** Names *)

Definition is_continuation (c : ascii) : bool := (128 <=? code c)%nat && (code c <=? 191)%nat.

(** The loop over the runes of a valid UTF-8 text; [started] says whether the
    builder holds something.  A rune of several bytes counts at its first. *)
Fixpoint clean_name (started : bool) (s : string) : string :=
  match s with
  | EmptyString => EmptyString
  | String c s' =>
      if is_lower c || is_digit c then String c (clean_name true s')
      else if is_continuation c then clean_name started s'
      else if started then String "-" (clean_name true s')
      else clean_name false s'
  end.

Definition gatewayResourceSuffix (externalID : string) : string :=
  let value := ToLower (TrimSpace externalID) in
  let value := TrimPrefix value "gw_" in
  let value := TrimPrefix value "gw-" in
  let result := Trim "-" (clean_name false value) in
  if negb (String.eqb result "") && (len result <=? 20)%nat then result
  else stake 12 (Sha256.sha256_hex externalID).

Definition gatewayTargetGroupName (externalID : string) : string :=
  "eg-gw-" +:+ gatewayResourceSuffix externalID.
Definition gatewayHostname (externalID baseDomain : string) : string :=
  "gw-" +:+ gatewayResourceSuffix externalID +:+ "." +:+ baseDomain.

(** ** The worker *)

Record GatewayProvisioner := mkProvisioner {
  workerID : string;
  listenerARN : string;
  vpcID : string;
  instanceID : string;
  baseDomain : string;
  priorityMin : Z;
  priorityMax : Z;
  has_containerMgr : bool;
}.

Definition maxRetries : Z := 10.
Definition healthPollInterval : Z := 15 * second.

(** [newID] names a worker without a name. *)
Definition NewGatewayProvisioner (newID workerID listenerARN vpcID instanceID baseDomain : string)
    (priorityMin priorityMax : Z) (has_containerMgr : bool) : GatewayProvisioner :=
  mkProvisioner (if String.eqb workerID "" then "gateway-worker-" +:+ stake 8 newID else workerID)
    (TrimSpace listenerARN) (TrimSpace vpcID) (TrimSpace instanceID)
    (TrimSuffix (TrimSpace baseDomain) ".") priorityMin priorityMax has_containerMgr.

(** Conversion of an [int] to [int32]. *)
Definition int32 (x : Z) : Z := ((x + 2 ^ 31) mod 2 ^ 32 - 2 ^ 31)%Z.

Inductive worker_error :=
| RepoError (e : error)
| UnsupportedStatus (s : IngressStatus).

(** What [ProcessNextJob] returns. *)
Definition outcome : Type := bool * option worker_error.

Definition finish (r : result error unit) : prog outcome :=
  Done (true, match r with Ok _ => None | Err e => Some (RepoError e) end).

(** [repository_text] is what the driver's error says. *)
Definition error_text (driver_text : string) (e : error) : string :=
  match e with
  | ErrDB => driver_text
  | ErrStaleGatewayIngressLease => "gateway ingress job lease is stale"
  | ErrInvalidPriorityRange => "invalid ALB listener priority range"
  | ErrNoPriority => "no ALB listener-rule priority is available"
  | ErrGatewayNotFound => "gateway not found"
  | ErrInvalidHostPort | ErrDuplicateID => driver_text
  end.

Section worker.
Context (p : GatewayProvisioner) (driver_text : string).

Definition failJob (job : GatewayProvisioningJob) (message : string) : prog outcome :=
  Repo (CallIngressFailed (JobExternalID job) (JobLeaseToken job) message) finish.

Definition retryOrFail (job : GatewayProvisioningJob) (operationErr : string) : prog outcome :=
  let message := TrimSpace operationErr in
  let message := if (1000 <? len message)%nat then stake 1000 message else message in
  let nextAttempt := (JobRetryCount job + 1)%Z in
  if (maxRetries <=? nextAttempt)%Z then
    Repo (CallIngressFailed (JobExternalID job) (JobLeaseToken job) message) finish
  else Now (λ t,
    Repo (CallScheduleRetry (JobExternalID job) (JobLeaseToken job) message
            (t + Provisioner.Provisioner.CalculateRetryDelay nextAttempt)) finish).

(** A call of the load balancer or the container manager; its error is retried. *)
Definition attempt {X} (job : GatewayProvisioningJob) (prefix : string) (c : Cloud X) (k : X → prog outcome)
  : prog outcome :=
  Call c (λ r, match r with
               | Ok x => k x
               | Err e => retryOrFail job (prefix +:+ e)
               end).

Definition handleContainerReady (job : GatewayProvisioningJob) : prog outcome :=
  if (JobHostPort job <? 1)%Z || (65535 <? JobHostPort job)%Z then
    failJob job ("invalid Docker host port " +:+ pretty (JobHostPort job))
  else
    attempt job "" (CreateGatewayTargetGroup (gatewayTargetGroupName (JobExternalID job)) (vpcID p))
      (λ targetGroupARN,
        Repo (CallTargetGroupCreated (JobExternalID job) (JobLeaseToken job) targetGroupARN) finish).

Definition handleRegisteringTarget (job : GatewayProvisioningJob) : prog outcome :=
  if String.eqb (JobTargetGroupARN job) "" then failJob job "target group ARN is missing"
  else
    attempt job "" (RegisterGatewayTarget (JobTargetGroupARN job) (instanceID p) (int32 (JobHostPort job)))
      (λ _, Repo (CallTargetRegistered (JobExternalID job) (JobLeaseToken job)) finish).

Definition handleCreatingListenerRule (job : GatewayProvisioningJob) : prog outcome :=
  if String.eqb (JobTargetGroupARN job) "" then
    failJob job "target group ARN is missing before listener-rule creation"
  else
    Repo (CallReservePriority (JobExternalID job) (JobLeaseToken job) (priorityMin p) (priorityMax p)) (λ r,
    match r with
    | Err e => retryOrFail job (error_text driver_text e)
    | Ok priority =>
        let hostname := gatewayHostname (JobExternalID job) (baseDomain p) in
        attempt job "" (CreateGatewayHostRule (listenerARN p) hostname (JobTargetGroupARN job) (int32 priority))
          (λ ruleARN, Now (λ t,
            Repo (CallListenerRuleCreated (JobExternalID job) (JobLeaseToken job) ruleARN
                    (t + healthPollInterval)) finish))
    end).

Definition handleWaitingForTargetHealth (job : GatewayProvisioningJob) : prog outcome :=
  if String.eqb (JobTargetGroupARN job) "" then
    failJob job "target group ARN is missing during health check"
  else
    attempt job "" (GetGatewayTargetHealth (JobTargetGroupARN job) (instanceID p) (int32 (JobHostPort job)))
      (λ state,
        let state := ToLower (TrimSpace state) in
        if String.eqb state "healthy" then
          let hostname := gatewayHostname (JobExternalID job) (baseDomain p) in
          Repo (CallIngressActive (JobExternalID job) (JobLeaseToken job) hostname ("https://" +:+ hostname)) finish
        else if String.eqb state "unhealthy" then
          retryOrFail job "ALB reports the dedicated gateway target as unhealthy"
        else Now (λ t,
          Repo (CallRescheduleHealthCheck (JobExternalID job) (JobLeaseToken job) (t + healthPollInterval)) finish)).

(** A step of the removal that is taken only if there is something to remove. *)
Definition when_present (b : bool) (job : GatewayProvisioningJob) (prefix : string) (c : Cloud unit)
    (k : prog outcome) : prog outcome :=
  if b then attempt job prefix c (λ _, k) else k.

Definition remove_container (job : GatewayProvisioningJob) : prog outcome :=
  if negb (has_containerMgr p) then retryOrFail job "Docker container manager is not configured"
  else
    attempt job "remove gateway container: " (ContainerDecommission (JobExternalID job)) (λ _,
      Repo (CallDecommissioned (JobExternalID job) (JobLeaseToken job)) finish).

Definition handleDeprovisioning (job : GatewayProvisioningJob) : prog outcome :=
  let has_rule := negb (String.eqb (JobListenerRuleARN job) "") in
  let has_group := negb (String.eqb (JobTargetGroupARN job) "") in
  when_present has_rule job "delete gateway listener rule: "
    (DeleteGatewayHostRule (JobListenerRuleARN job))
  (when_present (has_group && (0 <? JobHostPort job)%Z) job "deregister gateway target: "
    (DeregisterGatewayTarget (JobTargetGroupARN job) (instanceID p) (int32 (JobHostPort job)))
  (when_present has_group job "delete gateway target group: "
    (DeleteGatewayTargetGroup (JobTargetGroupARN job))
  (remove_container job))).

Definition handle (job : GatewayProvisioningJob) : prog outcome :=
  match JobStatus job with
  | ContainerReady => handleContainerReady job
  | RegisteringTarget => handleRegisteringTarget job
  | CreatingListenerRule => handleCreatingListenerRule job
  | WaitingForTargetHealth => handleWaitingForTargetHealth job
  | Deprovisioning => handleDeprovisioning job
  | s => Done (true, Some (UnsupportedStatus s))
  end.

Definition ProcessNextJob : prog outcome :=
  Repo (CallClaim (workerID p) (5 * minute)) (λ r,
  match r with
  | Err e => Done (false, Some (RepoError e))
  | Ok None => Done (false, None)
  | Ok (Some job) => handle job
  end).

End worker.

(** *** [reconcileStaleDraining] *)

Fixpoint reconcile_each (ids : list string) : prog unit :=
  match ids with
  | [] => Done ()
  | id :: ids =>
      Call (ContainerDecommission id) (λ r,
      match r with
      | Err _ => reconcile_each ids
      | Ok _ => Repo (CallDecommission id) (λ _, reconcile_each ids)
      end)
  end.

Definition reconcileStaleDraining (staleAfter : Z) : prog unit :=
  Repo (CallListStaleDraining staleAfter) (λ r,
  match r with
  | Err _ => Done ()
  | Ok stale => reconcile_each stale
  end).

(** ** The handlers of the control plane *)

Inductive response :=
| RespError (code : Z) (message : string)
| RespProvisioned (id hostPort : string)                           (* 202 *)
| RespDecommissioned (id : string)                                 (* 200 *)
| RespQueued (id : string) (drainStartedAt cleanupReadyAt : option Z)  (* 202 *)
| RespForced (id : string).                                        (* 200 *)

Definition internal (message : string) : prog response := Done (RespError 500 message).

(** [newID] is [uuid.New().String()]. *)
Definition ProvisionGateway (newID projectID plan : string) : prog response :=
  if String.eqb projectID "" || String.eqb plan "" then Done (RespError 400 "binding")
  else
    let externalID := "gw_" +:+ stake 8 newID in
    Repo (CallProvision externalID projectID plan) (λ r,
    match r with
    | Err _ => internal "failed to insert gateway record"
    | Ok _ =>
        Call (ContainerProvision externalID projectID plan) (λ r,
        match r with
        | Err e => Repo (CallUpdateStatus externalID Failed) (λ _, internal ("container provisioning failed: " +:+ e))
        | Ok (ip, port, publicHost, publicPort) =>
            Repo (CallContainerReady externalID ip port publicHost publicPort) (λ r,
            match r with
            | Err _ => internal "failed to register gateway endpoint in DB"
            | Ok _ => Done (RespProvisioned externalID publicPort)
            end)
        end)
    end).

Definition DecommissionGateway (drainTimeout : Z) (tenant externalID : string) : prog response :=
  if String.eqb externalID "" then Done (RespError 400 "gatewayId is required")
  else if negb (HasPrefix externalID "gw_") then
    Done (RespError 400 "invalid gateway ID: provide the external_id, such as gw_xxxx")
  else
    Repo (CallGetStatus tenant externalID) (λ r,
    match r with
    | Err ErrGatewayNotFound => Done (RespError 404 "gateway not found")
    | Err _ => internal "failed to retrieve gateway status"
    | Ok Decommissioned => Done (RespDecommissioned externalID)
    | Ok _ =>
        Repo (CallQueueDeprovisioning externalID drainTimeout) (λ r,
        match r with
        | Err ErrGatewayNotFound => Done (RespError 404 "gateway not found")
        | Err _ => internal "failed to queue gateway deprovisioning"
        | Ok (started, ready) => Done (RespQueued externalID started ready)
        end)
    end).

(** [PlatformHandler.ForceDecommission]. *)
Definition ForceDecommission (has_containerMgr : bool) (gatewayID : string) : prog response :=
  if String.eqb gatewayID "" then Done (RespError 400 "gateway id is required")
  else
    let mark := Repo (CallUpdateStatus gatewayID Decommissioned) (λ r,
      match r with
      | Err ErrGatewayNotFound => Done (RespError 404 "gateway not found")
      | Err _ => internal "failed to update gateway status in database"
      | Ok _ => Done (RespForced gatewayID)
      end) in
    if has_containerMgr then Call (ContainerDecommission gatewayID) (λ _, mark) else mark.

(** ** The names of AWS resources *)

Lemma trim_left_suffix c s : ∃ u, s = u +:+ trim_left_byte c s.
Proof.
  induction s as [|a s [u IH]]; [by exists ""|]. simpl. destruct (Ascii.eqb_spec a c) as [->|].
  - exists (String c u). by rewrite sapp_cons, <-IH.
  - by exists "".
Qed.

Lemma trim_right_prefix c s : ∃ u, s = trim_right_byte c s +:+ u.
Proof.
  destruct (trim_left_suffix c (String.rev s)) as [u Hu]. exists (String.rev u).
  unfold trim_right_byte. by rewrite <-srev_app, <-Hu, srev_involutive.
Qed.

Lemma trim_left_head c s : head_ok (λ a, negb (Ascii.eqb a c)) (trim_left_byte c s) = true.
Proof.
  induction s as [|a s IH]; [done|]. simpl. destruct (Ascii.eqb a c) eqn:E; [done|]. simpl. by rewrite E.
Qed.

Lemma trim_bytes f c s : sforallb f s = true → sforallb f (Trim c s) = true.
Proof.
  intros H. unfold Trim. destruct (trim_left_suffix c s) as [u Hu]. rewrite Hu in H.
  rewrite sforallb_app in H. apply andb_true_iff in H as [_ H].
  destruct (trim_right_prefix c (trim_left_byte c s)) as [v Hv]. rewrite Hv, sforallb_app in H.
  by apply andb_true_iff in H as [H _].
Qed.

Lemma head_ok_prefix f s u : head_ok f (s +:+ u) = true → head_ok f s = true.
Proof. by destruct s. Qed.

(** Neither end of a trimmed text is the byte. *)
Lemma Trim_ends c s :
  head_ok (λ a, negb (Ascii.eqb a c)) (Trim c s) = true ∧
  head_ok (λ a, negb (Ascii.eqb a c)) (String.rev (Trim c s)) = true.
Proof.
  unfold Trim. split.
  - destruct (trim_right_prefix c (trim_left_byte c s)) as [u Hu].
    eapply head_ok_prefix. rewrite <-Hu. apply trim_left_head.
  - unfold trim_right_byte. rewrite srev_involutive. apply trim_left_head.
Qed.

Lemma head_ok_rev_suffix c s : head_ok (λ a, negb (Ascii.eqb a c)) (String.rev s) = true →
  HasSuffix s (String c "") = false.
Proof.
  intros H. apply not_true_iff_false. intros [r ->]%HasSuffix_spec.
  rewrite srev_app in H. simpl in H. by rewrite Ascii.eqb_refl in H.
Qed.

Lemma clean_name_bytes b s : sforallb Hostname.label_byte (clean_name b s) = true.
Proof.
  revert b. induction s as [|c s IH]; intros b; [done|]. simpl.
  destruct (is_lower c || is_digit c) eqn:E.
  - simpl. rewrite IH, andb_true_r. unfold Hostname.label_byte. by rewrite E.
  - destruct (is_continuation c); [done|]. destruct b; [by simpl; rewrite IH|done].
Qed.

(** The suffix: one to twenty bytes of [a-z0-9-], no hyphen at the ends. *)
Lemma suffix_spec ext :
  let s := gatewayResourceSuffix ext in
  (1 ≤ len s ≤ 20)%nat ∧ sforallb Hostname.label_byte s = true ∧
  head_ok (λ a, negb (Ascii.eqb a "-")) s = true ∧
  head_ok (λ a, negb (Ascii.eqb a "-")) (String.rev s) = true.
Proof.
  unfold gatewayResourceSuffix. set (raw := clean_name false _). set (t := Trim "-" raw).
  destruct (negb (String.eqb t "") && (len t <=? 20)%nat) eqn:Hc.
  - apply andb_true_iff in Hc as [Hne%negb_true_iff%String.eqb_neq Hle%Nat.leb_le].
    split; [destruct t; simpl in *; [done|lia]|].
    split; [apply trim_bytes, clean_name_bytes|]. apply Trim_ends.
  - clear Hc raw t. destruct (Sha256.sha256_hex_spec ext) as [Hl Hb].
    set (h := Sha256.sha256_hex ext) in *.
    assert (Hlen : len (stake 12 h) = 12%nat) by (apply len_stake; lia).
    assert (Hhex : sforallb Sha256.hex_byte (stake 12 h) = true).
    { rewrite <-(stake_sdrop 12 h), sforallb_app in Hb. by apply andb_true_iff in Hb as [Hb _]. }
    assert (Hnd : sforallb (λ a, negb (Ascii.eqb a "-")) (stake 12 h) = true).
    { eapply sforallb_impl; [|exact Hhex]. intros a. by destruct (Ascii.eqb_spec a "-") as [->|]. }
    split; [lia|]. split; [|split].
    + eapply sforallb_impl; [|exact Hhex]. intros a Ha. unfold Hostname.label_byte, Sha256.hex_byte in *.
      apply orb_true_iff in Ha as [Ha|Ha]; [by rewrite Ha, orb_true_r|].
      rewrite andb_true_iff, !Nat.leb_le in Ha. unfold is_lower.
      rewrite (proj2 (Nat.leb_le 97 _)), (proj2 (Nat.leb_le _ 122)) by lia. done.
    + by apply head_ok_sforallb.
    + apply head_ok_sforallb. by rewrite sforallb_srev.
Qed.

(** A prefix of letters and a hyphen in front of the suffix is a DNS label. *)
Lemma prefixed_label p ext :
  (1 ≤ len p ≤ 40)%nat → sforallb Hostname.label_byte p = true →
  head_ok (λ a, negb (Ascii.eqb a "-")) p = true →
  Hostname.wf_label (p +:+ gatewayResourceSuffix ext).
Proof.
  intros Hp Hb Hh. destruct (suffix_spec ext) as (Hl & Hsb & _ & Hr).
  set (s := gatewayResourceSuffix ext) in *. split.
  - rewrite len_app. lia.
  - intros t Ht. destruct p as [|a p]; simpl in *; [lia|]. injection Ht as -> _. done.
  - apply head_ok_rev_suffix. rewrite srev_app.
    destruct (String.rev s) as [|a r] eqn:Hs; [|done].
    apply (f_equal len) in Hs. rewrite len_srev in Hs. simpl in Hs. lia.
  - rewrite sforallb_app, Hb. done.
Qed.

(** The identifiers the handler gives out: [gw_] and eight hexadecimal digits. *)
Definition handler_id (u : string) : string := "gw_" +:+ u.

Lemma hex_not_g u : sforallb Sha256.hex_byte u = true → HasPrefix u "gw-" = false.
Proof.
  destruct u as [|a u]; [done|]. cbn [HasPrefix]. intros H.
  destruct (Ascii.eqb_spec "g" a) as [<-|]; [by apply andb_true_iff in H as [H _]|done].
Qed.

Lemma clean_hex b u : sforallb Sha256.hex_byte u = true → clean_name b u = u.
Proof.
  revert b. induction u as [|a u IH]; intros b; [done|]. simpl. intros [Ha Hu]%andb_true_iff.
  assert (is_lower a || is_digit a = true) as ->; [|by rewrite IH].
  unfold Sha256.hex_byte in Ha. apply orb_true_iff in Ha as [->|Ha]; [by rewrite orb_true_r|].
  rewrite andb_true_iff, !Nat.leb_le in Ha. unfold is_lower.
  rewrite (proj2 (Nat.leb_le 97 _)), (proj2 (Nat.leb_le _ 122)) by lia. done.
Qed.

Lemma handler_suffix u :
  len u = 8%nat → sforallb Sha256.hex_byte u = true → gatewayResourceSuffix (handler_id u) = u.
Proof.
  intros Hl Hb. unfold gatewayResourceSuffix, handler_id.
  assert (Hg : sforallb is_graphic u = true ∧ ToLower u = u).
  { split; [|apply smap_id]; (eapply sforallb_impl; [|exact Hb]); clear; intros a;
      by destruct a as [[] [] [] [] [] [] [] []]. }
  destruct Hg as [Hg Hlow].
  rewrite TrimSpace_graphic by (by rewrite sforallb_app, Hg).
  assert (ToLower ("gw_" +:+ u) = "gw_" +:+ u) as ->.
  { unfold ToLower in *. rewrite smap_app. by rewrite Hlow. }
  rewrite TrimPrefix_app.
  assert (TrimPrefix u "gw-" = u) as -> by (unfold TrimPrefix; by rewrite hex_not_g).
  rewrite clean_hex by done.
  assert (Hnd : sforallb (λ a, negb (Ascii.eqb a "-")) u = true).
  { eapply sforallb_impl; [|exact Hb]. intros a. by destruct (Ascii.eqb_spec a "-") as [->|]. }
  assert (Trim "-" u = u) as ->.
  { unfold Trim, trim_right_byte. rewrite (trim_left_byte_id "-" u) by (by apply head_ok_sforallb).
    rewrite trim_left_byte_id; [apply srev_involutive|]. apply head_ok_sforallb. by rewrite sforallb_srev. }
  destruct (String.eqb_spec u "") as [->|]; [done|]. by rewrite Hl.
Qed.

Lemma sapp_inj_r a u v : a +:+ u = a +:+ v → u = v.
Proof. induction a as [|c a IH]; [done|]. rewrite !sapp_cons. by intros [= ?%IH]. Qed.

(** The names of a gateway's resources fit AWS and DNS for any identifier:
    the target group name is a label of at most 26 bytes (AWS allows 32), the
    first label of the hostname is a DNS label; and the gateways the handler
    creates (eight hexadecimal digits) never share a target group name or a
    hostname unless their identifiers are equal. *)
Theorem gateway_names_valid_and_distinct ext base :
  Hostname.wf_label (gatewayTargetGroupName ext) ∧ (len (gatewayTargetGroupName ext) ≤ 26)%nat ∧
  Hostname.wf_label ("gw-" +:+ gatewayResourceSuffix ext) ∧
  ∀ u v, len u = 8%nat → len v = 8%nat →
    sforallb Sha256.hex_byte u = true → sforallb Sha256.hex_byte v = true →
    (gatewayTargetGroupName (handler_id u) = gatewayTargetGroupName (handler_id v) → u = v) ∧
    (gatewayHostname (handler_id u) base = gatewayHostname (handler_id v) base → u = v).
Proof.
  split; [by apply prefixed_label; [simpl; lia|..]|]. split.
  { unfold gatewayTargetGroupName. rewrite len_app. pose proof (suffix_spec ext) as [Hl _]. simpl in *. lia. }
  split; [by apply prefixed_label; [simpl; lia|..]|].
  intros u v Hu Hv Hbu Hbv. unfold gatewayTargetGroupName, gatewayHostname.
  rewrite !handler_suffix by done. split; intros H.
  - by apply sapp_inj_r in H.
  - apply sapp_inj_r in H. pose proof (stake_app u ("." +:+ base)) as E1.
    pose proof (stake_app v ("." +:+ base)) as E2. rewrite Hu in E1. rewrite Hv in E2. congruence.
Qed.


End GatewayProvisioner.
