(* ===== verification/GatewayLifecycle.v ===== *)
(** * The life of a dedicated gateway

    Any number of workers, reconcilers and control-plane handlers of
    [GatewayProvisioner], interleaved between their calls, over the table of
    [GatewayRepo] and a record of the exchange with AWS and Docker, whose replies
    are arbitrary.  An invariant of every state they reach, and what follows: an
    active gateway is confirmed healthy behind its own rule, rule priorities and
    leases are unique, a removed gateway's resources were released, and the work
    on a gateway is bounded. *)

From stdpp Require Import gmap.
From S2P Require Import Prelude GoStrings Store GatewayRepo GatewayProvisioner.

Module GatewayLifecycle.
Import GatewayRepo GatewayProvisioner.

(** ** The system *)

(** What a program has learnt from its calls (an auxiliary record, no program
    reads it): its job, the priority reserved for it, and the gateway it has
    inserted and not yet marked as ready. *)
Record know := mkKnow {
  kjob : option GatewayProvisioningJob;
  kprio : option Z;
  kpending : option string;
}.

Definition know0 : know := mkKnow None None None.

Inductive task :=
| Task {A : Type} (K : know) (p : prog A).

Definition knowledge (x : task) : know := match x with Task K _ => K end.

Record sys := mkSys { db : store (gmap string row); log : list event; tasks : list task }.
Abbreviation rows s := (tables (db s)).

Definition learn {X} (c : GatewayProvisioningRepository X) : result error X → know → know :=
  match c in GatewayProvisioningRepository X return result error X → know → know with
  | CallClaim _ _ => λ r K,
      match r with Ok (Some job) => mkKnow (Some job) None (kpending K) | _ => K end
  | CallReservePriority _ _ _ _ => λ r K,
      match r with Ok prio => mkKnow (kjob K) (Some prio) (kpending K) | Err _ => K end
  | CallProvision id _ _ => λ r K,
      match r with Ok _ => mkKnow (kjob K) (kprio K) (Some id) | Err _ => K end
  | CallContainerReady _ _ _ _ _ => λ _ K, mkKnow (kjob K) (kprio K) None
  | _ => λ _ K, K
  end.

Section system.
Context (p : GatewayProvisioner) (driver_text : string).

Inductive program : task → Prop :=
| p_worker : program (Task know0 (ProcessNextJob p driver_text))
| p_reconcile staleAfter : program (Task know0 (reconcileStaleDraining staleAfter))
| p_provision newID pid plan : program (Task know0 (ProvisionGateway newID pid plan))
| p_decommission drainTimeout tenant id : program (Task know0 (DecommissionGateway drainTimeout tenant id))
| p_force has id : program (Task know0 (ForceDecommission has id)).

(** What a step did: a call of the repository with its reply, or something else. *)
Inductive act :=
| Did {X : Type} (c : GatewayProvisioningRepository X) (r : result error X)
| Other.

Inductive step : act → sys → sys → Prop :=
| s_begin d L ts x : program x → step Other (mkSys d L ts) (mkSys d L (ts ++ [x]))
| s_repo {A X} d L l1 K (c : GatewayProvisioningRepository X) (k : result error X → prog A) l2 app_now d' r :
    repo_call app_now c d = (d', r) →
    step (Did c r) (mkSys d L (l1 ++ Task K (Repo c k) :: l2)) (mkSys d' L (l1 ++ Task (learn c r K) (k r) :: l2))
| s_cloud {A X} d L l1 K (c : Cloud X) (k : result string X → prog A) l2 r :
    step Other (mkSys d L (l1 ++ Task K (Call c k) :: l2))
      (mkSys d (L ++ [event_of c r]) (l1 ++ Task K (k r) :: l2))
| s_now {A} d L l1 K (k : Z → prog A) l2 t :
    step Other (mkSys d L (l1 ++ Task K (Now k) :: l2)) (mkSys d L (l1 ++ Task K (k t) :: l2))
| s_end d L l1 x l2 : step Other (mkSys d L (l1 ++ x :: l2)) (mkSys d L (l1 ++ l2))
| s_env d L ts now fs :
    step Other (mkSys d L ts) (mkSys (mkStore (tables d) now (supply d) fs) L ts).

(** The executions, with what their steps did. *)
Inductive history : list act → sys → Prop :=
| h_init now fs : history [] (mkSys (mkStore ∅ now 0 fs) [] [])
| h_step tr a s s' : history tr s → step a s s' → history (tr ++ [a]) s'.

Definition reachable (s : sys) : Prop := ∃ tr, history tr s.

(** ** What the record shows of a row *)

Definition healthy (state : string) : Prop := ToLower (TrimSpace state) = "healthy".

(** How far the provisioning of a row has come. *)
Definition level (s : IngressStatus) : nat :=
  match s with
  | RegisteringTarget => 1 | CreatingListenerRule => 2 | WaitingForTargetHealth => 3 | Completed => 4
  | _ => 0
  end.

(** The target group exists and the row has a usable port. *)
Definition grouped (L : list event) (g : row) (tg : string) (port : Z) : Prop :=
  target_group g = Some tg ∧ HostPort (endpoint g) = Some port ∧ valid_port port = true ∧
  EvCreateTargetGroup (gatewayTargetGroupName (ExternalID g)) (vpcID p) (Ok tg) ∈ L.

Definition target_registered (L : list event) (tg : string) (port : Z) : Prop :=
  tg ≠ "" ∧ EvRegisterTarget tg (instanceID p) (int32 port) (Ok ()) ∈ L.

Definition rule_created (L : list event) (g : row) (tg : string) : Prop :=
  ∃ arn prio, ListenerRuleARN (ingress g) = Some arn ∧ rule_priority g = Some prio ∧
    EvCreateHostRule (listenerARN p) (gatewayHostname (ExternalID g) (baseDomain p)) tg (int32 prio) (Ok arn) ∈ L.

Definition reported_healthy (L : list event) (tg : string) (port : Z) : Prop :=
  ∃ state, healthy state ∧ EvTargetHealth tg (instanceID p) (int32 port) (Ok state) ∈ L.

Definition evidence (L : list event) (g : row) : Prop :=
  1 ≤ level (istate g) → ∃ tg port, grouped L g tg port ∧
    (2 ≤ level (istate g) → target_registered L tg port) ∧
    (3 ≤ level (istate g) → rule_created L g tg) ∧
    (4 ≤ level (istate g) → reported_healthy L tg port ∧
       PublicHost (endpoint g) = Some (gatewayHostname (ExternalID g) (baseDomain p))).

Definition no_ingress : Ingress := mkIngress None None None.

Definition in_range (prio : Z) : Prop :=
  (priorityMin p ≤ prio ≤ priorityMax p)%Z ∧ (1 ≤ prio ≤ 50000)%Z.

Record row_ok (supply : nat) (L : list event) (id : string) (g : row) : Prop := {
  ro_id : ExternalID g = id;
  ro_lease : lease g = no_lease ∨
    ∃ at_ who lt, lease g = mkLease (Some at_) (Some who) (Some lt) ∧ lt < supply;
  ro_queued : lease g ≠ no_lease → queued (istate g) = true;
  ro_evidence : evidence L g;
  ro_early : istate g = NotStarted ∨ istate g = ContainerReady → ingress g = no_ingress;
  ro_active : Status g = Active → istate g = Completed;
  ro_retry : (0 ≤ RetryCount (queue g) < maxRetries)%Z;
  ro_priority : ∀ prio, rule_priority g = Some prio → in_range prio;
  ro_gone : istate g = Deprovisioned →
    is_Some (DeletedAt g) ∧ ingress g = no_ingress ∧ Status g = Decommissioned;
}.

(** The unique index on priorities and the uniqueness of leases. *)
Record distinct (m : gmap string row) : Prop := {
  di_token : ∀ i j a b lt, m !! i = Some a → m !! j = Some b →
    token a = Some lt → token b = Some lt → i = j;
  di_priority : ∀ i j a b prio, m !! i = Some a → m !! j = Some b → live a = true → live b = true →
    rule_priority a = Some prio → rule_priority b = Some prio → i = j;
}.

(** A job shows its row as long as its lease is the row's, except that a row in
    removal may meanwhile have been marked as ready. *)
Definition current (j : GatewayProvisioningJob) (g : row) : Prop :=
  (istate g = JobStatus j ∧ default "" (target_group g) = JobTargetGroupARN j ∧
   default "" (ListenerRuleARN (ingress g)) = JobListenerRuleARN j ∧
   default 0%Z (HostPort (endpoint g)) = JobHostPort j ∧ RetryCount (queue g) = JobRetryCount j) ∨
  (JobStatus j = Deprovisioning ∧ istate g = ContainerReady ∧ RetryCount (queue g) = 0%Z).

Definition job_ok (supply : nat) (m : gmap string row) (j : GatewayProvisioningJob) : Prop :=
  JobLeaseToken j < supply ∧
  ∀ id g, m !! id = Some g → token g = Some (JobLeaseToken j) → id = JobExternalID j ∧ current j g.

(** A gateway whose container is being started. *)
Definition unstarted (g : row) : Prop :=
  (istate g = NotStarted ∨ istate g = Deprovisioning ∨ istate g = Deprovisioned ∨ istate g = IngressFailed) ∧
  ingress g = no_ingress.

Record known (supply : nat) (m : gmap string row) (K : know) : Prop := {
  kn_job : ∀ j, kjob K = Some j → job_ok supply m j;
  kn_prio : ∀ j prio, kjob K = Some j → kprio K = Some prio →
    ∀ id g, m !! id = Some g → token g = Some (JobLeaseToken j) → rule_priority g = Some prio;
  kn_pending : ∀ id, kpending K = Some id → ∃ g, m !! id = Some g ∧ unstarted g;
}.

(** ** The discipline of the programs *)

(** The deletions a removed gateway rests on. *)
Definition released (L : list event) (ext tg arn : string) (port : Z) : Prop :=
  (arn ≠ "" → EvDeleteHostRule arn (Ok ()) ∈ L) ∧
  (tg ≠ "" → (0 < port)%Z → EvDeregisterTarget tg (instanceID p) (int32 port) (Ok ()) ∈ L) ∧
  (tg ≠ "" → EvDeleteTargetGroup tg (Ok ()) ∈ L) ∧
  EvContainerDecommission ext (Ok ()) ∈ L.

(** The call is one on the program's own job, in status [s]. *)
Definition own (K : know) (id : string) (lt : nat) (P : GatewayProvisioningJob → Prop) : Prop :=
  ∃ j, kjob K = Some j ∧ id = JobExternalID j ∧ lt = JobLeaseToken j ∧ P j.

Definition guard {X} (K : know) (L : list event) (c : GatewayProvisioningRepository X) : Prop :=
  match c with
  | CallClaim _ _ => kjob K = None ∧ kpending K = None
  | CallTargetGroupCreated id lt tg => own K id lt (λ j,
      JobStatus j = ContainerReady ∧ valid_port (JobHostPort j) = true ∧
      EvCreateTargetGroup (gatewayTargetGroupName (JobExternalID j)) (vpcID p) (Ok tg) ∈ L)
  | CallTargetRegistered id lt => own K id lt (λ j,
      JobStatus j = RegisteringTarget ∧ target_registered L (JobTargetGroupARN j) (JobHostPort j))
  | CallReservePriority id lt lo hi => own K id lt (λ j,
      JobStatus j = CreatingListenerRule ∧ lo = priorityMin p ∧ hi = priorityMax p)
  | CallListenerRuleCreated id lt arn _ => own K id lt (λ j,
      JobStatus j = CreatingListenerRule ∧ ∃ prio, kprio K = Some prio ∧
      EvCreateHostRule (listenerARN p) (gatewayHostname (JobExternalID j) (baseDomain p))
        (JobTargetGroupARN j) (int32 prio) (Ok arn) ∈ L)
  | CallRescheduleHealthCheck id lt _ => own K id lt (λ j, JobStatus j = WaitingForTargetHealth)
  | CallIngressActive id lt host _ => own K id lt (λ j,
      JobStatus j = WaitingForTargetHealth ∧ host = gatewayHostname (JobExternalID j) (baseDomain p) ∧
      reported_healthy L (JobTargetGroupARN j) (JobHostPort j))
  | CallScheduleRetry id lt _ _ => own K id lt (λ j, (JobRetryCount j + 1 < maxRetries)%Z)
  | CallIngressFailed id lt _ => own K id lt (λ _, True)
  | CallDecommissioned id lt => own K id lt (λ j,
      JobStatus j = Deprovisioning ∧
      released L id (JobTargetGroupARN j) (JobListenerRuleARN j) (JobHostPort j))
  | CallProvision _ _ _ => kjob K = None ∧ kpending K = None
  | CallContainerReady id _ _ _ _ => kpending K = Some id
  | CallUpdateStatus _ s => s ≠ Active
  | CallGetStatus _ _ | CallQueueDeprovisioning _ _ | CallListStaleDraining _ | CallDecommission _ => True
  end.

Fixpoint disciplined {A} (K : know) (L : list event) (q : prog A) : Prop :=
  match q with
  | Done _ => True
  | Repo c k => guard K L c ∧ ∀ r, disciplined (learn c r K) L (k r)
  | Call c k => ∀ r, disciplined K (L ++ [event_of c r]) (k r)
  | Now k => ∀ t, disciplined K L (k t)
  end.

Definition task_ok (L : list event) (x : task) : Prop :=
  match x with Task K q => disciplined K L q end.

Lemma grows (L L' E : list event) : L ⊆ L' → L ++ E ⊆ L' ++ E.
Proof. intros H e. rewrite !elem_of_app. naive_solver. Qed.

Lemma grows_r (L E : list event) : L ⊆ L ++ E.
Proof. intros e. rewrite elem_of_app. auto. Qed.

Lemma gateway_released_mono L L' ext tg arn port :
  L ⊆ L' → released L ext tg arn port → released L' ext tg arn port.
Proof. intros H (H1 & H2 & H3 & H4). split_and!; auto. Qed.

Lemma gateway_guard_mono {X} K L L' (c : GatewayProvisioningRepository X) : L ⊆ L' → guard K L c → guard K L' c.
Proof.
  intros H. destruct c; simpl; try done; unfold own.
  - intros (j & ? & ? & ? & ? & ? & ?). exists j. split_and!; auto.
  - intros (j & ? & ? & ? & ? & ? & ?). exists j. unfold target_registered. split_and!; auto.
  - intros (j & ? & ? & ? & ? & prio & ? & ?). exists j. split_and!; auto. exists prio. auto.
  - intros (j & ? & ? & ? & ? & ? & st & ? & ?). exists j. split_and!; auto. exists st. auto.
  - intros (j & ? & ? & ? & ? & ?). exists j. split_and!; auto. by eapply gateway_released_mono.
Qed.

Lemma gateway_disciplined_mono {A} K L L' (q : prog A) : L ⊆ L' → disciplined K L q → disciplined K L' q.
Proof.
  revert K L L'. induction q as [a|X c k IH|X c k IH|k IH]; intros K L L' H; simpl; [done|..].
  - intros [Hg Hk]. split; [by eapply gateway_guard_mono|]. intros r. eapply IH; [exact H|apply Hk].
  - intros Hk r. eapply IH; [|apply Hk]. by apply grows.
  - intros Hk t. eapply IH; [exact H|apply Hk].
Qed.

Lemma gateway_task_mono L L' x : L ⊆ L' → task_ok L x → task_ok L' x.
Proof. destruct x. apply gateway_disciplined_mono. Qed.

(** ** Every program keeps the discipline *)

Lemma d_finish K L r : disciplined K L (finish r).
Proof. done. Qed.

Lemma own_intro K j (P : GatewayProvisioningJob → Prop) :
  kjob K = Some j → P j → own K (JobExternalID j) (JobLeaseToken j) P.
Proof. intros. by exists j. Qed.

Lemma d_fail K L j msg : kjob K = Some j → disciplined K L (failJob j msg).
Proof. intros Hj. split; [by apply own_intro|]. intros r. apply d_finish. Qed.

Lemma d_retry K L j e : kjob K = Some j → disciplined K L (retryOrFail j e).
Proof.
  intros Hj. unfold retryOrFail. destruct (Z.leb_spec maxRetries (JobRetryCount j + 1)).
  - by apply d_fail.
  - intros t. split; [by apply own_intro|]. intros r. apply d_finish.
Qed.

Lemma d_attempt {X} K L j prefix (c : Cloud X) (k : X → prog outcome) :
  kjob K = Some j → (∀ x, disciplined K (L ++ [event_of c (Ok x)]) (k x)) →
  disciplined K L (attempt j prefix c k).
Proof. intros Hj Hk [x|e]; [apply Hk|by apply d_retry]. Qed.

Lemma last_in (L : list event) e : e ∈ L ++ [e].
Proof. apply elem_of_app. right. by apply list_elem_of_singleton. Qed.

Lemma if_grows (b : bool) (L E : list event) : L ⊆ (if b then L ++ E else L).
Proof. destruct b; [apply grows_r|done]. Qed.

Lemma d_when K L (b : bool) j prefix (c : Cloud unit) k :
  kjob K = Some j →
  (∀ L' : list event, L' = (if b then L ++ [event_of c (Ok ())] else L) → disciplined K L' k) →
  disciplined K L (when_present b j prefix c k).
Proof.
  intros Hj Hk. destruct b; simpl; [|by apply Hk].
  apply d_attempt; [done|]. intros []. by apply Hk.
Qed.

Lemma d_deprovisioning K L j :
  kjob K = Some j → JobStatus j = Deprovisioning → disciplined K L (handleDeprovisioning p j).
Proof.
  intros Hj Hs. unfold handleDeprovisioning.
  apply d_when; [done|]. intros L1 H1. apply d_when; [done|]. intros L2 H2.
  apply d_when; [done|]. intros L3 H3. unfold remove_container.
  destruct (has_containerMgr p); [|by apply d_retry].
  apply d_attempt; [done|]. intros []. split; [|intros r; apply d_finish].
  apply own_intro; [done|]. split; [done|].
  assert (L1 ⊆ L2) as M1 by (rewrite H2; apply if_grows).
  assert (L2 ⊆ L3) as M2 by (rewrite H3; apply if_grows).
  pose proof (grows_r L3 [event_of (ContainerDecommission (JobExternalID j)) (Ok ())]) as M3.
  unfold released. split_and!.
  - intros Hne. apply M3, M2, M1. rewrite H1, (proj2 (String.eqb_neq _ _) Hne). apply last_in.
  - intros Hne Hp%Z.ltb_lt. apply M3, M2. rewrite H2, (proj2 (String.eqb_neq _ _) Hne), Hp. apply last_in.
  - intros Hne. apply M3. rewrite H3, (proj2 (String.eqb_neq _ _) Hne). apply last_in.
  - apply last_in.
Qed.

Lemma d_handle K L j :
  kjob K = Some j → kprio K = None → disciplined K L (handle p driver_text j).
Proof.
  intros Hj Hp. unfold handle. destruct (JobStatus j) eqn:Hs; try done.
  - unfold handleContainerReady. destruct (_ || _) eqn:Hport; [by apply d_fail|].
    apply orb_false_iff in Hport as [Hlo%Z.ltb_ge Hhi%Z.ltb_ge].
    apply d_attempt; [done|]. intros tg. split; [|intros r; apply d_finish].
    apply own_intro; [done|]. split_and!; [done| |apply last_in].
    unfold valid_port. apply andb_true_iff. rewrite !Z.leb_le. lia.
  - unfold handleRegisteringTarget. destruct (String.eqb_spec (JobTargetGroupARN j) ""); [by apply d_fail|].
    apply d_attempt; [done|]. intros []. split; [|intros r; apply d_finish].
    apply own_intro; [done|]. split; [done|]. split; [done|apply last_in].
  - unfold handleCreatingListenerRule. destruct (String.eqb_spec (JobTargetGroupARN j) ""); [by apply d_fail|].
    split; [by apply own_intro|]. intros [prio|e]; [|by apply d_retry].
    apply d_attempt; [done|]. intros arn t. split; [|intros r; apply d_finish].
    apply (own_intro _ j); [done|]. split; [done|]. exists prio. split; [done|apply last_in].
  - unfold handleWaitingForTargetHealth.
    destruct (String.eqb_spec (JobTargetGroupARN j) ""); [by apply d_fail|].
    apply d_attempt; [done|]. intros state. cbv zeta.
    destruct (String.eqb_spec (ToLower (TrimSpace state)) "healthy") as [Hh|].
    + split; [|intros r; apply d_finish]. apply own_intro; [done|]. split_and!; [done|done|].
      exists state. split; [done|apply last_in].
    + destruct (String.eqb _ "unhealthy"); [by apply d_retry|].
      intros t. split; [by apply own_intro|]. intros r; apply d_finish.
  - by apply d_deprovisioning.
Qed.

Lemma d_reconcile K L ids : disciplined K L (reconcile_each ids).
Proof.
  revert L. induction ids as [|id ids IH]; intros L; [done|]. intros [x|e]; [|apply IH].
  split; [done|]. intros r. apply IH.
Qed.

Lemma program_disciplined x L : program x → task_ok L x.
Proof.
  intros [|staleAfter|newID pid plan|dt tenant id|has id]; simpl.
  - split; [done|]. intros [[job|]|e]; try done. by apply d_handle.
  - split; [done|]. intros [ids|e]; [apply d_reconcile|done].
  - unfold ProvisionGateway. destruct (_ || _); [done|]. split; [done|]. intros [[]|e]; [|done].
    intros [[[[ip port] host] pport]|e].
    + split; [done|]. by intros [|].
    + by split.
  - unfold DecommissionGateway. destruct (String.eqb id ""); [done|]. destruct (negb _); [done|].
    assert (Hq : ∀ r, disciplined know0 L (match r with
        | Err ErrGatewayNotFound => Done (RespError 404 "gateway not found")
        | Err _ => internal "failed to queue gateway deprovisioning"
        | Ok (started, ready) => Done (RespQueued id started ready) end)).
    { by intros [[]|[]]. }
    split; [done|]. intros [s|[]]; try done. destruct s; try done; by split.
  - unfold ForceDecommission. destruct (String.eqb id ""); [done|].
    assert (Hm : ∀ L, disciplined know0 L (Repo (CallUpdateStatus id Decommissioned) (λ r,
      match r with
      | Err ErrGatewayNotFound => Done (RespError 404 "gateway not found")
      | Err _ => internal "failed to update gateway status in database"
      | Ok _ => Done (RespForced id)
      end))).
    { intros L0. split; [done|]. by intros [|[]]. }
    destruct has; [intros r; apply Hm|apply Hm].
Qed.

End system.
End GatewayLifecycle.
