(* ===== verification/GatewayCalls.v ===== *)
(** * What one call may do to the gateways

    Each method of [GatewayRepo], called by a program that keeps the discipline of
    [GatewayLifecycle]: the rows stay sound, priorities and leases stay unique,
    the caller's knowledge holds and nobody else's is spoilt. *)

From stdpp Require Import gmap.
From S2P Require Import Prelude GoStrings Store GatewayRepo GatewayProvisioner GatewayLifecycle.

Module GatewayCalls.
Import GatewayRepo GatewayProvisioner GatewayLifecycle.

Section calls.
Context (p : GatewayProvisioner).
#[local] Abbreviation row_ok := (GatewayLifecycle.row_ok p).
#[local] Abbreviation guard := (GatewayLifecycle.guard p).
#[local] Abbreviation in_range := (GatewayLifecycle.in_range p).

(** ** What one call may do *)

(** A change of a row other than a claim. *)
Record change (m : gmap string row) (g g' : row) : Prop := {
  ch_lease : lease g' = no_lease ∨
    (lease g' = lease g ∧
     ((istate g' = istate g ∧ target_group g' = target_group g ∧
       ListenerRuleARN (ingress g') = ListenerRuleARN (ingress g) ∧
       HostPort (endpoint g') = HostPort (endpoint g) ∧ RetryCount (queue g') = RetryCount (queue g)) ∨
      (istate g = Deprovisioning ∧ istate g' = ContainerReady ∧ RetryCount (queue g') = 0%Z)) ∧
     ∀ x, rule_priority g = Some x → rule_priority g' = Some x);
  ch_live : live g' = true → live g = true;
  ch_priority : live g' = true → rule_priority g' = rule_priority g ∨ rule_priority g' = None ∨
    ∃ x, rule_priority g' = Some x ∧ free_priority m x = true;
}.

Lemma gateway_row_mono n n' L L' id g : n ≤ n' → L ⊆ L' → row_ok n L id g → row_ok n' L' id g.
Proof.
  intros Hn HL [H1 H2 H3 H4 H5 H6 H7 H8 H9]. split; try done.
  - destruct H2 as [?|(a & w & lt & ? & ?)]; [by left|right]. exists a, w, lt. split; [done|lia].
  - intros Hl. destruct (H4 Hl) as (tg & port & (G1 & G2 & G3 & G4) & T & R & C). exists tg, port.
    split; [unfold GatewayLifecycle.grouped; split_and!; auto|]. split; [|split].
    + intros Hl2. destruct (T Hl2). split; auto.
    + intros Hl3. destruct (R Hl3) as (arn & prio & ? & ? & ?). exists arn, prio. auto.
    + intros Hl4. destruct (C Hl4) as [(st & ? & ?) ?]. split; [|done]. exists st. auto.
Qed.

Lemma token_kept g g' lt :
  lease g' = no_lease ∨ lease g' = lease g → token g' = Some lt → token g = Some lt.
Proof. intros [-> | ->]; [done|auto]. Qed.

Lemma change_token m g g' lt : change m g g' → token g' = Some lt → token g = Some lt.
Proof. intros [H _ _]. apply token_kept. destruct H as [?|[? _]]; auto. Qed.

Lemma free_priority_spec m x id g :
  free_priority m x = true → m !! id = Some g → live g = true → rule_priority g ≠ Some x.
Proof.
  unfold free_priority. rewrite negb_true_iff. intros Hf Hg Hl Hp.
  rewrite <-not_true_iff_false, existsb_exists in Hf. apply Hf. exists g. split.
  - apply list_elem_of_In. unfold all_rows. apply list_elem_of_fmap. exists (id, g). split; [done|].
    by apply elem_of_map_to_list.
  - by rewrite bool_decide_eq_true_2, Hl.
Qed.

Lemma row_change_distinct m id g g' :
  m !! id = Some g → change m g g' → distinct m → distinct (<[id := g']> m).
Proof.
  intros Hg Hch [D1 D2]. pose proof (λ lt, change_token m g g' lt Hch) as Htok. split.
  - intros i j a b lt [[<- <-]|[Hi Ha]]%lookup_insert_Some [[<- <-]|[Hj Hb]]%lookup_insert_Some Ta Tb;
      [done|eapply D1; eauto..].
  - destruct Hch as [_ Hlive Hpr].
    assert (Hone : ∀ j b prio, m !! j = Some b → id ≠ j → live g' = true → live b = true →
      rule_priority g' = Some prio → rule_priority b = Some prio → False).
    { intros j b prio Hb Hne Hl Hlb Hp Hpb. destruct (Hpr Hl) as [E|[E|(x & E & Hf)]].
      - apply Hne. eapply D2; eauto; congruence.
      - congruence.
      - apply (free_priority_spec _ _ _ _ Hf Hb Hlb). congruence. }
    intros i j a b prio [[<- <-]|[Hi Ha]]%lookup_insert_Some [[<- <-]|[Hj Hb]]%lookup_insert_Some La Lb Pa Pb.
    + done.
    + by destruct (Hone j b prio).
    + by destruct (Hone i a prio).
    + eauto.
Qed.

Lemma row_change_job_ok n m id g g' j :
  m !! id = Some g → change m g g' → job_ok n m j → job_ok n (<[id := g']> m) j.
Proof.
  intros Hg [Hl _ _] [Hn Hj]. split; [done|].
  intros i a [[<- <-]|[_ Ha]]%lookup_insert_Some Ht; [|auto].
  destruct Hl as [Hl|(Hl & Hcols & _)]; [by rewrite Hl in Ht|]. rewrite Hl in Ht.
  destruct (Hj _ _ Hg Ht) as [-> Hcur]. split; [done|].
  destruct Hcols as [(E1 & E2 & E3 & E4 & E5)|(E1 & E2 & E3)].
  - unfold current. rewrite E1, E2, E3, E4, E5. done.
  - right. destruct Hcur as [(Es & _)|(_ & Es & _)]; [split_and!; congruence|congruence].
Qed.

(** A call's effect: the rows stay sound and distinct, the caller knows what it
    has learnt, and the others know what they knew, unless they wait for the
    gateway the caller has been waiting for. *)
Record outcome_ok {X} (K : know) (L : list event) (c : GatewayProvisioningRepository X)
    (d d' : store (gmap string row)) (r : result error X) : Prop := {
  oc_supply : supply d ≤ supply d';
  oc_rows : ∀ id g, tables d' !! id = Some g → row_ok (supply d') L id g;
  oc_distinct : distinct (tables d');
  oc_self : known (supply d') (tables d') (learn c r K);
  oc_others : ∀ K', known (supply d) (tables d) K' →
    (∀ x, kpending K = Some x → kpending K' ≠ Some x) → known (supply d') (tables d') K';
  oc_pending : ∀ x, kpending (learn c r K) = Some x → kpending K = Some x ∨ tables d !! x = None;
}.

Lemma known_same n n' m m' K : m' = m → n ≤ n' → known n m K → known n' m' K.
Proof.
  intros -> Hn [H1 H2 H3]. split; [|done..]. intros j Hj. destruct (H1 j Hj) as [? ?]. split; [lia|done].
Qed.

Section call.
Context {X : Type} (K : know) (L : list event) (c : GatewayProvisioningRepository X).
Context (d d' : store (gmap string row)) (r : result error X).
Context (Hrows : ∀ id g, tables d !! id = Some g → row_ok (supply d) L id g).
Context (Hdist : distinct (tables d)) (Hknown : known (supply d) (tables d) K).

Lemma oc_same :
  tables d' = tables d → supply d ≤ supply d' → learn c r K = K ∨ known (supply d') (tables d') (learn c r K) →
  (kpending (learn c r K) = kpending K ∨ kpending (learn c r K) = None) →
  outcome_ok K L c d d' r.
Proof using Hrows Hdist Hknown.
  intros Ht Hs Hl Hp. split.
  - done.
  - intros id g Hg. rewrite Ht in Hg. eapply gateway_row_mono; [exact Hs|done|by apply Hrows].
  - by rewrite Ht.
  - destruct Hl as [->|?]; [by eapply known_same|done].
  - intros K' HK' _. by eapply known_same.
  - intros x Hx. left. destruct Hp as [<-|E]; congruence.
Qed.

Lemma change_known id g g' K' :
  tables d !! id = Some g → change (tables d) g g' →
  (kpending K' = Some id → unstarted g → unstarted g') →
  known (supply d) (tables d) K' → known (supply d) (<[id := g']> (tables d)) K'.
Proof.
  intros Hg Hch Hun [H1 H2 H3]. split.
  - intros j Hj. by eapply row_change_job_ok; eauto.
  - intros j prio Hj Hp i a [[<- <-]|[_ Ha]]%lookup_insert_Some Ht; [|eauto].
    pose proof (change_token _ _ _ _ Hch Ht) as Hold. destruct (ch_lease _ _ _ Hch) as [E|(_ & _ & E)].
    + by rewrite E in Ht.
    + eauto.
  - intros x Hx. destruct (H3 x Hx) as (a & Ha & Hu). destruct (decide (x = id)) as [->|Hne].
    + exists g'. rewrite lookup_insert_eq. split; [done|]. simplify_eq. auto.
    + exists a. by rewrite lookup_insert_ne.
Qed.

Lemma oc_change id g g' :
  tables d !! id = Some g → tables d' = <[id := g']> (tables d) → supply d' = supply d →
  change (tables d) g g' → row_ok (supply d) L id g' →
  (unstarted g → unstarted g') ∨ kpending K = Some id ∧ kpending (learn c r K) = None →
  kjob (learn c r K) = kjob K → 
  (kprio (learn c r K) = kprio K ∨ ∃ j prio, kjob K = Some j ∧ kprio (learn c r K) = Some prio ∧
     JobExternalID j = id ∧ rule_priority g' = Some prio) →
  (kpending (learn c r K) = kpending K ∨ kpending (learn c r K) = None) →
  outcome_ok K L c d d' r.
Proof using Hrows Hdist Hknown.
  intros Hg Ht Hs Hch Hok Hun Hj Hpr Hp. split.
  - lia.
  - intros i a Ha. rewrite Ht, Hs in *. apply lookup_insert_Some in Ha as [[<- <-]|[_ Ha]]; auto.
  - rewrite Ht. by eapply row_change_distinct.
  - rewrite Ht, Hs.
    assert (Hbase : known (supply d) (<[id := g']> (tables d)) (mkKnow (kjob K) (kprio K) (kpending (learn c r K)))).
    { apply (change_known id g g'); [done|done| |].
      - simpl. intros Hx Hu. destruct Hun as [Hun|[_ E]]; [auto|congruence].
      - destruct Hknown as [H1 H2 H3]. split; simpl; [done|done|].
        intros x Hx. apply H3. destruct Hp as [E|E]; congruence. }
    destruct Hbase as [B1 B2 B3]. simpl in *. destruct (learn c r K) as [kj kp kw]. simpl in *. subst kj.
    split; simpl; [done| |done].
    intros j prio Hkj Hkp. destruct Hpr as [->|(j' & prio' & Hj' & Hk' & Hid & Hgp)]; [by eapply B2|].
    intros i a Ha Htok. destruct (B1 j Hkj) as [_ Hcur]. destruct (Hcur i a Ha Htok) as [-> _].
    simplify_eq. rewrite lookup_insert_eq in Ha. by simplify_eq.
  - intros K' HK' Hne. rewrite Ht, Hs. eapply change_known; [done|done| |done].
    intros Hx. destruct Hun as [Hun|[E _]]; [done|]. by destruct (Hne _ E).
  - intros x Hx. left. destruct Hp as [<-|E]; congruence.
Qed.

End call.

(** One guarded statement: it changes its row, or it fails and changes nothing. *)
Lemma guarded_spec id (cond : row → bool) (f : Z → row → row) (e : error) d d' r :
  (let* o := update_row id cond f in
   match o with Some _ => mret () | None => mfail e end)%store d = (d', r) →
  frame d d' ∧ (tables d' = tables d ∧ is_ok r = false ∨
    ∃ g, tables d !! id = Some g ∧ cond g = true ∧ is_ok r = true ∧
      tables d' = <[id := f (clock d) g]> (tables d)).
Proof.
  intros [(d1 & o & Hu & H)|(e' & Hu & ->)]%mbind_spec; apply store_update_spec in Hu as [Hfr Hu].
  - destruct o as [g|]; unfold mret, mfail in H; simplify_eq; (split; [done|]).
    + right. destruct Hu as (x & ? & ? & -> & ?). by exists x.
    + left. by destruct Hu.
  - split; [done|]. left. by destruct Hu.
Qed.

Lemma leased_spec id lt (f : Z → row → row) d d' r :
  leased id lt f d = (d', r) →
  frame d d' ∧ (tables d' = tables d ∧ is_ok r = false ∨
    ∃ g, tables d !! id = Some g ∧ token g = Some lt ∧ live g = true ∧ is_ok r = true ∧
      tables d' = <[id := f (clock d) g]> (tables d)).
Proof.
  intros [Hfr [?|(g & Hg & Hc & Hr & Ht)]]%guarded_spec; (split; [done|]); [by left|right].
  unfold held in Hc. apply andb_true_iff in Hc as [Hc%bool_decide_eq_true Hl]. by exists g.
Qed.

(** A row whose lease is given up. *)
Lemma change_release m g g' :
  lease g' = no_lease → live g' = true → live g = true →
  rule_priority g' = rule_priority g ∨ rule_priority g' = None → change m g g'.
Proof. intros. split; [by left|done|intuition]. Qed.

(** A row in removal or in provisioning is neither active nor started anew. *)
Lemma queued_not s : queued s = true → s ≠ NotStarted ∧ s ≠ Completed ∧ s ≠ IngressFailed ∧ s ≠ Deprovisioned.
Proof. by destruct s. Qed.

(** *** Reserving a priority *)

Lemma quiet_query {A} (a : A) (e0 : store (gmap string row)) e1 s :
  query (E := error) (λ _ m, (m, a)) e0 = (e1, s) →
  frame e0 e1 ∧ tables e1 = tables e0 ∧ (s = Ok a ∨ s = Err ErrDB).
Proof.
  intros [Hfr [[-> Ht]|(x & Hx & ->)]]%store_query_spec; [by auto|]. simplify_eq. auto.
Qed.

(** A priority came from the row or is the lowest free one. *)
Lemma allocate_spec lo hi m prio :
  allocate lo hi m = Some prio →
  (lo ≤ prio ≤ hi)%Z ∧ free_priority m prio = true ∧ ∀ q, (lo ≤ q < prio)%Z → free_priority m q = false.
Proof.
  intros (before & after & Hs & Hp & Hb)%find_first_split.
  assert (Hin : prio ∈ seqZ lo (hi - lo + 1)) by (rewrite Hs; set_solver).
  apply elem_of_seqZ in Hin. split; [lia|]. split; [done|]. intros q Hq.
  assert (Hl : seqZ lo (hi - lo + 1) !! length before = Some prio) by (rewrite Hs; by apply list_lookup_middle).
  apply lookup_seqZ in Hl as [Hlen _].
  assert (Hq' : seqZ lo (hi - lo + 1) !! Z.to_nat (q - lo) = Some q) by (apply lookup_seqZ; lia).
  rewrite Hs, lookup_app_l in Hq' by lia. rewrite Forall_forall in Hb. apply Hb.
  by eapply list_elem_of_lookup_2.
Qed.

Definition reserved (prio : Z) (now : Z) (g : row) : row :=
  touch now (set_ingress (mkIngress (target_group g) (ListenerRuleARN (ingress g)) (Some prio)) g).

Lemma reserve_spec d d' id lt lo hi r :
  ReserveGatewayListenerRulePriority id lt lo hi d = (d', r) →
  frame d d' ∧
  ((tables d' = tables d ∧ ∀ prio, r = Ok prio → ∃ g, tables d !! id = Some g ∧ token g = Some lt ∧
      rule_priority g = Some prio) ∨
   (∃ g prio, r = Ok prio ∧ tables d !! id = Some g ∧ token g = Some lt ∧ live g = true ∧
      (default 0 (rule_priority g) ≤ 0)%Z ∧ (1 ≤ lo)%Z ∧ (hi ≤ 50000)%Z ∧
      allocate lo hi (tables d) = Some prio ∧ tables d' = <[id := reserved prio (clock d) g]> (tables d))).
Proof.
  unfold ReserveGatewayListenerRulePriority.
  destruct ((lo <? 1)%Z || _ || _) eqn:Hrange.
  { unfold mfail. intros. simplify_eq. split; [done|left]. by split. }
  apply orb_false_iff in Hrange as [Hrange _]. apply orb_false_iff in Hrange as [Hlo Hhi].
  intros [(d1 & [] & H1 & H)|(e & H1 & ->)]%mbind_spec; apply quiet_query in H1 as (F1 & T1 & _);
    [|split; [done|left; by split]].
  unfold transaction in H.
  match type of H with context [match ?m d1 with _ => _ end] => destruct (m d1) as [d2 r2] eqn:Hbody end.
  assert (Hres : frame d1 d2 ∧ (is_ok r2 = false ∨
    (tables d2 = tables d1 ∧ ∃ prio g, r2 = Ok prio ∧ tables d1 !! id = Some g ∧ token g = Some lt ∧
       rule_priority g = Some prio) ∨
    (∃ g prio, r2 = Ok prio ∧ tables d1 !! id = Some g ∧ token g = Some lt ∧ live g = true ∧
      (default 0 (rule_priority g) ≤ 0)%Z ∧
      allocate lo hi (tables d1) = Some prio ∧ tables d2 = <[id := reserved prio (clock d1) g]> (tables d1)))).
  { clear H r. apply mbind_spec in Hbody as [(d3 & [] & H3 & H)|(e & H3 & ->)];
      apply quiet_query in H3 as (F3 & T3 & _); [|by auto].
    apply mbind_spec in H as [(d4 & o & H4 & H)|(e & H4 & ->)];
      apply store_select_spec in H4 as (F4 & T4 & H4); [|split; [by etrans|by left]].
    destruct o as [g|]; [|unfold mfail in H; simplify_eq; split; [by etrans|by left]].
    destruct H4 as [Hg Hheld]. rewrite T3 in Hg. cbv zeta in H.
    apply andb_true_iff in Hheld as [Htok%bool_decide_eq_true Hlive].
    assert (F14 : frame d1 d4) by by etrans.
    destruct (Z.ltb_spec 0 (default 0%Z (rule_priority g))) as [Hex|Hex].
    - apply mbind_spec in H as [(d5 & [] & H5 & H)|(e & H5 & ->)];
        apply quiet_query in H5 as (F5 & T5 & _); [|split; [by etrans|by left]].
      unfold mret in H. simplify_eq. split; [by etrans|]. right. left. split; [congruence|].
      destruct (rule_priority g) as [prio|] eqn:Hp; simpl in Hex; [|lia]. exists prio, g. by split_and!.
    - apply mbind_spec in H as [(d5 & cand & H5 & H)|(e & H5 & ->)];
        apply store_query_spec in H5 as [F5 H5].
      2: { split; [by etrans|by left]. }
      destruct H5 as [[? _]|(x & Hx & E)]; [done|]. simplify_eq.
      destruct (allocate lo hi (tables d4)) as [prio|] eqn:Hal;
        [|unfold mfail in H; simplify_eq; split; [by etrans|by left]].
      apply mbind_spec in H as [(d6 & [] & H6 & H)|(e & H6 & ->)]; apply leased_spec in H6 as [F6 H6];
        [|split; [by etrans; [|etrans]|by left]].
      apply mbind_spec in H as [(d7 & [] & H7 & H)|(e & H7 & ->)];
        apply quiet_query in H7 as (F7 & T7 & _); [|split; [by etrans; [|etrans; [|etrans]]|by left]].
      unfold mret in H. simplify_eq. split; [by etrans; [|etrans; [|etrans]]|].
      destruct H6 as [[_ ?]|(g' & Hg' & _ & _ & _ & Ht6)]; [done|]. right. right. exists g, prio.
      assert (tables d5 = tables d1) as T51 by congruence. assert (g' = g) as -> by congruence.
      split_and!; try done; [congruence|]. rewrite T7, Ht6, T51. unfold reserved.
      destruct F14 as [C1 _], F5 as [C2 _]. by rewrite C2, C1. }
  destruct Hres as [F2 Hres]. assert (F : frame d d2) by by etrans.
  destruct r2 as [prio|e].
  - simplify_eq. split; [done|]. destruct Hres as [?|[(Ht & prio' & g & Hr & Hg & Hk & Hp)|
      (g & prio' & Hr & Hg & Hk & Hl & Hd & Hal & Ht)]]; [done|left|right].
    + split; [congruence|]. intros q [= <-]. simplify_eq. exists g. split_and!; congruence.
    + simplify_eq. exists g, prio'. rewrite T1 in *. destruct F1 as [C1 _]. rewrite C1 in *.
      split_and!; try done; lia.
  - simplify_eq. split; [by split; apply F|]. left. by split.
Qed.

Section leased_calls.
Context {X : Type} (K : know) (L : list event).
Context (d d' : store (gmap string row)).
Context (Hrows : ∀ id g, tables d !! id = Some g → row_ok (supply d) L id g).
Context (Hdist : distinct (tables d)) (Hknown : known (supply d) (tables d) K).

Lemma oc_leased (c : GatewayProvisioningRepository unit) id lt f P r :
  leased id lt f d = (d', r) → own K id lt P → (∀ r, learn c r K = K) →
  (∀ j g, kjob K = Some j → P j → tables d !! id = Some g → token g = Some lt → live g = true →
     id = JobExternalID j → current j g → row_ok (supply d) L id g → queued (istate g) = true →
     change (tables d) g (f (clock d) g) ∧ row_ok (supply d) L id (f (clock d) g) ∧
     (unstarted g → unstarted (f (clock d) g))) →
  outcome_ok K L c d d' r.
Proof using Hrows Hdist Hknown.
  intros Hl (j & Hj & -> & -> & HP) Hlearn Hf. apply leased_spec in Hl as [[Hc Hs] Hl].
  destruct Hl as [[Ht _]|(g & Hg & Htok & Hlive & _ & Ht)].
  { apply (oc_same K L c d d' r Hrows Hdist Hknown Ht); [lia|left; apply Hlearn|left; by rewrite Hlearn]. }
  pose proof (Hrows _ _ Hg) as Hok. destruct (kn_job _ _ _ Hknown j Hj) as [_ Hcur].
  destruct (Hcur _ _ Hg Htok) as [Hid Hcurg].
  destruct (Hf j g) as (Hch & Hok' & Hun); try done.
  { apply (ro_queued _ _ _ _ _ Hok). intros E. by rewrite E in Htok. }
  eapply (oc_change K L c d d' r Hrows Hdist Hknown _ g); [exact Hg|exact Ht|done|exact Hch|exact Hok'|by left|..];
    rewrite Hlearn; auto.
Qed.

(** *** The updates of the worker *)

Lemma current_open j g :
  current j g → JobStatus j ≠ Deprovisioning →
  istate g = JobStatus j ∧ default "" (target_group g) = JobTargetGroupARN j ∧
  default "" (ListenerRuleARN (ingress g)) = JobListenerRuleARN j ∧
  default 0%Z (HostPort (endpoint g)) = JobHostPort j ∧ RetryCount (queue g) = JobRetryCount j.
Proof. intros [?|(? & _)] ?; done. Qed.

Lemma not_unstarted g (P : Prop) : queued (istate g) = true → istate g ≠ Deprovisioning → unstarted g → P.
Proof. intros Hq Hd [[E|[E|[E|E]]] _]; by rewrite E in *. Qed.

(** A row handed back without its lease, its resources as they were. *)
Lemma row_ok_back L0 id g s err retry next now :
  row_ok (supply d) L0 id g → queued (istate g) = true → (0 ≤ retry < maxRetries)%Z →
  (s = istate g ∨ s = IngressFailed) → 
  row_ok (supply d) L0 id (set_lease now no_lease (set_queue (mkQueue s err retry next) g)).
Proof.
  intros [H1 H2 H3 H4 H5 H6 H7 H8 H9] Hq Hr Hs. destruct (queued_not _ Hq) as (N1 & N2 & N3 & N4).
  split; simpl; auto.
  - intros Hl. destruct Hs as [->| ->]; [by apply H4|simpl in Hl; lia].
  - intros E. destruct Hs as [->| ->]; [by apply H5|by destruct E].
  - intros E. by apply H6 in E.
  - intros E. destruct Hs as [->| ->]; done.
Qed.

Lemma ok_retry id lt msg next r :
  guard K L (CallScheduleRetry id lt msg next) → ScheduleGatewayIngressRetry id lt msg next d = (d', r) →
  outcome_ok K L (CallScheduleRetry id lt msg next) d d' r.
Proof using Hrows Hdist Hknown.
  intros Hg H. eapply oc_leased; [exact H|exact Hg|done|].
  intros j g Hj HP Hrow Ht Hlive Hid Hcur Hok Hq. split; [|split].
  - apply change_release; auto.
  - apply row_ok_back; [done|done| |by left]. pose proof (ro_retry _ _ _ _ _ Hok).
    destruct Hcur as [(_ & _ & _ & _ & E)|(_ & _ & E)]; rewrite E in *; unfold maxRetries in *; lia.
  - by intros [? ?].
Qed.

Lemma ok_failed id lt msg r :
  guard K L (CallIngressFailed id lt msg) → MarkGatewayIngressFailed id lt msg d = (d', r) →
  outcome_ok K L (CallIngressFailed id lt msg) d d' r.
Proof using Hrows Hdist Hknown.
  intros Hg H. eapply oc_leased; [exact H|exact Hg|done|].
  intros j g Hj HP Hrow Ht Hlive Hid Hcur Hok Hq. split; [|split].
  - apply change_release; auto.
  - destruct (row_ok_back L id g IngressFailed (Some msg) (RetryCount (queue g)) None (clock d) Hok Hq)
      as [H1 H2 H3 H4 H5 H6 H7 H8 H9]; [apply (ro_retry _ _ _ _ _ Hok)|by right|].
    split; try done.
  - intros [_ Hi]. split; [|done]. by right; right; right.
Qed.

Lemma ok_poll id lt next r :
  guard K L (CallRescheduleHealthCheck id lt next) → RescheduleGatewayHealthCheck id lt next d = (d', r) →
  outcome_ok K L (CallRescheduleHealthCheck id lt next) d d' r.
Proof using Hrows Hdist Hknown.
  intros Hg H. eapply oc_leased; [exact H|exact Hg|done|].
  intros j g Hj HP Hrow Ht Hlive Hid Hcur Hok Hq. split; [|split].
  - apply change_release; auto.
  - apply row_ok_back; [done|done|apply (ro_retry _ _ _ _ _ Hok)|by left].
  - by intros [? ?].
Qed.

Lemma ok_group id lt tg r :
  guard K L (CallTargetGroupCreated id lt tg) → MarkGatewayTargetGroupCreated id lt tg d = (d', r) →
  outcome_ok K L (CallTargetGroupCreated id lt tg) d d' r.
Proof using Hrows Hdist Hknown.
  intros Hg H. eapply oc_leased; [exact H|exact Hg|done|].
  intros j g Hj (Hs & Hport & Hev) Hrow Ht Hlive Hid Hcur Hok Hq.
  destruct (current_open _ _ Hcur) as (E1 & _ & _ & E4 & _); [by rewrite Hs|]. rewrite Hs in E1.
  pose proof (ro_early _ _ _ _ _ Hok (or_intror E1)) as Hin. destruct Hok as [H1 H2 H3 H4 H5 H6 H7 H8 H9].
  split; [|split].
  - apply change_release; auto.
  - split; simpl; auto; try done.
    + intros _. exists tg. destruct (HostPort (endpoint g)) as [port|] eqn:Hp.
      2: { simpl in E4. by rewrite <-E4 in Hport. }
      exists port. simpl in E4. split; [|split_and!; simpl; intros; lia]. unfold GatewayLifecycle.grouped. simpl.
      split_and!; [done|done|by rewrite E4|]. rewrite H1, Hid. done.
    + by intros [?|?].
    + intros E. by rewrite (H6 E) in E1.
  - apply not_unstarted; [done|by rewrite E1].
Qed.

Lemma ok_registered id lt r :
  guard K L (CallTargetRegistered id lt) → MarkGatewayTargetRegistered id lt d = (d', r) →
  outcome_ok K L (CallTargetRegistered id lt) d d' r.
Proof using Hrows Hdist Hknown.
  intros Hg H. eapply oc_leased; [exact H|exact Hg|done|].
  intros j g Hj (Hs & Hreg) Hrow Ht Hlive Hid Hcur Hok Hq.
  destruct (current_open _ _ Hcur) as (E1 & E2 & _ & E4 & _); [by rewrite Hs|]. rewrite Hs in E1.
  destruct Hok as [H1 H2 H3 H4 H5 H6 H7 H8 H9].
  split; [|split].
  - apply change_release; auto.
  - split; simpl; auto; try done.
    + intros _. destruct H4 as (tg & port & Hgr & _); [rewrite E1; simpl; lia|]. exists tg, port.
      split; [done|]. destruct Hgr as (G1 & G2 & _). rewrite G1 in E2. rewrite G2 in E4. simpl in *. subst.
      split; [done|split; simpl; intros; lia].
    + by intros [?|?].
    + intros E. by rewrite (H6 E) in E1.
  - apply not_unstarted; [done|by rewrite E1].
Qed.

Lemma ok_rule id lt arn next r :
  guard K L (CallListenerRuleCreated id lt arn next) → MarkGatewayListenerRuleCreated id lt arn next d = (d', r) →
  outcome_ok K L (CallListenerRuleCreated id lt arn next) d d' r.
Proof using Hrows Hdist Hknown.
  intros Hg H. eapply oc_leased; [exact H|exact Hg|done|].
  intros j g Hj (Hs & prio & Hkp & Hev) Hrow Ht Hlive Hid Hcur Hok Hq.
  destruct (current_open _ _ Hcur) as (E1 & E2 & _ & E4 & _); [by rewrite Hs|]. rewrite Hs in E1.
  destruct Hg as (j' & Hj' & _ & Hlt & _). rewrite Hj in Hj'. injection Hj' as <-.
  rewrite Hlt in Ht. pose proof (kn_prio _ _ _ Hknown j prio Hj Hkp _ _ Hrow Ht) as Hprio.
  destruct Hok as [H1 H2 H3 H4 H5 H6 H7 H8 H9].
  split; [|split].
  - apply change_release; auto.
  - split; simpl; auto; try done.
    + intros _. destruct H4 as (tg & port & Hgr & T & _); [rewrite E1; simpl; lia|]. exists tg, port.
      split; [done|]. destruct Hgr as (G1 & G2 & _). rewrite G1 in E2. simpl in E2. subst tg.
      split; [intros _; apply T; rewrite E1; simpl; lia|]. split; [intros _|simpl; intros; lia].
      exists arn, prio. split; [done|]. split; [done|]. simpl. rewrite H1, Hid. done.
    + by intros [?|?].
    + intros E. by rewrite (H6 E) in E1.
  - apply not_unstarted; [done|by rewrite E1].
Qed.

Lemma ok_active id lt host url r :
  guard K L (CallIngressActive id lt host url) → MarkGatewayIngressActive id lt host url d = (d', r) →
  outcome_ok K L (CallIngressActive id lt host url) d d' r.
Proof using Hrows Hdist Hknown.
  intros Hg H. eapply oc_leased; [exact H|exact Hg|done|].
  intros j g Hj (Hs & Hhost & Hh) Hrow Ht Hlive Hid Hcur Hok Hq.
  destruct (current_open _ _ Hcur) as (E1 & E2 & _ & E4 & _); [by rewrite Hs|]. rewrite Hs in E1.
  destruct Hok as [H1 H2 H3 H4 H5 H6 H7 H8 H9].
  split; [|split].
  - apply change_release; auto.
  - split; simpl; auto; try done.
    + intros _. destruct H4 as (tg & port & Hgr & T & R & _); [rewrite E1; simpl; lia|]. exists tg, port.
      split; [done|]. destruct Hgr as (G1 & G2 & _). rewrite G1 in E2. rewrite G2 in E4. simpl in *. subst.
      split; [intros _; apply T; rewrite E1; simpl; lia|].
      split; [intros _; apply R; rewrite E1; simpl; lia|]. intros _. split; [done|]. simpl. by rewrite H1.
    + by intros [?|?].
  - apply not_unstarted; [done|by rewrite E1].
Qed.

Lemma ok_decommissioned id lt r :
  guard K L (CallDecommissioned id lt) → MarkGatewayDecommissioned id lt d = (d', r) →
  outcome_ok K L (CallDecommissioned id lt) d d' r.
Proof using Hrows Hdist Hknown.
  intros Hg [[Hc Hs] [[Ht _]|(g & Hrow & Hcond & _ & Ht)]]%guarded_spec; [apply oc_same; auto; lia|].
  apply andb_true_iff in Hcond as [Hheld Hst%bool_decide_eq_true].
  apply andb_true_iff in Hheld as [Htok%bool_decide_eq_true Hlive].
  destruct (Hrows _ _ Hrow) as [H1 H2 H3 H4 H5 H6 H7 H8 H9].
  eapply (oc_change K L _ d d' _ Hrows Hdist Hknown id g); [done|done|done|..]; auto.
  - split; [by left|done|]. intros Hl. by apply bool_decide_eq_true in Hl.
  - split; simpl; auto; try done; try lia.
    intros Hl. simpl in Hl. lia.
  - left. intros _. split; [|done]. by right; right; left.
Qed.

Lemma ok_reserve id lt lo hi r :
  guard K L (CallReservePriority id lt lo hi) → ReserveGatewayListenerRulePriority id lt lo hi d = (d', r) →
  outcome_ok K L (CallReservePriority id lt lo hi) d d' r.
Proof using Hrows Hdist Hknown.
  intros (j & Hj & -> & -> & Hs & -> & ->) H. apply reserve_spec in H as [[Hc Hsu] H].
  destruct H as [[Ht Hr]|(g & prio & -> & Hg & Htok & Hlive & Hdef & Hlo & Hhi & Hal & Ht)].
  - apply oc_same; auto; [lia| |destruct r; by left].
    destruct r as [prio|e]; [right|by left]. rewrite Ht. simpl.
    destruct (Hr prio eq_refl) as (g & Hg & Htok & Hp). destruct Hknown as [K1 K2 K3]. split; simpl.
    + intros j' Hj'. destruct (K1 j' Hj') as [? ?]. split; [lia|done].
    + intros j' prio' Hj' [= <-] i a Ha Hta. rewrite Hj in Hj'. injection Hj' as <-.
      assert (i = JobExternalID j) as -> by (eapply (di_token _ Hdist); eauto). congruence.
    + done.
  - destruct (allocate_spec _ _ _ _ Hal) as (Hin & Hfree & _). pose proof (Hrows _ _ Hg) as Hok.
    destruct (kn_job _ _ _ Hknown j Hj) as [_ Hcur]. destruct (Hcur _ _ Hg Htok) as [_ Hcurg].
    destruct (current_open _ _ Hcurg) as (E1 & _); [by rewrite Hs|]. rewrite Hs in E1.
    destruct Hok as [H1 H2 H3 H4 H5 H6 H7 H8 H9].
    assert (Hnone : rule_priority g = None).
    { destruct (rule_priority g) as [x|] eqn:E; [|done]. destruct (H8 x eq_refl) as [_ ?]. simpl in Hdef. lia. }
    eapply (oc_change K L _ d d' _ Hrows Hdist Hknown (JobExternalID j) g); [done|done|done|..]; auto.
    + split; [right|done|].
      * split; [done|]. split; [by left|]. by rewrite Hnone.
      * intros _. right. right. exists prio. done.
    + split; simpl; auto.
      * intros Hl. destruct (H4 Hl) as (tg & port & Hgr & T & R & C). exists tg, port.
        split; [done|]. split; [done|]. simpl in *. rewrite E1. split; simpl; intros; lia.
      * rewrite E1. by intros [?|?].
      * intros q [= <-]. split; [done|lia].
      * rewrite E1. done.
    + left. apply not_unstarted; [by rewrite E1|by rewrite E1].
    + right. exists j, prio. done.
Qed.
End leased_calls.

(** *** The updates without a lease *)

(** What a statement on one row may have done. *)
Definition may_update (id : string) (cond : row → bool) (f : Z → row → row)
    (d d' : store (gmap string row)) (ok : bool) : Prop :=
  frame d d' ∧ (tables d' = tables d ∨
    ∃ g, tables d !! id = Some g ∧ cond g = true ∧ ok = true ∧ tables d' = <[id := f (clock d) g]> (tables d)).

Lemma update_or_not_found id cond f d d' r :
  (let* o := update_row id cond f in or_not_found o (λ _, ()))%store d = (d', r) →
  may_update id cond f d d' (is_ok r).
Proof.
  intros [Hfr [[? _]|(g & ? & ? & ? & ?)]]%guarded_spec; (split; [done|]); [by left|right].
  by exists g.
Qed.

Lemma queue_deprovisioning_spec id t d d' r :
  QueueGatewayDeprovisioning id t d = (d', r) →
  may_update id (λ g, live g && negb (bool_decide (Status g = Decommissioned)))
    (queue_deprovisioning (if (t <? 0)%Z then 0%Z else t)) d d' (is_ok r).
Proof.
  unfold QueueGatewayDeprovisioning.
  intros [(d1 & o & Hu & H)|(e & Hu & _)]%mbind_spec; apply store_update_spec in Hu as [Hfr Hu].
  2: { split; [done|]. left. apply Hu. }
  destruct o as [g|]; [unfold mret in H; simplify_eq; split; [done|]|].
  { right. destruct Hu as (x & ? & ? & -> & ?). by exists x. }
  apply mbind_spec in H as [(d2 & o2 & H2 & H)|(e & H2 & _)]; apply store_select_spec in H2 as (F2 & T2 & _).
  - assert (d' = d2) as ->.
    { destruct o2 as [g|]; [destruct (bool_decide _)|]; unfold mret, mfail in H; by simplify_eq. }
    split; [by etrans|]. left. destruct Hu. congruence.
  - split; [by etrans|]. left. destruct Hu. congruence.
Qed.

Section plain_calls.
Context {X : Type} (K : know) (L : list event) (d d' : store (gmap string row)).
Context (Hrows : ∀ id g, tables d !! id = Some g → row_ok (supply d) L id g).
Context (Hdist : distinct (tables d)) (Hknown : known (supply d) (tables d) K).

Lemma oc_plain (c : GatewayProvisioningRepository X) id cond f r :
  may_update id cond f d d' (is_ok r) → (∀ r, learn c r K = K) →
  (∀ g, tables d !! id = Some g → cond g = true → row_ok (supply d) L id g →
     change (tables d) g (f (clock d) g) ∧ row_ok (supply d) L id (f (clock d) g) ∧
     (unstarted g → unstarted (f (clock d) g))) →
  outcome_ok K L c d d' r.
Proof using Hrows Hdist Hknown.
  intros [[Hc Hs] Hm] Hlearn Hf. destruct Hm as [Ht|(g & Hg & Hcond & _ & Ht)].
  { apply (oc_same K L c d d' r Hrows Hdist Hknown Ht); [lia|left; apply Hlearn|left; by rewrite Hlearn]. }
  destruct (Hf g Hg Hcond (Hrows _ _ Hg)) as (Hch & Hok & Hun).
  eapply (oc_change K L c d d' r Hrows Hdist Hknown _ g); [exact Hg|exact Ht|done|exact Hch|exact Hok|by left|..];
    rewrite Hlearn; auto.
Qed.

(** A row whose queue entry and resources stay. *)
Lemma change_outside m g g' :
  lease g' = lease g → queue g' = queue g → ingress g' = ingress g →
  HostPort (endpoint g') = HostPort (endpoint g) → (live g' = true → live g = true) → change m g g'.
Proof using.
  intros El Eq Ei Eh Hlive. split; [|done|rewrite Ei; auto]. right. rewrite El, Eq, Ei. auto 10.
Qed.

Lemma live_open id g : row_ok (supply d) L id g → live g = true → istate g ≠ Deprovisioned.
Proof using.
  intros Hok Hl%bool_decide_eq_true E. destruct (ro_gone _ _ _ _ _ Hok E) as [[x Hx] _]. congruence.
Qed.

End plain_calls.

Section plain_calls_2.
Context (K : know) (L : list event) (d d' : store (gmap string row)).
Context (Hrows : ∀ id g, tables d !! id = Some g → row_ok (supply d) L id g).
Context (Hdist : distinct (tables d)) (Hknown : known (supply d) (tables d) K).

Lemma ok_update_status id s r :
  guard K L (CallUpdateStatus id s) → UpdateStatus id s d = (d', r) →
  outcome_ok K L (CallUpdateStatus id s) d d' r.
Proof using Hrows Hdist Hknown.
  intros Hs H%update_or_not_found. eapply (oc_plain K L d d' Hrows Hdist Hknown); [exact H|done|].
  intros g Hg Hl Hok. pose proof (live_open _ _ _ _ Hok Hl) as Hopen.
  split; [by apply change_outside|]. split; [|done]. by destruct Hok; split.
Qed.

Lemma ok_decommission id r :
  Decommission id d = (d', r) → outcome_ok K L (CallDecommission id) d d' r.
Proof using Hrows Hdist Hknown.
  intros H%update_or_not_found. eapply (oc_plain K L d d' Hrows Hdist Hknown); [exact H|done|].
  intros g Hg Hl Hok. pose proof (live_open _ _ _ _ Hok Hl) as Hopen.
  split; [by apply change_outside|]. split; [|done]. by destruct Hok; split.
Qed.

Lemma ok_queue_deprovisioning id t r :
  QueueGatewayDeprovisioning id t d = (d', r) → outcome_ok K L (CallQueueDeprovisioning id t) d d' r.
Proof using Hrows Hdist Hknown.
  intros H%queue_deprovisioning_spec. eapply (oc_plain K L d d' Hrows Hdist Hknown); [exact H|done|].
  intros g Hg [Hl _]%andb_true_iff Hok. split; [by split; auto|].
  destruct Hok as [H1 H2 H3 H4 H5 H6 H7 H8 H9]. split.
  - split; simpl; auto; try done.
    + intros Hlev. simpl in Hlev. lia.
    + by intros [?|?].
    + unfold maxRetries in *. destruct (bool_decide _); [done|lia].
  - intros [_ Hi]. split; [|done]. by right; left.
Qed.

(** The caller started the container, so nothing of the row is in use. *)
Lemma ok_container_ready id ip port host pport r :
  guard K L (CallContainerReady id ip port host pport) → MarkContainerReady id ip port host pport d = (d', r) →
  outcome_ok K L (CallContainerReady id ip port host pport) d d' r.
Proof using Hrows Hdist Hknown.
  intros Hp H. simpl in Hp.
  assert (Hless : known (supply d) (tables d) (mkKnow (kjob K) (kprio K) None)).
  { destruct Hknown as [H1 H2 H3]. by split. }
  assert (Hsame : tables d' = tables d → supply d' = supply d →
    outcome_ok K L (CallContainerReady id ip port host pport) d d' r).
  { intros Ht Hs. apply oc_same; auto; [lia|]. right. by rewrite Ht, Hs. }
  revert H. unfold MarkContainerReady.
  destruct (Atoi pport) as [hp|]; [|unfold mfail; intros; simplify_eq; auto].
  destruct (negb (valid_port hp)); [unfold mfail; intros; simplify_eq; auto|].
  intros [[Hc Hs] [Ht|(g & Hg & Hl & _ & Ht)]]%update_or_not_found; [auto|].
  destruct (kn_pending _ _ _ Hknown id Hp) as (g0 & Hg0 & Hun & Hi). simplify_eq.
  pose proof (Hrows _ _ Hg) as Hok. pose proof (live_open _ _ _ _ Hok Hl) as Hopen.
  destruct Hok as [H1 H2 H3 H4 H5 H6 H7 H8 H9].
  eapply (oc_change K L _ d d' _ Hrows Hdist Hknown id g); [done|done|done|..]; auto.
  - split; [|done|by left]. destruct H2 as [E|(at_ & who & lt & E & _)]; [by left|right].
    split; [done|]. split; [right|done]. split; [|done].
    assert (lease g ≠ no_lease) as Hq%H3 by by rewrite E. destruct Hun as [Es|[Es|[Es|Es]]]; by rewrite Es in *.
  - split; simpl; auto; try done; intros Hlev; simpl in Hlev; lia.
Qed.

(** *** A new gateway *)

Lemma ok_provision id pid plan r :
  guard K L (CallProvision id pid plan) → Provision id pid plan d = (d', r) →
  outcome_ok K L (CallProvision id pid plan) d d' r.
Proof using Hrows Hdist Hknown.
  intros [Hj Hp]. unfold Provision.
  intros [(d1 & ok & Hq & H)|(e & Hq & ->)]%mbind_spec; apply store_query_spec in Hq as [[Hc Hs] Hq].
  2: { destruct Hq as [[_ Ht]|(? & _ & ?)]; [|done]. apply oc_same; auto; lia. }
  destruct Hq as [[? _]|(b & Hq & [= ->])]; [done|].
  destruct (tables d !! id) as [g0|] eqn:Hid.
  { simplify_eq. unfold mfail in H. simplify_eq. apply oc_same; auto; lia. }
  unfold mret in H. simplify_eq. set (g := mkRow _ _ _ _ _ _ _ _ _ _ _ _ _) in *.
  assert (Hin : ∀ i a, tables d' !! i = Some a → (i = id ∧ a = g) ∨ (i ≠ id ∧ tables d !! i = Some a)).
  { intros i a. rewrite <-H0. intros [[<- <-]|[? ?]]%lookup_insert_Some; auto. }
  assert (Hothers : ∀ K', known (supply d) (tables d) K' → known (supply d') (tables d') K').
  { intros K' [K1 K2 K3]. rewrite Hs. split.
    - intros j' Hj'. destruct (K1 j' Hj') as [? Hcur]. split; [done|].
      intros i a [[-> ->]|[_ Ha]]%Hin Ht; [done|eauto].
    - intros j' prio Hj' Hk i a [[-> ->]|[_ Ha]]%Hin Ht; [done|eauto].
    - intros x Hx. destruct (K3 x Hx) as (a & Ha & Hu). exists a. split; [|done].
      rewrite <-H0, lookup_insert_ne; [done|]. intros ->. congruence. }
  split.
  - lia.
  - intros i a [[-> ->]|[_ Ha]]%Hin; rewrite Hs; [|auto]. split; simpl; auto; try done.
    all: intros Hlev; simpl in Hlev; lia.
  - destruct Hdist as [D1 D2]. split.
    + intros i j a b lt [[-> ->]|[_ Ha]]%Hin [[-> ->]|[_ Hb]]%Hin; try done. eauto.
    + intros i j a b prio [[-> ->]|[_ Ha]]%Hin [[-> ->]|[_ Hb]]%Hin; try done. eauto.
  - destruct (Hothers K Hknown) as [K1 K2 K3]. split; simpl; [done|done|].
    intros x [= <-]. exists g. rewrite <-H0, lookup_insert_eq. split; [done|]. split; [by left|done].
  - auto.
  - intros x [= <-]. by right.
Qed.

(** *** The claim *)

Lemma claim_min_in l best g :
  foldl claim_min best l = Some g → best = Some g ∨ g ∈ l.
Proof using.
  revert best. induction l as [|x l IH]; intros best; simpl; [auto|].
  intros [H|H]%IH; [|by right; right]. destruct best as [b|]; simpl in H.
  - destruct (claim_before b x); [by left|]. right. injection H as ->. by left.
  - right. injection H as ->. by left.
Qed.

Lemma next_gateway_job_spec now before m g :
  next_job now before m = Some g → claimable now before g = true ∧ ∃ id, m !! id = Some g.
Proof using.
  intros [?|[Hc Hin]%list_elem_of_filter]%claim_min_in; [done|]. split; [done|].
  apply list_elem_of_fmap in Hin as ([id x] & -> & Hx%elem_of_map_to_list). by exists id.
Qed.

Lemma ok_claim app_now w t r :
  guard K L (CallClaim w t) → ClaimNextGatewayIngressJob app_now w t d = (d', r) →
  outcome_ok K L (CallClaim w t) d d' r.
Proof using Hrows Hdist Hknown.
  intros [HKj HKp]. unfold ClaimNextGatewayIngressJob, fresh, mbind at 1. cbv zeta.
  set (d0 := mkStore (tables d) (clock d) (S (supply d)) (faults d)).
  intros [[Hc Hs] [[-> Ht]|(a & Hq & ->)]]%store_query_spec.
  { apply oc_same; auto. simpl in *. lia. }
  simpl in Hq, Hs. destruct (next_job _ _ (tables d)) as [g|] eqn:Hn.
  2: { injection Hq as Ht <-. apply oc_same; auto. simpl in *. lia. }
  apply next_gateway_job_spec in Hn as [Hcl [id Hg]]. injection Hq as Ht <-.
  apply andb_true_iff in Hcl as [Hcl _]. apply andb_true_iff in Hcl as [Hcl _].
  apply andb_true_iff in Hcl as [Hlive Hq].
  pose proof (Hrows _ _ Hg) as Hok. pose proof (ro_id _ _ _ _ _ Hok) as Hid. rewrite Hid in Ht.
  set (g' := set_lease _ _ _) in *.
  assert (Hin : ∀ i a, tables d' !! i = Some a → (i = id ∧ a = g') ∨ (i ≠ id ∧ tables d !! i = Some a)).
  { intros i a. rewrite <-Ht. intros [[<- <-]|[? ?]]%lookup_insert_Some; auto. }
  assert (Hold : ∀ i a lt, tables d !! i = Some a → token a = Some lt → lt < supply d).
  { intros i a lt Ha Hlt. destruct (ro_lease _ _ _ _ _ (Hrows _ _ Ha)) as [E|(? & ? & ? & E & ?)];
      rewrite E in Hlt; simpl in Hlt; by simplify_eq. }
  assert (Hothers : ∀ K', known (supply d) (tables d) K' → known (supply d') (tables d') K').
  { intros K' [K1 K2 K3]. rewrite Hs. split.
    - intros j' Hj'. destruct (K1 j' Hj') as [? Hcur]. split; [lia|].
      intros i a [[-> ->]|[_ Ha]]%Hin Hta; [|eauto]. simpl in Hta. injection Hta as Hta. lia.
    - intros j' prio Hj' Hk i a [[-> ->]|[_ Ha]]%Hin Hta; [|eauto].
      simpl in Hta. injection Hta as Hta. destruct (K1 j' Hj'). lia.
    - intros x Hx. destruct (K3 x Hx) as (a & Ha & Hu). destruct (decide (x = id)) as [->|Hne].
      + exists g'. rewrite <-Ht, lookup_insert_eq. split; [done|]. by simplify_eq.
      + exists a. by rewrite <-Ht, lookup_insert_ne. }
  split.
  - lia.
  - intros i a [[-> ->]|[_ Ha]]%Hin.
    + destruct Hok as [H1 H2 H3 H4 H5 H6 H7 H8 H9]. split; auto. right. rewrite Hs. simpl. eauto 10.
    + eapply gateway_row_mono; [|done|by apply Hrows]. lia.
  - destruct Hdist as [D1 D2]. split.
    + intros i j a b lt [[-> ->]|[_ Ha]]%Hin [[-> ->]|[_ Hb]]%Hin Ta Tb; [done| | |by eauto].
      * simpl in Ta. injection Ta as <-. apply (Hold _ _ _ Hb) in Tb. lia.
      * simpl in Tb. injection Tb as <-. apply (Hold _ _ _ Ha) in Ta. lia.
    + intros i j a b prio [[-> ->]|[_ Ha]]%Hin [[-> ->]|[_ Hb]]%Hin La Lb Pa Pb; [done|eapply D2; eauto..].
  - destruct (Hothers K Hknown) as [_ _ K3]. split; simpl; [|done|done].
    intros j [= <-]. split; [simpl; lia|]. intros i a [[-> ->]|[_ Ha]]%Hin Hta.
    + split; [done|]. by left.
    + apply (Hold _ _ _ Ha) in Hta. simpl in Hta. lia.
  - auto.
  - intros x Hx. by left.
Qed.

Lemma ok_status tenant id r :
  GetGatewayStatus tenant id d = (d', r) → outcome_ok K L (CallGetStatus tenant id) d d' r.
Proof using Hrows Hdist Hknown.
  unfold GetGatewayStatus.
  intros [(d1 & o & Hu & H)|(e & Hu & ->)]%mbind_spec; apply store_select_spec in Hu as ([Hc Hs] & Ht & _).
  - assert (d' = d1) as -> by (destruct o; unfold or_not_found, mret, mfail in H; by simplify_eq).
    apply oc_same; auto. lia.
  - apply oc_same; auto. lia.
Qed.

Lemma ok_list_stale t r :
  ListStaleDraining t d = (d', r) → outcome_ok K L (CallListStaleDraining t) d d' r.
Proof using Hrows Hdist Hknown.
  intros [[Hc Hs] H]%store_query_spec. apply oc_same; auto; [|lia].
  destruct H as [[_ ?]|(a & H & _)]; [done|by injection H].
Qed.

End plain_calls_2.

(** Every call of a disciplined program. *)
Lemma repo_call_ok {X} K L (c : GatewayProvisioningRepository X) app_now d d' r :
  (∀ id g, tables d !! id = Some g → row_ok (supply d) L id g) → distinct (tables d) →
  known (supply d) (tables d) K → guard K L c → repo_call app_now c d = (d', r) →
  outcome_ok K L c d d' r.
Proof.
  intros Hrows Hdist Hknown Hg H. destruct c; simpl in H.
  - by eapply ok_claim.
  - by apply ok_group.
  - by apply ok_registered.
  - by apply ok_reserve.
  - by apply ok_rule.
  - by apply ok_poll.
  - by apply ok_active.
  - by apply ok_retry.
  - by apply ok_failed.
  - by apply ok_decommissioned.
  - by apply ok_provision.
  - by apply ok_container_ready.
  - by apply ok_update_status.
  - by apply ok_status.
  - by apply ok_queue_deprovisioning.
  - by apply ok_list_stale.
  - by apply ok_decommission.
Qed.

(** ** Stages *)

(** How far a row is and how often it has been retried. *)
Definition stage (g : row) : IngressStatus * Z := (istate g, RetryCount (queue g)).

(** A worker's update that takes the row to another stage. *)
Definition moves {X} (c : GatewayProvisioningRepository X) (g : row)
  : option (string * nat * (IngressStatus * Z)) :=
  let n := RetryCount (queue g) in
  match c with
  | CallTargetGroupCreated id lt _ => Some (id, lt, (RegisteringTarget, n))
  | CallTargetRegistered id lt => Some (id, lt, (CreatingListenerRule, n))
  | CallListenerRuleCreated id lt _ _ => Some (id, lt, (WaitingForTargetHealth, n))
  | CallIngressActive id lt _ _ => Some (id, lt, (Completed, n))
  | CallScheduleRetry id lt _ _ => Some (id, lt, (istate g, (n + 1)%Z))
  | CallIngressFailed id lt _ => Some (id, lt, (IngressFailed, n))
  | CallDecommissioned id lt => Some (id, lt, (Deprovisioned, n))
  | _ => None
  end.

(** A request that starts or restarts the work on a gateway. *)
Definition requests {X} (c : GatewayProvisioningRepository X) (id : string) : bool :=
  match c with
  | CallProvision i _ _ | CallContainerReady i _ _ _ _ | CallQueueDeprovisioning i _ => String.eqb i id
  | _ => false
  end.

(** What [MarkGatewayDecommissioned] asks of the row besides the lease. *)
Definition admits {X} (c : GatewayProvisioningRepository X) (g : row) : Prop :=
  match c with CallDecommissioned _ _ => istate g = Deprovisioning | _ => True end.

Definition restarted (g : row) : Prop :=
  istate g = NotStarted ∨ istate g = ContainerReady ∨ istate g = Deprovisioning.

Definition moved {X} (c : GatewayProvisioningRepository X) (d : store (gmap string row)) (g' : row)
    (id : string) : Prop :=
  ∃ g lt, tables d !! id = Some g ∧ token g = Some lt ∧ live g = true ∧
    moves c g = Some (id, lt, stage g') ∧ admits c g.

(** A row keeps its stage, or the caller requested it anew, or moved it. *)
Definition stages {X} (c : GatewayProvisioningRepository X) (d d' : store (gmap string row))
    (r : result error X) : Prop :=
  (∀ id g, tables d !! id = Some g → is_Some (tables d' !! id)) ∧
  (∀ id g', tables d' !! id = Some g' →
    (∃ g, tables d !! id = Some g ∧ stage g' = stage g ∧
       (is_ok r = true → ∀ lt s, moves c g ≠ Some (id, lt, s))) ∨
    (is_ok r = true ∧ requests c id = true ∧ restarted g') ∨
    (is_ok r = true ∧ moved c d g' id)) ∧
  (is_ok r = true → ∀ id g lt s, moves c g = Some (id, lt, s) → is_Some (tables d' !! id)).

Section stages.
Context {X : Type} (c : GatewayProvisioningRepository X) (d d' : store (gmap string row)) (r : result error X).

Lemma stages_same :
  tables d' = tables d → (is_ok r = true → ∀ id g lt s, moves c g ≠ Some (id, lt, s)) → stages c d d' r.
Proof using.
  intros Ht Hno. unfold stages; rewrite Ht. split; [eauto|]. split; [|intros; exfalso; eapply Hno; eauto].
  intros id g Hg. left. exists g. eauto.
Qed.

Lemma stages_update id f :
  (∃ g, tables d !! id = Some g ∧ is_ok r = true ∧ tables d' = <[id := f g]> (tables d) ∧
     (stage (f g) = stage g ∨ requests c id = true ∧ restarted (f g))) →
  (∀ g, moves c g = None) → stages c d d' r.
Proof using.
  intros (g & Hg & Hr & Ht & Hst) Hno. unfold stages; rewrite Ht. split; [|split; [|intros ???? E; by rewrite Hno]].
  - intros i a Ha. destruct (decide (i = id)) as [->|Hne]; [rewrite lookup_insert_eq|rewrite lookup_insert_ne]; eauto.
  - intros i g' [[<- <-]|[_ Ha]]%lookup_insert_Some.
    + destruct Hst as [Hst|[Hq Hre]]; [left|by right; left]. exists g. split_and!; [done..|]. intros _ lt s. by rewrite Hno.
    + left. exists g'. split_and!; [done..|]. intros _ lt s. by rewrite Hno.
Qed.

Lemma stages_move id lt f cond :
  (tables d' = tables d ∧ is_ok r = false ∨
   ∃ g, tables d !! id = Some g ∧ cond g = true ∧ is_ok r = true ∧ tables d' = <[id := f (clock d) g]> (tables d)) →
  (∀ g, cond g = true → token g = Some lt ∧ live g = true ∧ admits c g) →
  (∀ g now, moves c g = Some (id, lt, stage (f now g))) → stages c d d' r.
Proof using.
  intros [[Ht Hr]|(g & Hg & Hc & Hr & Ht)] Hcond Hm; [apply stages_same; [done|congruence]|].
  unfold stages; rewrite Ht.
  split; [|split; [|intros _ i g0 lt' s E; rewrite (Hm g0 0%Z) in E; simplify_eq; by rewrite lookup_insert_eq]].
  - intros i a Ha. destruct (decide (i = id)) as [->|Hne]; [rewrite lookup_insert_eq|rewrite lookup_insert_ne]; eauto.
  - intros i g' [[<- <-]|[Hne Ha]]%lookup_insert_Some.
    + right. right. split; [done|]. exists g, lt. destruct (Hcond g Hc) as (? & ? & ?). split_and!; eauto.
    + left. exists g'. split_and!; [done..|]. intros _ lt' s. rewrite (Hm g' 0%Z). congruence.
Qed.

End stages.

Lemma lease_held_spec lt g : held lt g = true → token g = Some lt ∧ live g = true.
Proof. unfold held. by intros [?%bool_decide_eq_true ?]%andb_true_iff. Qed.

Lemma stages_leased (c : GatewayProvisioningRepository unit) id lt f d d' r :
  leased id lt f d = (d', r) → (∀ g, admits c g) →
  (∀ g now, moves c g = Some (id, lt, stage (f now g))) → stages c d d' r.
Proof.
  intros [_ H]%guarded_spec Ha Hm. eapply (stages_move _ _ _ _ id lt f); [exact H| |done].
  intros g Hg%lease_held_spec. naive_solver.
Qed.

Lemma stages_may {X} (c : GatewayProvisioningRepository X) id cond f d d' r :
  may_update id cond f d d' (is_ok r) → (∀ g, moves c g = None) →
  (∀ g now, stage (f now g) = stage g) ∨ requests c id = true ∧ (∀ g now, restarted (f now g)) → stages c d d' r.
Proof.
  intros [_ [Ht|(g & Hg & Hc & Hr & Ht)]] Hm Hf; [apply stages_same; [done|intros; by rewrite Hm]|].
  eapply (stages_update _ _ _ _ id (f (clock d))); [|done]. exists g. split_and!; [done..|]. naive_solver.
Qed.

(** The effect of every call on the stages. *)
Lemma repo_call_stages {X} (c : GatewayProvisioningRepository X) app_now d d' r :
  (∀ id g, tables d !! id = Some g → ExternalID g = id) →
  repo_call app_now c d = (d', r) → stages c d d' r.
Proof.
  intros Hids H. destruct c; simpl in H; try by (eapply stages_leased; [exact H|done|done]).
  - revert H. unfold ClaimNextGatewayIngressJob, fresh, mbind at 1. cbv zeta.
    set (d0 := mkStore (tables d) (clock d) (S (supply d)) (faults d)).
    intros [[Hc Hs] [[-> Ht]|(a & Hq & ->)]]%store_query_spec; [by apply stages_same|].
    simpl in Hq. destruct (next_job _ _ (tables d)) as [g|] eqn:Hn; [|apply stages_same; [congruence|done]].
    apply next_gateway_job_spec in Hn as [_ [id Hg]]. injection Hq as Ht _. rewrite (Hids _ _ Hg) in Ht.
    eapply (stages_update _ _ _ _ id (λ g, set_lease _ _ g)); [|done]. exists g. split_and!; [done..|by left].
  - apply reserve_spec in H as [_ [[Ht _]|(g & prio & -> & Hg & _ & _ & _ & _ & _ & _ & Ht)]];
      [by apply stages_same|].
    eapply (stages_update _ _ _ _ externalID (reserved prio (clock d))); [|done].
    exists g. split_and!; [done..|by left].
  - apply leased_spec in H as [_ [[Ht Hr]|(g & Hg & _ & _ & Hr & Ht)]]; [by apply stages_same|].
    eapply (stages_update _ _ _ _ externalID (λ g, set_lease (clock d) no_lease
      (set_queue (mkQueue (istate g) (ProvisioningError (queue g)) (RetryCount (queue g)) (Some next)) g))); [|done].
    exists g. split_and!; [done..|by left].
  - apply guarded_spec in H as [_ H]. eapply (stages_move _ _ _ _ externalID lt decommissioned_row); [exact H| |done].
    intros g [Hh%lease_held_spec Hs%bool_decide_eq_true]%andb_true_iff. naive_solver.
  - revert H. unfold Provision. intros [(d1 & ok & Hq & H)|(e & Hq & ->)]%mbind_spec; apply store_query_spec in Hq as [_ Hq].
    2: { destruct Hq as [[_ Ht]|(? & _ & ?)]; [|done]. by apply stages_same. }
    destruct Hq as [[? _]|(b & Hq & [= ->])]; [done|].
    destruct (tables d !! externalID) as [g0|] eqn:Hid; simplify_eq; unfold mfail, mret in H; simplify_eq.
    { by apply stages_same. }
    unfold stages; rewrite <-H0. split; [|split; [|done]].
    + intros i a Ha. rewrite lookup_insert_ne; [eauto|]. intros ->. congruence.
    + intros i g' [[<- <-]|[_ Ha]]%lookup_insert_Some; [right; left|left; eauto].
      split; [done|]. split; [apply String.eqb_refl|by left].
  - revert H. unfold MarkContainerReady.
    destruct (Atoi publicPort); [|unfold mfail; intros; simplify_eq; by apply stages_same].
    destruct (negb _); [unfold mfail; intros; simplify_eq; by apply stages_same|].
    intros H%update_or_not_found. eapply stages_may; [exact H|done|]. right. split; [apply String.eqb_refl|]. by right; left.
  - apply update_or_not_found in H. eapply stages_may; [exact H|done|by left].
  - revert H. unfold GetGatewayStatus. intros H. apply stages_same; [|done].
    apply mbind_spec in H as [(d1 & o & Hu & H)|(e & Hu & ->)]; apply store_select_spec in Hu as (_ & Ht & _); [|done].
    by destruct o; unfold or_not_found, mret, mfail in H; simplify_eq.
  - apply queue_deprovisioning_spec in H. eapply stages_may; [exact H|done|]. right. split; [apply String.eqb_refl|]. by right; right.
  - apply stages_same; [|done]. apply store_query_spec in H as [_ [[_ ?]|(a & H & _)]]; [done|by injection H].
  - apply update_or_not_found in H. eapply stages_may; [exact H|done|by left].
Qed.

End calls.
End GatewayCalls.
