(* ===== verification/GatewayGuarantees.v ===== *)
(** * What the system of dedicated gateways guarantees

    The invariant of [GatewayLifecycle]'s system, and the properties of every
    execution that follow from it. *)

From stdpp Require Import gmap.
From S2P Require Import Prelude GoStrings Store GatewayRepo GatewayProvisioner GatewayLifecycle GatewayCalls.

Module GatewayGuarantees.
Import GatewayRepo GatewayProvisioner GatewayLifecycle GatewayCalls.

Section guarantees.
Context (p : GatewayProvisioner) (driver_text : string).
#[local] Abbreviation row_ok := (GatewayLifecycle.row_ok p).
#[local] Abbreviation step := (GatewayLifecycle.step p driver_text).
#[local] Abbreviation history := (GatewayLifecycle.history p driver_text).
#[local] Abbreviation reachable := (GatewayLifecycle.reachable p driver_text).

(** ** The invariant *)

Definition informed (d : store (gmap string row)) (L : list event) (x : task) : Prop :=
  task_ok p L x ∧ known (supply d) (tables d) (knowledge x).

(** No gateway is awaited by two programs. *)
Definition lonely (ts : list task) : Prop :=
  ∀ i j x y id, ts !! i = Some x → ts !! j = Some y →
    kpending (knowledge x) = Some id → kpending (knowledge y) = Some id → i = j.

Record inv (s : sys) : Prop := {
  inv_rows : ∀ id g, rows s !! id = Some g → row_ok (supply (db s)) (log s) id g;
  inv_distinct : distinct (rows s);
  inv_tasks : Forall (informed (db s) (log s)) (tasks s);
  inv_lonely : lonely (tasks s);
}.

Lemma lonely_replace l1 x y l2 :
  (∀ id, kpending (knowledge y) = Some id →
     kpending (knowledge x) = Some id ∨ ∀ z, z ∈ l1 ++ l2 → kpending (knowledge z) ≠ Some id) →
  lonely (l1 ++ x :: l2) → lonely (l1 ++ y :: l2).
Proof.
  intros Hy Hl.
  assert (Hat : ∀ (z : task) i u, (l1 ++ z :: l2) !! i = Some u → i = length l1 ∧ u = z ∨
    i ≠ length l1 ∧ u ∈ l1 ++ l2 ∧ ∀ z' : task, (l1 ++ z' :: l2) !! i = Some u).
  { intros z i u Hi. apply lookup_app_Some in Hi as [Hi|[Hle Hi]].
    - right. pose proof (lookup_lt_Some _ _ _ Hi). split; [lia|]. split.
      + apply elem_of_app. left. by eapply list_elem_of_lookup_2.
      + intros z'. by apply lookup_app_l_Some.
    - apply lookup_cons_Some in Hi as [[Hi ->]|[Hpos Hi]]; [left; split; [lia|done]|right].
      split; [lia|]. split.
      + apply elem_of_app. right. by eapply list_elem_of_lookup_2.
      + intros z'. rewrite lookup_app_r by lia. apply lookup_cons_Some. right. by split. }
  intros i j a b id Hi Hj Ha Hb.
  destruct (Hat y i a Hi) as [[-> ->]|(Hni & Hina & Hia)]; destruct (Hat y j b Hj) as [[-> ->]|(Hnj & Hinb & Hjb)];
    [done| | |by eapply Hl].
  - destruct (Hy id Ha) as [Hx|Hno]; [|by destruct (Hno _ Hinb)].
    eapply Hl; [|apply Hjb|exact Hx|exact Hb]. by apply list_lookup_middle.
  - destruct (Hy id Hb) as [Hx|Hno]; [|by destruct (Hno _ Hina)].
    eapply Hl; [apply Hia| |exact Ha|exact Hx]. by apply list_lookup_middle.
Qed.

Lemma lonely_here l1 x l2 id z :
  lonely (l1 ++ x :: l2) → kpending (knowledge x) = Some id → z ∈ l1 ++ l2 →
  kpending (knowledge z) ≠ Some id.
Proof.
  intros Hl Hx Hz Hp. apply elem_of_app in Hz as [[i Hi]%list_elem_of_lookup|[i Hi]%list_elem_of_lookup].
  - assert (i = length l1) as ->.
    { eapply Hl; [by apply lookup_app_l_Some|by apply list_lookup_middle|done..]. }
    apply lookup_lt_Some in Hi. lia.
  - assert (length l1 + S i = length l1) as H.
    { eapply Hl; [|by apply list_lookup_middle|done..]. rewrite lookup_app_r by lia.
      by replace (length l1 + S i - length l1) with (S i) by lia. }
    lia.
Qed.

Lemma informed_same d d' L L' x :
  tables d' = tables d → supply d' = supply d → L ⊆ L' → informed d L x → informed d' L' x.
Proof. unfold informed. intros -> -> HL [Ht Hk]. split; [by eapply gateway_task_mono|done]. Qed.

Lemma rows_logged n L L' (m : gmap string row) :
  L ⊆ L' → (∀ id g, m !! id = Some g → row_ok n L id g) → ∀ id g, m !! id = Some g → row_ok n L' id g.
Proof. intros HL H id g Hg. eapply gateway_row_mono; [|exact HL|by apply H]. lia. Qed.

Lemma inv_repo {A X} d L l1 K (c : GatewayProvisioningRepository X) (k : result error X → prog A) l2 app_now d' r :
  repo_call app_now c d = (d', r) → inv (mkSys d L (l1 ++ Task K (Repo c k) :: l2)) →
  inv (mkSys d' L (l1 ++ Task (learn c r K) (k r) :: l2)).
Proof.
  intros Hc [Hrows Hdist Htasks Hlone]. simpl in *.
  apply Forall_app in Htasks as [H1 [[[Hg Hk] Hkn] H2]%Forall_cons]. simpl in Hkn.
  pose proof (repo_call_ok p K L c app_now d d' r Hrows Hdist Hkn Hg Hc) as [Os Or Od Oself Ooth Op].
  assert (Hrest : ∀ z, z ∈ l1 ++ l2 → informed d L z → informed d' L z).
  { intros z Hz [Ht HK]. split; [done|]. apply Ooth; [done|]. intros x Hx. by eapply lonely_here. }
  split; simpl; [done|done| |].
  - apply Forall_app. split; [|apply Forall_cons; split].
    + apply Forall_forall. intros z Hz. rewrite Forall_forall in H1. apply Hrest; [set_solver|auto].
    + split; [apply Hk|done].
    + apply Forall_forall. intros z Hz. rewrite Forall_forall in H2. apply Hrest; [set_solver|auto].
  - eapply lonely_replace; [|exact Hlone]. simpl. intros id Hp. destruct (Op id Hp) as [?|Hno]; [by left|right].
    intros z Hz Hpz. assert (informed d L z) as [_ HK].
    { rewrite Forall_forall in H1, H2. apply elem_of_app in Hz as [Hz|Hz]; auto. }
    destruct (kn_pending _ _ _ HK id Hpz) as (g & Hg' & _). congruence.
Qed.

(** The row, lease and knowledge part of a step that leaves the tables alone. *)
Lemma inv_quiet d d' L L' ts ts' :
  tables d' = tables d → supply d' = supply d → L ⊆ L' → inv (mkSys d L ts) →
  Forall (informed d' L') ts' → lonely ts' → inv (mkSys d' L' ts').
Proof.
  intros Ht Hs HL [Hrows Hdist _ _] Hi Hl. split; simpl in *; [|by rewrite Ht|done|done].
  rewrite Ht, Hs. by eapply rows_logged.
Qed.

Lemma inv_step a s s' : step a s s' → inv s → inv s'.
Proof.
  intros Hstep Hinv. pose proof (inv_tasks _ Hinv) as Htasks. pose proof (inv_lonely _ Hinv) as Hlone.
  destruct Hstep as [d L ts x Hx|A X d L l1 K c k l2 app_now d' r Hc|A X d L l1 K c k l2 r
    |A d L l1 K k l2 t|d L l1 x l2|d L ts now fs]; simpl in *.
  - eapply inv_quiet; [done|done|done|exact Hinv| |].
    + apply Forall_app. split; [done|]. apply Forall_singleton. split.
      * by eapply program_disciplined.
      * by destruct Hx; split.
    + assert (kpending (knowledge x) = None) as Hnone by by destruct Hx.
      intros i j y z id [Hi|[? Hi]]%lookup_app_Some [Hj|[? Hj]]%lookup_app_Some Hy Hz.
      * eauto.
      * apply list_lookup_singleton_Some in Hj as [_ <-]. congruence.
      * apply list_lookup_singleton_Some in Hi as [_ <-]. congruence.
      * apply list_lookup_singleton_Some in Hi as [_ <-]. congruence.
  - by eapply inv_repo.
  - pose proof (grows_r L [event_of c r]) as HL.
    apply Forall_app in Htasks as [H1 [[Hk Hkn] H2]%Forall_cons].
    eapply inv_quiet; [done|done|exact HL|exact Hinv| |].
    + apply Forall_app. split; [|apply Forall_cons; split; [split; [apply Hk|done]|]];
        (eapply Forall_impl; [done|]); intros z; by apply informed_same.
    + eapply lonely_replace; [|exact Hlone]. simpl. by left.
  - apply Forall_app in Htasks as [H1 [[Hk Hkn] H2]%Forall_cons].
    eapply inv_quiet; [done|done|done|exact Hinv| |].
    + apply Forall_app. split; [done|]. apply Forall_cons. split; [split; [apply Hk|done]|done].
    + eapply lonely_replace; [|exact Hlone]. simpl. by left.
  - apply Forall_app in Htasks as [H1 [_ H2]%Forall_cons].
    eapply inv_quiet; [done|done|done|exact Hinv|by apply Forall_app|].
    assert (Hat : ∀ i u, (l1 ++ l2) !! i = Some u →
      (l1 ++ x :: l2) !! (if decide (i < length l1) then i else S i) = Some u).
    { intros i u Hi. destruct (decide (i < length l1)).
      - rewrite lookup_app_l in * by done. done.
      - rewrite lookup_app_r in Hi by lia. rewrite lookup_app_r by lia.
        by replace (S i - length l1) with (S (i - length l1)) by lia. }
    intros i j y z id Hi%Hat Hj%Hat Hy Hz. pose proof (Hlone _ _ _ _ _ Hi Hj Hy Hz).
    repeat case_decide; lia.
  - apply (inv_quiet d _ L _ ts); [done|done|done|exact Hinv| |done].
    eapply Forall_impl; [done|]. intros z. by apply informed_same.
Qed.

Lemma history_inv tr s : history tr s → inv s.
Proof.
  induction 1 as [now fs|tr a s s' H IH Hstep]; [|by eapply inv_step].
  split; simpl; [by intros ???|by split|done|]. by intros i j x y id Hi.
Qed.

Lemma gateway_reachable_inv s : reachable s → inv s.
Proof. intros [tr H]. by eapply history_inv. Qed.

(** ** An active gateway is confirmed *)

Lemma int32_small x : (0 ≤ x < 2 ^ 31)%Z → int32 x = x.
Proof. intros H. unfold int32. rewrite Z.mod_small; lia. Qed.

Lemma valid_port_spec port : valid_port port = true → (1 ≤ port ≤ 65535)%Z.
Proof. unfold valid_port. rewrite andb_true_iff, !Z.leb_le. lia. Qed.

(** C7: no interleaving of workers, handlers, crashes and AWS replies shows a
    gateway as active unless AWS confirmed, for the identifiers in its row, that
    its target group was created under the gateway's name, that its container's
    port (1..65535) was registered there, that a rule for the gateway's hostname
    at a priority within the configured range was created, and that the target
    was healthy; its public host is that hostname. *)
Theorem active_gateway_confirmed s id g :
  reachable s → rows s !! id = Some g → Status g = Active →
  ∃ tg port arn prio state,
    target_group g = Some tg ∧ HostPort (endpoint g) = Some port ∧ (1 ≤ port ≤ 65535)%Z ∧
    ListenerRuleARN (ingress g) = Some arn ∧ rule_priority g = Some prio ∧
    (priorityMin p ≤ prio ≤ priorityMax p)%Z ∧ (1 ≤ prio ≤ 50000)%Z ∧
    PublicHost (endpoint g) = Some (gatewayHostname id (baseDomain p)) ∧
    ToLower (TrimSpace state) = "healthy" ∧
    EvCreateTargetGroup (gatewayTargetGroupName id) (vpcID p) (Ok tg) ∈ log s ∧
    EvRegisterTarget tg (instanceID p) port (Ok ()) ∈ log s ∧
    EvCreateHostRule (listenerARN p) (gatewayHostname id (baseDomain p)) tg prio (Ok arn) ∈ log s ∧
    EvTargetHealth tg (instanceID p) port (Ok state) ∈ log s.
Proof.
  intros Hs Hg Ha. destruct (inv_rows _ (gateway_reachable_inv _ Hs) _ _ Hg) as [Hid _ _ Hev _ Hact _ Hpr _].
  pose proof (Hact Ha) as Hst. destruct Hev as (tg & port & (Htg & Hport & Hvalid & Hcg) & Hreg & Hrule & Hh);
    [rewrite Hst; simpl; lia|]. rewrite Hst in *. simpl in *.
  destruct Hreg as [_ Hreg]; [lia|]. destruct Hrule as (arn & prio & Harn & Hprio & Hrule); [lia|].
  destruct Hh as [(state & Hstate & Hh) Hhost]; [lia|]. rewrite Hid in *.
  apply valid_port_spec in Hvalid. destruct (Hpr prio Hprio) as [Hr1 Hr2].
  rewrite int32_small in Hreg, Hh, Hrule by lia.
  exists tg, port, arn, prio, state. split_and!; try done; lia.
Qed.

(** ** Rule priorities and leases *)

(** At every moment the rule priorities of the live gateways are distinct
    and within both the configured range and AWS's 1..50000, and no two gateways
    are leased under one token, so a worker's updates touch its own gateway only. *)
Theorem priorities_and_leases_unique s :
  reachable s →
  (∀ i j a b, rows s !! i = Some a → rows s !! j = Some b → live a = true → live b = true →
     is_Some (rule_priority a) → rule_priority a = rule_priority b → i = j) ∧
  (∀ i a prio, rows s !! i = Some a → rule_priority a = Some prio →
     (priorityMin p ≤ prio ≤ priorityMax p)%Z ∧ (1 ≤ prio ≤ 50000)%Z) ∧
  (∀ i j a b lt, rows s !! i = Some a → rows s !! j = Some b → token a = Some lt → token b = Some lt → i = j).
Proof.
  intros [Hrows [Htok Hpr] _ _]%gateway_reachable_inv. split; [|split].
  - intros i j a b Ha Hb La Lb [prio Hp] He. eapply Hpr; eauto. congruence.
  - intros i a prio Ha. apply (ro_priority _ _ _ _ _ (Hrows _ _ Ha)).
  - exact Htok.
Qed.

(** ** A removed gateway has released its resources *)

Lemma step_spec a s s' : step a s s' → inv s →
  match a with
  | Other => rows s' = rows s
  | Did c r => ∃ app_now K, repo_call app_now c (db s) = (db s', r) ∧ log s' = log s ∧
      guard p K (log s) c ∧ known (supply (db s)) (rows s) K
  end.
Proof.
  intros Hstep Hinv. pose proof (inv_tasks _ Hinv) as Ht. destruct Hstep; try done.
  apply Forall_app in Ht as [_ [[[Hg _] Hk] _]%Forall_cons]. by exists app_now, K.
Qed.

Lemma inv_ids s : inv s → ∀ id g, rows s !! id = Some g → ExternalID g = id.
Proof. intros H id g Hg. exact (ro_id _ _ _ _ _ (inv_rows _ H _ _ Hg)). Qed.

(** What a stage change rests on. *)
Lemma step_stages a s s' : step a s s' → inv s →
  match a with
  | Other => rows s' = rows s
  | Did c r => stages c (db s) (db s') r ∧ ∃ K, guard p K (log s) c ∧ known (supply (db s)) (rows s) K ∧ log s' = log s
  end.
Proof.
  intros Hstep Hinv. pose proof (step_spec a s s' Hstep Hinv) as H. destruct a as [X c r|]; [|done].
  destruct H as (now & K & Hc & HL & Hg & Hk). split; [|by exists K].
  eapply repo_call_stages; [by apply inv_ids|exact Hc].
Qed.

(** C21: a gateway becomes deprovisioned only after AWS and Docker confirmed, for
    the identifiers its row held until then, that its listener rule, its target
    registration and its target group were deleted (those there were) and that
    its container is gone; the row then holds none of them. *)
Theorem removed_gateway_released a s s' id g g' :
  reachable s → step a s s' → rows s !! id = Some g → rows s' !! id = Some g' →
  istate g ≠ Deprovisioned → istate g' = Deprovisioned →
  released p (log s') id (default "" (target_group g)) (default "" (ListenerRuleARN (ingress g)))
    (default 0%Z (HostPort (endpoint g))) ∧
  ingress g' = no_ingress ∧ is_Some (DeletedAt g') ∧ Status g' = Decommissioned.
Proof.
  intros Hs Hstep Hg Hg' Hne Hst. pose proof (gateway_reachable_inv _ Hs) as Hinv.
  pose proof (inv_step _ _ _ Hstep Hinv) as Hinv'.
  destruct (ro_gone _ _ _ _ _ (inv_rows _ Hinv' _ _ Hg') Hst) as (Hd & Hi & Hdec). split; [|done].
  pose proof (step_stages a s s' Hstep Hinv) as H. destruct a as [X c r|]; [|simpl in H; congruence].
  destruct H as [(_ & H & _) (K & Hguard & Hk & ->)].
  destruct (H id g' Hg') as [(g0 & Hg0 & E & _)|[[_ [_ Hre]]|[_ (g0 & lt & Hg0 & Htok & _ & Hm & Had)]]];
    simplify_eq.
  - congruence.
  - by destruct Hre as [Hre|[Hre|Hre]]; rewrite Hre in Hst.
  - destruct c; try done; simpl in Hm; injection Hm as -> -> Hm _;
      rewrite <-Hm in Hst; try done.
    simpl in Had, Hguard. destruct Hguard as (j & Hj & -> & -> & Hjs & Hrel).
    destruct (kn_job _ _ _ Hk j Hj) as [_ Hcur]. destruct (Hcur _ _ Hg Htok) as [_ Hc].
    destruct Hc as [(_ & -> & -> & -> & _)|(_ & E & _)]; [done|congruence].
Qed.

(** ** The work on a gateway is bounded *)

(** How many updates of its stage a worker may still make before somebody asks
    for something: the states ahead and the retries left. *)
Definition rank (s : IngressStatus) : Z :=
  match s with
  | ContainerReady | CreatingTargetGroup => 5
  | RegisteringTarget => 4
  | CreatingListenerRule => 3
  | WaitingForTargetHealth => 2
  | Deprovisioning => 1
  | _ => 0
  end.

Definition work (g : row) : Z := rank (istate g) + (maxRetries - 1 - RetryCount (queue g)).

Definition potential (m : gmap string row) (id : string) : Z :=
  match m !! id with Some g => work g | None => 0 end.

(** The successful calls that request work on the gateway, and those that move it:
    a stage done, a retry, giving up.  Claims, reservations and polls are neither. *)
Definition is_request (id : string) (a : act) : bool :=
  match a with Did c r => is_ok r && requests c id | Other => false end.

Definition is_move (id : string) (a : act) : bool :=
  match a with
  | Did c r => is_ok r &&
      match c with
      | CallTargetGroupCreated i _ _ | CallTargetRegistered i _ | CallListenerRuleCreated i _ _ _
      | CallIngressActive i _ _ _ | CallScheduleRetry i _ _ _ | CallIngressFailed i _ _
      | CallDecommissioned i _ => String.eqb i id
      | _ => false
      end
  | Other => false
  end.

Definition count (f : act → bool) (tr : list act) : Z := Z.of_nat (length (filter (λ a, f a = true) tr)).

Lemma count_snoc f tr a : count f (tr ++ [a]) = (count f tr + if f a then 1 else 0)%Z.
Proof.
  unfold count. rewrite filter_app, length_app. cbn [filter list_filter]. destruct (f a) eqn:E.
  - rewrite decide_True by done. simpl. lia.
  - rewrite decide_False by done. simpl. lia.
Qed.

Lemma work_bound n L id g : row_ok n L id g → (0 ≤ work g ≤ 14)%Z.
Proof.
  intros Hok. pose proof (ro_retry _ _ _ _ _ Hok). unfold work, maxRetries in *.
  destruct (istate g); simpl; lia.
Qed.

(** A move takes the row nearer to rest. *)
Lemma move_works {X} (c : GatewayProvisioningRepository X) K L d g g' id lt :
  guard p K L c → known (supply d) (tables d) K → tables d !! id = Some g → token g = Some lt →
  moves c g = Some (id, lt, stage g') → queued (istate g) = true → (work g' < work g)%Z.
Proof.
  intros Hguard Hk Hg Htok Hm Hq.
  assert (Hown : ∀ j, kjob K = Some j → lt = JobLeaseToken j → current j g).
  { intros j Hj ->. destruct (kn_job _ _ _ Hk j Hj) as [_ Hcur]. by apply (Hcur _ _ Hg). }
  unfold work.
  assert (Hopen : ∀ j s, kjob K = Some j → lt = JobLeaseToken j → JobStatus j = s → s ≠ Deprovisioning → istate g = s).
  { intros j s Hj Hlt <- Hne. by apply (current_open j g (Hown j Hj Hlt)). }
  destruct c; try done; simpl in Hm; injection Hm as -> -> <- <-; simpl in Hguard;
    destruct Hguard as (j & Hj & -> & -> & Hrest); simpl.
  - destruct Hrest as [Hs _]. rewrite (Hopen j _ Hj eq_refl Hs) by done. simpl. lia.
  - destruct Hrest as [Hs _]. rewrite (Hopen j _ Hj eq_refl Hs) by done. simpl. lia.
  - destruct Hrest as [Hs _]. rewrite (Hopen j _ Hj eq_refl Hs) by done. simpl. lia.
  - destruct Hrest as [Hs _]. rewrite (Hopen j _ Hj eq_refl Hs) by done. simpl. lia.
  - lia.
  - destruct (istate g); try done; simpl; lia.
  - destruct (istate g); try done; simpl; lia.
Qed.

Definition no_row : row :=
  mkRow "" "" "" Provisioning 0 0 None None None (mkEndpoint "" "" None None None None) no_ingress
    (mkQueue NotStarted None 0 None) no_lease.

Lemma is_move_spec {X} id (c : GatewayProvisioningRepository X) r g :
  is_move id (Did c r) = true → is_ok r = true ∧ ∃ lt st, moves c g = Some (id, lt, st).
Proof.
  unfold is_move. intros [Hr Hm]%andb_true_iff. split; [done|].
  by destruct c; try done; apply String.eqb_eq in Hm as ->; eexists _, _.
Qed.

Lemma step_potential a s s' id : step a s s' → inv s →
  (potential (rows s') id + (if is_move id a then 1 else 0)
     ≤ (if is_request id a then 14 else potential (rows s) id))%Z.
Proof.
  intros Hstep Hinv. pose proof (inv_step _ _ _ Hstep Hinv) as Hinv'.
  pose proof (step_stages a s s' Hstep Hinv) as H. destruct a as [X c r|]; [|rewrite H; simpl; lia].
  destruct H as [(Hkept & Hrow & Hmade) (K & Hguard & Hk & _)]. unfold is_request, potential.
  destruct (rows s' !! id) as [g'|] eqn:Hg'.
  2: { assert (rows s !! id = None) as ->.
       { destruct (rows s !! id) as [g|] eqn:Hg; [|done]. apply Hkept in Hg as [? ?]. congruence. }
       destruct (is_move id (Did c r)) eqn:Hm; [|case_match; lia].
       apply (is_move_spec _ _ _ no_row) in Hm as [Hr (lt & st & Hm)].
       apply (Hmade Hr) in Hm as [? ?]. congruence. }
  pose proof (work_bound _ _ _ _ (inv_rows _ Hinv' _ _ Hg')) as Hb'.
  destruct (Hrow id g' Hg') as [(g & Hg & Hst & Hno)|[(Hr & Hq & _)|(Hr & g & lt & Hg & Htok & _ & Hm & _)]].
  - assert (is_move id (Did c r) = false) as ->.
    { apply not_true_iff_false. intros [Hr (lt & st & Hm)]%(is_move_spec _ _ _ g). by eapply Hno. }
    unfold work in *. injection Hst as Es En. rewrite Es, En in *. rewrite Hg. case_match; lia.
  - rewrite Hr, Hq. assert (is_move id (Did c r) = false) as ->; [|simpl; lia].
    unfold is_move. rewrite Hr. by destruct c.
  - assert (is_request id (Did c r) = false) as Hnq.
    { unfold is_request. rewrite Hr. by destruct c. }
    unfold is_request in Hnq. rewrite Hnq, Hg.
    assert (work g' < work g)%Z; [|case_match; lia].
    eapply move_works; [exact Hguard|exact Hk|exact Hg|exact Htok|exact Hm|].
    apply (ro_queued _ _ _ _ _ (inv_rows _ Hinv _ _ Hg)). intros E. by rewrite E in Htok.
Qed.

(** C26: the moves of a gateway are bounded.  In any execution, however its workers
    interleave, crash and lose their leases and whatever AWS and Docker answer, the
    updates that record a stage as done (target group created, target registered,
    listener rule created, ingress active, decommissioned), schedule a retry or give
    up number at most fourteen for every successful request for the gateway
    (creation, container ready, removal).  Not counted is what leaves the stage as it
    is: claims of the job, which a crash lets another worker repeat, the reservation
    of a rule priority, and polls of the target's health. *)
Theorem gateway_work_bounded tr s id :
  history tr s → (count (is_move id) tr ≤ 14 * count (is_request id) tr)%Z.
Proof.
  intros H. enough (count (is_move id) tr + potential (rows s) id ≤ 14 * count (is_request id) tr ∧
    0 ≤ potential (rows s) id)%Z by lia.
  induction H as [now fs|tr a s s' H IH Hstep]; [done|]. rewrite !count_snoc.
  pose proof (history_inv _ _ H) as Hinv. pose proof (step_potential a s s' id Hstep Hinv) as Hp.
  assert (0 ≤ potential (rows s') id)%Z.
  { unfold potential. destruct (rows s' !! id) as [g|] eqn:Hg; [|done].
    eapply work_bound, (inv_rows _ (inv_step _ _ _ Hstep Hinv) _ _ Hg). }
  destruct (is_request id a); lia.
Qed.

End guarantees.
End GatewayGuarantees.
