(* ===== verification/GatewayScenario.v ===== *)
(** * Executions of the system of dedicated gateways

    An interpreter that drives the system of [GatewayLifecycle] through concrete
    schedules; the life of one gateway from its creation to its removal; two
    schedules in which a removal is lost. *)

From stdpp Require Import gmap.
From S2P Require Import Prelude GoStrings Store GatewayRepo GatewayProvisioner GatewayLifecycle GatewayCalls GatewayGuarantees.

Module GatewayScenario.
Import GatewayRepo GatewayProvisioner GatewayLifecycle GatewayCalls GatewayGuarantees.

(** ** The interpreter *)

(** Begin a program at a time of the database, or run the next call of task [i]. *)
Inductive input := Start (now : Z) (x : task) | Tick (i : nat) | Ticks (n : nat).

Section drive.
Context (p : GatewayProvisioner) (driver_text : string).
Context (answers : ∀ X, Cloud X → result string X).

Definition run_call {A} (d : store (gmap string row)) (L : list event) (l1 l2 : list task) (K : know) (q : prog A)
  : act * sys :=
  match q with
  | Done _ => (Other, mkSys d L (l1 ++ l2))
  | Repo c k => let '(d', r) := repo_call (clock d) c d in (Did c r, mkSys d' L (l1 ++ Task (learn c r K) (k r) :: l2))
  | Call c k => (Other, mkSys d (L ++ [event_of c (answers _ c)]) (l1 ++ Task K (k (answers _ c)) :: l2))
  | Now k => (Other, mkSys d L (l1 ++ Task K (k (clock d)) :: l2))
  end.

Definition tick (i : nat) (s : sys) : act * sys :=
  match drop i (tasks s) with
  | Task K q :: l2 => run_call (db s) (log s) (take i (tasks s)) l2 K q
  | [] => (Other, mkSys (mkStore (rows s) (clock (db s)) (supply (db s)) (faults (db s))) (log s) (tasks s))
  end.

Fixpoint ticks (n : nat) (s : sys) : sys :=
  match n with O => s | S n => ticks n (tick 0 s).2 end.

Definition start (now : Z) (x : task) (s : sys) : sys :=
  mkSys (mkStore (rows s) now (supply (db s)) (faults (db s))) (log s) (tasks s ++ [x]).

Definition drive_one (i : input) (s : sys) : sys :=
  match i with
  | Start now x => start now x s
  | Tick j => (tick j s).2
  | Ticks n => ticks n s
  end.

Definition drive (l : list input) : sys := foldl (λ s i, drive_one i s) (mkSys (mkStore ∅ 0%Z 0 []) [] []) l.

Lemma tick_step i s : step p driver_text (tick i s).1 s (tick i s).2.
Proof.
  destruct s as [d L ts]. unfold tick. simpl. destruct (drop i ts) as [|[A K q] l2] eqn:Hd.
  - apply s_env.
  - pose proof (take_drop i ts) as E. rewrite Hd in E. remember (take i ts) as l1 eqn:Hl1. rewrite <-E.
    clear E Hl1 Hd. destruct q as [a|X c k|X c k|k]; simpl.
    + apply s_end.
    + destruct (repo_call (clock d) c d) as [d' r] eqn:Hc. simpl. by apply (s_repo _ _ d L l1 K c k l2 (clock d)).
    + apply s_cloud.
    + apply s_now.
Qed.

Lemma reachable_step a s s' : reachable p driver_text s → step p driver_text a s s' → reachable p driver_text s'.
Proof. intros [tr H] Hs. exists (tr ++ [a]). by eapply h_step. Qed.

Lemma ticks_reachable n s : reachable p driver_text s → reachable p driver_text (ticks n s).
Proof.
  revert s. induction n as [|n IH]; intros s H; [done|]. apply IH. eapply reachable_step; [exact H|apply tick_step].
Qed.

Lemma drive_reachable l :
  (∀ now x, Start now x ∈ l → program p driver_text x) → reachable p driver_text (drive l).
Proof.
  intros Hl. unfold drive.
  assert (H0 : reachable p driver_text (mkSys (mkStore ∅ 0%Z 0 []) [] [])) by (exists []; apply h_init).
  revert H0 Hl. generalize (mkSys (mkStore (∅ : gmap string row) 0%Z 0 []) [] []).
  induction l as [|i l IH]; intros s Hs Hl; [done|]. simpl. apply IH; [|intros now x Hx; eapply Hl; by right].
  destruct i as [now x|j|n]; simpl.
  - destruct s as [d L ts]. eapply reachable_step; [|apply s_begin, (Hl now x); by left].
    eapply reachable_step; [exact Hs|apply (s_env _ _ d L ts now)].
  - eapply reachable_step; [exact Hs|apply tick_step].
  - by apply ticks_reachable.
Qed.

End drive.

(** ** A gateway's life *)

Definition sample : GatewayProvisioner :=
  NewGatewayProvisioner "5b0c9a7e-0000" "" "listener-1" "vpc-1" "i-1" "gw.example.com." 1000 1999 true.

(** AWS and Docker answer every call. *)
Definition obliging : ∀ X, Cloud X → result string X := λ X c,
  match c in Cloud X return result string X with
  | CreateGatewayTargetGroup _ _ => Ok "arn:tg"
  | RegisterGatewayTarget _ _ _ => Ok ()
  | GetGatewayTargetHealth _ _ _ => Ok " Healthy"
  | CreateGatewayHostRule _ _ _ _ => Ok "arn:rule"
  | DeleteGatewayHostRule _ => Ok ()
  | DeregisterGatewayTarget _ _ _ => Ok ()
  | DeleteGatewayTargetGroup _ => Ok ()
  | ContainerProvision _ _ _ => Ok ("172.18.0.5", "8080", "localhost", "32768")
  | ContainerDecommission _ => Ok ()
  end.

Definition worker : task := Task know0 (ProcessNextJob sample "driver error").
Definition create : task := Task know0 (ProvisionGateway "01234567-89ab" "proj" "standard").
Definition remove : task := Task know0 (DecommissionGateway (30 * second) "proj" "gw_01234567").
Definition force : task := Task know0 (ForceDecommission true "gw_01234567").

Definition to_active : list input :=
  [Start 0 create; Ticks 4; Start second worker; Ticks 4; Start (2 * second) worker; Ticks 4;
   Start (3 * second) worker; Ticks 6; Start (60 * second) worker; Ticks 4]%Z.

(** Up to the last statement of the removal. *)
Definition to_removal : list input :=
  to_active ++ [Start (100 * second) remove; Ticks 3; Start (200 * second) worker; Ticks 5]%Z.

Definition driven (l : list input) : sys := drive obliging l.

Lemma sample_programs (l : list input) :
  Forall (λ i, match i with Start _ x => x = worker ∨ x = create ∨ x = remove ∨ x = force | _ => True end) l →
  reachable sample "driver error" (driven l).
Proof.
  intros H. apply drive_reachable. intros now x Hx. rewrite Forall_forall in H.
  destruct (H _ Hx) as [->|[->|[->| ->]]]; constructor.
Qed.
(** The customer removes the gateway while its container is being started: the
    handler answers that the removal is queued, and then the start of the
    container overwrites the queue entry. *)
Definition remove_while_starting : list input :=
  [Start 0 create; Tick 0; Tick 0; Start second remove; Tick 1; Tick 1]%Z.
Definition then_ready : list input :=
  [Tick 0; Tick 0; Tick 0; Start (2 * second) worker; Ticks 4; Start (3 * second) worker; Ticks 4;
   Start (4 * second) worker; Ticks 6; Start (60 * second) worker; Ticks 4]%Z.

Ltac scheduled :=
  apply sample_programs; unfold to_removal, to_active, remove_while_starting, then_ready;
  repeat (apply Forall_cons; split); try apply Forall_nil; simpl; auto 10.

Lemma active_sample :
  ∃ g, reachable sample "driver error" (driven to_active) ∧
    rows (driven to_active) !! "gw_01234567" = Some g ∧ Status g = Active.
Proof.
  destruct (rows (driven to_active) !! "gw_01234567") as [g|] eqn:Hg; [|by vm_compute in Hg].
  exists g. split_and!; [|done|].
  - scheduled.
  - assert (H : Status <$> (rows (driven to_active) !! "gw_01234567") = Some Active) by by vm_compute.
    rewrite Hg in H. by injection H.
Qed.

Lemma active_gateway_confirmed_witness :
  ∃ g tg state, reachable sample "driver error" (driven to_active) ∧
    rows (driven to_active) !! "gw_01234567" = Some g ∧ Status g = Active ∧
    ToLower (TrimSpace state) = "healthy" ∧
    EvTargetHealth tg "i-1" 32768 (Ok state) ∈ log (driven to_active).
Proof.
  destruct active_sample as (g & Hr & Hg & Ha).
  destruct (active_gateway_confirmed _ _ _ _ _ Hr Hg Ha)
    as (tg & port & arn & prio & state & H1 & H2 & H3 & H4 & H5 & H6 & H7 & H8 & H9 & H10 & H11 & H12 & H13).
  assert (HostPort ∘ endpoint <$> (rows (driven to_active) !! "gw_01234567") = Some (Some 32768%Z)) as Hp by by vm_compute.
  rewrite Hg in Hp. injection Hp as Hp. rewrite Hp in H2. injection H2 as <-.
  exists g, tg, state. by split_and!.
Defined.

Lemma priorities_and_leases_unique_witness :
  ∃ a prio, rows (driven to_active) !! "gw_01234567" = Some a ∧ rule_priority a = Some prio ∧
    (1000 ≤ prio ≤ 1999)%Z.
Proof.
  destruct active_sample as (g & Hr & Hg & _).
  assert (Hp : (λ g, rule_priority g) <$> (rows (driven to_active) !! "gw_01234567") = Some (Some 1000%Z))
    by by vm_compute.
  rewrite Hg in Hp. injection Hp as Hp.
  destruct (priorities_and_leases_unique _ _ _ Hr) as (_ & H & _).
  exists g, 1000%Z. split_and!; [done|done|..]; by destruct (H _ g _ Hg Hp) as [[? ?] _].
Defined.

Lemma removed_gateway_released_witness :
  ∃ s s' g g', reachable sample "driver error" s ∧
    rows s !! "gw_01234567" = Some g ∧ rows s' !! "gw_01234567" = Some g' ∧ istate g' = Deprovisioned ∧
    released sample (log s') "gw_01234567" "arn:tg" "arn:rule" 32768 ∧ ingress g' = no_ingress.
Proof.
  assert (Hr : reachable sample "driver error" (driven to_removal)) by scheduled.
  assert (H : (λ g, (istate g, target_group g, ListenerRuleARN (ingress g), HostPort (endpoint g))) <$>
    (rows (driven to_removal) !! "gw_01234567") = Some (Deprovisioning, Some "arn:tg", Some "arn:rule", Some 32768%Z))
    by by vm_compute.
  assert (H' : (λ g, istate g) <$> (rows (tick obliging 0 (driven to_removal)).2 !! "gw_01234567") = Some Deprovisioned)
    by by vm_compute.
  apply fmap_Some in H as (g & Hg & E). injection E as E1 E2 E3 E4.
  apply fmap_Some in H' as (g' & Hg' & E'). revert Hr Hg Hg'. generalize (driven to_removal). intros s Hr Hg Hg'.
  destruct (removed_gateway_released _ _ _ s _ _ g g' Hr (tick_step sample "driver error" obliging 0 s) Hg Hg')
    as (Hrel & Hi & _); [by rewrite <-E1|done|].
  rewrite <-E2, <-E3, <-E4 in Hrel. exists s, (tick obliging 0 s).2, g, g'. by split_and!.
Defined.

Lemma gateway_work_bounded_witness :
  ∃ tr, history sample "driver error" tr (driven to_active) ∧
    (count (is_move "gw_01234567") tr ≤ 14 * count (is_request "gw_01234567") tr)%Z.
Proof.
  destruct active_sample as (g & [tr Htr] & _). exists tr. split; [done|].
  exact (gateway_work_bounded _ _ tr _ "gw_01234567" Htr).
Defined.

(** ** Removals that are lost *)

Definition shows (s : sys) : option (GatewayStatus * IngressStatus * option Z * option string) :=
  (λ g, (Status g, istate g, DeletedAt g, target_group g)) <$> (rows s !! "gw_01234567").

(** A removal that was acknowledged while the container was being started is
    overwritten by [MarkContainerReady]: the gateway is provisioned to the end
    and stays active. *)
Theorem removal_lost_while_starting :
  let s := driven remove_while_starting in
  let s' := driven (remove_while_starting ++ then_ready) in
  reachable sample "driver error" s' ∧
  shows s = Some (Draining, Deprovisioning, None, None) ∧
  (∃ K, nth_error (tasks s) 1 =
     Some (Task K (Done (RespQueued "gw_01234567" (Some second) (Some (31 * second)%Z))))) ∧
  shows s' = Some (Active, Completed, None, Some "arn:tg").
Proof.
  split; [scheduled|]. split; [by vm_compute|].
  split; [|by vm_compute]. exists know0. by vm_compute.
Qed.

(** [ForceDecommission] marks an active gateway as decommissioned without its
    AWS resources being removed, and from then on a removal is answered as done
    already and no claim finds the row. *)
Theorem force_decommission_leaks :
  let s := driven (to_active ++ [Start (100 * second) force; Ticks 3; Start (101 * second) remove; Tick 0])%Z in
  reachable sample "driver error" s ∧
  shows s = Some (Decommissioned, Completed, None, Some "arn:tg") ∧
  (∃ K, tasks s = [Task K (Done (RespDecommissioned "gw_01234567"))]) ∧
  ∀ now before, next_job now before (rows s) = None.
Proof.
  split; [scheduled|]. split; [by vm_compute|].
  split; [exists know0; by vm_compute|]. intros now before. unfold next_job. by vm_compute.
Qed.

End GatewayScenario.
