(* ===== verification/Transactions.v ===== *)
(** * Statements and transactions

    The repositories whose methods are transactions of several statements are
    written in the monad of [Store] with the statements below.  A statement is
    atomic and may fail.  A transaction sees its own changes, leaves the tables as
    they were unless all of it succeeds, and, as PostgreSQL does, runs no statement
    after a failed one.  A logic of postconditions: what a successful part of a
    transaction promises. *)

From stdpp Require Import gmap.
From S2P Require Import Prelude GoStrings Store.

Module Transactions.
Export Store.
#[local] Open Scope store_scope.

(** An error type has the error of a statement in an aborted transaction. *)
Class TxError (E : Type) := tx_aborted : E.

(** ** Tables *)

Definition rows `{Countable K} {V} (m : gmap K V) : list V := (map_to_list m).*2.

(** UPDATE over all rows of a table; the number of changed rows is returned. *)
Definition update_where {V} (p : V → bool) (f : V → V) (m : gmap string V) : gmap string V :=
  (λ x, if p x then f x else x) <$> m.
Definition count_where {V} (p : V → bool) (m : gmap string V) : nat :=
  length (filter (λ x, p x = true) (rows m)).

Lemma elem_of_table `{Countable K} {V} (m : gmap K V) x : x ∈ rows m ↔ ∃ k, m !! k = Some x.
Proof.
  unfold rows. rewrite list_elem_of_fmap. split.
  - intros ([k y] & -> & ?%elem_of_map_to_list). by exists k.
  - intros [k Hk]. exists (k, x). by rewrite elem_of_map_to_list.
Qed.

Lemma existsb_rows {V} (m : gmap string V) f : existsb f (rows m) = false ↔ ∀ x, x ∈ rows m → f x = false.
Proof.
  rewrite <-not_true_iff_false, existsb_exists. setoid_rewrite list_elem_of_In. split.
  - intros H x Hx. apply not_true_iff_false. intros Hf. eauto.
  - intros H (x & Hx & Hf). rewrite (H x Hx) in Hf. done.
Qed.

Lemma count_where_0 {V} p (m : gmap string V) :
  (count_where p m =? 0)%nat = false → ∃ x, x ∈ rows m ∧ p x = true.
Proof.
  unfold count_where. intros H%Nat.eqb_neq. destruct (filter _ _) as [|x l] eqn:E; [done|].
  assert (x ∈ filter (λ x, p x = true) (rows m)) as Hx by (rewrite E; by left).
  apply list_elem_of_filter in Hx as [? ?]. eauto.
Qed.

Lemma update_where_lookup {V} p f (m : gmap string V) k :
  update_where p f m !! k = (λ x, if p x then f x else x) <$> m !! k.
Proof. unfold update_where. by rewrite lookup_fmap. Qed.

Lemma update_where_None {V} p f (m : gmap string V) k : update_where p f m !! k = None ↔ m !! k = None.
Proof. rewrite update_where_lookup. apply fmap_None. Qed.

Lemma update_where_rows {V} p f (m : gmap string V) y :
  y ∈ rows (update_where p f m) ↔ ∃ x, x ∈ rows m ∧ y = if p x then f x else x.
Proof.
  rewrite elem_of_table. setoid_rewrite update_where_lookup. setoid_rewrite elem_of_table. split.
  - intros [k H]. apply fmap_Some in H as (x & Hx & ->). eauto.
  - intros (x & [k Hx] & ->). exists k. by rewrite Hx.
Qed.

Lemma not_is_Some {V} (o : option V) : bool_decide (is_Some o) = false → o = None.
Proof. intros H%bool_decide_eq_false. by apply eq_None_not_Some. Qed.

(** ** The statements *)

Section transactions.
Context {S Er : Type} {HE : DBError Er} {HA : TxError Er}.

(** What a statement does at a time: its error, or the new tables and its result. *)
Abbreviation action X := (Z → S → result Er (S * X)).

Definition run_action {X} (f : action X) (now : Z) (t : S) : S * result Er X :=
  match f now t with Ok (t', x) => (t', Ok x) | Err e => (t, Err e) end.

Definition stmt {X} (f : action X) : M S Er X :=
  let* r := query (run_action f) in
  match r with Ok x => mret x | Err e => mfail e end.

(** Inside a transaction the flag says that a statement has failed. *)
Abbreviation T := (M (S * bool) Er).

Definition tx_stmt {X} (f : action X) : T X :=
  let* r := query (λ now '(t, aborted),
    if aborted : bool then ((t, true), Err tx_aborted)
    else match f now t with
         | Ok (t', x) => ((t', false), Ok x)
         | Err e => ((t, true), Err e)
         end) in
  match r with Ok x => mret x | Err e => mfail e end.

(** [BeginTx], the body, [Commit]; [Rollback] on every other way out. *)
Definition with_tx {X} (body : T X) : M S Er X := λ d,
  match query (λ _ t, (t, ())) d with
  | (d, Err e) => (d, Err e)
  | (d, Ok _) =>
      let d0 := mkStore (tables d, false) (clock d) (supply d) (faults d) in
      let back (t : S) (d' : store (S * bool)) :=
        mkStore t (clock d') (supply d') (faults d') in
      match body d0 with
      | (d', Err e) => (back (tables d) d', Err e)
      | (d', Ok x) =>
          match query (λ _ s, (s, s.2)) d' with
          | (d'', Ok false) => (back (tables d'').1 d'', Ok x)
          | (d'', Ok true) => (back (tables d) d'', Err tx_aborted)
          | (d'', Err e) => (back (tables d) d'', Err e)
          end
      end
  end.

(** ** What they promise *)

Lemma stmt_spec {X} (f : action X) d d' r :
  stmt f d = (d', r) →
  frame d d' ∧
  match r with
  | Ok x => f (clock d) (tables d) = Ok (tables d', x)
  | Err e => tables d' = tables d
  end.
Proof.
  unfold stmt. intros [(d1 & a & Hq & Hk)|(e & Hq & ->)]%mbind_spec.
  - apply store_query_spec in Hq as [Hfr [[? _]|(a' & Hf & [= <-])]]; [done|].
    unfold run_action in Hf. destruct (f (clock d) (tables d)) as [[t' x]|e] eqn:Hr.
    + injection Hf as Ht <-. injection Hk as <- <-. by rewrite <-Ht.
    + injection Hf as Ht <-. injection Hk as <- <-. by rewrite <-Ht.
  - apply store_query_spec in Hq as [Hfr [[_ ?]|(a' & Hf & ?)]]; done.
Qed.

Lemma stmt_alone {X} (f : action X) d :
  faults d = [] →
  stmt f d = match f (clock d) (tables d) with
             | Ok (t', x) => (with_tables t' d, Ok x)
             | Err e => (d, Err e)
             end.
Proof.
  intros Hf. unfold stmt, mbind. rewrite store_query_ok by done. unfold run_action.
  destruct (f _ _) as [[t' x]|e]; [done|]. by destruct d.
Qed.

(** What a successful run of a part of a transaction promises, from the tables [t]. *)
Definition tx_ok {X} (now : Z) (t : S) (m : T X) (Q : S → X → Prop) : Prop :=
  ∀ d d' x, tables d = (t, false) → clock d = now → m d = (d', Ok x) →
    frame d d' ∧ ∃ t', tables d' = (t', false) ∧ Q t' x.

(** A part of a transaction keeps clock and supply. *)
Definition tx_frame {X} (m : T X) : Prop := ∀ d d' r, m d = (d', r) → frame d d'.

Section logic.
Context {X : Type}.

Lemma tx_ok_ret now t (x : X) Q : Q t x → tx_ok now t (mret x) Q.
Proof. intros HQ d d' y Ht Hc [= <- <-]. split; [done|]. by exists t. Qed.

Lemma tx_ok_fail now t e Q : tx_ok now t (mfail (A := X) e) Q.
Proof. by intros d d' y _ _. Qed.

Lemma tx_stmt_spec (f : action X) d d' r :
  tx_stmt f d = (d', r) →
  frame d d' ∧
  match r with
  | Ok x => ∃ t t', tables d = (t, false) ∧ tables d' = (t', false) ∧ f (clock d) t = Ok (t', x)
  | Err _ => True
  end.
Proof.
  unfold tx_stmt. intros [(d1 & a & Hq & Hk)|(e & Hq & ->)]%mbind_spec.
  - apply store_query_spec in Hq as [Hfr [[? _]|(a' & Hf & [= <-])]]; [done|].
    destruct (tables d) as [t ab]. destruct ab.
    { injection Hf as Ht <-. by injection Hk as <- <-. }
    destruct (f (clock d) t) as [[t' x]|e] eqn:Hr; injection Hf as Ht <-; injection Hk as <- <-; [|done].
    split; [done|]. by exists t, t'.
  - by apply store_query_spec in Hq as [Hfr _].
Qed.

Lemma tx_ok_stmt now t (f : action X) (Q : S → X → Prop) :
  (∀ t' x, f now t = Ok (t', x) → Q t' x) → tx_ok now t (tx_stmt f) Q.
Proof.
  intros H d d' x Ht Hc Hs. apply tx_stmt_spec in Hs as (Hfr & t0 & t' & E & E' & Hf). split; [done|].
  rewrite Ht in E. injection E as <-. rewrite Hc in Hf. eauto.
Qed.

Lemma tx_ok_bind {Y} now t (m : T Y) (k : Y → T X) Q :
  tx_ok now t m (λ t1 y, tx_ok now t1 (k y) Q) → tx_ok now t (mbind m k) Q.
Proof.
  intros H d d' x Ht Hc [(d1 & y & Hm & Hk)|(e & _ & ?)]%mbind_spec; [|done].
  destruct (H d d1 y Ht Hc Hm) as (Hfr & t1 & Ht1 & Hq).
  destruct (Hq d1 d' x Ht1) as [Hfr' ?]; [by rewrite (frame_clock _ _ Hfr)|done|].
  split; [by etrans|done].
Qed.

Lemma tx_ok_if (b : bool) now t (m m' : T X) Q :
  (b = true → tx_ok now t m Q) → (b = false → tx_ok now t m' Q) → tx_ok now t (if b then m else m') Q.
Proof. destruct b; auto. Qed.

Lemma tx_frame_stmt (f : action X) : tx_frame (tx_stmt f).
Proof. intros d d' r H. by apply tx_stmt_spec in H as [? _]. Qed.

Lemma tx_frame_ret (x : X) : tx_frame (mret x).
Proof. by intros d d' r [= <- <-]. Qed.

Lemma tx_frame_fail e : tx_frame (mfail (A := X) e).
Proof. by intros d d' r [= <- <-]. Qed.

Lemma tx_frame_bind {Y} (m : T Y) (k : Y → T X) : tx_frame m → (∀ y, tx_frame (k y)) → tx_frame (mbind m k).
Proof.
  intros Hm Hk d d' r [(d1 & y & H1 & H2)|(e & H1 & ->)]%mbind_spec; [|by eapply Hm].
  etrans; [by eapply Hm|by eapply Hk].
Qed.

Lemma tx_frame_if (b : bool) (m m' : T X) : tx_frame m → tx_frame m' → tx_frame (if b then m else m').
Proof. by destruct b. Qed.

(** A transaction does what its body promises, or nothing. *)
Lemma with_tx_spec (body : T X) Q d d' r :
  tx_frame body → tx_ok (clock d) (tables d) body Q → with_tx body d = (d', r) →
  frame d d' ∧ match r with Ok x => Q (tables d') x | Err _ => tables d' = tables d end.
Proof.
  intros Hframe Hbody. unfold with_tx.
  destruct (query _ d) as [d1 [?|e]] eqn:Hbegin.
  2:{ intros [= <- <-]. by apply store_query_spec in Hbegin as [? [[_ ?]|(? & _ & ?)]]. }
  apply store_query_spec in Hbegin as [Hfr1 [[? _]|(? & [= Ht1 <-] & _)]]; [done|]. cbv zeta.
  assert (Hc1 : clock d1 = clock d) by apply Hfr1. assert (Hs1 : supply d1 = supply d) by apply Hfr1.
  rewrite Hc1, Hs1, <-Ht1.
  destruct (body _) as [d2 [x|e]] eqn:Hb; pose proof (Hframe _ _ _ Hb) as [Hc2 Hs2]; simpl in Hc2, Hs2.
  2:{ intros [= <- <-]. split; [by split|done]. }
  destruct (Hbody (mkStore (tables d, false) (clock d) (supply d) (faults d1)) d2 x eq_refl eq_refl Hb) as (_ & t' & Ht2 & HQ).
  destruct (query _ d2) as [d3 [b|e]] eqn:Hcommit;
    apply store_query_spec in Hcommit as [[Hc3 Hs3] [[? Ht3]|(b' & Hq & E)]]; try done.
  - injection E as <-. rewrite Ht2 in Hq. injection Hq as Ht3 <-. intros [= <- <-]. simpl. rewrite <-Ht3.
    split; [split; simpl; congruence|done].
  - intros [= <- <-]. simpl. split; [split; simpl; congruence|done].
Qed.

End logic.

(** *** Errors *)

(** The error of a part of a transaction: the database's, or one of these. *)
Definition tx_err {X} (now : Z) (t : S) (m : T X) (P : Er → Prop) : Prop :=
  ∀ d d' e, tables d = (t, false) → clock d = now → m d = (d', Err e) → e = db_error ∨ P e.

Lemma tx_err_stmt {X} now t (f : action X) (P : Er → Prop) :
  (∀ e, f now t = Err e → P e) → tx_err now t (tx_stmt f) P.
Proof.
  intros H d d' e Ht Hc. unfold tx_stmt. intros [(d1 & a & Hq & Hk)|(e' & Hq & [= <-])]%mbind_spec.
  - apply store_query_spec in Hq as [_ [[? _]|(a' & Hf & [= <-])]]; [done|]. rewrite Ht, Hc in Hf.
    destruct (f now t) as [[t' x]|e'] eqn:Hr; injection Hf as _ <-; [done|]. injection Hk as _ <-. right. by apply H.
  - apply store_query_spec in Hq as [_ [[[= ->] _]|(a' & _ & ?)]]; [by left|done].
Qed.

Lemma tx_err_bind {X Y} now t (m : T Y) (k : Y → T X) Q P :
  tx_ok now t m Q → tx_err now t m P → (∀ t' y, Q t' y → tx_err now t' (k y) P) → tx_err now t (mbind m k) P.
Proof.
  intros Hok Hm Hk d d' e Ht Hc [(d1 & y & H1 & H2)|(e' & H1 & [= <-])]%mbind_spec; [|by eapply Hm].
  destruct (Hok d d1 y Ht Hc H1) as (Hfr & t' & Ht' & HQ). eapply (Hk t' y HQ d1); [done| |exact H2].
  by rewrite (frame_clock _ _ Hfr).
Qed.

Lemma with_tx_err {X} (body : T X) Q P d d' e :
  tx_frame body → tx_ok (clock d) (tables d) body Q → tx_err (clock d) (tables d) body P →
  with_tx body d = (d', Err e) → e = db_error ∨ P e.
Proof.
  intros Hframe Hbody Herr. unfold with_tx.
  destruct (query _ d) as [d1 [?|e0]] eqn:Hbegin.
  2:{ intros [= _ <-]. apply store_query_spec in Hbegin as [_ [[[= ->] _]|(? & _ & ?)]]; [by left|done]. }
  apply store_query_spec in Hbegin as [Hfr1 [[? _]|(? & [= Ht1 <-] & _)]]; [done|]. cbv zeta.
  assert (Hc1 : clock d1 = clock d) by apply Hfr1. rewrite Hc1, <-Ht1.
  destruct (body _) as [d2 [x|e0]] eqn:Hb; [|intros [= _ <-]; by eapply Herr; [| |exact Hb]].
  destruct (Hbody (mkStore (tables d, false) (clock d) (supply d1) (faults d1)) d2 x eq_refl eq_refl Hb) as (_ & t' & Ht2 & _).
  destruct (query _ d2) as [d3 [b|e0]] eqn:Hcommit;
    apply store_query_spec in Hcommit as [_ [[E Ht3]|(b' & Hq & E)]]; try done.
  - injection E as <-. rewrite Ht2 in Hq. injection Hq as _ <-. done.
  - injection E as ->. intros [= _ <-]. by left.
Qed.

Lemma stmt_unit_spec {X} (f : action X) d d' r :
  mbind (stmt f) (λ _, mret ()) d = (d', r) →
  frame d d' ∧
  match r with
  | Ok _ => ∃ x, f (clock d) (tables d) = Ok (tables d', x)
  | Err _ => tables d' = tables d
  end.
Proof.
  intros [(d1 & x & H & Hk)|(e & H & ->)]%mbind_spec; apply stmt_spec in H as [Hfr H]; [|done].
  injection Hk as <- <-. eauto.
Qed.

(** ** What a program keeps, whichever of its queries fail *)

Definition keeps {R : Type} (P : R → R → Prop) {X} (m : M R Er X) : Prop :=
  ∀ d d' r, m d = (d', r) → P (tables d) (tables d').

Section keeps.
Context {R : Type} (P : R → R → Prop) `{!PreOrder P}.

Lemma keeps_ret {X} (x : X) : keeps P (mret x).
Proof. by intros d d' r [= <- _]. Qed.

Lemma keeps_fail {X} e : keeps P (mfail (A := X) e).
Proof. by intros d d' r [= <- _]. Qed.

Lemma keeps_bind_from {X Y} (m : M R Er Y) (k : Y → M R Er X) :
  keeps P m → (∀ y, (∃ d d', m d = (d', Ok y)) → keeps P (k y)) → keeps P (mbind m k).
Proof.
  intros Hm Hk d d' r [(d1 & y & H1 & H2)|(e & H1 & ->)]%mbind_spec; [|by eapply Hm].
  etrans; [by eapply Hm|eapply Hk; eauto].
Qed.

Lemma keeps_bind {X Y} (m : M R Er Y) (k : Y → M R Er X) :
  keeps P m → (∀ y, keeps P (k y)) → keeps P (mbind m k).
Proof. intros Hm Hk. apply keeps_bind_from; auto. Qed.

Lemma keeps_if {X} (b : bool) (m m' : M R Er X) : keeps P m → keeps P m' → keeps P (if b then m else m').
Proof. by destruct b. Qed.

End keeps.

(** The relation on the tables of an open transaction. *)
Definition within (P : S → S → Prop) (x y : S * bool) : Prop := P x.1 y.1.

#[global] Instance within_preorder (P : S → S → Prop) : PreOrder P → PreOrder (within P).
Proof. intros [Hr Ht]. split; [intros ?; apply Hr|intros ??? H1 H2; by eapply Ht]. Qed.

Section keeps_statements.
Context (P : S → S → Prop) `{!PreOrder P}.

Lemma keeps_stmt {X} (f : action X) : (∀ now t t' x, f now t = Ok (t', x) → P t t') → keeps P (stmt f).
Proof. intros H d d' r Hs. apply stmt_spec in Hs as [_ Hs]. destruct r as [x|e]; [by eapply H|by rewrite Hs]. Qed.

Lemma keeps_tx_stmt {X} (f : action X) :
  (∀ now t t' x, f now t = Ok (t', x) → P t t') → keeps (within P) (tx_stmt f).
Proof.
  intros H d d' r. unfold tx_stmt. intros [(d1 & a & Hq & Hk)|(e & Hq & ->)]%mbind_spec.
  - apply store_query_spec in Hq as [_ [[? _]|(a' & Hf & [= <-])]]; [done|].
    destruct (tables d) as [t ab] eqn:Ht. unfold within. simpl.
    destruct ab; [injection Hf as Ht1 <-; injection Hk as <- _; by rewrite <-Ht1|].
    destruct (f (clock d) t) as [[t' x]|e] eqn:Hr; injection Hf as Ht1 <-; injection Hk as <- _; rewrite <-Ht1; simpl;
      [by eapply H|done].
  - apply store_query_spec in Hq as [_ [[_ Ht]|(a & _ & ?)]]; [|done]. unfold within. by rewrite Ht.
Qed.

Lemma keeps_with_tx {X} (body : T X) : keeps (within P) body → keeps P (with_tx body).
Proof.
  intros Hbody d d' r. unfold with_tx.
  destruct (query _ d) as [d1 [?|e]] eqn:Hbegin.
  2:{ intros [= <- <-]. apply store_query_spec in Hbegin as [_ [[_ Ht]|(? & _ & ?)]]; [by rewrite Ht|done]. }
  apply store_query_spec in Hbegin as [_ [[? _]|(? & [= Ht1 _] & _)]]; [done|]. cbv zeta.
  destruct (body _) as [d2 [v|e2]] eqn:Hb; [|intros [= <- _]; simpl; by rewrite Ht1].
  apply Hbody in Hb. unfold within in Hb. simpl in Hb. rewrite <-Ht1 in Hb.
  destruct (query _ d2) as [d3 [[]|e]] eqn:Hc; [intros [= <- _]; simpl; by rewrite Ht1| |intros [= <- _]; simpl; by rewrite Ht1].
  intros [= <- _]. apply store_query_spec in Hc as [_ [[? _]|(? & [= Ht3 _] & _)]]; [done|]. simpl. by rewrite <-Ht3.
Qed.

End keeps_statements.

(** ** Two runs on related tables *)

Section two_runs.
Context {R : Type} (rel : R → R → Prop).

Record store_rel (d d' : store R) : Prop := {
  rel_tables : rel (tables d) (tables d');
  rel_clock : clock d = clock d';
  rel_supply : supply d = supply d';
  rel_faults : faults d = faults d';
}.

(** The replies are the same, the tables stay related. *)
Definition same_reply {X} (m : M R Er X) : Prop :=
  ∀ d d', store_rel d d' → store_rel (m d).1 (m d').1 ∧ (m d).2 = (m d').2.

Lemma same_ret {X} (x : X) : same_reply (mret x).
Proof. by intros d d' H. Qed.

Lemma same_fail {X} e : same_reply (mfail (A := X) e).
Proof. by intros d d' H. Qed.

Lemma same_bind {X Y} (m : M R Er Y) (k : Y → M R Er X) :
  same_reply m → (∀ y, same_reply (k y)) → same_reply (mbind m k).
Proof.
  intros Hm Hk d d' H. unfold mbind. destruct (Hm d d' H) as [H1 H2].
  destruct (m d) as [d1 [y|e]], (m d') as [d1' [y'|e']]; simpl in *; simplify_eq; [by apply Hk|done].
Qed.

Lemma same_query {X} (f : Z → R → R * X) :
  (∀ now t t', rel t t' → rel (f now t).1 (f now t').1 ∧ (f now t).2 = (f now t').2) → same_reply (query f).
Proof.
  intros Hf d d' [Ht Hc Hs Hq]. unfold query. rewrite <-Hc, <-Hs, <-Hq.
  destruct (Hf (clock d) _ _ Ht) as [H1 H2].
  destruct (f (clock d) (tables d)) as [t1 x], (f (clock d) (tables d')) as [t1' x']. simpl in *. subst x'.
  destruct (faults d) as [|[] fs] eqn:Hfs; (split; [split; simpl; congruence|done]).
Qed.

End two_runs.

Section same_statements.
Context (rel : S → S → Prop).

(** A statement that answers related tables alike and changes nothing. *)
Definition same_read {X} (f : action X) : Prop :=
  ∀ now t t', rel t t' → 
    match f now t, f now t' with
    | Ok (u, x), Ok (u', x') => u = t ∧ u' = t' ∧ x = x'
    | Err e, Err e' => e = e'
    | _, _ => False
    end.

Lemma same_stmt {X} (f : action X) : same_read f → same_reply rel (stmt f).
Proof.
  intros Hf. unfold stmt. apply same_bind.
  - apply same_query. intros now t t' H. specialize (Hf now t t' H). unfold run_action.
    destruct (f now t) as [[u x]|e], (f now t') as [[u' x']|e']; naive_solver.
  - intros [x|e]; [apply same_ret|apply same_fail].
Qed.

Lemma same_tx_stmt {X} (f : action X) :
  same_read f → same_reply (λ a b, rel a.1 b.1 ∧ a.2 = b.2) (tx_stmt f).
Proof.
  intros Hf. unfold tx_stmt. apply same_bind; [|intros [x|e]; [apply same_ret|apply same_fail]].
  apply same_query. intros now [t a] [t' a'] [H Ha]. simpl in *. subst a'. destruct a; [done|].
  specialize (Hf now t t' H). destruct (f now t) as [[u x]|e], (f now t') as [[u' x']|e']; naive_solver.
Qed.

Lemma same_with_tx {X} (body : T X) :
  same_reply (λ a b, rel a.1 b.1 ∧ a.2 = b.2) body → same_reply rel (with_tx body).
Proof.
  intros Hb d d' H. unfold with_tx.
  destruct (same_query rel (λ _ t, (t, ())) ltac:(done) d d' H) as [H1 H2].
  destruct (query _ d) as [d1 [[]|e]], (query _ d') as [d1' [[]|e']]; simpl in *; simplify_eq; [|done].
  destruct H1 as [Ht Hc Hs Hf]. rewrite <-Hc, <-Hs, <-Hf.
  set (open (t : S) := mkStore (t, false) (clock d1) (supply d1) (faults d1)).
  destruct (Hb (open (tables d1)) (open (tables d1'))) as [H1 H2]; [by split; [split|..]|]. subst open. revert H1 H2.
  destruct (body (mkStore (tables d1, false) (clock d1) (supply d1) (faults d1))) as [d2 r],
    (body (mkStore (tables d1', false) (clock d1) (supply d1) (faults d1))) as [d2' r'].
  simpl. intros H1 <-. destruct r as [x|e]; [|by destruct H1; split; [split|]].
  destruct (same_query (λ a b, rel a.1 b.1 ∧ a.2 = b.2) (λ _ s, (s, s.2)) (λ _ _ _ H, conj H (proj2 H)) d2 d2' H1)
    as [[[H3 H4] ? ? ?] H5].
  destruct (query _ d2) as [d3 [[]|e]], (query _ d2') as [d3' [[]|e']]; simpl in *; simplify_eq;
    by split; [split|].
Qed.

End same_statements.

(** ** While no query fails *)

Lemma with_tables_same {D} (d : store D) : with_tables (tables d) d = d.
Proof. by destruct d. Qed.

Lemma tx_stmt_alone {X} (f : action X) d t :
  faults d = [] → tables d = (t, false) →
  tx_stmt f d = match f (clock d) t with
                | Ok (t', x) => (with_tables (t', false) d, Ok x)
                | Err e => (with_tables (t, true) d, Err e)
                end.
Proof.
  intros Hf Ht. unfold tx_stmt, mbind. rewrite store_query_ok by done. rewrite Ht.
  by destruct (f _ _) as [[t' x]|e].
Qed.

Lemma with_tx_alone {X} (body : T X) d d' t' x :
  faults d = [] →
  body (mkStore (tables d, false) (clock d) (supply d) []) = (d', Ok x) →
  clock d' = clock d → supply d' = supply d → faults d' = [] → tables d' = (t', false) →
  with_tx body d = (with_tables t' d, Ok x).
Proof.
  intros Hf Hb Hc Hs Hf' Ht. unfold with_tx. rewrite store_query_ok by done. cbv zeta. simpl. rewrite Hf, Hb.
  rewrite store_query_ok by done. rewrite Ht. simpl. unfold with_tables. by rewrite Hc, Hs, Hf', Hf.
Qed.

End transactions.

Ltac tx :=
  repeat first
    [ apply tx_ok_stmt; intros ? ? ? | apply tx_ok_bind | apply tx_ok_fail | apply tx_ok_ret
    | apply tx_ok_if; intros ? ].
Ltac kept :=
  repeat first
    [ apply keeps_with_tx | apply keeps_stmt; intros ? ? ? ? | apply keeps_tx_stmt; intros ? ? ? ?
    | apply keeps_bind; [|intros ?] | apply keeps_fail | apply keeps_ret | apply keeps_if ].
Ltac framed :=
  repeat first
    [ apply tx_frame_stmt | apply tx_frame_bind; [|intros ?] | apply tx_frame_fail | apply tx_frame_ret
    | apply tx_frame_if ].


End Transactions.
