(* ===== verification/AdminRepo.v ===== *)
(** * Administrators: tables and repository

    [src/internal/storage/admin_auth_repo.go] over the tables of the migrations:
    [admin_users], [refresh_tokens], [password_reset_tokens],
    [email_verification_tokens], [projects] and [project_members], with their
    unique indexes, foreign keys and checks.  A statement is atomic.  A
    transaction is a sequence of statements that sees its own changes, leaves the
    tables as they were unless all of it succeeds, and, as PostgreSQL does, runs
    no statement after a failed one. *)

From Stdlib Require Import Ascii.
From stdpp Require Import gmap.
From S2P Require Import Prelude GoStrings Store Transactions.

Module AdminRepo.
Export Store Transactions.
#[local] Open Scope store_scope.

(** ** Rows *)

Record AdminUser := mkUser {
  UserID : string;
  Username : string;
  Email : string;
  PasswordHash : option string;
  GoogleID : option string;
  AvatarURL : option string;
  AuthProvider : string;
  EmailVerified : bool;
  FailedLoginAttempts : Z;
  LockedUntil : option Z;
  LastLoginAt : option Z;
  UserCreatedAt : Z;
  is_super_admin : bool;
}.

Record RefreshToken := mkRefresh {
  RefreshUser : string;
  RefreshHash : string;
  RefreshExpiresAt : Z;
  RevokedAt : option Z;
  IPAddress : option string;
  UserAgent : option string;
  RefreshCreatedAt : Z;
}.

(** A row of [password_reset_tokens] or of [email_verification_tokens]. *)
Record OneTimeToken := mkOneTime {
  TokenID : string;
  TokenUser : string;
  TokenHash : string;
  TokenExpiresAt : Z;
  UsedAt : option Z;
  TokenCreatedAt : Z;
}.

Record Project := mkProject {
  ProjectID : string;
  Name : string;
  Slug : string;
  OwnerID : string;
  Plan : string;
  ProjectIsActive : bool;
  ProjectCreatedAt : Z;
  ProjectDeletedAt : option Z;
}.

(** Tables with a unique [token_hash] are maps from it, the others from [id]. *)
Record tables_of_admin := mkTables {
  users : gmap string AdminUser;
  refresh_tokens : gmap string RefreshToken;
  reset_tokens : gmap string OneTimeToken;
  verification_tokens : gmap string OneTimeToken;
  projects : gmap string Project;
  project_members : gmap (string * string) string;
}.

Definition set_users (m : gmap string AdminUser) (t : tables_of_admin) : tables_of_admin :=
  mkTables m (refresh_tokens t) (reset_tokens t) (verification_tokens t) (projects t) (project_members t).
Definition set_refresh (m : gmap string RefreshToken) (t : tables_of_admin) : tables_of_admin :=
  mkTables (users t) m (reset_tokens t) (verification_tokens t) (projects t) (project_members t).
Definition set_resets (m : gmap string OneTimeToken) (t : tables_of_admin) : tables_of_admin :=
  mkTables (users t) (refresh_tokens t) m (verification_tokens t) (projects t) (project_members t).
Definition set_verifications (m : gmap string OneTimeToken) (t : tables_of_admin) : tables_of_admin :=
  mkTables (users t) (refresh_tokens t) (reset_tokens t) m (projects t) (project_members t).
Definition set_projects (m : gmap string Project) (t : tables_of_admin) : tables_of_admin :=
  mkTables (users t) (refresh_tokens t) (reset_tokens t) (verification_tokens t) m (project_members t).
Definition set_members (m : gmap (string * string) string) (t : tables_of_admin) : tables_of_admin :=
  mkTables (users t) (refresh_tokens t) (reset_tokens t) (verification_tokens t) (projects t) m.

Definition empty_tables : tables_of_admin := mkTables ∅ ∅ ∅ ∅ ∅ ∅.

(** ** Errors, statements, transactions *)

Inductive error :=
| ErrDB
| ErrNoRows                                   (* sql.ErrNoRows *)
| UniqueViolation (constraint : string)       (* 23505 *)
| CheckViolation (constraint : string)        (* 23514 *)
| ForeignKeyViolation                         (* 23503 *)
| TxAborted                                   (* 25P02 *)
| ErrUserNotFound
| ErrInvalidPasswordResetToken
| ErrInvalidEmailVerificationToken.

#[global] Instance error_eq_dec : EqDecision error.
Proof. solve_decision. Defined.
#[global] Instance admin_db_error : DBError error := ErrDB.
#[global] Instance admin_tx_error : TxError error := TxAborted.

Definition is_unique_violation (e : error) : bool :=
  match e with UniqueViolation _ => true | _ => false end.

Abbreviation A := (M tables_of_admin error).
Abbreviation T := (M (tables_of_admin * bool) error).

(** What a statement does at a time: its error, or the new tables and its result. *)
Abbreviation action X := (Z → tables_of_admin → result error (tables_of_admin * X)).

(** ** Lookups and constraints *)

Definition nullText (v : string) : option string := if String.eqb v "" then None else Some v.

Definition read {X} (f : tables_of_admin → option X) : action X :=
  λ _ t, match f t with Some x => Ok (t, x) | None => Err ErrNoRows end.

Definition user_where (p : AdminUser → bool) (t : tables_of_admin) : option AdminUser :=
  find_first p (rows (users t)).

(** [email] is CITEXT. *)
Definition same_email (a b : string) : bool := String.eqb (ToLower a) (ToLower b).

(** CHECK (email ~* '^[^@]+@[^@]+\.[^@]+$'). *)
Definition dot_inside (domain : string) : bool :=
  match domain with
  | EmptyString => false
  | String _ rest => contains_byte "." (stake (len rest - 1) rest)
  end.
Definition email_format (email : string) : bool :=
  match Split "@" email with
  | [local; domain] => negb (String.eqb local "") && dot_inside domain
  | _ => false
  end.

(** CHECK (slug ~ '^[a-z0-9][a-z0-9\-]{1,62}[a-z0-9]$'). *)
Definition alnum (c : ascii) : bool := is_lower c || is_digit c.
Definition slug_format (slug : string) : bool :=
  (3 <=? len slug)%nat && (len slug <=? 64)%nat &&
  sforallb (λ c, alnum c || Ascii.eqb c "-") slug &&
  head_ok alnum slug && head_ok alnum (String.rev slug).

(** What INSERT INTO admin_users is refused for, checks first, then the unique
    indexes in their order; [arbiter] is the constraint an ON CONFLICT clause
    names. *)
Definition user_conflict (u : AdminUser) (t : tables_of_admin) : option error :=
  if negb (email_format (Email u)) then Some (CheckViolation "admin_users_email_format")
  else if String.eqb (AuthProvider u) "password" && negb (bool_decide (is_Some (PasswordHash u)))
  then Some (CheckViolation "chk_admin_users_password_provider")
  else if bool_decide (is_Some (users t !! UserID u)) then Some (UniqueViolation "admin_users_pkey")
  else if existsb (λ v, String.eqb (Username v) (Username u)) (rows (users t))
  then Some (UniqueViolation "admin_users_username_key")
  else if existsb (λ v, same_email (Email v) (Email u)) (rows (users t))
  then Some (UniqueViolation "admin_users_email_unique")
  else if existsb (λ v, bool_decide (GoogleID v = GoogleID u ∧ is_Some (GoogleID u))) (rows (users t))
  then Some (UniqueViolation "idx_admin_users_google_id")
  else None.

Definition insert_user (u : AdminUser) : action AdminUser := λ _ t,
  match user_conflict u t with
  | Some e => Err e
  | None => Ok (set_users (<[UserID u := u]> (users t)) t, u)
  end.

(** ON CONFLICT ... DO NOTHING RETURNING: no row comes back. *)
Definition insert_user_unless (taken : tables_of_admin → bool) (u : AdminUser) : action AdminUser := λ now t,
  if negb (email_format (Email u)) then Err (CheckViolation "admin_users_email_format")
  else if taken t then Err ErrNoRows
  else insert_user u now t.

Definition insert_project (p : Project) : action Project := λ _ t,
  if negb (slug_format (Slug p)) then Err (CheckViolation "projects_slug_format")
  else if bool_decide (is_Some (projects t !! ProjectID p)) then Err (UniqueViolation "projects_pkey")
  else if existsb (λ q, String.eqb (Slug q) (Slug p) && bool_decide (ProjectDeletedAt q = None)) (rows (projects t))
  then Err (UniqueViolation "projects_slug_active_unique")
  else if negb (bool_decide (is_Some (users t !! OwnerID p))) then Err ForeignKeyViolation
  else Ok (set_projects (<[ProjectID p := p]> (projects t)) t, p).

Definition insert_member (projectID userID role : string) : action unit := λ _ t,
  if bool_decide (is_Some (project_members t !! (projectID, userID)))
  then Err (UniqueViolation "project_members_pkey")
  else Ok (set_members (<[(projectID, userID) := role]> (project_members t)) t, ()).

Definition insert_refresh (userID tokenHash : string) (expiresAt : Z) (ip ua : string) : action unit := λ now t,
  if bool_decide (is_Some (refresh_tokens t !! tokenHash)) then Err (UniqueViolation "refresh_tokens_token_hash_key")
  else if negb (bool_decide (is_Some (users t !! userID))) then Err ForeignKeyViolation
  else Ok (set_refresh (<[tokenHash :=
         mkRefresh userID tokenHash expiresAt None (nullText ip) (nullText ua) now]> (refresh_tokens t)) t, ()).

Definition update_users (p : AdminUser → bool) (f : Z → AdminUser → AdminUser) : action nat := λ now t,
  Ok (set_users (update_where p (f now) (users t)) t, count_where p (users t)).

Definition revoke (now : Z) (t : RefreshToken) : RefreshToken :=
  mkRefresh (RefreshUser t) (RefreshHash t) (RefreshExpiresAt t) (Some now) (IPAddress t) (UserAgent t)
    (RefreshCreatedAt t).
Definition unrevoked (t : RefreshToken) : bool := bool_decide (RevokedAt t = None).

Definition revoke_where (p : RefreshToken → bool) : action nat := λ now t,
  let q t := p t && unrevoked t in
  Ok (set_refresh (update_where q (revoke now) (refresh_tokens t)) t, count_where q (refresh_tokens t)).

Definition use_token (now : Z) (t : OneTimeToken) : OneTimeToken :=
  mkOneTime (TokenID t) (TokenUser t) (TokenHash t) (TokenExpiresAt t) (Some now) (TokenCreatedAt t).
Definition unused (t : OneTimeToken) : bool := bool_decide (UsedAt t = None).
Definition valid_token (now : Z) (t : OneTimeToken) : bool := unused t && (now <? TokenExpiresAt t)%Z.

Definition use_resets (p : Z → OneTimeToken → bool) : action nat := λ now t,
  let q x := p now x && unused x in
  Ok (set_resets (update_where q (use_token now) (reset_tokens t)) t, count_where q (reset_tokens t)).
Definition use_verifications (p : Z → OneTimeToken → bool) : action nat := λ now t,
  let q x := p now x && unused x in
  Ok (set_verifications (update_where q (use_token now) (verification_tokens t)) t,
      count_where q (verification_tokens t)).

Definition insert_reset (newID userID tokenHash : string) (expiresAt : Z) : action string := λ now t,
  if existsb (λ x, String.eqb (TokenID x) newID) (rows (reset_tokens t))
  then Err (UniqueViolation "password_reset_tokens_pkey")
  else if bool_decide (is_Some (reset_tokens t !! tokenHash))
  then Err (UniqueViolation "password_reset_tokens_token_hash_key")
  else if existsb (λ x, String.eqb (TokenUser x) userID && unused x) (rows (reset_tokens t))
  then Err (UniqueViolation "uq_password_reset_tokens_active_user")
  else if negb (bool_decide (is_Some (users t !! userID))) then Err ForeignKeyViolation
  else Ok (set_resets (<[tokenHash := mkOneTime newID userID tokenHash expiresAt None now]> (reset_tokens t)) t,
           newID).

Definition insert_verification (newID userID tokenHash : string) (expiresAt : Z) : action string := λ now t,
  if existsb (λ x, String.eqb (TokenID x) newID) (rows (verification_tokens t))
  then Err (UniqueViolation "email_verification_tokens_pkey")
  else if bool_decide (is_Some (verification_tokens t !! tokenHash))
  then Err (UniqueViolation "email_verification_tokens_token_hash_key")
  else if negb (bool_decide (is_Some (users t !! userID))) then Err ForeignKeyViolation
  else Ok (set_verifications
         (<[tokenHash := mkOneTime newID userID tokenHash expiresAt None now]> (verification_tokens t)) t, newID).

(** ** The repository *)

Definition by_id (id : string) (u : AdminUser) : bool := String.eqb (UserID u) id.
Definition by_username (name : string) (u : AdminUser) : bool := String.eqb (Username u) name.

Definition FindAdminUserByUsername (username : string) : A AdminUser :=
  stmt (read (user_where (by_username username))).
Definition FindAdminUserByID (id : string) : A AdminUser :=
  stmt (read (λ t, users t !! id)).
Definition FindAdminUserByGoogleID (googleID : string) : A AdminUser :=
  stmt (read (user_where (λ u, bool_decide (GoogleID u = Some googleID)))).
Definition FindAdminUserByEmail (email : string) : A AdminUser :=
  stmt (read (user_where (λ u, same_email (Email u) email))).

Definition CreateRefreshToken (userID tokenHash : string) (expiresAt : Z) (ip ua : string) : A unit :=
  stmt (insert_refresh userID tokenHash expiresAt ip ua).

Definition FindRefreshToken (tokenHash : string) : A RefreshToken :=
  stmt (read (λ t, refresh_tokens t !! tokenHash)).

Definition RevokeRefreshToken (tokenHash : string) : A unit :=
  let* _ := stmt (revoke_where (λ t, String.eqb (RefreshHash t) tokenHash)) in mret ().

Definition RotateRefreshToken (oldHash newHash userID : string) (newExpiresAt : Z) (ip ua : string) : A unit :=
  with_tx (
    let* affected := tx_stmt (revoke_where (λ t, String.eqb (RefreshHash t) oldHash)) in
    if negb (affected =? 1)%nat then mfail ErrNoRows
    else tx_stmt (insert_refresh userID newHash newExpiresAt ip ua)).

Definition day : Z := 24 * 60 * minute.

Definition PruneExpiredTokens : A unit :=
  stmt (λ now t, Ok (set_refresh (filter (λ '(_, r),
    ¬ (RefreshExpiresAt r < now ∨ default now (RevokedAt r) < now - 7 * day)%Z) (refresh_tokens t)) t, ())).

Definition login_succeeded (now : Z) (u : AdminUser) : AdminUser :=
  mkUser (UserID u) (Username u) (Email u) (PasswordHash u) (GoogleID u) (AvatarURL u) (AuthProvider u)
    (EmailVerified u) 0 None (Some now) (UserCreatedAt u) (is_super_admin u).
Definition login_failed (u : AdminUser) : AdminUser :=
  mkUser (UserID u) (Username u) (Email u) (PasswordHash u) (GoogleID u) (AvatarURL u) (AuthProvider u)
    (EmailVerified u) (FailedLoginAttempts u + 1) (LockedUntil u) (LastLoginAt u) (UserCreatedAt u)
    (is_super_admin u).
Definition lock_user (until : Z) (u : AdminUser) : AdminUser :=
  mkUser (UserID u) (Username u) (Email u) (PasswordHash u) (GoogleID u) (AvatarURL u) (AuthProvider u)
    (EmailVerified u) (FailedLoginAttempts u) (Some until) (LastLoginAt u) (UserCreatedAt u) (is_super_admin u).
Definition set_password (hash : string) (u : AdminUser) : AdminUser :=
  mkUser (UserID u) (Username u) (Email u) (Some hash) (GoogleID u) (AvatarURL u) (AuthProvider u)
    (EmailVerified u) 0 None (LastLoginAt u) (UserCreatedAt u) (is_super_admin u).
Definition verify_user (u : AdminUser) : AdminUser :=
  mkUser (UserID u) (Username u) (Email u) (PasswordHash u) (GoogleID u) (AvatarURL u) (AuthProvider u)
    true (FailedLoginAttempts u) (LockedUntil u) (LastLoginAt u) (UserCreatedAt u) (is_super_admin u).
Definition link_google (googleID avatarURL : string) (u : AdminUser) : AdminUser :=
  mkUser (UserID u) (Username u) (Email u) (PasswordHash u) (Some googleID)
    (match nullText avatarURL with Some a => Some a | None => AvatarURL u end) (AuthProvider u)
    true (FailedLoginAttempts u) (LockedUntil u) (LastLoginAt u) (UserCreatedAt u) (is_super_admin u).

Definition UpdateAdminLoginSuccess (userID : string) : A unit :=
  let* _ := stmt (update_users (by_id userID) login_succeeded) in mret ().
Definition IncrementAdminLoginFailure (username : string) : A unit :=
  let* _ := stmt (update_users (by_username username) (λ _, login_failed)) in mret ().
Definition LockAdminUser (username : string) (until : Z) : A unit :=
  let* _ := stmt (update_users (by_username username) (λ _, lock_user until)) in mret ().

Definition AdminUserCount : A nat := stmt (λ _ t, Ok (t, size (users t))).

(** [newID] and the like are what [gen_random_uuid()] yields. *)
Definition CreateAdminUser (newID username passwordHash : string) (isSuperAdmin : bool) : A AdminUser :=
  stmt (λ now t,
    insert_user_unless (λ t, existsb (by_username username) (rows (users t)))
      (mkUser newID username (username +:+ "@elitegate.local") (Some passwordHash) None None "password" true
         0 None None now isSuperAdmin) now t).

Definition IsSuperAdmin (userID : string) : A bool :=
  stmt (λ _ t, Ok (t, match users t !! userID with Some u => is_super_admin u | None => false end)).

(** The project, and once more under another slug if the first is taken. *)
Definition insert_project_retry (newID retryID name slug ownerID plan : string) : T Project := λ d,
  let row id slug now := mkProject id name slug ownerID plan true now None in
  match tx_stmt (λ now, insert_project (row newID slug now) now) d with
  | (d, Ok p) => (d, Ok p)
  | (d, Err e) =>
      if is_unique_violation e
      then tx_stmt (λ now, insert_project (row retryID (slug +:+ "-" +:+ stake 8 ownerID) now) now) d
      else (d, Err e)
  end.

Record SignupResult := mkSignup {
  SignupUser : AdminUser;
  SignupProject : Project;
  VerificationTokenID : string;
}.

(** The identifiers one sign-up draws. *)
Record new_ids := mkIDs { new_user : string; new_project : string; retry_project : string; new_token : string }.

Definition SignupTx (ids : new_ids) (username email passwordHash companyName slug plan verificationTokenHash : string)
    (verificationExpiresAt : Z) : A SignupResult :=
  with_tx (
    let* user := tx_stmt (λ now, insert_user
      (mkUser (new_user ids) username email (Some passwordHash) None None "password" false 0 None None now false)
      now) in
    let* project := insert_project_retry (new_project ids) (retry_project ids) companyName slug (UserID user) plan in
    let* _ := tx_stmt (insert_member (ProjectID project) (UserID user) "owner") in
    let* tokenID := tx_stmt (insert_verification (new_token ids) (UserID user) verificationTokenHash
                               verificationExpiresAt) in
    mret (mkSignup user project tokenID)).

Definition LinkGoogleAccount (userID googleID avatarURL : string) : A unit :=
  stmt (λ _ t,
    if existsb (λ v, negb (by_id userID v) && bool_decide (GoogleID v = Some googleID)) (rows (users t)) &&
       bool_decide (is_Some (users t !! userID))
    then Err (UniqueViolation "idx_admin_users_google_id")
    else Ok (set_users (update_where (by_id userID) (link_google googleID avatarURL) (users t)) t, ())).

Definition usernameFromEmail (email : string) : string :=
  match Split "@" (ToLower email) with p :: _ => p | [] => "" end.

Definition GoogleSignupTx (ids : new_ids) (email googleID avatarURL companyName slug : string) : A SignupResult :=
  with_tx (
    let* user := tx_stmt (λ now, insert_user_unless
      (λ t, existsb (λ v, same_email (Email v) email) (rows (users t)))
      (mkUser (new_user ids) (usernameFromEmail email) email None (Some googleID) (nullText avatarURL) "google" true
         0 None None now false) now) in
    let* project := insert_project_retry (new_project ids) (retry_project ids) companyName slug (UserID user) "free" in
    let* _ := tx_stmt (insert_member (ProjectID project) (UserID user) "owner") in
    mret (mkSignup user project "")).

Definition ReplacePasswordResetTokenTx (newID adminUserID tokenHash : string) (expiresAt : Z) : A string :=
  with_tx (
    let* _ := tx_stmt (read (λ t, users t !! adminUserID)) in
    let* _ := tx_stmt (use_resets (λ _ x, String.eqb (TokenUser x) adminUserID)) in
    tx_stmt (insert_reset newID adminUserID tokenHash expiresAt)).

Definition ReplaceEmailVerificationTokenTx (newID adminUserID tokenHash : string) (expiresAt : Z) : A string :=
  with_tx (
    let* _ := tx_stmt (read (λ t, users t !! adminUserID)) in
    let* _ := tx_stmt (use_verifications (λ _ x, String.eqb (TokenUser x) adminUserID)) in
    tx_stmt (insert_verification newID adminUserID tokenHash expiresAt)).

Definition InvalidatePasswordResetTokenByID (tokenID : string) : A unit :=
  let* _ := stmt (use_resets (λ _ x, String.eqb (TokenID x) tokenID)) in mret ().
Definition InvalidateEmailVerificationTokenByID (tokenID : string) : A unit :=
  let* _ := stmt (use_verifications (λ _ x, String.eqb (TokenID x) tokenID)) in mret ().

Definition find_valid (m : gmap string OneTimeToken) (tokenHash : string) (now : Z) : option OneTimeToken :=
  match m !! tokenHash with
  | Some x => if valid_token now x then Some x else None
  | None => None
  end.

Definition FindValidPasswordResetToken (tokenHash : string) : A OneTimeToken :=
  stmt (λ now t, match find_valid (reset_tokens t) tokenHash now with
                 | Some x => Ok (t, x)
                 | None => Err ErrInvalidPasswordResetToken
                 end).
Definition FindValidEmailVerificationToken (tokenHash : string) : A OneTimeToken :=
  stmt (λ now t, match find_valid (verification_tokens t) tokenHash now with
                 | Some x => Ok (t, x)
                 | None => Err ErrInvalidEmailVerificationToken
                 end).

(** UPDATE ... RETURNING admin_user_id on the one row with the hash. *)
Definition claim_verification (tokenHash : string) : action string := λ now t,
  match find_valid (verification_tokens t) tokenHash now with
  | Some x => Ok (set_verifications (<[tokenHash := use_token now x]> (verification_tokens t)) t, TokenUser x)
  | None => Err ErrInvalidEmailVerificationToken
  end.

Definition VerifyEmailTx (tokenHash : string) : A unit :=
  with_tx (
    let* adminUserID := tx_stmt (claim_verification tokenHash) in
    let* rows := tx_stmt (update_users (by_id adminUserID) (λ _, verify_user)) in
    if (rows =? 0)%nat then mfail ErrUserNotFound
    else
      let* _ := tx_stmt (use_verifications (λ _ x, String.eqb (TokenUser x) adminUserID)) in
      mret ()).

Definition ResetPasswordTx (resetTokenID adminUserID newPasswordHash : string) : A unit :=
  with_tx (
    let* rows := tx_stmt (use_resets (λ now x, String.eqb (TokenID x) resetTokenID &&
                            String.eqb (TokenUser x) adminUserID && (now <? TokenExpiresAt x)%Z)) in
    if (rows =? 0)%nat then mfail ErrInvalidPasswordResetToken
    else
      let* rowsUser := tx_stmt (update_users (by_id adminUserID) (λ _, set_password newPasswordHash)) in
      if (rowsUser =? 0)%nat then mfail ErrUserNotFound
      else
        let* _ := tx_stmt (revoke_where (λ t, String.eqb (RefreshUser t) adminUserID)) in
        mret ()).

Definition DeleteExpiredPasswordResetTokens : A nat :=
  stmt (λ now t,
    let gone x := (TokenExpiresAt x <? now)%Z || negb (unused x) in
    Ok (set_resets (filter (λ '(_, x), gone x = false) (reset_tokens t)) t, count_where gone (reset_tokens t))).

End AdminRepo.
