(* ===== verification/AdminAccess.v ===== *)
(** * Administrators: passwords, tokens, limits and access

    [src/internal/admin/password/validate.go]; the random tokens, the signed
    access tokens and the OAuth state of [src/internal/auth] ([tokens.go],
    [email_verification.go], [password_reset.go], [oauth_state.go]); the limits
    and gates of [src/internal/admin/middleware] ([rate_limit.go],
    [ip_rate_limit.go], [user_lookup_limit.go], [admin_auth.go],
    [super_admin.go]).  The JWT library and the Unicode tables beyond ASCII are
    parameters. *)

From Stdlib Require Import Ascii.
From stdpp Require Import gmap pretty.
From S2P Require Import Prelude GoStrings GoNet Store Http RateLimit.

(** ** Runes *)

Module Runes.
#[local] Open Scope Z_scope.

Definition in_bytes (lo hi : Z) (b : Z) : bool := (lo <=? b) && (b <=? hi).
Definition bad : Z := 0xFFFD.

(** The first rune of a text and the rest: an ill-formed byte is one rune. *)
Definition decode_rune (b : Z) (rest : list Z) : Z * list Z :=
  let tail x := Z.land x 0x3F in
  if b <? 0x80 then (b, rest)
  else if in_bytes 0xC2 0xDF b then
    match rest with
    | b1 :: rest' =>
        if in_bytes 0x80 0xBF b1 then (Z.lor (Z.shiftl (Z.land b 0x1F) 6) (tail b1), rest') else (bad, rest)
    | _ => (bad, rest)
    end
  else if in_bytes 0xE0 0xEF b then
    match rest with
    | b1 :: b2 :: rest' =>
        let lo := if b =? 0xE0 then 0xA0 else 0x80 in
        let hi := if b =? 0xED then 0x9F else 0xBF in
        if in_bytes lo hi b1 && in_bytes 0x80 0xBF b2
        then (Z.lor (Z.lor (Z.shiftl (Z.land b 0xF) 12) (Z.shiftl (tail b1) 6)) (tail b2), rest')
        else (bad, rest)
    | _ => (bad, rest)
    end
  else if in_bytes 0xF0 0xF4 b then
    match rest with
    | b1 :: b2 :: b3 :: rest' =>
        let lo := if b =? 0xF0 then 0x90 else 0x80 in
        let hi := if b =? 0xF4 then 0x8F else 0xBF in
        if in_bytes lo hi b1 && in_bytes 0x80 0xBF b2 && in_bytes 0x80 0xBF b3
        then (Z.lor (Z.lor (Z.lor (Z.shiftl (Z.land b 0x7) 18) (Z.shiftl (tail b1) 12))
                (Z.shiftl (tail b2) 6)) (tail b3), rest')
        else (bad, rest)
    | _ => (bad, rest)
    end
  else (bad, rest).

(** [for _, ch := range s]; every round takes at least one byte. *)
Fixpoint decode (fuel : nat) (bs : list Z) : list Z :=
  match fuel, bs with
  | S fuel, b :: bs => let '(r, rest) := decode_rune b bs in r :: decode fuel rest
  | _, _ => []
  end.
Definition runes (s : string) : list Z := decode (len s) (Sha256.string_bytes s).

Example runes_mixed : runes (bytes [97; 195; 169; 226; 132; 170; 240; 159; 152; 128; 255]%nat) =
  [97; 233; 0x212A; 0x1F600; bad].
Proof. vm_compute. reflexivity. Qed.

Lemma decode_rune_shorter b rest : (length (decode_rune b rest).2 ≤ length rest)%nat.
Proof.
  unfold decode_rune.
  repeat match goal with |- context [if ?x then _ else _] => destruct x end; try done;
    destruct rest as [|b1 [|b2 [|b3 rest]]]; simpl; try lia;
    repeat match goal with |- context [if ?x then _ else _] => destruct x end; simpl; lia.
Qed.

(** The fuel suffices: more of it changes nothing. *)
Lemma decode_enough n m bs : (length bs ≤ n)%nat → (n ≤ m)%nat → decode m bs = decode n bs.
Proof.
  revert m bs. induction n as [|n IH]; intros m bs Hn Hm.
  { destruct bs; [by destruct m|simpl in Hn; lia]. }
  destruct m as [|m]; [lia|]. destruct bs as [|b bs]; [done|]. simpl in *.
  pose proof (decode_rune_shorter b bs) as Hs. destruct (decode_rune b bs) as [r rest]. simpl in *.
  f_equal. apply IH; lia.
Qed.

Lemma length_string_bytes s : length (Sha256.string_bytes s) = len s.
Proof. induction s as [|c s IH]; [done|]. simpl. by rewrite IH. Qed.

End Runes.

(** Membership of the runes from 128 on in the classes of package [unicode]. *)
Class UnicodeTables := {
  table_upper : Z → bool;
  table_lower : Z → bool;
  table_digit : Z → bool;
  table_punct_symbol : Z → bool;
}.

Module Password.
Import Runes.
#[local] Open Scope Z_scope.

Section validate.
Context `{!UnicodeTables}.

Definition IsUpper (r : Z) : bool := if r <? 128 then in_bytes 65 90 r else table_upper r.
Definition IsLower (r : Z) : bool := if r <? 128 then in_bytes 97 122 r else table_lower r.
Definition IsDigit (r : Z) : bool := if r <? 128 then in_bytes 48 57 r else table_digit r.
(** [unicode.IsPunct(ch) || unicode.IsSymbol(ch)]. *)
Definition IsPunctOrSymbol (r : Z) : bool :=
  if r <? 128 then in_bytes 33 47 r || in_bytes 58 64 r || in_bytes 91 96 r || in_bytes 123 126 r
  else table_punct_symbol r.

Definition MinLength : Z := 8.
Definition MaxLength : Z := 72.

Definition WeakPasswords : list string :=
  ["admin123"; "password123"; "123456789012"; "qwerty123456"; "admin123456"; "letmein123456"; "welcome123456"].

(** [strings.EqualFold] against an ASCII text: only two runes beyond ASCII fold
    to an ASCII letter. *)
Definition fold (r : Z) : Z :=
  if in_bytes 65 90 r then r + 32 else if r =? 0x17F then 115 else if r =? 0x212A then 107 else r.
Definition EqualFoldASCII (s weak : string) : bool := bool_decide (fold <$> runes s = fold <$> runes weak).

Inductive error := TooShort | TooLong | TooCommon (password : string) | NoUpper | NoLower | NoDigit | NoSpecial.

(** [(hasUpper, hasLower, hasDigit, hasSpecial)] after one more rune. *)
Definition classify (f : bool * bool * bool * bool) (ch : Z) : bool * bool * bool * bool :=
  let '(u, l, d, s) := f in
  if IsUpper ch then (true, l, d, s)
  else if IsLower ch then (u, true, d, s)
  else if IsDigit ch then (u, l, true, s)
  else if IsPunctOrSymbol ch then (u, l, d, true)
  else f.

Definition Validate (password : string) : result error unit :=
  if Z.of_nat (len password) <? MinLength then Err TooShort
  else if MaxLength <? Z.of_nat (len password) then Err TooLong
  else if existsb (EqualFoldASCII password) WeakPasswords then Err (TooCommon password)
  else
    let '(hasUpper, hasLower, hasDigit, hasSpecial) :=
      fold_left classify (runes password) (false, false, false, false) in
    if negb hasUpper then Err NoUpper
    else if negb hasLower then Err NoLower
    else if negb hasDigit then Err NoDigit
    else if negb hasSpecial then Err NoSpecial
    else Ok ().

(** The class a rune counts for. *)
Inductive class := Upper | Lower | Digit | Special.
Definition class_of (ch : Z) : option class :=
  if IsUpper ch then Some Upper else if IsLower ch then Some Lower
  else if IsDigit ch then Some Digit else if IsPunctOrSymbol ch then Some Special else None.

#[global] Instance class_eq_dec : EqDecision class.
Proof. solve_decision. Defined.

Definition shows (c : class) (rs : list Z) : bool := existsb (λ r, bool_decide (class_of r = Some c)) rs.

Lemma classify_fold rs u l d s :
  fold_left classify rs (u, l, d, s) =
    (u || shows Upper rs, l || shows Lower rs, d || shows Digit rs, s || shows Special rs).
Proof.
  revert u l d s. induction rs as [|r rs IH]; intros u l d s; simpl.
  { by rewrite !orb_false_r. }
  unfold class_of.
  destruct (IsUpper r), (IsLower r), (IsDigit r), (IsPunctOrSymbol r); rewrite IH;
    repeat rewrite bool_decide_true by done; repeat rewrite bool_decide_false by done;
    simpl; rewrite ?orb_true_r; done.
Qed.

Lemma shows_spec c rs : shows c rs = true ↔ ∃ r, r ∈ rs ∧ class_of r = Some c.
Proof.
  unfold shows. rewrite existsb_exists. setoid_rewrite bool_decide_eq_true.
  by setoid_rewrite list_elem_of_In.
Qed.

(** A password is accepted exactly if it has 8 to 72 bytes, is no weak
    password in any case, and shows a rune of each of the four classes. *)
Theorem Validate_spec password :
  Validate password = Ok () ↔
  8 ≤ Z.of_nat (len password) ≤ 72 ∧
  (∀ weak, weak ∈ WeakPasswords → fold <$> runes password ≠ fold <$> runes weak) ∧
  ∀ c, ∃ r, r ∈ runes password ∧ class_of r = Some c.
Proof.
  unfold Validate, MinLength, MaxLength.
  destruct (Z.ltb_spec (Z.of_nat (len password)) 8); [split; [done|lia]|].
  destruct (Z.ltb_spec 72 (Z.of_nat (len password))); [split; [done|lia]|].
  destruct (existsb _ _) eqn:Hw.
  { split; [done|]. intros (_ & Hne & _). apply existsb_exists in Hw as (w & Hin & Heq).
    apply bool_decide_eq_true in Heq. by destruct (Hne w ltac:(by apply list_elem_of_In)). }
  assert (Hweak : ∀ weak, weak ∈ WeakPasswords → fold <$> runes password ≠ fold <$> runes weak).
  { intros w Hin Heq. apply list_elem_of_In in Hin.
    assert (existsb (EqualFoldASCII password) WeakPasswords = true); [|congruence].
    apply existsb_exists. exists w. split; [done|]. by apply bool_decide_eq_true. }
  rewrite classify_fold. simpl.
  assert (Hall : (∀ c, ∃ r, r ∈ runes password ∧ class_of r = Some c) ↔
    shows Upper (runes password) = true ∧ shows Lower (runes password) = true ∧
    shows Digit (runes password) = true ∧ shows Special (runes password) = true).
  { rewrite !shows_spec. split; [auto|]. by intros (?&?&?&?) []. }
  rewrite Hall.
  destruct (shows Upper _), (shows Lower _), (shows Digit _), (shows Special _); simpl;
    (split; [done|intros (_ & _ & ? & ? & ? & ?); congruence]) || (split; [|done]; split_and!; [lia..|done|done|done|done|done]).
Qed.

End validate.

(** The tables for texts in ASCII. *)
Definition ascii_tables : UnicodeTables := {|
  table_upper := λ _, false; table_lower := λ _, false; table_digit := λ _, false;
  table_punct_symbol := λ _, false |}.

Example valid_password : @Validate ascii_tables "P@ss123!" = Ok ().
Proof. vm_compute. reflexivity. Qed.
Example weak_password : @Validate ascii_tables "PassWord123" = Err (TooCommon "PassWord123").
Proof. vm_compute. reflexivity. Qed.
Example no_special_password : @Validate ascii_tables "Password1234" = Err NoSpecial.
Proof. vm_compute. reflexivity. Qed.

End Password.

(** ** Tokens *)

Module Tokens.
#[local] Open Scope Z_scope.

(** [base64.RawURLEncoding]. *)
Definition sextet (n : Z) : ascii :=
  ascii_of_nat (Z.to_nat
    (if n <? 26 then 65 + n else if n <? 52 then 71 + n else if n <? 62 then n - 4
     else if n =? 62 then 45 else 95)).

Definition char_at (k w : Z) : ascii := sextet (Z.land (Z.shiftr w k) 63).

Fixpoint EncodeToString (bs : list Z) : string :=
  match bs with
  | a :: b :: c :: bs =>
      let w := a * 2 ^ 16 + b * 2 ^ 8 + c in
      String (char_at 18 w) (String (char_at 12 w) (String (char_at 6 w) (String (char_at 0 w) (EncodeToString bs))))
  | [a; b] => let w := a * 2 ^ 16 + b * 2 ^ 8 in
      String (char_at 18 w) (String (char_at 12 w) (String (char_at 6 w) ""))
  | [a] => let w := a * 2 ^ 16 in String (char_at 18 w) (String (char_at 12 w) "")
  | [] => ""
  end.

Example base64_man : EncodeToString (Sha256.string_bytes "light wor") = "bGlnaHQgd29y".
Proof. vm_compute. reflexivity. Qed.
Example base64_url : EncodeToString [251; 255; 254; 255] = "-__-_w".
Proof. vm_compute. reflexivity. Qed.

Definition HashToken (raw : string) : string := Sha256.sha256_hex raw.

(** [GenerateRefreshToken], [GenerateEmailVerificationToken] and
    [GeneratePasswordResetToken] draw this many bytes and encode them. *)
Definition PasswordResetTokenBytes : nat := 32.
Definition GenerateToken (drawn : list Z) : string := EncodeToString drawn.

(** [GeneratePKCEPair] from the bytes drawn. *)
Definition word_bytes (w : Z) : list Z := (λ k, Z.land (Z.shiftr w k) 255) <$> [24; 16; 8; 0].
Definition digest_bytes (d : Sha256.digest) : list Z :=
  word_bytes (Sha256.dA d) ++ word_bytes (Sha256.dB d) ++ word_bytes (Sha256.dC d) ++ word_bytes (Sha256.dD d) ++
  word_bytes (Sha256.dE d) ++ word_bytes (Sha256.dF d) ++ word_bytes (Sha256.dG d) ++ word_bytes (Sha256.dH d).
Definition GeneratePKCEPair (drawn : list Z) : string * string :=
  let verifier := EncodeToString drawn in
  (verifier, EncodeToString (digest_bytes (Sha256.Sum256 verifier))).

(** RFC 7636, appendix B. *)
Example pkce_rfc7636 :
  GeneratePKCEPair
    [116; 24; 223; 180; 151; 153; 224; 37; 79; 250; 96; 125; 216; 173; 187; 186; 22; 212; 37; 77; 105; 214; 191;
     240; 91; 88; 5; 88; 83; 132; 141; 121] =
  ("dBjftJeZ4CVP-mB92K27uhbUJU1p1r_wW1gFWFOEjXk", "E9Melhoa2OwvFrEMTJguCHaoeK1t8URWbuGJSstw-cM").
Proof. vm_compute. reflexivity. Qed.

(** *** Alphabet and length *)

Definition token_char (c : ascii) : bool :=
  is_upper c || is_lower c || is_digit c || Ascii.eqb c "-" || Ascii.eqb c "_".

Lemma char_at_ok k w : token_char (char_at k w) = true.
Proof.
  unfold char_at. assert (∃ n, Z.land (Z.shiftr w k) 63 = Z.of_nat n ∧ (n ≤ 63)%nat) as (n & -> & Hn).
  { pose proof (Z.land_ones (Z.shiftr w k) 6 ltac:(lia)) as E. change (Z.ones 6) with 63 in E. rewrite E.
    pose proof (Z.mod_pos_bound (Z.shiftr w k) (2 ^ 6)). exists (Z.to_nat (Z.shiftr w k mod 2 ^ 6)). lia. }
  do 64 (destruct n as [|n]; [vm_compute; reflexivity|]). lia.
Qed.

#[local] Arguments char_at : simpl never.

Lemma encode_spec bs :
  sforallb token_char (EncodeToString bs) = true ∧
  len (EncodeToString bs) = ((4 * length bs + 2) / 3)%nat.
Proof.
  enough (H : ∀ n bs, (length bs ≤ n)%nat → sforallb token_char (EncodeToString bs) = true ∧
    len (EncodeToString bs) = ((4 * length bs + 2) / 3)%nat) by by apply (H (length bs)).
  clear bs. intros n. induction n as [n IH] using lt_wf_ind. intros [|a [|b [|c bs]]] Hn; [done|..].
  - cbn [EncodeToString sforallb String.length length]. by rewrite !char_at_ok.
  - cbn [EncodeToString sforallb String.length length]. by rewrite !char_at_ok.
  - simpl in Hn. destruct (IH (length bs) ltac:(lia) bs ltac:(done)) as [H1 H2].
    cbn [EncodeToString sforallb String.length length]. rewrite !char_at_ok, H1, H2. split; [done|].
    replace (4 * S (S (S (length bs))) + 2)%nat with ((4 * length bs + 2) + 4 * 3)%nat by lia.
    rewrite Nat.div_add; lia.
Qed.

Lemma token_is_graphic s : sforallb token_char s = true → sforallb is_graphic s = true.
Proof.
  induction s as [|c s IH]; [done|]. simpl. intros [Hc Hs]%andb_true_iff. rewrite IH by done.
  rewrite andb_true_r. revert Hc. unfold token_char, is_graphic, is_upper, is_lower, is_digit.
  destruct (Ascii.eqb_spec c "-") as [->|]; [done|]. destruct (Ascii.eqb_spec c "_") as [->|]; [done|].
  rewrite !orb_false_r, !orb_true_iff, !andb_true_iff, !Nat.leb_le. lia.
Qed.

End Tokens.

(** ** Signed tokens *)

(** [golang-jwt/jwt/v5] for one type of claims.  The key function sees the
    algorithm of the token's header. *)
Inductive jwt_error := ErrTokenExpired | ErrTokenOther (text : string).

Class Expiring (C : Type) := claims_expiry : C → option Z.            (* the exp claim, in seconds *)

Class JWT (C : Type) := {
  SignedString : string → C → string → result string string;        (* algorithm, claims, key *)
  ParseWithClaims : Z → (string → result string string) → string → result jwt_error (C * bool);
  signature_ok : string → string → string → bool;                    (* token, algorithm, key *)
}.

(** Documented behaviour: a compact serialisation has no blanks; what was signed
    under the key the key function chooses parses until it expires; what parses
    carries a valid signature under that key. *)
Class JWTLaws (C : Type) `{!Expiring C, !JWT C} := {
  signed_compact alg c key raw : SignedString alg c key = Ok raw → sforallb is_graphic raw = true;
  signed_parses alg c key raw now kf exp :
    SignedString alg c key = Ok raw → kf alg = Ok key → claims_expiry c = Some exp →
    ParseWithClaims now kf raw = if (now <? exp * second)%Z then Ok (c, true) else Err ErrTokenExpired;
  parsed_signed now kf raw c v :
    ParseWithClaims now kf raw = Ok (c, v) →
    ∃ alg key, kf alg = Ok key ∧ signature_ok raw alg key = true;
}.

Definition NumericDate (t : Z) : Z := (t / second)%Z.

Module AdminToken.
#[local] Open Scope Z_scope.

Definition AdminRole : string := "admin".
Definition AccessTokenTTL : Z := 15 * minute.
Definition RefreshTokenTTL : Z := 7 * 24 * 60 * minute.
Definition EmailVerificationTokenTTL : Z := 30 * minute.
Definition MinJWTSecretByteLength : Z := 32.
Definition HS256 : string := "HS256".

Record AdminClaims := mkClaims {
  Username : string;
  Role : string;
  Subject : string;
  Issuer : string;
  IssuedAt : Z;
  ExpiresAt : Z;
}.

#[global] Instance AdminClaims_eq_dec : EqDecision AdminClaims.
Proof. solve_decision. Defined.

#[global] Instance admin_expiring : Expiring AdminClaims := λ c, Some (ExpiresAt c).

Record AdminTokenManager := mkManager { secret : string; issuer : string }.

Definition NewAdminTokenManager (secret issuer : string) : option AdminTokenManager :=
  if Z.of_nat (len secret) <? MinJWTSecretByteLength then None
  else Some (mkManager secret (if String.eqb issuer "" then "elitegate-admin" else issuer)).

Inductive error := TokenExpired | InvalidToken.

Section tokens.
Context `{!JWT AdminClaims}.

Definition CreateAdminAccessToken (m : AdminTokenManager) (now : Z) (userID username : string)
  : result string string :=
  SignedString HS256
    (mkClaims username AdminRole userID (issuer m) (NumericDate now) (NumericDate (now + AccessTokenTTL)))
    (secret m).

Definition keyfunc (m : AdminTokenManager) (alg : string) : result string string :=
  if negb (String.eqb alg HS256) then Err "unexpected signing method" else Ok (secret m).

Definition ValidateAdminAccessToken (m : AdminTokenManager) (now : Z) (raw : string) : result error AdminClaims :=
  match ParseWithClaims now (keyfunc m) raw with
  | Err ErrTokenExpired => Err TokenExpired
  | Err _ => Err InvalidToken
  | Ok (claims, valid) =>
      if negb valid || negb (String.eqb (Role claims) AdminRole) || String.eqb (Subject claims) ""
      then Err InvalidToken
      else Ok claims
  end.

(** [middleware.AdminAuth]: the answer, or the identity for the handlers. *)
Definition AdminAuth (m : AdminTokenManager) (now : Z) (authorization : string)
  : result (Z * string) (string * string) :=
  if String.eqb authorization "" || negb (HasPrefix authorization "Bearer ") then Err (401, "missing bearer token")
  else
    match ValidateAdminAccessToken m now (TrimSpace (TrimPrefix authorization "Bearer ")) with
    | Err TokenExpired => Err (401, "token expired")
    | Err InvalidToken => Err (401, "invalid token")
    | Ok claims =>
        if negb (String.eqb (Role claims) AdminRole) then Err (403, "forbidden")
        else Ok (Subject claims, Username claims)
    end.

(** What [AdminAuth] lets through. *)
Lemma AdminAuth_admits `{!JWTLaws AdminClaims} m now h id name :
  AdminAuth m now h = Ok (id, name) →
  id ≠ "" ∧ ∃ c raw, ParseWithClaims now (keyfunc m) raw = Ok (c, true) ∧
    h = "Bearer " +:+ TrimPrefix h "Bearer " ∧ raw = TrimSpace (TrimPrefix h "Bearer ") ∧
    signature_ok raw HS256 (secret m) = true ∧ Role c = AdminRole ∧ Subject c = id ∧ Username c = name.
Proof.
  unfold AdminAuth, ValidateAdminAccessToken. intros H.
  destruct (String.eqb_spec h ""); [done|]. destruct (HasPrefix h "Bearer ") eqn:Hp; [|done]. simpl in H.
  set (raw := TrimSpace _) in *. destruct (ParseWithClaims _ _ _) as [[c v]|[]] eqn:Hparse; [|done..].
  destruct v; [|done]. simpl in H.
  destruct (String.eqb_spec (Role c) AdminRole) as [Hr|]; [|done].
  destruct (String.eqb_spec (Subject c) ""); [done|]. simpl in H. rewrite Hr, String.eqb_refl in H. simplify_eq/=.
  split; [done|]. exists c, raw. destruct (parsed_signed _ _ _ _ _ Hparse) as (alg & key & Hk & Hs).
  unfold keyfunc in Hk. destruct (String.eqb_spec alg HS256) as [->|]; [|done]. simplify_eq/=.
  split_and!; try done. apply HasPrefix_spec in Hp as [rest ->]. by rewrite TrimPrefix_app.
Qed.

(** The access token of a login identifies its user to [AdminAuth] up to the
    second of its expiry, 15 minutes after it was issued, and from then on is
    answered as expired. *)
Theorem access_token_roundtrip `{!JWTLaws AdminClaims} m issued now userID username raw :
  userID ≠ "" →
  CreateAdminAccessToken m issued userID username = Ok raw →
  AdminAuth m now ("Bearer " +:+ raw) =
    if now <? NumericDate (issued + AccessTokenTTL) * second
    then Ok (userID, username) else Err (401, "token expired").
Proof.
  intros Hid Hraw. unfold AdminAuth, ValidateAdminAccessToken.
  rewrite TrimPrefix_app, HasPrefix_app. change (String.eqb ("Bearer " +:+ raw) "") with false.
  cbn [orb negb]. rewrite TrimSpace_graphic by by eapply signed_compact.
  erewrite signed_parses; [|exact Hraw|done|reflexivity]. simpl.
  destruct (now <? _) eqn:Hn; [|done]. simpl. by destruct (String.eqb_spec userID "").
Qed.

End tokens.

(** *** A library that signs one token *)

Definition sample_claims : AdminClaims :=
  mkClaims "root" AdminRole "u-1" "elitegate-admin" 100 1000.
Definition sample_secret : string := "0123456789abcdef0123456789abcdef".

Definition sample_jwt : JWT AdminClaims := {|
  SignedString alg c key :=
    if decide (alg = HS256 ∧ c = sample_claims ∧ key = sample_secret) then Ok "e30.e30.c2ln" else Err "unsupported";
  ParseWithClaims now kf raw :=
    if String.eqb raw "e30.e30.c2ln" then
      match kf HS256 with
      | Ok key => if decide (key = sample_secret)
                  then if now <? 1000 * second then Ok (sample_claims, true) else Err ErrTokenExpired
                  else Err (ErrTokenOther "signature is invalid")
      | Err e => Err (ErrTokenOther e)
      end
    else Err (ErrTokenOther "token is malformed");
  signature_ok raw alg key := bool_decide (raw = "e30.e30.c2ln" ∧ alg = HS256 ∧ key = sample_secret);
|}.

Lemma sample_jwt_laws : @JWTLaws AdminClaims admin_expiring sample_jwt.
Proof.
  split; simpl.
  - intros alg c key raw H. case_decide; [|done]. simplify_eq. by vm_compute.
  - intros alg c key raw now kf exp H Hk He. case_decide as Hd; [|done]. destruct Hd as (-> & -> & ->).
    injection H as <-. injection He as <-. rewrite String.eqb_refl, Hk, decide_True by done. done.
  - intros now kf raw c v H. destruct (String.eqb_spec raw "e30.e30.c2ln") as [->|]; [|done].
    destruct (kf HS256) as [key|] eqn:Hk; [|done]. case_decide; [|done]. simplify_eq.
    exists HS256, sample_secret. split; [done|]. by apply bool_decide_eq_true.
Qed.

Lemma access_token_roundtrip_witness :
  @AdminAuth sample_jwt (mkManager sample_secret "elitegate-admin") (999 * second) "Bearer e30.e30.c2ln" =
    Ok ("u-1", "root") ∧
  @AdminAuth sample_jwt (mkManager sample_secret "elitegate-admin") (1000 * second) "Bearer e30.e30.c2ln" =
    Err (401, "token expired").
Proof.
  split.
  - exact (@access_token_roundtrip sample_jwt sample_jwt_laws (mkManager sample_secret "elitegate-admin")
      (100 * second) (999 * second) "u-1" "root" "e30.e30.c2ln" ltac:(done) ltac:(vm_compute; reflexivity)).
  - exact (@access_token_roundtrip sample_jwt sample_jwt_laws (mkManager sample_secret "elitegate-admin")
      (100 * second) (1000 * second) "u-1" "root" "e30.e30.c2ln" ltac:(done) ltac:(vm_compute; reflexivity)).
Defined.

End AdminToken.

(** ** The state of the Google flow *)

Module OAuthState.
#[local] Open Scope Z_scope.

Definition oauthStateTTL : Z := 10 * minute.

Record oauthStateClaims := mkState { CodeVerifier : string; StateIssuedAt : Z; StateExpiresAt : Z }.

#[global] Instance state_expiring : Expiring oauthStateClaims := λ c, Some (StateExpiresAt c).

Section state.
Context `{!JWT oauthStateClaims} (secret : string).

Definition CreateState (now : Z) (codeVerifier : string) : result string string :=
  SignedString AdminToken.HS256
    (mkState codeVerifier (NumericDate now) (NumericDate (now + oauthStateTTL))) secret.

Definition ValidateState (now : Z) (raw : string) : result string string :=
  match ParseWithClaims now (λ _, Ok secret) raw with
  | Err _ => Err "invalid or expired oauth state"
  | Ok (claims, valid) => if negb valid then Err "invalid oauth state" else Ok (CodeVerifier claims)
  end.

Lemma state_roundtrip `{!JWTLaws oauthStateClaims} issued now v raw :
  CreateState issued v = Ok raw →
  ValidateState now raw =
    if now <? NumericDate (issued + oauthStateTTL) * second then Ok v else Err "invalid or expired oauth state".
Proof.
  intros H. unfold ValidateState. erewrite signed_parses; [|exact H|done|reflexivity].
  simpl. by destruct (now <? _).
Qed.
End state.

End OAuthState.

(** ** Limits *)

Module LoginRateLimiter.
#[local] Open Scope Z_scope.

Record t := mk { failures : gmap string (list Z); limit : Z; window : Z }.

Definition NewLoginRateLimiter (limit window : Z) : t := mk ∅ limit window.

Definition compact (l : t) (ip : string) (now : Z) : t * list Z :=
  let cutoff := now - window l in
  let kept := filter (λ t, cutoff < t) (default [] (failures l !! ip)) in
  (mk (<[ip := kept]> (failures l)) (limit l) (window l), kept).

Definition TooManyFailures (now : Z) (ip : string) (l : t) : t * bool :=
  let '(l, kept) := compact l ip now in (l, limit l <=? Z.of_nat (length kept)).

Definition RecordFailure (now : Z) (ip : string) (l : t) : t :=
  let '(l, kept) := compact l ip now in mk (<[ip := kept ++ [now]]> (failures l)) (limit l) (window l).

Definition Reset (ip : string) (l : t) : t := mk (delete ip (failures l)) (limit l) (window l).

(** *** The log it stands for *)

Inductive op := Asked (now : Z) (ip : string) | Failed (now : Z) (ip : string) | WasReset (ip : string).

Definition exec (o : op) (l : t) : t :=
  match o with
  | Asked now ip => (TooManyFailures now ip l).1
  | Failed now ip => RecordFailure now ip l
  | WasReset ip => Reset ip l
  end.

Definition run (limit window : Z) (h : list op) : t := fold_left (λ l o, exec o l) h (NewLoginRateLimiter limit window).

(** The failures of an address since its last reset, in order. *)
Definition log_step (ip : string) (ts : list Z) (o : op) : list Z :=
  match o with
  | Failed now i => if String.eqb i ip then ts ++ [now] else ts
  | WasReset i => if String.eqb i ip then [] else ts
  | Asked _ _ => ts
  end.
Definition since_reset (ip : string) (h : list op) : list Z := fold_left (log_step ip) h [].

(** No operation runs at a later time than [now]. *)
Definition before (now : Z) (h : list op) : Prop :=
  Forall (λ o, match o with Asked t _ | Failed t _ => t ≤ now | WasReset _ => True end) h.

Lemma run_snoc limit window h o : run limit window (h ++ [o]) = exec o (run limit window h).
Proof. unfold run. by rewrite fold_left_app. Qed.
Lemma since_snoc ip h o : since_reset ip (h ++ [o]) = log_step ip (since_reset ip h) o.
Proof. unfold since_reset. by rewrite fold_left_app. Qed.

Lemma exec_limits lim win h : limit (run lim win h) = lim ∧ window (run lim win h) = win.
Proof.
  induction h as [|o h [IH1 IH2]] using rev_ind; [done|]. rewrite run_snoc.
  by destruct o; simpl; rewrite ?IH1, ?IH2.
Qed.

(** The slices hold the part of the log that any later cut-off keeps. *)
Lemma run_keeps lim win h ip now :
  before now h →
  filter (λ t, now - win < t) (default [] (failures (run lim win h) !! ip)) =
  filter (λ t, now - win < t) (since_reset ip h).
Proof.
  intros Hb. induction h as [|o h IH] using rev_ind; [done|].
  apply Forall_app in Hb as [Hb [Ho _]%Forall_cons]. specialize (IH Hb).
  rewrite run_snoc, since_snoc. destruct (exec_limits lim win h) as [El Ew].
  assert (Hcompact : ∀ t i, t ≤ now →
    filter (λ t, now - win < t) (default [] (failures (compact (run lim win h) i t).1 !! ip)) =
    filter (λ t, now - win < t) (since_reset ip h)).
  { intros t i Ht. rewrite <-IH. simpl. rewrite Ew. destruct (decide (i = ip)) as [->|].
    - rewrite lookup_insert_eq. simpl. rewrite list_filter_filter_l; [done|]. intros x. lia.
    - by rewrite lookup_insert_ne. }
  destruct o as [t i|t i|i]; simpl in *.
  - by apply Hcompact.
  - rewrite Ew. destruct (String.eqb_spec i ip) as [->|Hne].
    + rewrite lookup_insert_eq. simpl. rewrite !filter_app, <-IH. f_equal.
      rewrite list_filter_filter_l; [done|]. intros x. lia.
    + by rewrite !lookup_insert_ne.
  - destruct (String.eqb_spec i ip) as [->|Hne]; [by rewrite lookup_delete_eq|by rewrite lookup_delete_ne].
Qed.

(** After any history an address is refused exactly if its failures of the
    last window, counted since its last successful login, reach the limit. *)
Theorem TooManyFailures_counts lim win h now ip :
  before now h →
  (TooManyFailures now ip (run lim win h)).2 =
    (lim <=? Z.of_nat (length (filter (λ t, now - win < t) (since_reset ip h)))).
Proof.
  intros Hb. unfold TooManyFailures. destruct (exec_limits lim win h) as [El Ew]. simpl.
  by rewrite El, Ew, run_keeps.
Qed.

Definition sample_history : list op :=
  [Failed 0 "10.0.0.1"; WasReset "10.0.0.1"; Failed (2 * second) "10.0.0.1"; Failed (3 * second) "10.0.0.1"].

Lemma TooManyFailures_counts_witness :
  before (61 * second) sample_history ∧
  (TooManyFailures (61 * second) "10.0.0.1" (run 2 minute sample_history)).2 = true ∧
  (TooManyFailures (63 * second) "10.0.0.1" (run 2 minute sample_history)).2 = false.
Proof.
  assert (Hb : ∀ t, 61 * second <= t → before t sample_history).
  { intros t Ht. unfold before, sample_history, second in *.
    repeat (apply Forall_cons; split); try apply Forall_nil; lia. }
  split; [by apply Hb|]. split.
  - rewrite TooManyFailures_counts by by apply Hb. vm_compute. reflexivity.
  - rewrite TooManyFailures_counts by (apply Hb; unfold second; lia). vm_compute. reflexivity.
Defined.

End LoginRateLimiter.

(** ** Gates in front of the handlers *)

Module Gates.
Import Http.
#[local] Open Scope Z_scope.

(** [middleware.ClientIP]. *)
Definition ClientIP (remoteAddr : string) : string :=
  match GoNet.SplitHostPort remoteAddr with
  | Ok (host, _) => if negb (String.eqb host "") then host else TrimSpace remoteAddr
  | Err _ => TrimSpace remoteAddr
  end.

Definition realClientIP (r : request) (trustProxyHeaders : bool) : string :=
  let xff := Get (Header r) "X-Forwarded-For" in
  let first := TrimSpace (default "" (head (Split "," xff))) in
  let xrip := Get (Header r) "X-Real-IP" in
  if trustProxyHeaders && negb (String.eqb xff "") && negb (String.eqb first "") then first
  else if trustProxyHeaders && negb (String.eqb xrip "") then xrip
  else ClientIP (RemoteAddr r).

(** What a gate answers, or that the next handler runs; the headers are set in
    both cases. *)
Record verdict := mkVerdict { Headers : list (string * string); Abort : option (Z * list (string * jval)) }.

Section limits.
Context {S : Type} `{!Limiter S}.

Definition IPRateLimit (limit : Z) (keyPrefix : string) (trustProxyHeaders : bool) (now : Z) (r : request) (s : S)
  : verdict * S :=
  let ip := realClientIP r trustProxyHeaders in
  let '(res, s') := CheckAndConsume now (keyPrefix +:+ ":" +:+ ip) limit s in
  let hs := [("X-RateLimit-Limit", pretty limit); ("X-RateLimit-Remaining", pretty (Remaining res));
             ("X-RateLimit-Reset", pretty (ResetAt res / second))] in
  if negb (Allowed res) then
    (mkVerdict (hs ++ [("Retry-After", "60")])
       (Some (429, [("error", JStr "too many requests, please slow down"); ("retry_after", JNum 60)])), s')
  else (mkVerdict hs None, s').

(** [callerID] is what [AdminAuth] stored; [%v] prints a missing one as <nil>. *)
Definition UserLookupRateLimit (rpm : Z) (now : Z) (callerID : option string) (s : S) : verdict * S :=
  let '(allowed, s') := AllowWithLimit now ("user-lookup:" +:+ default "<nil>" callerID) rpm s in
  if negb allowed
  then (mkVerdict [] (Some (429, [("error", JStr "too many lookup requests, slow down")])), s')
  else (mkVerdict [] None, s').

End limits.

(** Without trust in proxies no header of the client changes the key it is
    limited under. *)
Lemma realClientIP_untrusted r r' :
  RemoteAddr r = RemoteAddr r' → realClientIP r false = realClientIP r' false.
Proof. unfold realClientIP. simpl. by intros ->. Qed.

(** A gate lets at most [limit] requests of a client through: it admits exactly
    when the limiter does. *)
Lemma IPRateLimit_admits {S} `{!Limiter S} limit prefix trust now r (s : S) :
  Abort (IPRateLimit limit prefix trust now r s).1 = None ↔
  Allowed (CheckAndConsume now (prefix +:+ ":" +:+ realClientIP r trust) limit s).1 = true.
Proof. unfold IPRateLimit. destruct (CheckAndConsume _ _ _ _) as [[[] rem at_] s']; simpl; by split. Qed.

End Gates.
