(* ===== verification/AdminAuth.v ===== *)
(** * Administrators: the handlers

    [src/internal/admin/handler/auth_handler.go], [google_auth_handler.go] and
    [cookies.go], the exchange with Google of [src/internal/auth/google_oauth.go],
    and the gate [SuperAdminOnly].  A handler is a program that calls the
    repository, the limiter of failed logins and the services outside; between
    two calls other programs may run. *)

From Stdlib Require Import Ascii.
From stdpp Require Import gmap.
From S2P Require Import Prelude GoStrings Store AdminRepo AdminAccess.

Module AdminAuth.
Import Tokens AdminToken AdminRepo.

(** ** Interfaces *)

(** The methods of the repository; its results depend on the identifiers that
    [gen_random_uuid()] yields during the call. *)
Inductive AuthRepository : Type → Type :=
| CallUserByEmail (email : string) : AuthRepository AdminUser
| CallUserByID (userID : string) : AuthRepository AdminUser
| CallUserByUsername (username : string) : AuthRepository AdminUser
| CallUserByGoogleID (googleID : string) : AuthRepository AdminUser
| CallCreateAdminUser (username passwordHash : string) (isSuperAdmin : bool) : AuthRepository AdminUser
| CallLinkGoogle (userID googleID avatarURL : string) : AuthRepository unit
| CallSignup (username email passwordHash companyName slug plan tokenHash : string) (expiresAt : Z)
    : AuthRepository SignupResult
| CallGoogleSignup (email googleID avatarURL companyName slug : string) : AuthRepository SignupResult
| CallReplaceReset (userID tokenHash : string) (expiresAt : Z) : AuthRepository string
| CallReplaceVerification (userID tokenHash : string) (expiresAt : Z) : AuthRepository string
| CallInvalidateReset (tokenID : string) : AuthRepository unit
| CallInvalidateVerification (tokenID : string) : AuthRepository unit
| CallVerifyEmail (tokenHash : string) : AuthRepository unit
| CallFindReset (tokenHash : string) : AuthRepository OneTimeToken
| CallResetPassword (tokenID userID newHash : string) : AuthRepository unit
| CallIncrementFailure (username : string) : AuthRepository unit
| CallLockUser (username : string) (until : Z) : AuthRepository unit
| CallLoginSuccess (userID : string) : AuthRepository unit
| CallFindRefresh (tokenHash : string) : AuthRepository RefreshToken
| CallRotate (oldHash newHash userID : string) (exp : Z) (ip ua : string) : AuthRepository unit
| CallCreateRefresh (userID tokenHash : string) (expiresAt : Z) (ip ua : string) : AuthRepository unit
| CallRevoke (tokenHash : string) : AuthRepository unit
| CallUserCount : AuthRepository nat
| CallIsSuperAdmin (userID : string) : AuthRepository bool
| CallPrune : AuthRepository unit.

Definition repo_call {X} (ids : new_ids) (c : AuthRepository X) : A X :=
  match c in AuthRepository X return A X with
  | CallUserByEmail e => FindAdminUserByEmail e
  | CallUserByID i => FindAdminUserByID i
  | CallUserByUsername n => FindAdminUserByUsername n
  | CallUserByGoogleID g => FindAdminUserByGoogleID g
  | CallCreateAdminUser n h s => CreateAdminUser (new_user ids) n h s
  | CallLinkGoogle u g a => LinkGoogleAccount u g a
  | CallSignup n e h c s p t x => SignupTx ids n e h c s p t x
  | CallGoogleSignup e g a c s => GoogleSignupTx ids e g a c s
  | CallReplaceReset u t x => ReplacePasswordResetTokenTx (new_token ids) u t x
  | CallReplaceVerification u t x => ReplaceEmailVerificationTokenTx (new_token ids) u t x
  | CallInvalidateReset t => InvalidatePasswordResetTokenByID t
  | CallInvalidateVerification t => InvalidateEmailVerificationTokenByID t
  | CallVerifyEmail t => VerifyEmailTx t
  | CallFindReset t => FindValidPasswordResetToken t
  | CallResetPassword t u h => ResetPasswordTx t u h
  | CallIncrementFailure n => IncrementAdminLoginFailure n
  | CallLockUser n t => LockAdminUser n t
  | CallLoginSuccess u => UpdateAdminLoginSuccess u
  | CallFindRefresh t => FindRefreshToken t
  | CallRotate o n u x ip ua => RotateRefreshToken o n u x ip ua
  | CallCreateRefresh u t x ip ua => CreateRefreshToken u t x ip ua
  | CallRevoke t => RevokeRefreshToken t
  | CallUserCount => AdminUserCount
  | CallIsSuperAdmin u => IsSuperAdmin u
  | CallPrune => PruneExpiredTokens
  end.

Inductive LimiterCall : Type → Type :=
| AskFailures (ip : string) : LimiterCall bool
| AddFailure (ip : string) : LimiterCall unit
| ResetFailures (ip : string) : LimiterCall unit.

Definition limiter_call {X} (now : Z) (c : LimiterCall X) (l : LoginRateLimiter.t) : LoginRateLimiter.t * X :=
  match c in LimiterCall X return LoginRateLimiter.t * X with
  | AskFailures ip => LoginRateLimiter.TooManyFailures now ip l
  | AddFailure ip => (LoginRateLimiter.RecordFailure now ip l, ())
  | ResetFailures ip => (LoginRateLimiter.Reset ip l, ())
  end.

(** A claim of a Google ID token. *)
Inductive id_claim := IDBool (b : bool) | IDString (s : string) | IDOther.
Record IDPayload := mkPayload { PayloadSubject : string; PayloadClaims : gmap string id_claim }.

(** [crypto/rand], [bcrypt], the mailer, Google; an error is its text. *)
Inductive Service : Type → Type :=
| RandRead (n : nat) : Service (list Z)
| GenerateFromPassword (password : string) : Service string
| SendPasswordReset (email url : string) : Service unit
| SendEmailVerification (email url : string) : Service unit
| OAuthExchange (code verifier : string) : Service (option string)     (* the id_token of the reply *)
| ValidateIDToken (raw clientID : string) : Service IDPayload.

Inductive prog (A : Type) : Type :=
| Done (a : A)
| Repo {X : Type} (c : AuthRepository X) (k : result error X → prog A)
| Limit {X : Type} (c : LimiterCall X) (k : X → prog A)
| Call {X : Type} (c : Service X) (k : result string X → prog A)
| Now (k : Z → prog A).
#[global] Arguments Done {A} a.
#[global] Arguments Repo {A X} c k.
#[global] Arguments Limit {A X} c k.
#[global] Arguments Call {A X} c k.
#[global] Arguments Now {A} k.

(** ** Requests and answers *)

Record client := mkClient {
  RemoteAddr : string;
  UserAgent : string;
  RefreshCookie : option string;
  OAuthCookie : option string;
  Caller : option (string * string);        (* what [AdminAuth] stored *)
}.

Definition ip_of (cl : client) : string := Gates.ClientIP (RemoteAddr cl).

Inductive json := JString (s : string) | JInt (n : Z) | JBool (b : bool).

Record cookie := mkCookie { CookieName : string; CookieValue : string; MaxAge : Z; Secure : bool; HttpOnly : bool }.

Record response := mkResponse {
  Status : Z;
  Body : list (string * json);
  SetCookies : list cookie;
  Location : option string;
}.

Definition answer (status : Z) (body : list (string * json)) : response := mkResponse status body [] None.
Definition error_answer (status : Z) (msg : string) : response := answer status [("error", JString msg)].
Definition message (status : Z) (msg : string) : response := answer status [("message", JString msg)].
Definition with_cookies (cs : list cookie) (r : response) : response :=
  mkResponse (Status r) (Body r) (cs ++ SetCookies r) (Location r).
Definition internal : response := error_answer 500 "internal server error".

Record loginRequest := mkLogin { LoginUsername : string; LoginPassword : string }.
Record registerRequest := mkRegister { RegisterUsername : string; RegisterPassword : string }.
Record signupRequest := mkSignupRequest {
  SignupUsername : string; SignupEmail : string; SignupPassword : string; CompanyName : string; SignupPlan : string }.
Record resetPasswordRequest := mkResetRequest { ResetToken : string; NewPassword : string }.

Definition refreshCookieName : string := "eg_refresh_token".
Definition oauthStateCookie : string := "eg_oauth_flow".

Definition maxLoginFailures : Z := 5.
Definition lockoutDuration : Z := 15 * minute.
Definition genericForgotResponse : string :=
  "If an account exists for that email address, password reset instructions have been sent.".
Definition genericResendVerificationResponse : string :=
  "If an unverified account exists for that email, a verification link has been sent.".

Record AuthHandler := mkHandler {
  tokens : AdminTokenManager;
  has_mailer : bool;
  passwordResetURL : string;
  emailVerificationURL : string;
  secureCookies : bool;
  oauthSecret : string;
  clientID : string;
  frontendBaseURL : string;
}.

(** ** Names for projects *)

Fixpoint slug_loop (prevHyphen : bool) (s : string) : string :=
  match s with
  | EmptyString => EmptyString
  | String c s' =>
      if alnum c then String c (slug_loop false s')
      else if negb prevHyphen then String "-" (slug_loop true s')
      else slug_loop prevHyphen s'
  end.

Definition toSlug (name : string) : string :=
  let s := ToLower (TrimSpace name) in
  let result := Trim "-" (slug_loop false s) in
  if String.eqb result "" then "project" else result.

(** [url.QueryEscape]. *)
Definition escape_byte (c : ascii) : string :=
  if is_upper c || is_lower c || is_digit c || contains_byte c "-_.~" then String c ""
  else if Ascii.eqb c " " then "+"
  else
    let hex n := ascii_of_nat (if (n <? 10)%nat then 48 + n else 55 + n) in
    String "%" (String (hex (code c / 16)%nat) (String (hex (code c mod 16)%nat) "")).
Fixpoint QueryEscape (s : string) : string :=
  match s with EmptyString => "" | String c s' => escape_byte c +:+ QueryEscape s' end.

(** ** The handlers

    A body is what [ShouldBindJSON] makes of it: its fields, or the text of the
    error. *)

Section handlers.
Context {HU : UnicodeTables} `{!JWT AdminClaims, !JWT OAuthState.oauthStateClaims}.
(** [bcrypt.CompareHashAndPassword(hash, password) == nil]; [net/url]: the
    address with the query parameter [token] set, if it parses; the consent page
    of Google. *)
Context (CompareHashAndPassword : string → string → bool).
Context (Parse_with_token ParseRequestURI_with_token : string → string → option string).
Context (AuthCodeURL : string → string → string).
Context (h : AuthHandler).

Definition setRefreshCookie (value : string) : cookie :=
  mkCookie refreshCookieName value (RefreshTokenTTL / second) (secureCookies h) true.
Definition clearRefreshCookie : cookie := mkCookie refreshCookieName "" (-1) (secureCookies h) true.

Definition tokenResponse (access : string) : list (string * json) :=
  [("access_token", JString access); ("expires_in", JInt (AccessTokenTTL / second)); ("token_type", JString "Bearer")].

(** The access token and the cookie with the refresh token. *)
Definition issueTokensForUser (cl : client) (userID username : string)
    (k : option (string * cookie) → prog response) : prog response :=
  Now (λ t,
  match CreateAdminAccessToken (tokens h) t userID username with
  | Err _ => k None
  | Ok access =>
      Call (RandRead 32) (λ r,
      match r with
      | Err _ => k None
      | Ok drawn =>
          let refresh := GenerateToken drawn in
          Now (λ t,
          Repo (CallCreateRefresh userID (HashToken refresh) (t + RefreshTokenTTL) (ip_of cl) (UserAgent cl)) (λ r,
          match r with
          | Err _ => k None
          | Ok _ => k (Some (access, setRefreshCookie refresh))
          end))
      end)
  end).

(** [Login] from the lookup's reply on. *)
Definition login_failed_answer : response := error_answer 401 "invalid username or password".

Definition wrong_password (ip : string) (user : AdminUser) : prog response :=
  Repo (CallIncrementFailure (Username user)) (λ _,
  Limit (AddFailure ip) (λ _,
  if (maxLoginFailures <=? FailedLoginAttempts user + 1)%Z then
    Now (λ t, Repo (CallLockUser (Username user) (t + lockoutDuration)) (λ _, Done login_failed_answer))
  else Done login_failed_answer)).

Definition right_password (cl : client) (ip : string) (user : AdminUser) : prog response :=
  if negb (EmailVerified user) then
    Done (answer 403 [("error", JString "Please verify your email before signing in.");
                      ("code", JString "EMAIL_NOT_VERIFIED")])
  else
    Limit (ResetFailures ip) (λ _,
    Repo (CallLoginSuccess (UserID user)) (λ r,
    match r with
    | Err _ => Done internal
    | Ok _ => issueTokensForUser cl (UserID user) (Username user) (λ issued,
        match issued with
        | None => Done internal
        | Some (access, ck) => Done (with_cookies [ck] (answer 200 (tokenResponse access)))
        end)
    end)).

Definition check_password (cl : client) (ip password : string) (user : AdminUser) : prog response :=
  match PasswordHash user with
  | None => Limit (AddFailure ip) (λ _, Done login_failed_answer)
  | Some hash =>
      if negb (CompareHashAndPassword hash password) then wrong_password ip user else right_password cl ip user
  end.

Definition login_found (cl : client) (ip password : string) (r : result error AdminUser) : prog response :=
  match r with
  | Err ErrNoRows => Limit (AddFailure ip) (λ _, Done login_failed_answer)
  | Err _ => Done internal
  | Ok user =>
      match LockedUntil user with
      | Some until =>
          Now (λ t, if (t <? until)%Z then Done (error_answer 423 "admin account locked")
                    else check_password cl ip password user)
      | None => check_password cl ip password user
      end
  end.

Definition Login (cl : client) (body : result string loginRequest) : prog response :=
  let ip := ip_of cl in
  Limit (AskFailures ip) (λ many,
  if many then Done (error_answer 429 "too many login attempts")
  else
    match body with
    | Err _ => Done (error_answer 400 "invalid request")
    | Ok req =>
        let identifier := TrimSpace (LoginUsername req) in
        let found := login_found cl ip (LoginPassword req) in
        if contains_byte "@" identifier then
          Repo (CallUserByEmail (ToLower identifier)) (λ r,
          match r with
          | Err ErrNoRows => Repo (CallUserByUsername identifier) found
          | _ => found r
          end)
        else Repo (CallUserByUsername identifier) found
    end).

Definition refresh_valid (cl : client) (oldHash : string) (token : RefreshToken) : prog response :=
  Call (RandRead 32) (λ r,
  match r with
  | Err _ => Done internal
  | Ok drawn =>
      let newRaw := GenerateToken drawn in
      Now (λ t,
      Repo (CallRotate oldHash (HashToken newRaw) (RefreshUser token) (t + RefreshTokenTTL) (ip_of cl) (UserAgent cl))
        (λ r,
      match r with
      | Err _ => Done internal
      | Ok _ =>
          Repo (CallUserByID (RefreshUser token)) (λ r,
          match r with
          | Err _ => Done internal
          | Ok user =>
              Now (λ t,
              match CreateAdminAccessToken (tokens h) t (RefreshUser token) (Username user) with
              | Err _ => Done internal
              | Ok access => Done (with_cookies [setRefreshCookie newRaw] (answer 200 (tokenResponse access)))
              end)
          end)
      end))
  end).

Definition Refresh (cl : client) : prog response :=
  let rawToken := default "" (RefreshCookie cl) in
  if String.eqb rawToken "" then Done (error_answer 401 "missing refresh token")
  else
    let oldHash := HashToken rawToken in
    Repo (CallFindRefresh oldHash) (λ r,
    match r with
    | Err ErrNoRows => Done (error_answer 401 "invalid refresh token")
    | Err _ => Done internal
    | Ok token =>
        match RevokedAt token with
        | Some _ => Done (with_cookies [clearRefreshCookie] (error_answer 401 "invalid refresh token"))
        | None =>
            Now (λ t,
            if (RefreshExpiresAt token <? t)%Z
            then Done (with_cookies [clearRefreshCookie] (error_answer 401 "refresh token expired"))
            else refresh_valid cl oldHash token)
        end
    end).

Definition Logout (cl : client) : prog response :=
  let ok := with_cookies [clearRefreshCookie] (answer 200 [("status", JString "ok")]) in
  let rawToken := default "" (RefreshCookie cl) in
  if negb (String.eqb rawToken "") then Repo (CallRevoke (HashToken rawToken)) (λ _, Done ok) else Done ok.

(** The text of a rejected password. *)
Definition password_error (e : Password.error) : string :=
  match e with
  | Password.TooShort => "password must be at least 8 characters"
  | Password.TooLong => "password must not exceed 72 characters"
  | Password.TooCommon p => "password " +:+ Http.Http.quoted p +:+ " is too common — choose a stronger one"
  | Password.NoUpper => "password must contain at least one uppercase letter (A-Z)"
  | Password.NoLower => "password must contain at least one lowercase letter (a-z)"
  | Password.NoDigit => "password must contain at least one digit (0-9)"
  | Password.NoSpecial => "password must contain at least one special character (!@#$%^&* etc.)"
  end.

Definition register_new (req : registerRequest) (isSuperAdmin : bool) : prog response :=
  match Password.Validate (RegisterPassword req) with
  | Err e => Done (error_answer 400 (password_error e))
  | Ok _ =>
      Call (GenerateFromPassword (RegisterPassword req)) (λ r,
      match r with
      | Err _ => Done internal
      | Ok hash =>
          Repo (CallCreateAdminUser (RegisterUsername req) hash isSuperAdmin) (λ r,
          match r with
          | Err ErrNoRows => Done (error_answer 409 "username already taken")
          | Err _ => Done internal
          | Ok user => Done (answer 201 [("id", JString (UserID user)); ("username", JString (Username user))])
          end)
      end)
  end.

Definition Register (cl : client) (body : result string registerRequest) : prog response :=
  match body with
  | Err e => Done (error_answer 400 ("invalid request: " +:+ e))
  | Ok req =>
      match Caller cl with
      | Some _ => register_new req false
      | None =>
          Repo CallUserCount (λ r,
          match r with
          | Err _ => Done internal
          | Ok count =>
              if (0 <? count)%nat
              then Done (error_answer 403 "registration is locked after bootstrap admin is created")
              else register_new req true
          end)
      end
  end.

(** A failed delivery takes the token back, and the answer does not wait for it. *)
Definition invalidateFailedVerificationToken (tokenID : string) (k : prog response) : prog response :=
  if String.eqb tokenID "" then k else Repo (CallInvalidateVerification tokenID) (λ _, k).
Definition invalidateFailedToken (tokenID : string) (k : prog response) : prog response :=
  if String.eqb tokenID "" then k else Repo (CallInvalidateReset tokenID) (λ _, k).

Definition signup_error (e : error) : response :=
  match e with
  | UniqueViolation constraint =>
      if String.eqb constraint "admin_users_email_unique" then error_answer 409 "email already registered"
      else if String.eqb constraint "idx_admin_users_username" || String.eqb constraint "admin_users_username_key"
      then error_answer 409 "username already taken"
      else error_answer 409 "account details already registered"
  | _ => internal
  end.

Definition signup_done (rawToken : string) (res : SignupResult) : prog response :=
  let created := answer 201
    [("message", JString "Account created. Please check your email to verify your account.");
     ("project_id", JString (ProjectID (SignupProject res)))] in
  match Parse_with_token (emailVerificationURL h) rawToken with
  | None => Done internal
  | Some verificationURL =>
      if has_mailer h then
        Call (SendEmailVerification (Email (SignupUser res)) verificationURL) (λ r,
        match r with
        | Err _ =>
            invalidateFailedVerificationToken (VerificationTokenID res)
              (Done (error_answer 503 "account created, but verification email could not be sent"))
        | Ok _ => Done created
        end)
      else Done created
  end.

Definition Signup (body : result string signupRequest) : prog response :=
  match body with
  | Err e => Done (error_answer 400 ("invalid request: " +:+ e))
  | Ok req =>
      let email := ToLower (TrimSpace (SignupEmail req)) in
      match Password.Validate (SignupPassword req) with
      | Err e => Done (error_answer 400 (password_error e))
      | Ok _ =>
          Call (GenerateFromPassword (SignupPassword req)) (λ r,
          match r with
          | Err _ => Done internal
          | Ok hash =>
              let slug := toSlug (CompanyName req) in
              let plan := if String.eqb (SignupPlan req) "" then "free" else SignupPlan req in
              Call (RandRead 32) (λ r,
              match r with
              | Err _ => Done internal
              | Ok drawn =>
                  let rawToken := GenerateToken drawn in
                  Now (λ t,
                  Repo (CallSignup (SignupUsername req) email hash (CompanyName req) slug plan (HashToken rawToken)
                          (t + EmailVerificationTokenTTL)) (λ r,
                  match r with
                  | Err e => Done (signup_error e)
                  | Ok res => signup_done rawToken res
                  end))
              end)
          end)
      end
  end.

Definition forgot_answer : response := message 200 genericForgotResponse.

(** From the user on whose password may be reset. *)
Definition forgot_send (user : AdminUser) : prog response :=
  Call (RandRead 32) (λ r,
  match r with
  | Err _ => Done forgot_answer
  | Ok drawn =>
      let rawToken := GenerateToken drawn in
      Now (λ t,
      Repo (CallReplaceReset (UserID user) (HashToken rawToken) (t + 15 * minute)) (λ r,
      match r with
      | Err _ => Done forgot_answer
      | Ok tokenID =>
          match ParseRequestURI_with_token (passwordResetURL h) rawToken with
          | None => invalidateFailedToken tokenID (Done forgot_answer)
          | Some link =>
              Call (SendPasswordReset (Email user) link) (λ r,
              match r with
              | Err _ => invalidateFailedToken tokenID (Done forgot_answer)
              | Ok _ => Done forgot_answer
              end)
          end
      end))
  end).

Definition has_password (user : AdminUser) : bool :=
  match PasswordHash user with Some hash => negb (String.eqb (TrimSpace hash) "") | None => false end.

Definition ForgotPassword (body : result string string) : prog response :=
  match body with
  | Err _ => Done (error_answer 400 "invalid email format")
  | Ok email =>
      let email := ToLower (TrimSpace email) in
      Repo (CallUserByEmail email) (λ r,
      match r with
      | Err _ => Done forgot_answer
      | Ok user =>
          if negb (has_password user) || HasSuffix (ToLower (Email user)) "@elitegate.local"
          then Done forgot_answer
          else if negb (has_mailer h) then Done forgot_answer
          else forgot_send user
      end)
  end.

Definition bad_link : response := error_answer 400 "invalid or expired password reset link".

Definition reset_password (req : resetPasswordRequest) (token : OneTimeToken) : prog response :=
  Call (GenerateFromPassword (NewPassword req)) (λ r,
  match r with
  | Err _ => Done internal
  | Ok hash =>
      Repo (CallResetPassword (TokenID token) (TokenUser token) hash) (λ r,
      match r with
      | Err ErrInvalidPasswordResetToken => Done bad_link
      | Err _ => Done internal
      | Ok _ =>
          Done (with_cookies [clearRefreshCookie]
            (message 200 "Password reset successfully. Sign in using your new password."))
      end)
  end).

Definition same_password (user : AdminUser) (password : string) : bool :=
  has_password user &&
  match PasswordHash user with Some hash => CompareHashAndPassword hash password | None => false end.

Definition ResetPassword (body : result string resetPasswordRequest) : prog response :=
  match body with
  | Err _ => Done (error_answer 400 "invalid request format")
  | Ok req =>
      let rawToken := TrimSpace (ResetToken req) in
      if String.eqb rawToken "" || (1024 <? len rawToken)%nat then Done bad_link
      else
        match Password.Validate (NewPassword req) with
        | Err e => Done (error_answer 400 (password_error e))
        | Ok _ =>
            Repo (CallFindReset (HashToken rawToken)) (λ r,
            match r with
            | Err ErrInvalidPasswordResetToken => Done bad_link
            | Err _ => Done internal
            | Ok token =>
                Repo (CallUserByID (TokenUser token)) (λ r,
                match r with
                | Err _ => Done internal
                | Ok user =>
                    if same_password user (NewPassword req)
                    then Done (error_answer 400 "new password must be different from current password")
                    else reset_password req token
                end)
            end)
        end
  end.

Definition bad_verification : response := error_answer 400 "invalid or expired verification token".

Definition VerifyEmail (body : result string string) : prog response :=
  match body with
  | Err _ => Done (error_answer 400 "invalid request format")
  | Ok token =>
      let rawToken := TrimSpace token in
      if String.eqb rawToken "" || (1024 <? len rawToken)%nat then Done bad_verification
      else
        Repo (CallVerifyEmail (HashToken rawToken)) (λ r,
        match r with
        | Err _ => Done bad_verification
        | Ok _ => Done (message 200 "Email verified successfully.")
        end)
  end.

Definition resend_answer : response := message 200 genericResendVerificationResponse.

Definition resend_send (user : AdminUser) : prog response :=
  Call (RandRead 32) (λ r,
  match r with
  | Err _ => Done resend_answer
  | Ok drawn =>
      let rawToken := GenerateToken drawn in
      Now (λ t,
      Repo (CallReplaceVerification (UserID user) (HashToken rawToken) (t + EmailVerificationTokenTTL)) (λ r,
      match r with
      | Err _ => Done resend_answer
      | Ok tokenID =>
          match Parse_with_token (emailVerificationURL h) rawToken with
          | None => invalidateFailedVerificationToken tokenID (Done resend_answer)
          | Some link =>
              if has_mailer h then
                Call (SendEmailVerification (Email user) link) (λ r,
                match r with
                | Err _ => invalidateFailedVerificationToken tokenID (Done resend_answer)
                | Ok _ => Done resend_answer
                end)
              else Done resend_answer
          end
      end))
  end).

Definition ResendVerification (body : result string string) : prog response :=
  match body with
  | Err _ => Done (error_answer 400 "invalid request format")
  | Ok email =>
      let email := ToLower (TrimSpace email) in
      if String.eqb email "" then Done (error_answer 400 "invalid email address")
      else
        Repo (CallUserByEmail email) (λ r,
        match r with
        | Err _ => Done resend_answer
        | Ok user => if EmailVerified user then Done resend_answer else resend_send user
        end)
  end.

(** [userID, _ := c.Get(...)]: a missing caller reads as the empty strings. *)
Definition Me (cl : client) : prog response :=
  let '(userID, username) := default ("", "") (Caller cl) in
  Repo (CallIsSuperAdmin userID) (λ r,
  match r with
  | Err _ => Done (error_answer 500 "failed to load user")
  | Ok isSuperAdmin =>
      Done (answer 200 [("user_id", JString userID); ("username", JString username);
                        ("is_super_admin", JBool isSuperAdmin)])
  end).

(** [middleware.SuperAdminOnly]. *)
Definition SuperAdminOnly (cl : client) (next : prog response) : prog response :=
  match Caller cl with
  | None => Done (error_answer 401 "unauthenticated")
  | Some (userID, _) =>
      Repo (CallIsSuperAdmin userID) (λ r,
      match r with
      | Err _ => Done (error_answer 500 "super-admin check db error")
      | Ok false => Done (error_answer 403 "super-admin access required")
      | Ok true => next
      end)
  end.

(** *** Google *)

Record GoogleIdentity := mkIdentity {
  IdentitySubject : string;
  IdentityEmail : string;
  IdentityEmailVerified : bool;
  IdentityName : string;
  IdentityPicture : string;
}.

Definition asString (v : option id_claim) : string := match v with Some (IDString s) => s | _ => "" end.

Definition identity_of (payload : IDPayload) : GoogleIdentity :=
  let claims := PayloadClaims payload in
  mkIdentity (PayloadSubject payload) (asString (claims !! "email"))
    (match claims !! "email_verified" with Some (IDBool b) => b | _ => false end)
    (asString (claims !! "name")) (asString (claims !! "picture")).

Inductive google_error := ErrEmailNotVerified | ErrExchange.

Definition Exchange (code codeVerifier : string) (k : result google_error GoogleIdentity → prog response)
  : prog response :=
  Call (OAuthExchange code codeVerifier) (λ r,
  match r with
  | Err _ => k (Err ErrExchange)
  | Ok id_token =>
      let rawIDToken := default "" id_token in
      if String.eqb rawIDToken "" then k (Err ErrExchange)
      else
        Call (ValidateIDToken rawIDToken (clientID h)) (λ r,
        match r with
        | Err _ => k (Err ErrExchange)
        | Ok payload =>
            let who := identity_of payload in
            if negb (IdentityEmailVerified who) then k (Err ErrEmailNotVerified) else k (Ok who)
        end)
  end).

(** The user's identifier and name. *)
Definition resolveGoogleUser (id : GoogleIdentity) (k : option (string * string) → prog response) : prog response :=
  Repo (CallUserByGoogleID (IdentitySubject id)) (λ r,
  match r with
  | Ok u => k (Some (UserID u, Username u))
  | Err ErrNoRows =>
      Repo (CallUserByEmail (IdentityEmail id)) (λ r,
      match r with
      | Ok u =>
          Repo (CallLinkGoogle (UserID u) (IdentitySubject id) (IdentityPicture id)) (λ r,
          match r with Err _ => k None | Ok _ => k (Some (UserID u, Username u)) end)
      | Err ErrNoRows =>
          let companyName := if String.eqb (IdentityName id) "" then IdentityEmail id else IdentityName id in
          let slug := toSlug companyName in
          Repo (CallGoogleSignup (IdentityEmail id) (IdentitySubject id) (IdentityPicture id) companyName slug) (λ r,
          match r with
          | Err _ => k None
          | Ok res => k (Some (UserID (SignupUser res), Username (SignupUser res)))
          end)
      | Err _ => k None
      end)
  | Err _ => k None
  end).

Definition oauth_cookie (value : string) (maxAge : Z) : cookie :=
  mkCookie oauthStateCookie value maxAge (secureCookies h) true.

Definition redirect (location : string) (cs : list cookie) : response := mkResponse 302 [] cs (Some location).
Definition redirectWithError (cs : list cookie) (msg : string) : prog response :=
  Done (redirect (frontendBaseURL h +:+ "/login?oauth_error=" +:+ QueryEscape msg) cs).

Definition GoogleLogin : prog response :=
  Call (RandRead 32) (λ r,
  match r with
  | Err _ => Done internal
  | Ok drawn =>
      let '(verifier, challenge) := GeneratePKCEPair drawn in
      Now (λ t,
      match OAuthState.CreateState (oauthSecret h) t verifier with
      | Err _ => Done internal
      | Ok state => Done (redirect (AuthCodeURL state challenge) [oauth_cookie state 600])
      end)
  end).

Definition GoogleCallback (cl : client) (code state : string) : prog response :=
  if String.eqb code "" || String.eqb state "" then redirectWithError [] "missing code or state"
  else
    let cleared := [oauth_cookie "" (-1)] in
    if negb (bool_decide (OAuthCookie cl = Some state)) then redirectWithError cleared "invalid oauth state"
    else
      Now (λ t,
      match OAuthState.ValidateState (oauthSecret h) t state with
      | Err _ => redirectWithError cleared "oauth session expired, please try again"
      | Ok codeVerifier =>
          Exchange code codeVerifier (λ r,
          match r with
          | Err ErrEmailNotVerified => redirectWithError cleared "your Google email is not verified"
          | Err _ => redirectWithError cleared "google authentication failed"
          | Ok found =>
              resolveGoogleUser found (λ u,
              match u with
              | None => redirectWithError cleared "could not complete sign-in"
              | Some (userID, username) =>
                  Repo (CallLoginSuccess userID) (λ r,
                  match r with
                  | Err _ => Done (with_cookies cleared internal)
                  | Ok _ =>
                      issueTokensForUser cl userID username (λ issued,
                      match issued with
                      | None => Done (with_cookies cleared internal)
                      | Some (_, ck) =>
                          Done (redirect (frontendBaseURL h +:+ "/oauth/callback?oauth=success") (cleared ++ [ck]))
                      end)
                  end)
              end)
          end)
      end).

(** [internal/admin/prune.go]: one tick. *)
Definition prune_tick : prog response := Repo CallPrune (λ _, Done (answer 200 [])).

End handlers.
End AdminAuth.
