(* ===== verification/AdminTables.v ===== *)
(** * Administrators: what each call of the repository does

    Postconditions of statements and transactions; the effect each method of
    [AdminRepo] promises, a relation between the tables before and after and the
    result; the proof that every call has its effect or, failing, leaves the
    tables alone; and the invariants of the tables that all effects keep. *)

From Stdlib Require Import Ascii.
From stdpp Require Import gmap.
From S2P Require Import Prelude GoStrings Store Transactions AdminRepo AdminAccess AdminAuth.

Module AdminTables.
Import AdminRepo AdminAuth.
#[local] Open Scope store_scope.

(** A second attempt after the unique violation always finds the transaction
    aborted: only the first slug can be inserted. *)
Lemma insert_project_retry_spec newID retryID name slug ownerID plan d d' r :
  insert_project_retry newID retryID name slug ownerID plan d = (d', r) →
  frame d d' ∧
  match r with
  | Ok p => ∃ t t', tables d = (t, false) ∧ tables d' = (t', false) ∧
      insert_project (mkProject newID name slug ownerID plan true (clock d) None) (clock d) t = Ok (t', p)
  | Err _ => True
  end.
Proof.
  unfold insert_project_retry. cbv zeta.
  destruct (tx_stmt _ d) as [d1 [p|e]] eqn:H1.
  - intros [= <- <-]. by apply tx_stmt_spec in H1.
  - apply tx_stmt_spec in H1 as H1'. destruct H1' as [Hfr _].
    destruct (is_unique_violation e) eqn:Hu; [|intros [= <- <-]; done].
    destruct (tx_stmt _ d1) as [d2 r2] eqn:H2. intros [= <- <-].
    apply tx_stmt_spec in H2 as [Hfr2 H2]. split; [by etrans|]. destruct r2 as [p|]; [|done].
    destruct H2 as (t & t' & Ht & _). exfalso. revert H1 Hu. unfold tx_stmt.
    intros [(d3 & a & Hq & Hk)|(e' & Hq & [= ->])]%mbind_spec.
    + apply store_query_spec in Hq as [_ [[? _]|(a' & Hf & [= <-])]]; [done|].
      destruct (tables d) as [t0 []]; [|destruct (insert_project _ _ _) as [[t1 p1]|e1]];
        simplify_eq; unfold mfail, mret in Hk; simplify_eq; congruence.
    + by apply store_query_spec in Hq as [_ [[[= ->] _]|(? & _ & ?)]].
Qed.

Lemma tx_ok_insert_project now t newID retryID name slug ownerID plan (Q : tables_of_admin → Project → Prop) :
  (∀ t' p, insert_project (mkProject newID name slug ownerID plan true now None) now t = Ok (t', p) → Q t' p) →
  tx_ok now t (insert_project_retry newID retryID name slug ownerID plan) Q.
Proof.
  intros H d d' p Ht Hc Hs. apply insert_project_retry_spec in Hs as (Hfr & t0 & t' & E & E' & Hf).
  split; [done|]. rewrite Ht in E. injection E as <-. rewrite Hc in Hf. eauto.
Qed.

(** ** The promised effects *)

(** The row a sign-up inserts for its user and project. *)
Definition tenant_row (id username email : string) (hash google avatar : option string) (provider : string)
    (verified super : bool) (now : Z) : AdminUser :=
  mkUser id username email hash google avatar provider verified 0 None None now super.

(** The user and the project can be inserted. *)
Definition room_for_user (u : AdminUser) (t : tables_of_admin) : Prop := user_conflict u t = None.
Definition room_for_project (p : Project) (t : tables_of_admin) : Prop :=
  slug_format (Slug p) = true ∧ projects t !! ProjectID p = None ∧
  ∀ q, q ∈ rows (projects t) → Slug q = Slug p → ProjectDeletedAt q ≠ None.
Definition room_for_token (m : gmap string OneTimeToken) (id hash : string) : Prop :=
  m !! hash = None ∧ ∀ x, x ∈ rows m → TokenID x ≠ id.

(** User, project and membership of a new tenant. *)
Definition tenant_added (u : AdminUser) (p : Project) (t : tables_of_admin) : tables_of_admin :=
  set_members (<[(ProjectID p, UserID u) := "owner"]> (project_members t))
    (set_projects (<[ProjectID p := p]> (projects t)) (set_users (<[UserID u := u]> (users t)) t)).

Definition revoked_where (p : RefreshToken → bool) (now : Z) (t : tables_of_admin) : tables_of_admin :=
  set_refresh (update_where (λ x, p x && unrevoked x) (revoke now) (refresh_tokens t)) t.
Definition refresh_added (userID hash : string) (exp : Z) (ip ua : string) (now : Z) (t : tables_of_admin)
  : tables_of_admin :=
  set_refresh (<[hash := mkRefresh userID hash exp None (nullText ip) (nullText ua) now]> (refresh_tokens t)) t.
Definition users_updated (p : AdminUser → bool) (f : AdminUser → AdminUser) (t : tables_of_admin) : tables_of_admin :=
  set_users (update_where p f (users t)) t.
Definition used_where (p : OneTimeToken → bool) (now : Z) (m : gmap string OneTimeToken) : gmap string OneTimeToken :=
  update_where (λ x, p x && unused x) (use_token now) m.

(** [effect ids now t t' c x]: with identifiers [ids], at [now], call [c] may
    turn [t] into [t'] and return [x]. *)
Definition effect {X} (ids : new_ids) (now : Z) (t t' : tables_of_admin) (c : AuthRepository X) : X → Prop :=
  match c in AuthRepository X return X → Prop with
  | CallUserByEmail e => λ u, t' = t ∧ user_where (λ v, same_email (Email v) e) t = Some u
  | CallUserByID i => λ u, t' = t ∧ users t !! i = Some u
  | CallUserByUsername n => λ u, t' = t ∧ user_where (by_username n) t = Some u
  | CallUserByGoogleID g => λ u, t' = t ∧ user_where (λ v, bool_decide (GoogleID v = Some g)) t = Some u
  | CallCreateAdminUser n hash s => λ u,
      u = tenant_row (new_user ids) n (n +:+ "@elitegate.local") (Some hash) None None "password" true s now ∧
      room_for_user u t ∧ t' = set_users (<[UserID u := u]> (users t)) t
  | CallLinkGoogle i g a => λ _,
      (is_Some (users t !! i) → ∀ v, v ∈ rows (users t) → UserID v ≠ i → GoogleID v ≠ Some g) ∧
      t' = users_updated (by_id i) (link_google g a) t
  | CallSignup n e hash c s p tok exp => λ res,
      let u := tenant_row (new_user ids) n e (Some hash) None None "password" false false now in
      let pr := mkProject (new_project ids) c s (new_user ids) p true now None in
      res = mkSignup u pr (new_token ids) ∧ room_for_user u t ∧ room_for_project pr t ∧
      room_for_token (verification_tokens t) (new_token ids) tok ∧
      t' = set_verifications (<[tok := mkOneTime (new_token ids) (new_user ids) tok exp None now]>
             (verification_tokens t)) (tenant_added u pr t)
  | CallGoogleSignup e g a c s => λ res,
      let u := tenant_row (new_user ids) (usernameFromEmail e) e None (Some g) (nullText a) "google" true false now in
      let pr := mkProject (new_project ids) c s (new_user ids) "free" true now None in
      res = mkSignup u pr "" ∧ room_for_user u t ∧ room_for_project pr t ∧ t' = tenant_added u pr t
  | CallReplaceReset i tok exp => λ id,
      id = new_token ids ∧ is_Some (users t !! i) ∧
      room_for_token (reset_tokens t) id tok ∧
      t' = set_resets (<[tok := mkOneTime id i tok exp None now]>
             (used_where (λ x, String.eqb (TokenUser x) i) now (reset_tokens t))) t
  | CallReplaceVerification i tok exp => λ id,
      id = new_token ids ∧ is_Some (users t !! i) ∧
      room_for_token (verification_tokens t) id tok ∧
      t' = set_verifications (<[tok := mkOneTime id i tok exp None now]>
             (used_where (λ x, String.eqb (TokenUser x) i) now (verification_tokens t))) t
  | CallInvalidateReset id => λ _,
      t' = set_resets (used_where (λ x, String.eqb (TokenID x) id) now (reset_tokens t)) t
  | CallInvalidateVerification id => λ _,
      t' = set_verifications (used_where (λ x, String.eqb (TokenID x) id) now (verification_tokens t)) t
  | CallVerifyEmail tok => λ _, ∃ x,
      find_valid (verification_tokens t) tok now = Some x ∧ (∃ u, u ∈ rows (users t) ∧ UserID u = TokenUser x) ∧
      t' = set_verifications (used_where (λ y, String.eqb (TokenUser y) (TokenUser x)) now
             (<[tok := use_token now x]> (verification_tokens t)))
             (users_updated (by_id (TokenUser x)) verify_user t)
  | CallFindReset tok => λ x, t' = t ∧ find_valid (reset_tokens t) tok now = Some x
  | CallResetPassword id i hash => λ _,
      let q x := String.eqb (TokenID x) id && String.eqb (TokenUser x) i && (now <? TokenExpiresAt x)%Z in
      (∃ x, x ∈ rows (reset_tokens t) ∧ q x = true ∧ UsedAt x = None) ∧ (∃ u, u ∈ rows (users t) ∧ UserID u = i) ∧
      t' = revoked_where (λ r, String.eqb (RefreshUser r) i) now
             (users_updated (by_id i) (set_password hash) (set_resets (used_where q now (reset_tokens t)) t))
  | CallIncrementFailure n => λ _, t' = users_updated (by_username n) login_failed t
  | CallLockUser n until => λ _, t' = users_updated (by_username n) (lock_user until) t
  | CallLoginSuccess i => λ _, t' = users_updated (by_id i) (login_succeeded now) t
  | CallFindRefresh tok => λ r, t' = t ∧ refresh_tokens t !! tok = Some r
  | CallRotate old new i exp ip ua => λ _,
      count_where (λ r, String.eqb (RefreshHash r) old && unrevoked r) (refresh_tokens t) = 1 ∧
      refresh_tokens t !! new = None ∧ is_Some (users t !! i) ∧
      t' = refresh_added i new exp ip ua now (revoked_where (λ r, String.eqb (RefreshHash r) old) now t)
  | CallCreateRefresh i tok exp ip ua => λ _,
      refresh_tokens t !! tok = None ∧ is_Some (users t !! i) ∧ t' = refresh_added i tok exp ip ua now t
  | CallRevoke tok => λ _, t' = revoked_where (λ r, String.eqb (RefreshHash r) tok) now t
  | CallUserCount => λ n, t' = t ∧ n = size (users t)
  | CallIsSuperAdmin i => λ b, t' = t ∧ b = match users t !! i with Some u => is_super_admin u | None => false end
  | CallPrune => λ _, t' = set_refresh (filter (λ '(_, r),
      ¬ (RefreshExpiresAt r < now ∨ default now (RevokedAt r) < now - 7 * day)%Z) (refresh_tokens t)) t
  end.

(** *** What the statements check *)

Lemma insert_user_ok u now t t' v :
  insert_user u now t = Ok (t', v) → v = u ∧ room_for_user u t ∧ t' = set_users (<[UserID u := u]> (users t)) t.
Proof. unfold insert_user. destruct (user_conflict u t) eqn:Hc; [done|]. by intros [= <- <-]. Qed.

Lemma insert_user_unless_ok taken u now t t' v :
  insert_user_unless taken u now t = Ok (t', v) →
  v = u ∧ room_for_user u t ∧ t' = set_users (<[UserID u := u]> (users t)) t.
Proof. unfold insert_user_unless. destruct (negb _); [done|]. destruct (taken t); [done|]. apply insert_user_ok. Qed.

Lemma insert_project_ok p now t t' q :
  insert_project p now t = Ok (t', q) →
  q = p ∧ room_for_project p t ∧ t' = set_projects (<[ProjectID p := p]> (projects t)) t.
Proof.
  unfold insert_project. destruct (slug_format (Slug p)) eqn:Hf; [|done]. simpl.
  destruct (bool_decide _) eqn:Hid; [done|]. destruct (existsb _ _) eqn:Hs; [done|].
  destruct (negb _); [done|]. intros [= <- <-]. split; [done|]. split; [|done]. split; [done|].
  split; [by apply not_is_Some|]. intros r Hr He. rewrite existsb_rows in Hs. specialize (Hs r Hr).
  rewrite He, String.eqb_refl in Hs. simpl in Hs. by apply bool_decide_eq_false in Hs.
Qed.

Lemma insert_member_ok p u role now t t' x :
  insert_member p u role now t = Ok (t', x) →
  t' = set_members (<[(p, u) := role]> (project_members t)) t.
Proof. unfold insert_member. destruct (bool_decide _); [done|]. by intros [= <- <-]. Qed.

Lemma insert_refresh_ok i tok exp ip ua now t t' x :
  insert_refresh i tok exp ip ua now t = Ok (t', x) →
  refresh_tokens t !! tok = None ∧ is_Some (users t !! i) ∧ t' = refresh_added i tok exp ip ua now t.
Proof.
  unfold insert_refresh. destruct (bool_decide _) eqn:Hn; [done|]. destruct (bool_decide (is_Some (users t !! i))) eqn:Hu; [|done].
  intros [= <- <-]. split; [by apply not_is_Some|]. by apply bool_decide_eq_true in Hu.
Qed.

Lemma insert_verification_ok id i tok exp now t t' x :
  insert_verification id i tok exp now t = Ok (t', x) →
  x = id ∧ room_for_token (verification_tokens t) id tok ∧
  t' = set_verifications (<[tok := mkOneTime id i tok exp None now]> (verification_tokens t)) t.
Proof.
  unfold insert_verification. destruct (existsb _ _) eqn:Hid; [done|]. destruct (bool_decide _) eqn:Hn; [done|].
  destruct (negb _); [done|]. intros [= <- <-]. split; [done|]. split; [|done].
  split; [by apply not_is_Some|]. rewrite existsb_rows in Hid. intros y Hy. by apply String.eqb_neq, Hid.
Qed.

Lemma insert_reset_ok id i tok exp now t t' x :
  insert_reset id i tok exp now t = Ok (t', x) →
  x = id ∧ room_for_token (reset_tokens t) id tok ∧
  t' = set_resets (<[tok := mkOneTime id i tok exp None now]> (reset_tokens t)) t.
Proof.
  unfold insert_reset. destruct (existsb (λ x, String.eqb (TokenID x) id) _) eqn:Hid; [done|]. destruct (bool_decide _) eqn:Hn; [done|].
  destruct (existsb (λ x, String.eqb (TokenUser x) i && unused x) _); [done|]. destruct (negb _); [done|]. intros [= <- <-].
  split; [done|]. split; [|done]. split; [by apply not_is_Some|]. rewrite existsb_rows in Hid.
  intros y Hy. by apply String.eqb_neq, Hid.
Qed.

Lemma read_ok {Y} (f : tables_of_admin → option Y) now t t' y :
  read f now t = Ok (t', y) → t' = t ∧ f t = Some y.
Proof. unfold read. destruct (f t); [|done]. by intros [= <- <-]. Qed.

(** Marking tokens as used adds no token and changes no identifier. *)
Lemma used_where_room p now m id tok : room_for_token (used_where p now m) id tok ↔ room_for_token m id tok.
Proof.
  unfold room_for_token, used_where. rewrite update_where_None. setoid_rewrite update_where_rows. split.
  - intros [? H]. split; [done|]. intros x Hx E. eapply H; [by exists x|]. by destruct (_ && _).
  - intros [? H]. split; [done|]. intros y (x & Hx & ->) E. apply (H x Hx). by destruct (_ && _).
Qed.

(** *** Every call has its effect *)

Lemma signup_body_ok now t ids n e hash c s p tok exp :
  tx_ok now t (
    let* user := tx_stmt (λ now, insert_user
      (mkUser (new_user ids) n e (Some hash) None None "password" false 0 None None now false) now) in
    let* project := insert_project_retry (new_project ids) (retry_project ids) c s (UserID user) p in
    let* _ := tx_stmt (insert_member (ProjectID project) (UserID user) "owner") in
    let* tokenID := tx_stmt (insert_verification (new_token ids) (UserID user) tok exp) in
    mret (mkSignup user project tokenID))
    (λ t' res, effect ids now t t' (CallSignup n e hash c s p tok exp) res).
Proof.
  tx. apply insert_user_ok in H as (-> & Hu & ->). simpl. apply tx_ok_insert_project.
  intros t1 pr Hpr. apply insert_project_ok in Hpr as (-> & Hroom & ->). tx.
  apply insert_member_ok in H as ->. apply insert_verification_ok in H0 as (-> & Htok & ->).
  by split_and!.
Qed.

Lemma google_body_ok now t ids e g a c s :
  tx_ok now t (
    let* user := tx_stmt (λ now, insert_user_unless
      (λ t, existsb (λ v, same_email (Email v) e) (rows (users t)))
      (mkUser (new_user ids) (usernameFromEmail e) e None (Some g) (nullText a) "google" true
         0 None None now false) now) in
    let* project := insert_project_retry (new_project ids) (retry_project ids) c s (UserID user) "free" in
    let* _ := tx_stmt (insert_member (ProjectID project) (UserID user) "owner") in
    mret (mkSignup user project ""))
    (λ t' res, effect ids now t t' (CallGoogleSignup e g a c s) res).
Proof.
  tx. apply insert_user_unless_ok in H as (-> & Hu & ->). simpl. apply tx_ok_insert_project.
  intros t1 pr Hpr. apply insert_project_ok in Hpr as (-> & Hroom & ->). tx.
  apply insert_member_ok in H as ->. by split_and!.
Qed.

Lemma rotate_body_ok now t ids old new i exp ip ua :
  tx_ok now t (
    let* affected := tx_stmt (revoke_where (λ t, String.eqb (RefreshHash t) old)) in
    if negb (affected =? 1)%nat then mfail ErrNoRows
    else tx_stmt (insert_refresh i new exp ip ua))
    (λ t' x, effect ids now t t' (CallRotate old new i exp ip ua) x).
Proof.
  tx. unfold revoke_where in H. injection H as <- <-.
  apply negb_false_iff, Nat.eqb_eq in H0. apply insert_refresh_ok in H1 as (Hn & Hu & ->).
  simpl in Hn. apply update_where_None in Hn. by split_and!.
Qed.

Lemma replace_reset_body_ok now t ids i tok exp :
  tx_ok now t (
    let* _ := tx_stmt (read (λ t, users t !! i)) in
    let* _ := tx_stmt (use_resets (λ _ x, String.eqb (TokenUser x) i)) in
    tx_stmt (insert_reset (new_token ids) i tok exp))
    (λ t' x, effect ids now t t' (CallReplaceReset i tok exp) x).
Proof.
  tx. apply read_ok in H as [-> Hu]. unfold use_resets in H0. injection H0 as <- <-.
  apply insert_reset_ok in H1 as (-> & Hroom & ->). apply used_where_room in Hroom. by split_and!.
Qed.

Lemma replace_verification_body_ok now t ids i tok exp :
  tx_ok now t (
    let* _ := tx_stmt (read (λ t, users t !! i)) in
    let* _ := tx_stmt (use_verifications (λ _ x, String.eqb (TokenUser x) i)) in
    tx_stmt (insert_verification (new_token ids) i tok exp))
    (λ t' x, effect ids now t t' (CallReplaceVerification i tok exp) x).
Proof.
  tx. apply read_ok in H as [-> Hu]. unfold use_verifications in H0. injection H0 as <- <-.
  apply insert_verification_ok in H1 as (-> & Hroom & ->). apply used_where_room in Hroom. by split_and!.
Qed.

Lemma find_by_id (m : gmap string AdminUser) i :
  (count_where (by_id i) m =? 0)%nat = false → ∃ u, u ∈ rows m ∧ UserID u = i.
Proof. intros (u & Hu & He)%count_where_0. exists u. split; [done|]. by apply String.eqb_eq. Qed.

Lemma verify_body_ok now t ids tok :
  tx_ok now t (
    let* i := tx_stmt (claim_verification tok) in
    let* n := tx_stmt (update_users (by_id i) (λ _, verify_user)) in
    if (n =? 0)%nat then mfail ErrUserNotFound
    else
      let* _ := tx_stmt (use_verifications (λ _ x, String.eqb (TokenUser x) i)) in
      mret ())
    (λ t' x, effect ids now t t' (CallVerifyEmail tok) x).
Proof.
  tx. unfold claim_verification in H. destruct (find_valid _ _ _) as [y|] eqn:Hv; [|done]. injection H as <- <-.
  unfold update_users in H0. injection H0 as <- <-. unfold use_verifications in H2. injection H2 as <- <-.
  exists y. split_and!; [done| |done]. by apply find_by_id.
Qed.

Lemma reset_body_ok now t ids id i hash :
  tx_ok now t (
    let* n := tx_stmt (use_resets (λ now x, String.eqb (TokenID x) id &&
                         String.eqb (TokenUser x) i && (now <? TokenExpiresAt x)%Z)) in
    if (n =? 0)%nat then mfail ErrInvalidPasswordResetToken
    else
      let* m := tx_stmt (update_users (by_id i) (λ _, set_password hash)) in
      if (m =? 0)%nat then mfail ErrUserNotFound
      else
        let* _ := tx_stmt (revoke_where (λ t, String.eqb (RefreshUser t) i)) in
        mret ())
    (λ t' x, effect ids now t t' (CallResetPassword id i hash) x).
Proof.
  tx. unfold use_resets in H. injection H as <- <-. unfold update_users in H1. injection H1 as <- <-.
  unfold revoke_where in H3. injection H3 as <- <-. apply count_where_0 in H0 as (y & Hy & Hq).
  apply find_by_id in H2. split_and!; [|done|done]. exists y. unfold unused in Hq. split_bool.
  split_and!; [done| |done]. by rewrite !andb_true_iff.
Qed.

Lemma with_tx_effect {X} ids (c : AuthRepository X) (body : T X) d d' r :
  tx_frame body → (∀ now t, tx_ok now t body (λ t' x, effect ids now t t' c x)) → with_tx body d = (d', r) →
  frame d d' ∧
  match r with
  | Ok x => effect ids (clock d) (tables d) (tables d') c x
  | Err _ => tables d' = tables d
  end.
Proof. intros Hf Hb H. by apply (with_tx_spec _ (λ t' x, effect ids (clock d) (tables d) t' c x)) in H. Qed.

(** Whatever query fails, a call returns an error and leaves all tables as they
    were, or it has its promised effect. *)
Lemma repo_call_effect {X} ids (c : AuthRepository X) d d' r :
  repo_call ids c d = (d', r) →
  frame d d' ∧
  match r with
  | Ok x => effect ids (clock d) (tables d) (tables d') c x
  | Err _ => tables d' = tables d
  end.
Proof.
  destruct c; intros H; simpl in H;
    try (apply stmt_spec in H as [Hfr H]; split; [done|]; destruct r as [x|e]; [|done];
         first [by apply read_ok in H
               |by injection H as <- <-
               |by apply insert_user_unless_ok in H as (-> & ? & ->)
               |by apply insert_refresh_ok in H
               |idtac]);
    try (apply stmt_unit_spec in H as [Hfr H]; split; [done|]; destruct r as [x|e]; [|done];
         destruct H as [y H]; by injection H as <- <-);
    try (eapply (with_tx_effect ids); [| |exact H]; [framed|intros now t];
         first [apply rotate_body_ok|apply replace_reset_body_ok|apply replace_verification_body_ok
               |apply verify_body_ok|apply reset_body_ok]).
  - destruct (_ && _) eqn:Hg; [done|]. injection H as <- <-. split; [|done].
    intros Hi v Hv Hne Hgid. apply andb_false_iff in Hg as [Hg|Hg%bool_decide_eq_false]; [|done].
    rewrite existsb_rows in Hg. specialize (Hg v Hv). unfold by_id in Hg.
    rewrite (proj2 (String.eqb_neq _ _) Hne), bool_decide_true in Hg; done.
  - eapply (with_tx_effect ids); [| |exact H]; [framed|intros now t; apply signup_body_ok].
    intros d0 d1 r1 H1. by apply insert_project_retry_spec in H1 as [? _].
  - eapply (with_tx_effect ids); [| |exact H]; [framed|intros now t; apply google_body_ok].
    intros d0 d1 r1 H1. by apply insert_project_retry_spec in H1 as [? _].
  - destruct (find_valid _ _ _) eqn:Hv; [|done]. by injection H as <- <-.
Qed.

(** ** The invariants of the tables *)

(** Equal keys make equal rows. *)
Definition distinct_by {V K} (f : V → option K) (m : gmap string V) : Prop :=
  ∀ i j x y k, m !! i = Some x → m !! j = Some y → f x = Some k → f y = Some k → i = j.
Definition keyed {V} (f : V → string) (m : gmap string V) : Prop := ∀ i x, m !! i = Some x → f x = i.

Definition owner_in (us : gmap string AdminUser) {V} (f : V → string) (m : gmap string V) : Prop :=
  ∀ i x, m !! i = Some x → is_Some (us !! f x).

(** What the checks of a row of [admin_users] ensure. *)
Definition user_ok (u : AdminUser) : Prop :=
  email_format (Email u) = true ∧ (AuthProvider u = "password" → is_Some (PasswordHash u)) ∧
  (0 ≤ FailedLoginAttempts u)%Z.

Record well_formed (t : tables_of_admin) : Prop := {
  wf_user_key : keyed UserID (users t);
  wf_user : ∀ i u, users t !! i = Some u → user_ok u;
  wf_username : distinct_by (λ u, Some (Username u)) (users t);
  wf_email : distinct_by (λ u, Some (ToLower (Email u))) (users t);
  wf_google : distinct_by GoogleID (users t);
  wf_refresh_key : keyed RefreshHash (refresh_tokens t);
  wf_refresh_owner : owner_in (users t) RefreshUser (refresh_tokens t);
  wf_reset_key : keyed TokenHash (reset_tokens t);
  wf_reset_owner : owner_in (users t) TokenUser (reset_tokens t);
  wf_reset_id : distinct_by (λ x, Some (TokenID x)) (reset_tokens t);
  wf_reset_active : distinct_by (λ x, if unused x then Some (TokenUser x) else None) (reset_tokens t);
  wf_verification_key : keyed TokenHash (verification_tokens t);
  wf_verification_owner : owner_in (users t) TokenUser (verification_tokens t);
  wf_verification_id : distinct_by (λ x, Some (TokenID x)) (verification_tokens t);
  wf_project_key : keyed ProjectID (projects t);
  wf_project_owner : owner_in (users t) OwnerID (projects t);
  wf_project_slug : ∀ i p, projects t !! i = Some p → slug_format (Slug p) = true;
  wf_slug : distinct_by (λ p, if bool_decide (ProjectDeletedAt p = None) then Some (Slug p) else None) (projects t);
  wf_member : ∀ p u role, project_members t !! (p, u) = Some role → is_Some (projects t !! p) ∧ is_Some (users t !! u);
}.

Lemma empty_well_formed : well_formed empty_tables.
Proof. split; try done; unfold keyed, distinct_by, owner_in; simpl; intros; by rewrite lookup_empty in *. Qed.

(** *** Keys and owners under inserts, updates and deletions *)

Section maps.
Context {V : Type}.
Implicit Types (m : gmap string V) (p : V → bool) (f : V → V).

Lemma keyed_insert (g : V → string) m x : keyed g m → keyed g (<[g x := x]> m).
Proof. intros H i y [[<- <-]|[_ ?]]%lookup_insert_Some; [done|by apply H]. Qed.

Lemma keyed_update (g : V → string) p f m : (∀ x, g (f x) = g x) → keyed g m → keyed g (update_where p f m).
Proof.
  intros Hf H i y. rewrite update_where_lookup. intros (x & Hx & ->)%fmap_Some. specialize (H i x Hx).
  destruct (p x); [by rewrite Hf|done].
Qed.

Lemma keyed_sub (g : V → string) m m' : m' ⊆ m → keyed g m → keyed g m'.
Proof. intros Hs H i x Hx. eapply H, lookup_weaken; done. Qed.

Lemma distinct_insert {K} (g : V → option K) m i x :
  (∀ y k, y ∈ rows m → g x = Some k → g y ≠ Some k) → distinct_by g m → distinct_by g (<[i := x]> m).
Proof.
  intros Hn H a b y z k [[<- <-]|[? Ha]]%lookup_insert_Some [[<- <-]|[? Hb]]%lookup_insert_Some Hy Hz; [done|..].
  - destruct (Hn z k); [apply elem_of_table; eauto|done..].
  - destruct (Hn y k); [apply elem_of_table; eauto|done..].
  - by eapply H.
Qed.

(** An update that keeps the key or drops it. *)
Lemma distinct_update {K} (g : V → option K) p f m :
  (∀ x k, g (f x) = Some k → g x = Some k) → distinct_by g m → distinct_by g (update_where p f m).
Proof.
  intros Hf H i j y z k. rewrite !update_where_lookup. intros (x & Hx & ->)%fmap_Some (x' & Hx' & ->)%fmap_Some Hy Hz.
  eapply H; [exact Hx|exact Hx'| |].
  - destruct (p x); [by apply Hf|done].
  - destruct (p x'); [by apply Hf|done].
Qed.

Lemma distinct_sub {K} (g : V → option K) m m' : m' ⊆ m → distinct_by g m → distinct_by g m'.
Proof. intros Hs H i j x y k Hx Hy. eapply H; by eapply lookup_weaken. Qed.

Lemma owner_more us us' (g : V → string) m :
  (∀ i, is_Some (us !! i) → is_Some (us' !! i)) → owner_in us g m → owner_in us' g m.
Proof. intros Hs H i x Hx. eauto. Qed.

Lemma owner_insert us (g : V → string) m i x :
  is_Some (us !! g x) → owner_in us g m → owner_in us g (<[i := x]> m).
Proof. intros Hx H j y [[<- <-]|[_ ?]]%lookup_insert_Some; [done|by eapply H]. Qed.

Lemma owner_update us (g : V → string) p f m :
  (∀ x, g (f x) = g x) → owner_in us g m → owner_in us g (update_where p f m).
Proof.
  intros Hf H i y. rewrite update_where_lookup. intros (x & Hx & ->)%fmap_Some. specialize (H i x Hx).
  destruct (p x); [by rewrite Hf|done].
Qed.

Lemma owner_sub us (g : V → string) m m' : m' ⊆ m → owner_in us g m → owner_in us g m'.
Proof. intros Hs H i x Hx. eapply H, lookup_weaken; done. Qed.

End maps.

(** *** Every effect keeps them *)

(** A user that may be inserted is new in every unique column. *)
Lemma room_for_user_spec u t :
  room_for_user u t →
  email_format (Email u) = true ∧ (AuthProvider u = "password" → is_Some (PasswordHash u)) ∧
  users t !! UserID u = None ∧
  ∀ v, v ∈ rows (users t) →
    Username v ≠ Username u ∧ ToLower (Email v) ≠ ToLower (Email u) ∧
    ∀ g, GoogleID u = Some g → GoogleID v ≠ Some g.
Proof.
  unfold room_for_user, user_conflict. destruct (email_format (Email u)) eqn:He; [|done]. simpl.
  destruct (_ && _) eqn:Hp; [done|]. destruct (bool_decide (is_Some (users t !! UserID u))) eqn:Hk; [done|].
  destruct (existsb (λ v, String.eqb _ _) _) eqn:Hn; [done|].
  destruct (existsb (λ v, same_email _ _) _) eqn:Hm; [done|].
  destruct (existsb _ _) eqn:Hg in |- *; [done|]. intros _. rewrite existsb_rows in Hn, Hm, Hg.
  split; [done|]. split; [|split].
  - intros Ha. rewrite Ha, String.eqb_refl in Hp. simpl in Hp. by apply negb_false_iff, bool_decide_eq_true in Hp.
  - by apply not_is_Some.
  - intros v Hv. split; [by apply String.eqb_neq, Hn|]. split.
    + apply String.eqb_neq. by apply (Hm v).
    + intros g Hu Hvg. specialize (Hg v Hv). apply bool_decide_eq_false in Hg. apply Hg. rewrite Hvg, Hu. eauto.
Qed.

Lemma user_inserted u t :
  well_formed t → room_for_user u t → (0 ≤ FailedLoginAttempts u)%Z →
  well_formed (set_users (<[UserID u := u]> (users t)) t).
Proof.
  intros [] (He & Hp & Hk & Hnew)%room_for_user_spec Hf.
  assert (Hmore : ∀ i, is_Some (users t !! i) → is_Some (<[UserID u := u]> (users t) !! i)).
  { intros i Hi. rewrite lookup_insert_is_Some'. by right. }
  split; simpl; try done; try (by eapply owner_more).
  - by apply keyed_insert.
  - intros i v [[_ <-]|[_ Hv]]%lookup_insert_Some; [by split_and!|eauto].
  - apply distinct_insert; [|done]. intros y k Hy [= <-] [= E]. by destruct (Hnew y Hy).
  - apply distinct_insert; [|done]. intros y k Hy [= <-] [= E]. by destruct (Hnew y Hy) as (_ & ? & _).
  - apply distinct_insert; [|done]. intros y k Hy E. by apply (Hnew y Hy).
  - intros p i role Hm. destruct (wf_member0 p i role Hm). auto.
Qed.

Lemma users_updated_wf p f t :
  well_formed t → (∀ u, UserID (f u) = UserID u ∧ Username (f u) = Username u ∧ Email (f u) = Email u) →
  (∀ u, user_ok u → user_ok (f u)) → distinct_by GoogleID (update_where p f (users t)) →
  well_formed (users_updated p f t).
Proof.
  intros [] Hf Hok Hg.
  assert (Hmore : ∀ i, is_Some (users t !! i) → is_Some (update_where p f (users t) !! i)).
  { intros i Hi. rewrite update_where_lookup. by apply fmap_is_Some. }
  split; simpl; try done; try (by eapply owner_more).
  - apply keyed_update; [|done]. intros u. apply Hf.
  - intros i u. rewrite update_where_lookup. intros (v & Hv & ->)%fmap_Some.
    destruct (p v); [apply Hok|]; eauto.
  - apply distinct_update; [|done]. intros u k. by destruct (Hf u) as (_ & -> & _).
  - apply distinct_update; [|done]. intros u k. by destruct (Hf u) as (_ & _ & ->).
  - intros q i role Hm. destruct (wf_member0 q i role Hm). auto.
Qed.

Lemma revoked_where_wf p now t : well_formed t → well_formed (revoked_where p now t).
Proof. intros []. split; simpl; try done; [by apply keyed_update|by apply owner_update]. Qed.

Lemma refresh_added_wf i tok exp ip ua now t :
  is_Some (users t !! i) → well_formed t → well_formed (refresh_added i tok exp ip ua now t).
Proof.
  intros Hi []. split; simpl; try done; [by apply (keyed_insert RefreshHash _ (mkRefresh i tok _ _ _ _ _))|].
  by apply owner_insert.
Qed.

(** Tokens marked as used leave the index of unused ones. *)
Lemma used_where_facts us p now m :
  keyed TokenHash m → owner_in us TokenUser m → distinct_by (λ x, Some (TokenID x)) m →
  keyed TokenHash (used_where p now m) ∧ owner_in us TokenUser (used_where p now m) ∧
  distinct_by (λ x, Some (TokenID x)) (used_where p now m) ∧
  (distinct_by (λ x, if unused x then Some (TokenUser x) else None) m →
   distinct_by (λ x, if unused x then Some (TokenUser x) else None) (used_where p now m)).
Proof.
  intros H1 H2 H3. split_and!; [by apply keyed_update|by apply owner_update|by apply distinct_update|].
  intros H4. by apply distinct_update.
Qed.

Lemma verification_inserted_wf id i tok exp now t :
  is_Some (users t !! i) → room_for_token (verification_tokens t) id tok → well_formed t →
  well_formed (set_verifications (<[tok := mkOneTime id i tok exp None now]> (verification_tokens t)) t).
Proof.
  intros Hi [_ Hid] []. split; simpl; try done.
  - by apply (keyed_insert TokenHash _ (mkOneTime id i tok exp None now)).
  - by apply owner_insert.
  - apply distinct_insert; [|done]. intros y k Hy [= <-] [= E]. by apply (Hid y Hy).
Qed.

Lemma reset_inserted_wf id i tok exp now t :
  is_Some (users t !! i) → room_for_token (reset_tokens t) id tok →
  (∀ x, x ∈ rows (reset_tokens t) → TokenUser x = i → unused x = false) → well_formed t →
  well_formed (set_resets (<[tok := mkOneTime id i tok exp None now]> (reset_tokens t)) t).
Proof.
  intros Hi [_ Hid] Hused []. split; simpl; try done.
  - by apply (keyed_insert TokenHash _ (mkOneTime id i tok exp None now)).
  - by apply owner_insert.
  - apply distinct_insert; [|done]. intros y k Hy [= <-] [= E]. by apply (Hid y Hy).
  - apply distinct_insert; [|done]. intros y k Hy [= <-] E. destruct (unused y) eqn:Hu; [|done].
    injection E as E. by rewrite (Hused y Hy E) in Hu.
Qed.

Lemma used_resets_wf p now t : well_formed t → well_formed (set_resets (used_where p now (reset_tokens t)) t).
Proof.
  intros []. split; simpl; try done;
    [by apply keyed_update|by apply owner_update|by apply distinct_update|by apply distinct_update].
Qed.

Lemma used_verifications_wf p now t :
  well_formed t → well_formed (set_verifications (used_where p now (verification_tokens t)) t).
Proof.
  intros []. split; simpl; try done; [by apply keyed_update|by apply owner_update|by apply distinct_update].
Qed.

(** After [used_where] the user has no unused token. *)
Lemma used_where_none i now m x :
  x ∈ rows (used_where (λ x, String.eqb (TokenUser x) i) now m) → TokenUser x = i → unused x = false.
Proof.
  intros (z & _ & ->)%update_where_rows. destruct (String.eqb_spec (TokenUser z) i) as [Ez|Nz]; simpl; [|done].
  by destruct (unused z) eqn:Hz.
Qed.

Lemma tenant_added_wf u p t :
  well_formed t → room_for_user u t → room_for_project p t → OwnerID p = UserID u → (0 ≤ FailedLoginAttempts u)%Z →
  ProjectDeletedAt p = None →
  well_formed (tenant_added u p t).
Proof.
  intros Hwf Hu (Hslug & Hid & Hnew) Ho Hf Hd. apply (user_inserted u) in Hwf as []; [|done..]. simpl in *.
  split; simpl; try done.
  - by apply keyed_insert.
  - apply owner_insert; [|done]. rewrite Ho, lookup_insert_eq. eauto.
  - intros i q [[_ <-]|[_ ?]]%lookup_insert_Some; [done|eauto].
  - apply distinct_insert; [|done]. intros q k Hq Ek Eq. rewrite bool_decide_true in Ek by done. injection Ek as <-.
    destruct (bool_decide (ProjectDeletedAt q = None)) eqn:Hdel; [|done]. apply bool_decide_eq_true in Hdel.
    injection Eq as Eq. by destruct (Hnew q Hq Eq).
  - intros i j role [[[= <- <-] _]|[_ Hm]]%lookup_insert_Some.
    + by rewrite !lookup_insert_eq.
    + destruct (wf_member0 i j role Hm). split; [|done]. rewrite lookup_insert_is_Some'. by right.
Qed.

Lemma find_valid_spec m tok now x :
  find_valid m tok now = Some x ↔ m !! tok = Some x ∧ UsedAt x = None ∧ (now < TokenExpiresAt x)%Z.
Proof.
  unfold find_valid, valid_token, unused. destruct (m !! tok) as [y|]; [|naive_solver].
  destruct (bool_decide (UsedAt y = None)) eqn:Hu; simpl.
  - apply bool_decide_eq_true in Hu. destruct (Z.ltb_spec now (TokenExpiresAt y)); naive_solver lia.
  - apply bool_decide_eq_false in Hu. naive_solver.
Qed.

Lemma effect_users {X} ids now t t' (c : AuthRepository X) x :
  effect ids now t t' c x → ∀ i, is_Some (users t !! i) → is_Some (users t' !! i).
Proof.
  intros H i Hi.
  destruct c; simpl in H; destruct_and?; try (by subst); try (destruct H as (y & _ & _ & ->)); subst; simpl;
    rewrite ?update_where_lookup, ?lookup_insert_is_Some', ?fmap_is_Some; auto.
Qed.

(** The row another user has a linked identity by. *)
Lemma link_distinct i g a t :
  well_formed t → (is_Some (users t !! i) → ∀ v, v ∈ rows (users t) → UserID v ≠ i → GoogleID v ≠ Some g) →
  distinct_by GoogleID (update_where (by_id i) (link_google g a) (users t)).
Proof.
  intros Hwf Hother k l x y gid. rewrite !update_where_lookup.
  intros (u & Hu & ->)%fmap_Some (v & Hv & ->)%fmap_Some. unfold by_id.
  pose proof (wf_user_key _ Hwf _ _ Hu) as Ek. pose proof (wf_user_key _ Hwf _ _ Hv) as El.
  assert (Hr : ∀ j w, users t !! j = Some w → w ∈ rows (users t)) by (intros; apply elem_of_table; eauto).
  destruct (String.eqb_spec (UserID u) i) as [Eu|Nu], (String.eqb_spec (UserID v) i) as [Ev|Nv];
    simpl; intros Hx Hy; try congruence.
  - simplify_eq. destruct (Hother ltac:(eauto) v (Hr _ _ Hv)); congruence.
  - simplify_eq. destruct (Hother ltac:(eauto) u (Hr _ _ Hu)); congruence.
  - by eapply (wf_google _ Hwf).
Qed.

Lemma users_same_wf p f t :
  (∀ u, UserID (f u) = UserID u ∧ Username (f u) = Username u ∧ Email (f u) = Email u) →
  (∀ u, user_ok u → user_ok (f u)) → (∀ u, GoogleID (f u) = GoogleID u) →
  well_formed t → well_formed (users_updated p f t).
Proof.
  intros H1 H2 H3 Hwf. apply users_updated_wf; try done. apply distinct_update; [|apply Hwf].
  intros u k. by rewrite H3.
Qed.

(** Claiming a token is marking the one row with its hash. *)
Lemma claim_is_use m tok now x :
  keyed TokenHash m → find_valid m tok now = Some x →
  <[tok := use_token now x]> m = used_where (λ y, String.eqb (TokenHash y) tok) now m.
Proof.
  intros Hk (Hx & Hu & _)%find_valid_spec. apply map_eq. intros i. unfold used_where. rewrite update_where_lookup.
  destruct (decide (i = tok)) as [->|Hne].
  - rewrite lookup_insert_eq, Hx. simpl. rewrite (Hk _ _ Hx), String.eqb_refl. unfold unused.
    by rewrite bool_decide_true.
  - rewrite lookup_insert_ne by done. destruct (m !! i) as [y|] eqn:Hy; [|done]. simpl.
    rewrite (Hk _ _ Hy). by rewrite (proj2 (String.eqb_neq i tok) Hne).
Qed.

Lemma effect_well_formed {X} ids now t t' (c : AuthRepository X) x :
  effect ids now t t' c x → well_formed t → well_formed t'.
Proof.
  intros H Hwf.
  destruct c; simpl in H; destruct_and?; try (by subst).
  - subst. by apply user_inserted.
  - subst. apply users_updated_wf; [done|done|done|by apply link_distinct].
  - subst. by apply (verification_inserted_wf _ _ _ _ _ (tenant_added _ _ t)); [simpl; rewrite lookup_insert_eq; eauto|..
      |apply tenant_added_wf].
  - subst. by apply tenant_added_wf.
  - subst. apply (reset_inserted_wf _ _ _ _ _ (set_resets _ t)); [done|by apply used_where_room| |by apply used_resets_wf].
    intros y. apply used_where_none.
  - subst. apply (verification_inserted_wf _ _ _ _ _ (set_verifications _ t)); [done|by apply used_where_room|].
    by apply used_verifications_wf.
  - subst. by apply used_resets_wf.
  - subst. by apply used_verifications_wf.
  - destruct H as (y & Hv & _ & ->). erewrite claim_is_use by (try done; apply Hwf).
    assert (Hw : well_formed (users_updated (by_id (TokenUser y)) verify_user t)) by by apply users_same_wf.
    apply (used_verifications_wf (λ z, String.eqb (TokenHash z) tokenHash) now) in Hw.
    exact (used_verifications_wf (λ z, String.eqb (TokenUser z) (TokenUser y)) now _ Hw).
  - subst. apply revoked_where_wf, users_same_wf; [done| |done|by apply used_resets_wf].
    intros u (?&?&?). by split_and!.
  - subst. apply users_same_wf; [done| |done|done]. intros u (?&?&?). split_and!; simpl; [done..|lia].
  - subst. by apply users_same_wf.
  - subst. apply users_same_wf; [done| |done|done]. intros u (?&?&?). by split_and!.
  - subst. by apply refresh_added_wf, revoked_where_wf.
  - subst. by apply refresh_added_wf.
  - subst. by apply revoked_where_wf.
  - subst. destruct Hwf.
    split; simpl; try done; [apply (keyed_sub _ (refresh_tokens t))|apply (owner_sub _ _ (refresh_tokens t))];
      [apply map_filter_subseteq|done|apply map_filter_subseteq|done].
Qed.

(** ** Calls while no query fails *)

Lemma find_first_unique {V} (p : V → bool) (m : gmap string V) i u :
  m !! i = Some u → p u = true → (∀ v, v ∈ rows m → p v = true → v = u) → find_first p (rows m) = Some u.
Proof.
  intros Hi Hp Hu. destruct (find_first p (rows m)) as [v|] eqn:E.
  - apply find_first_split in E as (l1 & l2 & E & Hv & _). f_equal. apply Hu; [|done]. rewrite E.
    apply elem_of_app. right. by left.
  - rewrite find_first_None in E. rewrite (E u) in Hp; [done|]. apply elem_of_table. eauto.
Qed.

Lemma row_at m i u : keyed UserID m → m !! i = Some u → ∀ v, v ∈ rows m → UserID v = i → v = u.
Proof. intros Hk Hi v Hv <-. apply elem_of_table in Hv as [j Hj]. rewrite (Hk _ _ Hj) in Hi. congruence. Qed.

Lemma user_by_username t i u :
  well_formed t → users t !! i = Some u → user_where (by_username (Username u)) t = Some u.
Proof.
  intros Hwf Hi. eapply find_first_unique; [done|apply String.eqb_refl|]. intros v Hv Hn%String.eqb_eq.
  apply elem_of_table in Hv as [j Hj]. assert (j = i) as ->; [|congruence].
  eapply (wf_username _ Hwf); [done..|by rewrite Hn|done].
Qed.

Lemma user_by_email t i u e :
  well_formed t → users t !! i = Some u → same_email (Email u) e = true →
  user_where (λ v, same_email (Email v) e) t = Some u.
Proof.
  intros Hwf Hi He. eapply find_first_unique; [done|done|]. intros v Hv Hn.
  apply elem_of_table in Hv as [j Hj]. assert (j = i) as ->; [|congruence].
  unfold same_email in *. apply String.eqb_eq in He, Hn. eapply (wf_email _ Hwf); [done..|by rewrite Hn, <-He|done].
Qed.

(** Calls of a single statement. *)
Definition alone_call {X} (ids : new_ids) (c : AuthRepository X) (d : store tables_of_admin) (t' : tables_of_admin)
    (r : result error X) : Prop :=
  faults d = [] → repo_call ids c d = (with_tables t' d, r).

Lemma alone_read {X} ids (c : AuthRepository X) f d :
  repo_call ids c = stmt (read f) →
  alone_call ids c d (tables d) (match f (tables d) with Some x => Ok x | None => Err ErrNoRows end).
Proof.
  intros Hc Hf. rewrite Hc, stmt_alone by done. unfold read. destruct (f (tables d)); by rewrite with_tables_same.
Qed.

Lemma alone_update ids (c : AuthRepository unit) p f d :
  repo_call ids c = mbind (stmt (update_users p f)) (λ _, mret ()) →
  alone_call ids c d (users_updated p (f (clock d)) (tables d)) (Ok ()).
Proof. intros Hc Hf. rewrite Hc. unfold mbind. rewrite stmt_alone by done. done. Qed.

(** ** The repository as a whole *)

(** C18: from well-formed tables, whichever of its queries fail, a call of the
    repository returns an error and changes nothing, or has exactly the effect its
    method promises; either way the tables stay well-formed. *)
Theorem repository_sound {X} ids (c : AuthRepository X) d d' r :
  well_formed (tables d) → repo_call ids c d = (d', r) →
  well_formed (tables d') ∧
  match r with
  | Ok x => effect ids (clock d) (tables d) (tables d') c x
  | Err _ => tables d' = tables d
  end.
Proof.
  intros Hwf Hc. destruct (repo_call_effect ids c d d' r Hc) as [_ He].
  split; [|done]. destruct r as [x|e]; [by eapply effect_well_formed|by rewrite He].
Qed.

(** What every sign-up with this slug meets. *)
Definition slug_taken (slug : string) (t : tables_of_admin) : Prop :=
  ∃ p, p ∈ rows (projects t) ∧ Slug p = slug ∧ ProjectDeletedAt p = None.

(** A sign-up, with a password or with Google, whose project slug is taken
    fails and leaves nothing behind, whatever else holds: the second attempt under
    another slug, which both methods make, cannot succeed, because it runs in the
    transaction that the first attempt's violation has aborted. *)
Theorem taken_slug_fails_signup ids (c : AuthRepository SignupResult) slug d d' r :
  slug_taken slug (tables d) →
  (∃ username email hash company plan tok exp, c = CallSignup username email hash company slug plan tok exp) ∨
  (∃ email googleID avatarURL company, c = CallGoogleSignup email googleID avatarURL company slug) →
  repo_call ids c d = (d', r) → (∃ e, r = Err e) ∧ tables d' = tables d.
Proof.
  intros (p & Hp & Hs & Hd) Hc Hr. destruct (repo_call_effect ids c d d' r Hr) as [_ He].
  destruct r as [x|e]; [exfalso|by eauto].
  destruct Hc as [(n & em & h & co & pl & tok & exp & ->)|(em & g & a & co & ->)]; simpl in He;
    destruct_and?; by match goal with H : room_for_project _ _ |- _ => apply (proj2 (proj2 H) p Hp) in Hd end.
Qed.

End AdminTables.
