(* ===== verification/AdminSystem.v ===== *)
(** * Administrators: the system

    The requests of the routes [src/internal/admin/router.go] leaves open or puts
    behind [AdminAuth] and [SuperAdminOnly], any number of them interleaved
    between their calls, over the tables of [AdminRepo], the limiter of failed
    logins and a log of all calls with their replies; and the discipline of the
    handlers: on what evidence each of their writes rests. *)

From Stdlib Require Import Ascii.
From stdpp Require Import gmap.
From S2P Require Import Prelude GoStrings Store AdminRepo AdminAccess AdminAuth AdminTables.

Module AdminSystem.
Import Tokens AdminToken AdminRepo AdminAuth.

(** ** Requests *)

Inductive request :=
| LoginRequest (cl : client) (body : result string loginRequest)
| RefreshRequest (cl : client)
| LogoutRequest (cl : client)
| RegisterRequest (cl : client) (body : result string registerRequest)
| AdminRegisterRequest (authorization : string) (cl : client) (body : result string registerRequest)
| SignupRequest (body : result string signupRequest)
| ForgotRequest (body : result string string)
| ResetRequest (body : result string resetPasswordRequest)
| VerifyRequest (body : result string string)
| ResendRequest (body : result string string)
| MeRequest (authorization : string) (cl : client)
| GoogleLoginRequest
| CallbackRequest (cl : client) (code state : string)
| PruneTick.

(** What happened: a request came, a call returned, a clock was read, an answer
    was given. *)
Inductive event :=
| EvRequest (q : request)
| EvRepo {X : Type} (c : AuthRepository X) (r : result error X)
| EvService {X : Type} (c : Service X) (r : result string X)
| EvNow (t : Z)
| EvAnswer (a : response).

Section system.
Context {HU : UnicodeTables} `{!JWT AdminClaims, !JWT OAuthState.oauthStateClaims}.
Context (CompareHashAndPassword : string → string → bool).
Context (Parse_with_token ParseRequestURI_with_token : string → string → option string).
Context (AuthCodeURL : string → string → string).
Context (h : AuthHandler).

Definition anonymous (cl : client) : client :=
  mkClient (RemoteAddr cl) (UserAgent cl) (RefreshCookie cl) (OAuthCookie cl) None.

(** The group behind [middleware.AdminAuth]. *)
Definition authenticated_route (authorization : string) (cl : client) (next : client → prog response) : prog response :=
  Now (λ t,
  match AdminAuth (tokens h) t authorization with
  | Err (status, msg) => Done (error_answer status msg)
  | Ok caller => next (mkClient (RemoteAddr cl) (UserAgent cl) (RefreshCookie cl) (OAuthCookie cl) (Some caller))
  end).

Definition serve (q : request) : prog response :=
  match q with
  | LoginRequest cl body => Login CompareHashAndPassword h cl body
  | RefreshRequest cl => Refresh h cl
  | LogoutRequest cl => Logout h cl
  | RegisterRequest cl body => Register (anonymous cl) body
  | AdminRegisterRequest auth cl body =>
      authenticated_route auth cl (λ cl, SuperAdminOnly cl (Register cl body))
  | SignupRequest body => Signup Parse_with_token h body
  | ForgotRequest body => ForgotPassword ParseRequestURI_with_token h body
  | ResetRequest body => ResetPassword CompareHashAndPassword h body
  | VerifyRequest body => VerifyEmail body
  | ResendRequest body => ResendVerification Parse_with_token h body
  | MeRequest auth cl => authenticated_route auth cl Me
  | GoogleLoginRequest => GoogleLogin AuthCodeURL h
  | CallbackRequest cl code state => GoogleCallback h cl code state
  | PruneTick => prune_tick
  end.

(** ** Steps *)

Record sys := mkSys {
  db : store tables_of_admin;
  limiter : LoginRateLimiter.t;
  log : list event;
  tasks : list (prog response);
}.

(** Documented behaviour of the services: [crypto/rand] fills the slice, and a
    generated hash matches its password. *)
Definition reply_ok {X} (c : Service X) : result string X → Prop :=
  match c in Service X return result string X → Prop with
  | RandRead n => λ r, ∀ drawn, r = Ok drawn → length drawn = n
  | GenerateFromPassword pw => λ r, ∀ hash, r = Ok hash → CompareHashAndPassword hash pw = true
  | _ => λ _, True
  end.

Inductive step : sys → sys → Prop :=
| s_begin d l L ts q : step (mkSys d l L ts) (mkSys d l (L ++ [EvRequest q]) (ts ++ [serve q]))
| s_repo {X} d l L l1 (c : AuthRepository X) k l2 ids d' r :
    repo_call ids c d = (d', r) →
    step (mkSys d l L (l1 ++ Repo c k :: l2)) (mkSys d' l (L ++ [EvRepo c r]) (l1 ++ k r :: l2))
| s_limit {X} d l L l1 (c : LimiterCall X) k l2 now l' x :
    limiter_call now c l = (l', x) →
    step (mkSys d l L (l1 ++ Limit c k :: l2)) (mkSys d l' L (l1 ++ k x :: l2))
| s_call {X} d l L l1 (c : Service X) k l2 r :
    reply_ok c r →
    step (mkSys d l L (l1 ++ Call c k :: l2)) (mkSys d l (L ++ [EvService c r]) (l1 ++ k r :: l2))
| s_now d l L l1 k l2 t :
    step (mkSys d l L (l1 ++ Now k :: l2)) (mkSys d l (L ++ [EvNow t]) (l1 ++ k t :: l2))
| s_answer d l L l1 a l2 :
    step (mkSys d l L (l1 ++ Done a :: l2)) (mkSys d l (L ++ [EvAnswer a]) (l1 ++ l2))
| s_crash d l L l1 p l2 : step (mkSys d l L (l1 ++ p :: l2)) (mkSys d l L (l1 ++ l2))
| s_env d l L ts now fs : step (mkSys d l L ts) (mkSys (mkStore (tables d) now (supply d) fs) l L ts).

(** A deployment starts with well-formed tables and without tokens. *)
Definition initial (t0 : tables_of_admin) : Prop :=
  AdminTables.well_formed t0 ∧ refresh_tokens t0 = ∅ ∧ reset_tokens t0 = ∅ ∧ verification_tokens t0 = ∅.

Inductive reachable (t0 : tables_of_admin) : sys → Prop :=
| r_init d l : tables d = t0 → reachable t0 (mkSys d l [] [])
| r_step s s' : reachable t0 s → step s s' → reachable t0 s'.

(** ** Evidence *)

Section evidence.
Context (L : list event).

(** The account a login request names. *)
Definition names (identifier : string) (u : AdminUser) : Prop :=
  Username u = identifier ∨ (contains_byte "@" identifier = true ∧ same_email (Email u) identifier = true).

(** A login request carried the password of the account it named, and the
    account's email was verified and the account not locked. *)
Definition password_login (userID : string) : Prop :=
  ∃ cl req user hash,
    EvRequest (LoginRequest cl (Ok req)) ∈ L ∧
    (EvRepo (CallUserByEmail (ToLower (TrimSpace (LoginUsername req)))) (Ok user) ∈ L ∧
       contains_byte "@" (TrimSpace (LoginUsername req)) = true ∨
     EvRepo (CallUserByUsername (TrimSpace (LoginUsername req))) (Ok user) ∈ L) ∧
    UserID user = userID ∧ PasswordHash user = Some hash ∧
    CompareHashAndPassword hash (LoginPassword req) = true ∧ EmailVerified user = true ∧
    (LockedUntil user = None ∨ ∃ until t, LockedUntil user = Some until ∧ EvNow t ∈ L ∧ (until ≤ t)%Z).

(** Google vouched for an identity with a verified email address. *)
Definition google_identity (id : GoogleIdentity) : Prop :=
  ∃ raw payload, EvService (ValidateIDToken raw (clientID h)) (Ok payload) ∈ L ∧
    id = identity_of payload ∧ IdentityEmailVerified id = true.

(** The account was found by that identity, linked to it or created for it. *)
Definition google_login (userID : string) : Prop :=
  ∃ id, google_identity id ∧
    ((∃ user, EvRepo (CallUserByGoogleID (IdentitySubject id)) (Ok user) ∈ L ∧ UserID user = userID) ∨
     (∃ user, EvRepo (CallUserByEmail (IdentityEmail id)) (Ok user) ∈ L ∧ UserID user = userID ∧
        EvRepo (CallLinkGoogle userID (IdentitySubject id) (IdentityPicture id)) (Ok ()) ∈ L) ∨
     (∃ company slug res,
        EvRepo (CallGoogleSignup (IdentityEmail id) (IdentitySubject id) (IdentityPicture id) company slug) (Ok res)
          ∈ L ∧ UserID (SignupUser res) = userID)).

Definition authenticated (userID : string) : Prop := password_login userID ∨ google_login userID.

(** A refresh request presented the token behind [old], which was [userID]'s and
    neither revoked nor expired when it was looked up. *)
Definition presented (old userID : string) : Prop :=
  ∃ cl raw token t,
    EvRequest (RefreshRequest cl) ∈ L ∧ RefreshCookie cl = Some raw ∧ HashToken raw = old ∧
    EvRepo (CallFindRefresh old) (Ok token) ∈ L ∧ RefreshUser token = userID ∧
    RevokedAt token = None ∧ EvNow t ∈ L ∧ (t ≤ RefreshExpiresAt token)%Z.

(** The hash was made of a password that meets the policy. *)
Definition good_hash (hash : string) : Prop :=
  ∃ password, Password.Validate password = Ok () ∧ EvService (GenerateFromPassword password) (Ok hash) ∈ L.

(** The secret behind the hash was drawn by this server. *)
Definition drawn_here (tokenHash : string) : Prop :=
  ∃ drawn, EvService (RandRead 32) (Ok drawn) ∈ L ∧ tokenHash = HashToken (GenerateToken drawn).

(** A reset request presented a token of the user that was valid when looked up. *)
Definition reset_requested (tokenID userID hash : string) : Prop :=
  ∃ req token,
    EvRequest (ResetRequest (Ok req)) ∈ L ∧
    EvRepo (CallFindReset (HashToken (TrimSpace (ResetToken req)))) (Ok token) ∈ L ∧
    TokenID token = tokenID ∧ TokenUser token = userID ∧
    Password.Validate (NewPassword req) = Ok () ∧
    EvService (GenerateFromPassword (NewPassword req)) (Ok hash) ∈ L.

(** What a call rests on. *)
Definition guard {X} (c : AuthRepository X) : Prop :=
  match c with
  | CallCreateRefresh userID tokenHash _ _ _ => authenticated userID ∧ drawn_here tokenHash
  | CallRotate old new userID _ _ _ => presented old userID ∧ drawn_here new
  | CallResetPassword tokenID userID hash => reset_requested tokenID userID hash
  | CallReplaceReset userID tokenHash _ =>
      drawn_here tokenHash ∧ ∃ email user, EvRequest (ForgotRequest (Ok email)) ∈ L ∧
        EvRepo (CallUserByEmail (ToLower (TrimSpace email))) (Ok user) ∈ L ∧ UserID user = userID
  | CallReplaceVerification userID tokenHash _ =>
      drawn_here tokenHash ∧ ∃ email user, EvRequest (ResendRequest (Ok email)) ∈ L ∧
        EvRepo (CallUserByEmail (ToLower (TrimSpace email))) (Ok user) ∈ L ∧ UserID user = userID ∧
        EmailVerified user = false
  | CallSignup _ _ hash _ _ _ tokenHash _ => good_hash hash ∧ drawn_here tokenHash
  | CallCreateAdminUser _ hash isSuperAdmin =>
      good_hash hash ∧
      if isSuperAdmin : bool then EvRepo CallUserCount (Ok 0) ∈ L
      else ∃ caller, EvRepo (CallIsSuperAdmin caller) (Ok true) ∈ L
  | CallLinkGoogle userID subject picture =>
      ∃ id user, google_identity id ∧ subject = IdentitySubject id ∧ picture = IdentityPicture id ∧
        EvRepo (CallUserByEmail (IdentityEmail id)) (Ok user) ∈ L ∧ UserID user = userID
  | CallGoogleSignup email subject picture _ _ =>
      ∃ id, google_identity id ∧ email = IdentityEmail id ∧ subject = IdentitySubject id ∧
        picture = IdentityPicture id
  | CallVerifyEmail tokenHash =>
      ∃ token, EvRequest (VerifyRequest (Ok token)) ∈ L ∧ tokenHash = HashToken (TrimSpace token)
  | CallLoginSuccess userID => authenticated userID
  | _ => True
  end.

End evidence.

(** Every repository call of the program rests on its evidence, whatever the
    replies. *)
Fixpoint disciplined (L : list event) (p : prog response) : Prop :=
  match p with
  | Done _ => True
  | Repo c k => guard L c ∧ ∀ r, disciplined (L ++ [EvRepo c r]) (k r)
  | Limit c k => ∀ x, disciplined L (k x)
  | Call c k => ∀ r, disciplined (L ++ [EvService c r]) (k r)
  | Now k => ∀ t, disciplined (L ++ [EvNow t]) (k t)
  end.

(** *** More evidence does no harm *)

Lemma password_login_mono L L' u : L ⊆ L' → password_login L u → password_login L' u.
Proof.
  intros HL (cl & req & user & hash & H1 & H2 & ? & ? & ? & ? & H3). exists cl, req, user, hash.
  split_and!; try done; [by apply HL|destruct H2 as [[? ?]|?]; [left; split; auto|right; auto]|].
  destruct H3 as [?|(until & t & ? & ? & ?)]; [by left|right]. exists until, t. auto.
Qed.

Lemma google_identity_mono L L' id : L ⊆ L' → google_identity L id → google_identity L' id.
Proof. intros HL (raw & payload & ? & ? & ?). exists raw, payload. auto. Qed.

Lemma google_login_mono L L' u : L ⊆ L' → google_login L u → google_login L' u.
Proof.
  intros HL (id & Hid & H). exists id. split; [by eapply google_identity_mono|].
  destruct H as [(user & ? & ?)|[(user & ? & ? & ?)|(company & slug & res & ? & ?)]]; [left|right; left|right; right];
    eauto 10.
Qed.

Lemma authenticated_mono L L' u : L ⊆ L' → authenticated L u → authenticated L' u.
Proof. intros HL [?|?]; [left; by eapply password_login_mono|right; by eapply google_login_mono]. Qed.

Lemma presented_mono L L' old u : L ⊆ L' → presented L old u → presented L' old u.
Proof. intros HL (cl & raw & token & t & ?&?&?&?&?&?&?&?). exists cl, raw, token, t. split_and!; auto. Qed.

Lemma good_hash_mono L L' hash : L ⊆ L' → good_hash L hash → good_hash L' hash.
Proof. intros HL (pw & ? & ?). exists pw. auto. Qed.

Lemma drawn_here_mono L L' hash : L ⊆ L' → drawn_here L hash → drawn_here L' hash.
Proof. intros HL (drawn & ? & ?). exists drawn. auto. Qed.

Lemma reset_requested_mono L L' id u hash : L ⊆ L' → reset_requested L id u hash → reset_requested L' id u hash.
Proof. intros HL (req & token & ?&?&?&?&?&?). exists req, token. split_and!; auto. Qed.

Lemma evidence_mono {X} L L' (c : AuthRepository X) : L ⊆ L' → guard L c → guard L' c.
Proof.
  intros HL. destruct c; simpl; try done.
  - intros [? H]. split; [by eapply good_hash_mono|]. destruct isSuperAdmin; [auto|]. destruct H as [x ?]. eauto.
  - intros (id & user & ? & ? & ? & ? & ?). exists id, user. split_and!; auto. by eapply google_identity_mono.
  - intros [? ?]. split; [by eapply good_hash_mono|by eapply drawn_here_mono].
  - intros (id & ? & ?). exists id. split; [by eapply google_identity_mono|done].
  - intros [? (e & u & ? & ? & ?)]. split; [by eapply drawn_here_mono|]. exists e, u. auto.
  - intros [? (e & u & ? & ? & ?)]. split; [by eapply drawn_here_mono|]. exists e, u. auto.
  - intros (t & ? & ?). eauto.
  - by apply reset_requested_mono.
  - by apply authenticated_mono.
  - intros [? ?]. split; [by eapply presented_mono|by eapply drawn_here_mono].
  - intros [? ?]. split; [by eapply authenticated_mono|by eapply drawn_here_mono].
Qed.

Lemma more (L L' E : list event) : L ⊆ L' → L ++ E ⊆ L' ++ E.
Proof. intros H e. rewrite !elem_of_app. naive_solver. Qed.

Lemma handler_disciplined_mono L L' p : L ⊆ L' → disciplined L p → disciplined L' p.
Proof.
  revert L L'. induction p as [a|X c k IH|X c k IH|X c k IH|k IH]; intros L L' HL; simpl; [done|..].
  - intros [Hg Hk]. split; [by eapply evidence_mono|]. intros r. eapply IH; [by apply more|apply Hk].
  - intros Hk x. by eapply IH; [|apply Hk].
  - intros Hk r. eapply IH; [by apply more|apply Hk].
  - intros Hk t. eapply IH; [by apply more|apply Hk].
Qed.

(** ** Every handler keeps the discipline *)

Lemma last_event (L : list event) e : e ∈ L ++ [e].
Proof. apply elem_of_app. right. by apply list_elem_of_singleton. Qed.
Lemma earlier_event (L : list event) e e' : e ∈ L → e ∈ L ++ [e'].
Proof. intros H. apply elem_of_app. by left. Qed.
Lemma more_events (L L' : list event) e : L ⊆ L' → L ⊆ L' ++ [e].
Proof. intros H x Hx. apply elem_of_app. auto. Qed.

#[local] Hint Resolve last_event earlier_event more_events : core.

Lemma d_issue L cl userID name k :
  authenticated L userID → (∀ L' r, disciplined L' (k r)) → disciplined L (issueTokensForUser h cl userID name k).
Proof.
  intros Ha Hk t. destruct (CreateAdminAccessToken _ _ _ _) as [access|e]; [|done].
  intros [drawn|e]; [|done]. intros t'. split; [split|].
  - eapply authenticated_mono; [|exact Ha]. auto.
  - exists drawn. split; [auto|done].
  - by intros [?|?].
Qed.

Lemma d_right L cl ip user :
  (EmailVerified user = true → authenticated L (UserID user)) → disciplined L (right_password h cl ip user).
Proof.
  intros Ha. unfold right_password. destruct (EmailVerified user); [|done]. intros x. split; [by apply Ha|].
  intros [?|?]; [|done]. apply d_issue; [eapply authenticated_mono; [|by apply Ha]; auto|]. by intros ? [[??]|].
Qed.

Lemma d_wrong L ip user : disciplined L (wrong_password ip user).
Proof. split; [done|]. intros r x. destruct (_ <=? _)%Z; [|done]. intros t. split; [done|]. by intros ?. Qed.

Lemma d_check L cl ip password user :
  (∀ hash, PasswordHash user = Some hash → CompareHashAndPassword hash password = true →
     EmailVerified user = true → authenticated L (UserID user)) →
  disciplined L (check_password CompareHashAndPassword h cl ip password user).
Proof.
  intros Ha. unfold check_password. destruct (PasswordHash user) as [hash|]; [|by intros ?].
  destruct (CompareHashAndPassword hash password) eqn:Hc; cbn [negb]; [|apply d_wrong]. apply d_right. by apply (Ha hash).
Qed.

(** From a lookup's reply that is in the log. *)
Lemma d_found L cl req (c : AuthRepository AdminUser) r :
  EvRequest (LoginRequest cl (Ok req)) ∈ L → EvRepo c r ∈ L →
  c = CallUserByEmail (ToLower (TrimSpace (LoginUsername req))) ∧
    contains_byte "@" (TrimSpace (LoginUsername req)) = true ∨
  c = CallUserByUsername (TrimSpace (LoginUsername req)) →
  disciplined L (login_found CompareHashAndPassword h cl (ip_of cl) (LoginPassword req) r).
Proof.
  intros Hq Hr Hc. destruct r as [user|[]]; simpl; try done; try by intros ?.
  assert (Hp : ∀ L' hash, L ⊆ L' → PasswordHash user = Some hash →
    CompareHashAndPassword hash (LoginPassword req) = true → EmailVerified user = true →
    (LockedUntil user = None ∨ ∃ until t, LockedUntil user = Some until ∧ EvNow t ∈ L' ∧ (until ≤ t)%Z) →
    authenticated L' (UserID user)).
  { intros L' hash HL Hh Hm Hv Hlock. left. exists cl, req, user, hash. split_and!; try done; [by apply HL|].
    destruct Hc as [[-> ?]| ->]; [left|right]; [split; [by apply HL|done]|by apply HL]. }
  destruct (LockedUntil user) as [until|] eqn:Hl.
  - intros t. destruct (Z.ltb_spec t until); [done|]. apply d_check. intros hash Hh Hm Hv.
    apply (Hp _ hash); try done; [auto|]. right. exists until, t. auto.
  - apply d_check. intros hash Hh Hm Hv. apply (Hp _ hash); auto.
Qed.

Lemma d_login L cl body :
  EvRequest (LoginRequest cl body) ∈ L → disciplined L (Login CompareHashAndPassword h cl body).
Proof.
  intros Hq. unfold Login. cbv zeta. intros [|]; [done|]. destruct body as [req|e]; [|done].
  destruct (contains_byte "@" (TrimSpace (LoginUsername req))) eqn:Hat.
  - split; [done|]. intros r.
    assert (Hf : disciplined (L ++ [EvRepo (CallUserByEmail (ToLower (TrimSpace (LoginUsername req)))) r])
      (login_found CompareHashAndPassword h cl (ip_of cl) (LoginPassword req) r)).
    { eapply d_found; [auto|apply last_event|by left]. }
    destruct r as [user|[]]; try exact Hf. split; [done|]. intros r.
    eapply d_found; [auto|apply last_event|by right].
  - split; [done|]. intros r. eapply d_found; [auto|apply last_event|by right].
Qed.

Lemma d_refresh L cl : EvRequest (RefreshRequest cl) ∈ L → disciplined L (Refresh h cl).
Proof.
  intros Hq. unfold Refresh. destruct (RefreshCookie cl) as [raw|] eqn:Hraw; [|done]. simpl.
  destruct (String.eqb raw ""); [done|]. split; [done|]. intros [token|[]]; try done.
  destruct (RevokedAt token) eqn:Hrev; [done|]. intros t. destruct (Z.ltb_spec (RefreshExpiresAt token) t); [done|].
  intros [drawn|e]; [|done]. intros t'. split; [split|].
  - exists cl, raw, token, t. split_and!; auto.
  - exists drawn. auto.
  - intros [[]|e]; [|done]. split; [done|]. intros [user|e]; [|done]. intros t''.
    by destruct (CreateAdminAccessToken _ _ _ _).
Qed.

Lemma d_logout L cl : disciplined L (Logout h cl).
Proof. unfold Logout. destruct (negb _); [|done]. split; [done|]. by intros ?. Qed.

Lemma d_register_new L req (isSuperAdmin : bool) :
  (if isSuperAdmin then EvRepo CallUserCount (Ok 0) ∈ L
   else ∃ caller, EvRepo (CallIsSuperAdmin caller) (Ok true) ∈ L) →
  disciplined L (register_new req isSuperAdmin).
Proof.
  intros Hs. unfold register_new. destruct (Password.Validate _) as [[]|e] eqn:Hv; [|done].
  intros [hash|e]; [|done]. split.
  - split; [exists (RegisterPassword req); auto|]. destruct isSuperAdmin; [auto|]. destruct Hs as [caller ?].
    exists caller. auto.
  - intros [user|[]]; done.
Qed.

Lemma d_register L cl body : Caller cl = None → disciplined L (Register cl body).
Proof.
  intros Hcl. destruct body as [req|e]; [|done]. unfold Register. rewrite Hcl. split; [done|].
  intros [count|e]; [|done]. destruct (Nat.ltb_spec 0 count); [done|]. apply d_register_new.
  replace count with 0 by lia. apply last_event.
Qed.

Lemma d_admin_register L auth cl body :
  disciplined L (authenticated_route auth cl (λ cl, SuperAdminOnly cl (Register cl body))).
Proof.
  intros t. destruct (AdminAuth _ _ _) as [[id name]|[status msg]]; [|done]. split; [done|].
  intros [[]|e]; [|done..]. destruct body as [req|e]; [|done]. apply d_register_new. exists id. auto.
Qed.

Lemma d_invalidate_verification L id k : disciplined L k → (∀ L', disciplined L' k) →
  disciplined L (invalidateFailedVerificationToken id k).
Proof. intros Hk Hk'. unfold invalidateFailedVerificationToken. destruct (String.eqb id ""); [done|]. by split. Qed.

Lemma d_signup L body : disciplined L (Signup Parse_with_token h body).
Proof.
  destruct body as [req|e]; [|done]. unfold Signup. destruct (Password.Validate _) as [[]|e] eqn:Hv; [|done].
  intros [hash|e]; [|done]. intros [drawn|e]; [|done]. intros t. split; [split|].
  - exists (SignupPassword req). auto.
  - exists drawn. auto.
  - intros [res|e]; [|done]. unfold signup_done. destruct (Parse_with_token _ _); [|done].
    destruct (has_mailer h); [|done]. intros [?|?]; [done|]. by apply d_invalidate_verification.
Qed.

Lemma d_forgot L body :
  EvRequest (ForgotRequest body) ∈ L → disciplined L (ForgotPassword ParseRequestURI_with_token h body).
Proof.
  intros Hq. destruct body as [email|e]; [|done]. split; [done|]. intros [user|e]; [|done].
  destruct (_ || _); [done|]. destruct (negb _); [done|]. intros [drawn|e]; [|done]. intros t. split; [split|].
  - exists drawn. auto.
  - exists email, user. split_and!; auto.
  - assert (Hi : ∀ L id, disciplined L (invalidateFailedToken id (Done forgot_answer))).
    { intros L' id. unfold invalidateFailedToken. destruct (String.eqb id ""); [done|]. by split. }
    intros [id|e]; [|done]. destruct (ParseRequestURI_with_token _ _); [|apply Hi].
    intros [?|?]; [done|apply Hi].
Qed.

Lemma d_reset L body :
  EvRequest (ResetRequest body) ∈ L → disciplined L (ResetPassword CompareHashAndPassword h body).
Proof.
  intros Hq. destruct body as [req|e]; [|done]. unfold ResetPassword. destruct (_ || _); [done|].
  destruct (Password.Validate _) as [[]|e] eqn:Hv; [|done]. split; [done|]. intros [token|[]]; try done.
  split; [done|]. intros [user|e]; [|done]. destruct (same_password _ _ _); [done|]. intros [hash|e]; [|done].
  split; [|by intros [?|[]]]. exists req, token. split_and!; auto.
Qed.

Lemma d_verify L body : EvRequest (VerifyRequest body) ∈ L → disciplined L (VerifyEmail body).
Proof.
  intros Hq. destruct body as [token|e]; [|done]. unfold VerifyEmail. destruct (_ || _); [done|].
  split; [|by intros [?|?]]. exists token. auto.
Qed.

Lemma d_resend L body :
  EvRequest (ResendRequest body) ∈ L → disciplined L (ResendVerification Parse_with_token h body).
Proof.
  intros Hq. destruct body as [email|e]; [|done]. unfold ResendVerification. destruct (String.eqb _ _); [done|].
  split; [done|]. intros [user|e]; [|done]. destruct (EmailVerified user) eqn:Hv; [done|].
  intros [drawn|e]; [|done]. intros t. split; [split|].
  - exists drawn. auto.
  - exists email, user. split_and!; auto.
  - intros [id|e]; [|done]. destruct (Parse_with_token _ _); [|by apply d_invalidate_verification].
    destruct (has_mailer h); [|done]. intros [?|?]; [done|by apply d_invalidate_verification].
Qed.

Lemma d_resolve L id k :
  google_identity L id → (∀ L' u, L ⊆ L' → (∀ i n, u = Some (i, n) → google_login L' i) → disciplined L' (k u)) →
  disciplined L (resolveGoogleUser id k).
Proof.
  intros Hid Hk.
  assert (Hnone : ∀ L', L ⊆ L' → disciplined L' (k None)) by (intros; by apply Hk).
  assert (Hgi : ∀ L', L ⊆ L' → google_identity L' id) by (intros; by eapply google_identity_mono).
  split; [done|]. intros [u|[]]; try (apply Hnone; auto).
  { apply Hk; [auto|]. intros i n [= <- <-]. exists id. split; [apply Hgi; auto|]. left. exists u. auto. }
  split; [done|]. intros [u|[]]; try (apply Hnone; auto).
  - split; [exists id, u; split_and!; auto|]. intros [[]|e]; [|apply Hnone; auto].
    apply Hk; [auto|]. intros i n [= <- <-]. exists id. split; [apply Hgi; auto|]. right; left. exists u. auto.
  - split; [exists id; split_and!; auto|]. intros [res|e]; [|apply Hnone; auto].
    apply Hk; [auto|]. intros i n [= <- <-]. exists id. split; [apply Hgi; auto|]. right; right.
    eexists _, _, res. split; [apply last_event|done].
Qed.

Lemma d_callback L cl code state : disciplined L (GoogleCallback h cl code state).
Proof.
  unfold GoogleCallback. destruct (_ || _); [done|]. destruct (negb _); [done|]. intros t.
  destruct (OAuthState.ValidateState _ _ _) as [verifier|e]; [|done]. intros [token|e]; [|done].
  cbv zeta. destruct (String.eqb (default "" token) ""); [done|]. intros [payload|e]; [|done].
  cbv zeta. destruct (IdentityEmailVerified (identity_of payload)) eqn:Hv; cbn [negb]; [|done].
  apply d_resolve; [exists (default "" token), payload; auto|]. intros L' [[i n]|] HL Hlogin; [|done].
  specialize (Hlogin i n eq_refl). split; [by right|]. intros [[]|e]; [|done].
  apply d_issue; [eapply authenticated_mono; [|by right]; auto|]. by intros ? [[??]|].
Qed.

Lemma serve_disciplined L q : EvRequest q ∈ L → disciplined L (serve q).
Proof.
  intros Hq. destruct q; simpl;
    [by apply d_login|by apply d_refresh|by apply d_logout|by apply d_register|by apply d_admin_register
    |by apply d_signup|by apply d_forgot|by apply d_reset|by apply d_verify|by apply d_resend| | |by apply d_callback|].
  - intros t. destruct (AdminAuth _ _ _) as [[id name]|[status msg]]; [|done]. split; [done|]. by intros [?|?].
  - intros [drawn|e]; [|done]. destruct (GeneratePKCEPair drawn) as [v c]. intros t.
    by destruct (OAuthState.CreateState _ _ _).
  - split; [done|]. by intros ?.
Qed.

End system.
End AdminSystem.
