(* ===== verification/AdminGuarantees.v ===== *)
(** * What administrator authentication guarantees

    The invariant of [AdminSystem]'s system, and the properties of every
    interleaving of its requests that follow from it. *)

From Stdlib Require Import Ascii.
From stdpp Require Import gmap.
From S2P Require Import Prelude GoStrings Store AdminRepo AdminAccess AdminAuth AdminTables AdminSystem.

Module AdminGuarantees.
Import Tokens AdminToken AdminRepo AdminAuth AdminTables AdminSystem.

(** ** What a call may change *)

(** The refresh token a call inserts, and its user. *)
Definition inserts {X} (c : AuthRepository X) (k userID : string) : Prop :=
  match c with
  | CallCreateRefresh u tok _ _ _ => k = tok ∧ userID = u
  | CallRotate _ new u _ _ _ => k = new ∧ userID = u
  | _ => False
  end.

Lemma effect_refresh {X} ids now t t' (c : AuthRepository X) x k r :
  effect ids now t t' c x → refresh_tokens t' !! k = Some r →
  (∃ r0, refresh_tokens t !! k = Some r0 ∧ RefreshUser r0 = RefreshUser r ∧ RefreshHash r0 = RefreshHash r) ∨
  (inserts c k (RefreshUser r) ∧ RefreshHash r = k).
Proof.
  intros He Hk.
  assert (Hrev : ∀ p t1, refresh_tokens (revoked_where p now t1) !! k = Some r →
    ∃ r0, refresh_tokens t1 !! k = Some r0 ∧ RefreshUser r0 = RefreshUser r ∧ RefreshHash r0 = RefreshHash r).
  { intros p t1. simpl. rewrite update_where_lookup. intros (r0 & Hr0 & ->)%fmap_Some. exists r0.
    by destruct (_ && _). }
  destruct c; simpl in He; destruct_and?; try (destruct He as (y & _ & _ & ->)); subst; simpl in Hk; eauto.
  - left. by apply Hrev in Hk.
  - apply lookup_insert_Some in Hk as [[<- <-]|[_ Hk]]; [by right|left]. by apply Hrev in Hk.
  - apply lookup_insert_Some in Hk as [[<- <-]|[_ Hk]]; [by right|left]. eauto.
  - left. by apply Hrev in Hk.
  - left. apply map_lookup_filter_Some in Hk as [? _]. eauto.
Qed.

(** The account a call creates. *)
Definition creates {X} (c : AuthRepository X) (x : X) (u : AdminUser) : Prop :=
  match c in AuthRepository X return X → Prop with
  | CallCreateAdminUser n hash s => λ v, v = u ∧ PasswordHash u = Some hash ∧ is_super_admin u = s
  | CallSignup _ _ hash _ _ _ _ _ => λ res, SignupUser res = u ∧ PasswordHash u = Some hash ∧
      is_super_admin u = false ∧ EmailVerified u = false
  | CallGoogleSignup _ _ _ _ _ => λ res, SignupUser res = u ∧ PasswordHash u = None ∧ is_super_admin u = false
  | _ => λ _, False
  end x.

(** What may change in an account that exists. *)
Record account_change {X} (c : AuthRepository X) (t : tables_of_admin) (u0 u : AdminUser) : Prop := {
  ac_super : is_super_admin u = is_super_admin u0;
  ac_password : PasswordHash u = PasswordHash u0 ∨
    match c with
    | CallResetPassword _ i hash => i = UserID u ∧ PasswordHash u = Some hash
    | _ => False
    end;
  ac_verified : EmailVerified u = EmailVerified u0 ∨
    match c with
    | CallLinkGoogle i _ _ => i = UserID u
    | CallVerifyEmail tok => ∃ x, verification_tokens t !! tok = Some x ∧ TokenUser x = UserID u
    | _ => False
    end;
}.

Lemma account_unchanged {X} (c : AuthRepository X) t u : account_change c t u u.
Proof. split; auto. Qed.

Lemma effect_account {X} ids now t t' (c : AuthRepository X) x i u :
  effect ids now t t' c x → users t' !! i = Some u →
  (∃ u0, users t !! i = Some u0 ∧ account_change c t u0 u) ∨ creates c x u.
Proof.
  intros He Hi.
  assert (Hold : ∀ p f, users t' = update_where p f (users t) →
    (∀ v, p v = true → account_change c t v (f v)) → ∃ u0, users t !! i = Some u0 ∧ account_change c t u0 u).
  { intros p f Ht Hc. rewrite Ht, update_where_lookup in Hi. apply fmap_Some in Hi as (u0 & Hu0 & ->).
    exists u0. split; [done|]. destruct (p u0) eqn:Hp; [by apply Hc|apply account_unchanged]. }
  assert (Hsame : users t' = users t → ∃ u0, users t !! i = Some u0 ∧ account_change c t u0 u).
  { intros Ht. rewrite Ht in Hi. exists u. split; [done|apply account_unchanged]. }
  assert (Hnew : ∀ v, users t' = <[UserID v := v]> (users t) → creates c x v →
    (∃ u0, users t !! i = Some u0 ∧ account_change c t u0 u) ∨ creates c x u).
  { intros v Ht Hc. rewrite Ht in Hi. apply lookup_insert_Some in Hi as [[_ <-]|[_ Hi]]; [by right|left].
    exists u. split; [done|apply account_unchanged]. }
  destruct c; simpl in He; destruct_and?; subst; try (left; apply Hsame; done).
  - by eapply Hnew.
  - left. eapply Hold; [done|]. intros v Hp%String.eqb_eq. split; simpl; auto.
  - by eapply (Hnew (tenant_row _ _ _ _ _ _ _ _ _ _)).
  - by eapply (Hnew (tenant_row _ _ _ _ _ _ _ _ _ _)).
  - destruct He as (y & Hy & _ & ->). apply find_valid_spec in Hy as (Hy & _). left. eapply Hold; [done|].
    intros v Hp%String.eqb_eq. split; simpl; auto. right. exists y. auto.
  - left. eapply Hold; [done|]. intros v Hp%String.eqb_eq. split; simpl; auto.
  - left. eapply Hold; [done|]. intros v _. split; simpl; auto.
  - left. eapply Hold; [done|]. intros v _. split; simpl; auto.
  - left. eapply Hold; [done|]. intros v _. split; simpl; auto.
Qed.

(** The call that issues a one-time token, with the token's identifier. *)
Definition issues_reset {X} (c : AuthRepository X) (x : X) (k userID tokenID : string) : Prop :=
  match c in AuthRepository X return X → Prop with
  | CallReplaceReset u tok _ => λ id, k = tok ∧ userID = u ∧ tokenID = id
  | _ => λ _, False
  end x.
Definition issues_verification {X} (c : AuthRepository X) (x : X) (k userID tokenID : string) : Prop :=
  match c in AuthRepository X return X → Prop with
  | CallSignup _ _ _ _ _ _ tok _ => λ res, k = tok ∧ userID = UserID (SignupUser res) ∧ tokenID = VerificationTokenID res
  | CallReplaceVerification u tok _ => λ id, k = tok ∧ userID = u ∧ tokenID = id
  | _ => λ _, False
  end x.

(** A used token is the same token. *)
Lemma used_where_row p now m k x :
  used_where p now m !! k = Some x →
  ∃ x0, m !! k = Some x0 ∧ TokenUser x0 = TokenUser x ∧ TokenID x0 = TokenID x ∧ TokenHash x0 = TokenHash x ∧
    (UsedAt x = None → UsedAt x0 = None).
Proof.
  unfold used_where. rewrite update_where_lookup. intros (x0 & Hx0 & ->)%fmap_Some. exists x0. by destruct (_ && _).
Qed.

Lemma effect_reset {X} ids now t t' (c : AuthRepository X) y k x :
  effect ids now t t' c y → reset_tokens t' !! k = Some x →
  (∃ x0, reset_tokens t !! k = Some x0 ∧ TokenUser x0 = TokenUser x ∧ TokenID x0 = TokenID x ∧
     TokenHash x0 = TokenHash x ∧ (UsedAt x = None → UsedAt x0 = None)) ∨
  issues_reset c y k (TokenUser x) (TokenID x).
Proof.
  intros He Hk.
  destruct c; simpl in He; destruct_and?; try (destruct He as (z & _ & _ & ->)); subst; simpl in Hk;
    try (left; exists x; by split_and!); try (left; by apply used_where_row in Hk).
  apply lookup_insert_Some in Hk as [[<- <-]|[_ Hk]]; [by right|left]. by apply used_where_row in Hk.
Qed.

Lemma effect_verification {X} ids now t t' (c : AuthRepository X) y k x :
  effect ids now t t' c y → verification_tokens t' !! k = Some x →
  (∃ x0, verification_tokens t !! k = Some x0 ∧ TokenUser x0 = TokenUser x ∧ TokenID x0 = TokenID x ∧
     TokenHash x0 = TokenHash x ∧ (UsedAt x = None → UsedAt x0 = None)) ∨
  issues_verification c y k (TokenUser x) (TokenID x).
Proof.
  intros He Hk.
  destruct c; simpl in He; destruct_and?; subst; simpl in Hk;
    try (left; exists x; by split_and!); try (left; by apply used_where_row in Hk).
  - apply lookup_insert_Some in Hk as [[<- <-]|[_ Hk]]; [by right|left]. exists x. by split_and!.
  - apply lookup_insert_Some in Hk as [[<- <-]|[_ Hk]]; [by right|left]. by apply used_where_row in Hk.
  - destruct He as (z & Hz & _ & ->). apply find_valid_spec in Hz as (Hz & Hu & _). left. simpl in Hk.
    apply used_where_row in Hk as (x0 & Hx0 & ? & ? & ? & Hun).
    apply lookup_insert_Some in Hx0 as [[<- <-]|[_ Hx0]]; simpl in *; [exists z|exists x0]; by split_and!.
Qed.

Section guarantees.
Context {HU : UnicodeTables} `{!JWT AdminClaims, !JWT OAuthState.oauthStateClaims}.
Context (CompareHashAndPassword : string → string → bool).
Context (Parse_with_token ParseRequestURI_with_token : string → string → option string).
Context (AuthCodeURL : string → string → string).
Context (h : AuthHandler) (t0 : tables_of_admin).
#[local] Abbreviation step :=
  (AdminSystem.step CompareHashAndPassword Parse_with_token ParseRequestURI_with_token AuthCodeURL h).
#[local] Abbreviation reachable :=
  (AdminSystem.reachable CompareHashAndPassword Parse_with_token ParseRequestURI_with_token AuthCodeURL h t0).
#[local] Abbreviation authenticated := (AdminSystem.authenticated CompareHashAndPassword h).
#[local] Abbreviation guard := (AdminSystem.guard CompareHashAndPassword h).
#[local] Abbreviation disciplined := (AdminSystem.disciplined CompareHashAndPassword h).
#[local] Abbreviation google_identity := (AdminSystem.google_identity h).

(** ** The invariant *)

(** A token of the tables was issued by a call of the log. *)
Definition reset_issued (L : list event) (k userID tokenID : string) : Prop :=
  ∃ exp, EvRepo (CallReplaceReset userID k exp) (Ok tokenID) ∈ L.
Definition verification_issued (L : list event) (k userID : string) : Prop :=
  (∃ exp id, EvRepo (CallReplaceVerification userID k exp) (Ok id) ∈ L) ∨
  (∃ n e hash c s p exp res, EvRepo (CallSignup n e hash c s p k exp) (Ok res) ∈ L ∧
     UserID (SignupUser res) = userID).

(** Why an account's email address counts as verified. *)
Definition verified_reason (L : list event) (userID : string) : Prop :=
  (∃ u0, users t0 !! userID = Some u0 ∧ EmailVerified u0 = true) ∨
  (∃ n hash s u, EvRepo (CallCreateAdminUser n hash s) (Ok u) ∈ L ∧ UserID u = userID) ∨
  (∃ id company slug res, google_identity L id ∧
     EvRepo (CallGoogleSignup (IdentityEmail id) (IdentitySubject id) (IdentityPicture id) company slug) (Ok res) ∈ L ∧
     UserID (SignupUser res) = userID) ∨
  (∃ id user, google_identity L id ∧ EvRepo (CallUserByEmail (IdentityEmail id)) (Ok user) ∈ L ∧
     UserID user = userID ∧
     EvRepo (CallLinkGoogle userID (IdentitySubject id) (IdentityPicture id)) (Ok ()) ∈ L) ∨
  (∃ token, EvRequest (VerifyRequest (Ok token)) ∈ L ∧
     verification_issued L (HashToken (TrimSpace token)) userID).

Definition password_reason (L : list event) (userID hash : string) : Prop :=
  (∃ u0, users t0 !! userID = Some u0 ∧ PasswordHash u0 = Some hash) ∨ good_hash L hash.

(** Why an account is a super-administrator: it was one at deployment, or the
    deployment had no account at all and a registration that counted none
    created it. *)
Definition super_reason (L : list event) (userID : string) : Prop :=
  (∃ u0, users t0 !! userID = Some u0 ∧ is_super_admin u0 = true) ∨
  (users t0 = ∅ ∧ EvRepo CallUserCount (Ok 0) ∈ L ∧
   ∃ n hash u, EvRepo (CallCreateAdminUser n hash true) (Ok u) ∈ L ∧ UserID u = userID ∧ good_hash L hash).

(** What the replies of the repository say. *)
Definition honest {X} (L : list event) (c : AuthRepository X) : X → Prop :=
  match c in AuthRepository X return X → Prop with
  | CallUserByEmail e => λ u, same_email (Email u) e = true
  | CallUserByUsername n => λ u, Username u = n
  | CallUserByID i => λ u, UserID u = i
  | CallUserByGoogleID g => λ u, GoogleID u = Some g
  | CallFindRefresh k => λ r, RefreshHash r = k ∧ authenticated L (RefreshUser r)
  | CallFindReset k => λ x, reset_issued L k (TokenUser x) (TokenID x)
  | CallUserCount => λ n, size (users t0) ≤ n
  | _ => λ _, True
  end.

Definition truthful (L : list event) (e : event) : Prop :=
  match e with EvRepo c (Ok x) => honest L c x | _ => True end.

(** Every call of the log rests on what was in the log before it. *)
Definition guarded (L : list event) : Prop :=
  ∀ X L1 (c : AuthRepository X) r L2, L = L1 ++ EvRepo c r :: L2 → guard L1 c ∧ Forall (truthful L1) L1.

Record inv (s : sys) : Prop := {
  inv_wf : well_formed (tables (db s));
  inv_more : ∀ i, is_Some (users t0 !! i) → is_Some (users (tables (db s)) !! i);
  inv_session : ∀ k r, refresh_tokens (tables (db s)) !! k = Some r →
    authenticated (log s) (RefreshUser r) ∧ drawn_here (log s) k;
  inv_reset : ∀ k x, reset_tokens (tables (db s)) !! k = Some x → reset_issued (log s) k (TokenUser x) (TokenID x);
  inv_verification : ∀ k x, verification_tokens (tables (db s)) !! k = Some x →
    verification_issued (log s) k (TokenUser x);
  inv_password : ∀ i u hash, users (tables (db s)) !! i = Some u → PasswordHash u = Some hash →
    password_reason (log s) i hash;
  inv_verified : ∀ i u, users (tables (db s)) !! i = Some u → EmailVerified u = true → verified_reason (log s) i;
  inv_super : ∀ i u, users (tables (db s)) !! i = Some u → is_super_admin u = true → super_reason (log s) i;
  inv_truthful : Forall (truthful (log s)) (log s);
  inv_guarded : guarded (log s);
  inv_tasks : Forall (disciplined (log s)) (tasks s);
}.

(** *** More events do no harm *)

Lemma verification_issued_mono L L' k u : L ⊆ L' → verification_issued L k u → verification_issued L' k u.
Proof.
  intros HL [(exp & id & ?)|(n & e & hash & c & s & p & exp & res & ? & ?)]; [left; eauto|right].
  exists n, e, hash, c, s, p, exp, res. auto.
Qed.

Lemma verified_reason_mono L L' i : L ⊆ L' → verified_reason L i → verified_reason L' i.
Proof.
  intros HL [?|[(n & hash & s & u & ? & ?)|[(id & c & s & r & ? & ? & ?)|[(id & u & ? & ? & ? & ?)|(tok & ? & ?)]]]].
  - by left.
  - right; left. exists n, hash, s, u. auto.
  - right; right; left. exists id, c, s, r. split_and!; auto. by eapply google_identity_mono.
  - right; right; right; left. exists id, u. split_and!; auto. by eapply google_identity_mono.
  - right; right; right; right. exists tok. split; auto. by eapply verification_issued_mono.
Qed.

Lemma password_reason_mono L L' i hash : L ⊆ L' → password_reason L i hash → password_reason L' i hash.
Proof. intros HL [?|?]; [by left|right]. by eapply good_hash_mono. Qed.

Lemma super_reason_mono L L' i : L ⊆ L' → super_reason L i → super_reason L' i.
Proof.
  intros HL [?|(? & ? & n & hash & u & ? & ? & ?)]; [by left|right]. split_and!; auto.
  exists n, hash, u. split_and!; auto. by eapply good_hash_mono.
Qed.

Lemma truthful_mono L L' e : L ⊆ L' → truthful L e → truthful L' e.
Proof.
  intros HL. destruct e as [q|X c r|X c r|t|a]; simpl; try done. destruct r as [x|]; [|done].
  destruct c; simpl; try done.
  - intros [exp ?]. exists exp. auto.
  - intros [? ?]. split; [done|]. by eapply authenticated_mono.
Qed.

Lemma guarded_snoc L e :
  guarded L → (∀ X (c : AuthRepository X) r, e = EvRepo c r → guard L c ∧ Forall (truthful L) L) →
  guarded (L ++ [e]).
Proof.
  intros HL He X L1 c r L2 E. destruct L2 as [|e' L2 _] using rev_ind.
  - apply app_inj_tail in E as [-> ->]. by eapply He.
  - rewrite app_comm_cons, app_assoc in E. apply app_inj_tail in E as [-> _]. by eapply HL.
Qed.

(** The parts that a step without a repository call keeps. *)
Lemma inv_other d d' l l' L L' ts ts' :
  tables d' = tables d → (L' = L ∨ ∃ e, L' = L ++ [e] ∧ ∀ X (c : AuthRepository X) r, e ≠ EvRepo c r) →
  inv (mkSys d l L ts) → Forall (disciplined L') ts' → inv (mkSys d' l' L' ts').
Proof.
  intros Ht HL [] Hts.
  assert (Hsub : L ⊆ L') by (destruct HL as [->|(e & -> & _)]; [done|by apply more_events]).
  split; simpl in *; rewrite ?Ht; try done.
  - intros k r Hk. destruct (inv_session0 k r Hk). split; [by eapply authenticated_mono|by eapply drawn_here_mono].
  - intros k x Hk. destruct (inv_reset0 k x Hk) as [exp ?]. exists exp. auto.
  - intros k x Hk. eapply verification_issued_mono; eauto.
  - intros i u hash Hi Hp. eapply password_reason_mono; eauto.
  - intros i u Hi Hv. eapply verified_reason_mono; eauto.
  - intros i u Hi Hv. eapply super_reason_mono; eauto.
  - destruct HL as [->|(e & -> & Hne)]; [done|]. apply Forall_app. split.
    + eapply Forall_impl; [done|]. intros e'. by apply truthful_mono.
    + apply Forall_cons. split; [|done]. destruct e; try done. by destruct (Hne _ c r).
  - destruct HL as [->|(e & -> & Hne)]; [done|]. apply guarded_snoc; [done|]. intros X c r ->. by destruct (Hne X c r).
Qed.

Lemma disciplined_more L e ts : Forall (disciplined L) ts → Forall (disciplined (L ++ [e])) ts.
Proof. intros H. eapply Forall_impl; [done|]. intros p. apply handler_disciplined_mono. by apply more_events. Qed.

Lemma one_more (L : list event) e : L ⊆ L ++ [e].
Proof. by apply more_events. Qed.

(** *** A call of the repository *)

Lemma user_where_spec p t u : user_where p t = Some u → p u = true ∧ u ∈ rows (users t).
Proof.
  unfold user_where. intros (l1 & l2 & E & Hp & _)%find_first_split. split; [done|].
  rewrite E. apply elem_of_app. right. by left.
Qed.

Lemma size_more (m m' : gmap string AdminUser) : (∀ i, is_Some (m !! i) → is_Some (m' !! i)) → size m ≤ size m'.
Proof.
  intros H. rewrite <-!size_dom. apply subseteq_size. intros i. rewrite !elem_of_dom. apply H.
Qed.

Lemma reply_honest {X} ids now d l L ts (c : AuthRepository X) t' x :
  inv (mkSys d l L ts) → effect ids now (tables d) t' c x → honest L c x.
Proof.
  intros [] He. simpl in *. destruct c; simpl in *; try done; destruct_and?.
  - by apply user_where_spec in H0 as [? _].
  - by apply (wf_user_key _ inv_wf0).
  - apply user_where_spec in H0 as [? _]. by apply String.eqb_eq.
  - apply user_where_spec in H0 as [Hg _]. by apply bool_decide_eq_true in Hg.
  - apply find_valid_spec in H0 as (? & _). by apply inv_reset0.
  - split; [by apply (wf_refresh_key _ inv_wf0)|]. by apply (inv_session0 tokenHash).
  - subst. by apply size_more.
Qed.

(** Which user a found session belongs to. *)
Lemma presented_authenticated L old u :
  Forall (truthful L) L → presented L old u → authenticated L u.
Proof.
  intros Ht (cl & raw & token & t & _ & _ & _ & Hf & <- & _). rewrite Forall_forall in Ht.
  by destruct (Ht _ Hf).
Qed.

Lemma session_kept {X} ids now t t' L (c : AuthRepository X) x k r :
  effect ids now t t' c x → guard L c → Forall (truthful L) L →
  (∀ k r, refresh_tokens t !! k = Some r → authenticated L (RefreshUser r) ∧ drawn_here L k) →
  refresh_tokens t' !! k = Some r → authenticated L (RefreshUser r) ∧ drawn_here L k.
Proof.
  intros He Hg Ht Hs Hk. destruct (effect_refresh _ _ _ _ _ _ _ _ He Hk) as [(r0 & Hr0 & <- & _)|[Hins _]]; [eauto|].
  destruct c; try done; destruct Hins as [-> ->]; destruct Hg as [H1 H2]; split; try done.
  by eapply presented_authenticated.
Qed.

Lemma reset_kept {X} ids now t t' L (c : AuthRepository X) y k x :
  effect ids now t t' c y →
  (∀ k x, reset_tokens t !! k = Some x → reset_issued L k (TokenUser x) (TokenID x)) →
  reset_tokens t' !! k = Some x → reset_issued (L ++ [EvRepo c (Ok y)]) k (TokenUser x) (TokenID x).
Proof.
  intros He Hs Hk. destruct (effect_reset _ _ _ _ _ _ _ _ He Hk) as [(x0 & Hx0 & <- & <- & _)|Hi].
  - destruct (Hs k x0 Hx0) as [exp ?]. exists exp. by apply earlier_event.
  - destruct c; try done. destruct Hi as (-> & -> & ->). exists expiresAt. apply last_event.
Qed.

Lemma verification_kept {X} ids now t t' L (c : AuthRepository X) y k x :
  effect ids now t t' c y →
  (∀ k x, verification_tokens t !! k = Some x → verification_issued L k (TokenUser x)) →
  verification_tokens t' !! k = Some x → verification_issued (L ++ [EvRepo c (Ok y)]) k (TokenUser x).
Proof.
  intros He Hs Hk. destruct (effect_verification _ _ _ _ _ _ _ _ He Hk) as [(x0 & Hx0 & <- & _)|Hi].
  - eapply verification_issued_mono; [apply one_more|eauto].
  - destruct c; try done; destruct Hi as (-> & -> & _).
    + right. repeat eexists. apply last_event.
    + left. repeat eexists. apply last_event.
Qed.

Lemma password_kept {X} ids now t t' L (c : AuthRepository X) y i u hash :
  well_formed t' → effect ids now t t' c y → guard L c →
  (∀ i u hash, users t !! i = Some u → PasswordHash u = Some hash → password_reason L i hash) →
  users t' !! i = Some u → PasswordHash u = Some hash → password_reason (L ++ [EvRepo c (Ok y)]) i hash.
Proof.
  intros Hwf He Hg Hs Hi Hp. eapply password_reason_mono; [apply one_more|].
  destruct (effect_account _ _ _ _ _ _ _ _ He Hi) as [(u0 & Hu0 & [_ [E|E] _])|Hc].
  - eapply Hs; [done|congruence].
  - destruct c; try done. destruct E as [-> E]. right. rewrite E in Hp. injection Hp as ->.
    destruct Hg as (req & token & _ & _ & _ & _ & ? & ?). by exists (NewPassword req).
  - right. destruct c; try done.
    + destruct Hc as (_ & E & _). destruct Hg as [? _]. congruence.
    + destruct Hc as (_ & E & _). destruct Hg as [? _]. congruence.
    + destruct Hc as (_ & E & _). congruence.
Qed.

Lemma verified_kept {X} ids now t t' L (c : AuthRepository X) y i u :
  well_formed t' → effect ids now t t' c y → guard L c →
  (∀ k x, verification_tokens t !! k = Some x → verification_issued L k (TokenUser x)) →
  (∀ i u, users t !! i = Some u → EmailVerified u = true → verified_reason L i) →
  users t' !! i = Some u → EmailVerified u = true → verified_reason (L ++ [EvRepo c (Ok y)]) i.
Proof.
  intros Hwf He Hg Hver Hs Hi Hv. pose proof (wf_user_key _ Hwf _ _ Hi) as Hid.
  destruct (effect_account _ _ _ _ _ _ _ _ He Hi) as [(u0 & Hu0 & [_ _ [E|E]])|Hc].
  - eapply verified_reason_mono; [apply one_more|]. eapply Hs; [done|congruence].
  - destruct c; try done.
    + subst. destruct Hg as (id & user & Hgi & -> & -> & Hl & Hu). right; right; right; left.
      exists id, user. destruct y. split_and!; [|by apply earlier_event|done|apply last_event].
      eapply google_identity_mono; [|exact Hgi]. apply one_more.
    + destruct E as (x & Hx & E). destruct Hg as (token & Hq & ->). right; right; right; right. exists token.
      split; [by apply earlier_event|]. eapply verification_issued_mono; [apply one_more|].
      rewrite <-Hid, <-E. by apply Hver.
  - destruct c; try done.
    + destruct Hc as (-> & _). right; left. repeat eexists; [apply last_event|done].
    + destruct Hc as (_ & _ & _ & Hf). congruence.
    + destruct Hc as (<- & _). destruct Hg as (id & Hgi & -> & -> & ->). right; right; left.
      exists id, companyName, slug, y. split_and!; [|apply last_event|done].
      eapply google_identity_mono; [|exact Hgi]. apply one_more.
Qed.

Lemma super_kept {X} ids now t t' L (c : AuthRepository X) y i u :
  well_formed t' → effect ids now t t' c y → guard L c → Forall (truthful L) L →
  (∀ i u, users t !! i = Some u → is_super_admin u = true → super_reason L i) →
  users t' !! i = Some u → is_super_admin u = true → super_reason (L ++ [EvRepo c (Ok y)]) i.
Proof.
  intros Hwf He Hg Ht Hs Hi Hv. pose proof (wf_user_key _ Hwf _ _ Hi) as Hid.
  destruct (effect_account _ _ _ _ _ _ _ _ He Hi) as [(u0 & Hu0 & [E _ _])|Hc].
  - eapply super_reason_mono; [apply one_more|]. eapply Hs; [done|congruence].
  - destruct c; try done.
    + destruct Hc as (-> & _ & E). rewrite Hv in E. subst isSuperAdmin. destruct Hg as [Hgood Hn]. right.
      pose proof (proj1 (Forall_forall _ _) Ht _ Hn) as Hsize. simpl in Hsize.
      split; [apply map_size_empty_inv; lia|]. split; [by apply earlier_event|].
      do 3 eexists. split; [apply last_event|]. split; [done|]. eapply good_hash_mono; [apply one_more|exact Hgood].
    + destruct Hc as (_ & _ & ? & _). congruence.
    + destruct Hc as (_ & _ & ?). congruence.
Qed.

Lemma admin_inv_repo {X} d l L l1 (c : AuthRepository X) k l2 ids d' r :
  repo_call ids c d = (d', r) → inv (mkSys d l L (l1 ++ Repo c k :: l2)) →
  inv (mkSys d' l (L ++ [EvRepo c r]) (l1 ++ k r :: l2)).
Proof.
  intros Hc Hinv. pose proof (repo_call_effect ids c d d' r Hc) as [_ He].
  pose proof (inv_tasks _ Hinv) as Ht. simpl in Ht. apply Forall_app in Ht as [H1 [[Hg Hk] H2]%Forall_cons].
  assert (Hts : Forall (disciplined (L ++ [EvRepo c r])) (l1 ++ k r :: l2)).
  { apply Forall_app. split; [by apply disciplined_more|]. apply Forall_cons. split; [apply Hk|].
    by apply disciplined_more. }
  assert (Hguard : guarded (L ++ [EvRepo c r])).
  { apply guarded_snoc; [apply Hinv|]. intros Y c' r' E. split; [|apply Hinv].
    pose (ev_guard e := match e with EvRepo c _ => guard L c | _ => True end).
    change (ev_guard (EvRepo c' r')). by rewrite <-E. }
  destruct r as [x|e].
  - pose proof (reply_honest _ _ _ _ _ _ _ _ _ Hinv He) as Hh. destruct Hinv. simpl in *.
    pose proof (effect_well_formed _ _ _ _ _ _ He inv_wf0) as Hwf.
    split; simpl; try done.
    + intros i Hi. eapply effect_users; [done|auto].
    + intros k0 r Hk0. destruct (session_kept _ _ _ _ _ _ _ _ _ He Hg inv_truthful0 inv_session0 Hk0).
      split; [eapply authenticated_mono|eapply drawn_here_mono]; (apply one_more || done).
    + intros k0 x0. by eapply reset_kept.
    + intros k0 x0. by eapply verification_kept.
    + intros i u hash. by eapply password_kept.
    + intros i u. by eapply verified_kept.
    + intros i u. by eapply super_kept.
    + apply Forall_app. split; [eapply Forall_impl; [done|]; intros e; apply truthful_mono; apply one_more|].
      apply Forall_cons. split; [|done]. apply (truthful_mono L _ (EvRepo c (Ok x))); [apply one_more|exact Hh].
  - destruct Hinv. simpl in *. split; simpl; rewrite ?He; try done.
    + intros k0 r Hk0. destruct (inv_session0 k0 r Hk0).
      split; [eapply authenticated_mono|eapply drawn_here_mono]; (apply one_more || done).
    + intros k0 x Hk0. destruct (inv_reset0 k0 x Hk0) as [exp ?]. exists exp. by apply earlier_event.
    + intros k0 x Hk0. eapply verification_issued_mono; [apply one_more|eauto].
    + intros i u hash Hi Hp. eapply password_reason_mono; [apply one_more|eauto].
    + intros i u Hi Hv. eapply verified_reason_mono; [apply one_more|eauto].
    + intros i u Hi Hv. eapply super_reason_mono; [apply one_more|eauto].
    + apply Forall_app. split; [eapply Forall_impl; [done|]; intros e'; apply truthful_mono; apply one_more|].
      by apply Forall_cons.
Qed.

(** *** Every reachable state *)

Lemma admin_inv_step s s' : step s s' → inv s → inv s'.
Proof.
  intros Hstep Hinv. pose proof (inv_tasks _ Hinv) as Ht.
  destruct Hstep as [d l L ts q|X d l L l1 c k l2 ids d' r Hc|X d l L l1 c k l2 now l' x Hl|X d l L l1 c k l2 r Hr
    |d l L l1 k l2 t|d l L l1 a l2|d l L l1 p l2|d l L ts now fs]; simpl in *.
  - eapply inv_other; [done| |exact Hinv|]; [right; by eexists|]. apply Forall_app. split; [by apply disciplined_more|].
    apply Forall_singleton, serve_disciplined, last_event.
  - by eapply admin_inv_repo.
  - apply Forall_app in Ht as [H1 [Hk H2]%Forall_cons].
    eapply inv_other; [done|by left|exact Hinv|]. apply Forall_app. split; [done|]. apply Forall_cons. split; [apply Hk|done].
  - apply Forall_app in Ht as [H1 [Hk H2]%Forall_cons].
    eapply inv_other; [done| |exact Hinv|]; [right; by eexists|].
    apply Forall_app. split; [by apply disciplined_more|]. apply Forall_cons. split; [apply Hk|by apply disciplined_more].
  - apply Forall_app in Ht as [H1 [Hk H2]%Forall_cons].
    eapply inv_other; [done| |exact Hinv|]; [right; by eexists|].
    apply Forall_app. split; [by apply disciplined_more|]. apply Forall_cons. split; [apply Hk|by apply disciplined_more].
  - apply Forall_app in Ht as [H1 [_ H2]%Forall_cons].
    eapply inv_other; [done| |exact Hinv|]; [right; by eexists|]. apply Forall_app. split; by apply disciplined_more.
  - apply Forall_app in Ht as [H1 [_ H2]%Forall_cons].
    eapply inv_other; [done|by left|exact Hinv|]. by apply Forall_app.
  - by eapply inv_other; [|by left|exact Hinv|].
Qed.

Lemma admin_reachable_inv s : initial t0 → reachable s → inv s.
Proof.
  intros (Hwf & Hr & Hp & Hv) Hs. induction Hs as [d l Hd|s s' Hs IH Hstep]; [|by eapply admin_inv_step].
  split; simpl; rewrite ?Hd; try done.
  - intros k r. by rewrite Hr, lookup_empty.
  - intros k x. by rewrite Hp, lookup_empty.
  - intros k x. by rewrite Hv, lookup_empty.
  - intros i u hash Hu Hh. left. eauto.
  - intros i u Hu Hh. left. eauto.
  - intros i u Hu Hh. left. eauto.
  - intros X L1 c r L2 E. by destruct L1.
Qed.

(** ** Sessions *)

Lemma guarded_at s X L1 (c : AuthRepository X) r L2 :
  initial t0 → reachable s → log s = L1 ++ EvRepo c r :: L2 → guard L1 c ∧ Forall (truthful L1) L1.
Proof. intros Hi Hs. apply (inv_guarded _ (admin_reachable_inv s Hi Hs)). Qed.

Lemma honest_in L X (c : AuthRepository X) x : Forall (truthful L) L → EvRepo c (Ok x) ∈ L → honest L c x.
Proof. intros H Hin. rewrite Forall_forall in H. exact (H _ Hin). Qed.

(** C8: over all interleavings of requests, crashes and failing queries, each
    refresh token in the table has a secret drawn by this server, and its user
    either gave, in a login request that named the account, the password of the
    account with its email verified and not locked, or signed in at Google with a
    verified address. *)
Theorem sessions_authenticated s k r :
  initial t0 → reachable s → refresh_tokens (tables (db s)) !! k = Some r →
  drawn_here (log s) k ∧
  ((∃ cl req user hash (c : AuthRepository AdminUser),
      EvRequest (LoginRequest cl (Ok req)) ∈ log s ∧ EvRepo c (Ok user) ∈ log s ∧
      names (TrimSpace (LoginUsername req)) user ∧ UserID user = RefreshUser r ∧
      PasswordHash user = Some hash ∧ CompareHashAndPassword hash (LoginPassword req) = true ∧
      EmailVerified user = true ∧
      (LockedUntil user = None ∨ ∃ until t, LockedUntil user = Some until ∧ EvNow t ∈ log s ∧ (until ≤ t)%Z)) ∨
   google_login h (log s) (RefreshUser r)).
Proof.
  intros Hi Hs Hk. pose proof (admin_reachable_inv s Hi Hs) as Hinv.
  destruct (inv_session _ Hinv k r Hk) as [[Hp|Hg] Hd]; split; [done| |done|by right].
  left. destruct Hp as (cl & req & user & hash & Hq & Hl & Hu & Hh & Hm & Hv & Hlock).
  pose proof (inv_truthful _ Hinv) as Ht.
  destruct Hl as [[Hl Hat]|Hl]; pose proof (honest_in _ _ _ _ Ht Hl) as Hn; simpl in Hn;
    exists cl, req, user, hash; eexists; split_and!; try done; [right|by left].
  split; [done|]. unfold same_email in *. by rewrite ToLower_idemp in Hn.
Qed.

(** ** Password resets *)

(** C25: every password reset the server carries out was asked for with a secret
    that the server itself had drawn and recorded for that account after a request
    to reset the password of the account's address; and the new password meets the
    policy. *)
Theorem password_resets_authorised s L1 tokenID userID hash r L2 :
  initial t0 → reachable s → log s = L1 ++ EvRepo (CallResetPassword tokenID userID hash) r :: L2 →
  ∃ req email user drawn exp,
    EvRequest (ResetRequest (Ok req)) ∈ L1 ∧
    HashToken (TrimSpace (ResetToken req)) = HashToken (GenerateToken drawn) ∧
    EvService (RandRead 32) (Ok drawn) ∈ L1 ∧
    EvRepo (CallReplaceReset userID (HashToken (GenerateToken drawn)) exp) (Ok tokenID) ∈ L1 ∧
    EvRequest (ForgotRequest (Ok email)) ∈ L1 ∧
    EvRepo (CallUserByEmail (ToLower (TrimSpace email))) (Ok user) ∈ L1 ∧
    UserID user = userID ∧ same_email (Email user) (TrimSpace email) = true ∧
    Password.Validate (NewPassword req) = Ok () ∧ EvService (GenerateFromPassword (NewPassword req)) (Ok hash) ∈ L1.
Proof.
  intros Hi Hs HL. destruct (guarded_at _ _ _ _ _ _ Hi Hs HL) as [(req & token & Hq & Hf & <- & <- & Hv & Hg) Ht].
  destruct (honest_in _ _ _ _ Ht Hf) as [exp Hiss].
  destruct (list_elem_of_split _ _ Hiss) as (L3 & L4 & E).
  assert (E' : log s = L3 ++ EvRepo (CallReplaceReset (TokenUser token) (HashToken (TrimSpace (ResetToken req))) exp)
    (Ok (TokenID token)) :: (L4 ++ EvRepo (CallResetPassword (TokenID token) (TokenUser token) hash) r :: L2)).
  { rewrite HL, E. by rewrite <-app_assoc. }
  destruct (guarded_at _ _ _ _ _ _ Hi Hs E') as [[(drawn & Hd & Eh) (email & user & Hfq & Hl & Hu)] Ht3].
  pose proof (honest_in _ _ _ _ Ht3 Hl) as Hm. simpl in Hm.
  assert (L3 ⊆ L1) as Hsub by (rewrite E; intros e He; apply elem_of_app; by left).
  exists req, email, user, drawn, exp. rewrite <-Eh. split_and!; auto.
  unfold same_email in *. by rewrite ToLower_idemp in Hm.
Qed.

(** ** Accounts *)

(** An email address counts as verified only if it was so at deployment, an
    administrator created the account, Google vouched for an identity of that
    address, or a request presented the secret behind a verification token that
    was issued for the account. *)
Theorem verified_emails_justified s i u :
  initial t0 → reachable s → users (tables (db s)) !! i = Some u → EmailVerified u = true →
  verified_reason (log s) i.
Proof. intros Hi Hs. apply (inv_verified _ (admin_reachable_inv s Hi Hs)). Qed.

(** C33: an account is a super-administrator only if it was one at deployment,
    or if the deployment had no account whatsoever and a registration that
    counted no accounts created it; so where the migrations' system_admin (or
    any other account) exists at deployment, no request ever makes one.  Stored
    passwords were there at deployment or are hashes of passwords that meet the
    policy, and the tables stay well-formed. *)
Theorem accounts_safe s i u :
  initial t0 → reachable s → users (tables (db s)) !! i = Some u →
  (is_super_admin u = true →
     (∃ u0, users t0 !! i = Some u0 ∧ is_super_admin u0 = true) ∨
     (users t0 = ∅ ∧ EvRepo CallUserCount (Ok 0) ∈ log s ∧
      ∃ n hash u', EvRepo (CallCreateAdminUser n hash true) (Ok u') ∈ log s ∧ UserID u' = i ∧ good_hash (log s) hash)) ∧
  (∀ hash, PasswordHash u = Some hash → password_reason (log s) i hash) ∧
  well_formed (tables (db s)).
Proof.
  intros Hi Hs Hu. pose proof (admin_reachable_inv s Hi Hs) as Hinv. split_and!.
  - by apply (inv_super _ Hinv).
  - intros hash. by apply (inv_password _ Hinv).
  - apply Hinv.
Qed.

(** ** Tokens are used once *)

(** The number of successful calls of a kind in a log. *)
Abbreviation kind := (∀ X, AuthRepository X → X → bool).
Definition succeeded (f : kind) (e : event) : bool :=
  match e with EvRepo c (Ok x) => f _ c x | _ => false end.
Definition times (f : kind) (L : list event) : nat := length (filter (λ e, succeeded f e = true) L).
Definition nat_of (b : bool) : nat := if b then 1 else 0.

Lemma times_log_snoc f L e : times f (L ++ [e]) = times f L + nat_of (succeeded f e).
Proof.
  unfold times. rewrite filter_app, length_app, filter_cons. destruct (succeeded f e).
  - by rewrite decide_True.
  - by rewrite decide_False.
Qed.

Definition exchanges (k : string) : kind := λ X c _,
  match c with CallRotate old _ _ _ _ _ => String.eqb old k | _ => false end.
Definition issues_session (k : string) : kind := λ X c _,
  match c with
  | CallCreateRefresh _ tok _ _ _ => String.eqb tok k
  | CallRotate _ new _ _ _ _ => String.eqb new k
  | _ => false
  end.
Definition resets_by (id : string) : kind := λ X c _,
  match c with CallResetPassword i _ _ => String.eqb i id | _ => false end.
Definition mails_reset (id : string) : kind := λ X c,
  match c in AuthRepository X return X → bool with CallReplaceReset _ _ _ => λ i, String.eqb i id | _ => λ _, false end.
Definition verifies_by (k : string) : kind := λ X c _,
  match c with CallVerifyEmail tok => String.eqb tok k | _ => false end.
Definition mails_verification (k : string) : kind := λ X c _,
  match c with
  | CallSignup _ _ _ _ _ _ tok _ => String.eqb tok k
  | CallReplaceVerification _ tok _ => String.eqb tok k
  | _ => false
  end.

(** Whether a token can still be used. *)
Definition open_session (k : string) (t : tables_of_admin) : bool :=
  match refresh_tokens t !! k with Some r => unrevoked r | None => false end.
Definition open_reset (id : string) (t : tables_of_admin) : bool :=
  existsb (λ x, String.eqb (TokenID x) id && unused x) (rows (reset_tokens t)).
Definition open_verification (k : string) (t : tables_of_admin) : bool :=
  match verification_tokens t !! k with Some x => unused x | None => false end.

(** A use needs an open token and closes it; only an issue opens one. *)
Definition spends (use issue : kind) (opened : tables_of_admin → bool) : Prop :=
  ∀ X ids now t t' (c : AuthRepository X) x, well_formed t → effect ids now t t' c x →
    (use X c x = true → opened t = true ∧ opened t' = false) ∧
    (opened t' = true → opened t = true ∨ issue X c x = true).

Lemma effect_open {X} ids now t t' (c : AuthRepository X) x k r :
  effect ids now t t' c x → refresh_tokens t' !! k = Some r → RevokedAt r = None →
  refresh_tokens t !! k = Some r ∨ issues_session k X c x = true.
Proof.
  intros He Hk Hr.
  assert (Hrev : ∀ p t1, refresh_tokens (revoked_where p now t1) !! k = Some r → refresh_tokens t1 !! k = Some r).
  { intros p t1. simpl. rewrite update_where_lookup. intros (r0 & Hr0 & E)%fmap_Some.
    destruct (_ && _); [by rewrite E in Hr|by rewrite E]. }
  destruct c; simpl in He; destruct_and?; try (destruct He as (y & _ & _ & ->)); subst; simpl in Hk; auto.
  - left. by apply Hrev in Hk.
  - apply lookup_insert_Some in Hk as [[-> _]|[_ Hk]]; [right; apply String.eqb_refl|left]. by apply Hrev in Hk.
  - apply lookup_insert_Some in Hk as [[-> _]|[_ Hk]]; [right; apply String.eqb_refl|by left].
  - left. by apply Hrev in Hk.
  - left. by apply map_lookup_filter_Some in Hk as [? _].
Qed.

Lemma session_spent k : spends (exchanges k) (issues_session k) (open_session k).
Proof.
  intros X ids now t t' c x Hwf He. unfold open_session. split.
  - intros Hu. destruct c; try done. apply String.eqb_eq in Hu. subst oldHash. simpl in He.
    destruct He as (Hc & Hn & _ & ->).
    destruct (count_where_0 _ _ ltac:(rewrite Hc; done)) as (r & Hr & Hp). split_bool.
    apply String.eqb_eq in H. apply elem_of_table in Hr as [j Hj].
    rewrite <-(wf_refresh_key _ Hwf _ _ Hj), H in Hj. rewrite Hj. split; [done|]. simpl.
    destruct (decide (newHash = k)) as [->|Hne]; [congruence|].
    rewrite lookup_insert_ne, update_where_lookup, Hj by done. simpl. by rewrite H, String.eqb_refl, H0.
  - destruct (refresh_tokens t' !! k) as [r|] eqn:Hk; [|done]. intros Hr%bool_decide_eq_true.
    destruct (effect_open _ _ _ _ _ _ _ _ He Hk Hr) as [->|?]; [left|by right]. by apply bool_decide_eq_true.
Qed.

Lemma verification_spent k : spends (verifies_by k) (mails_verification k) (open_verification k).
Proof.
  intros X ids now t t' c x Hwf He. unfold open_verification. split.
  - intros Hu. destruct c; try done. apply String.eqb_eq in Hu. subst tokenHash. simpl in He.
    destruct He as (y & Hy & _ & ->). apply find_valid_spec in Hy as (Hy & Hun & _). rewrite Hy. unfold unused.
    rewrite Hun. split; [done|]. simpl. unfold used_where. rewrite update_where_lookup, lookup_insert_eq. simpl.
    by destruct (_ && _).
  - destruct (verification_tokens t' !! k) as [y|] eqn:Hk; [|done]. intros Hy%bool_decide_eq_true.
    destruct (effect_verification _ _ _ _ _ _ _ _ He Hk) as [(y0 & -> & _ & _ & _ & Hun)|Hiss].
    + left. apply bool_decide_eq_true. auto.
    + right. destruct c; try done; destruct Hiss as [-> _]; apply String.eqb_refl.
Qed.

Lemma open_reset_spec id t :
  open_reset id t = true ↔ ∃ k x, reset_tokens t !! k = Some x ∧ TokenID x = id ∧ UsedAt x = None.
Proof.
  unfold open_reset. rewrite existsb_exists. split.
  - intros (x & Hx%list_elem_of_In & Hp). apply elem_of_table in Hx as [k Hk]. split_bool. exists k, x.
    unfold unused in *. split_bool. split_and!; [done|by apply String.eqb_eq|done].
  - intros (k & x & Hk & <- & Hu). exists x. split; [apply list_elem_of_In, elem_of_table; eauto|].
    rewrite String.eqb_refl. by apply bool_decide_eq_true.
Qed.

Lemma reset_spent id : spends (resets_by id) (mails_reset id) (open_reset id).
Proof.
  intros X ids now t t' c x Hwf He. split.
  - intros Hu. destruct c; try done. apply String.eqb_eq in Hu. subst tokenID. destruct He as ((y & Hy & Hq & Hun) & _ & ->).
    apply elem_of_table in Hy as [j Hj].
    assert (TokenID y = id) as H by (cbv beta in Hq; split_bool; by apply String.eqb_eq).
    split; [apply open_reset_spec; eauto|]. apply not_true_iff_false. rewrite open_reset_spec. simpl.
    intros (k & z & Hz & Hzid & Hzun). unfold used_where in Hz. rewrite update_where_lookup in Hz.
    apply fmap_Some in Hz as (z0 & Hz0 & ->).
    assert (TokenID z0 = id) as Hz0id by by destruct (_ && unused z0).
    assert (k = j) as -> by (eapply (wf_reset_id _ Hwf); [exact Hz0|exact Hj|by rewrite Hz0id|by rewrite H]).
    rewrite Hj in Hz0. injection Hz0 as <-. revert Hzun. rewrite Hq. unfold unused. by rewrite Hun.
  - intros (k & y & Hk & Hid & Hun)%open_reset_spec.
    destruct (effect_reset _ _ _ _ _ _ _ _ He Hk) as [(y0 & Hy0 & _ & E & _ & Hu)|Hiss].
    + left. apply open_reset_spec. exists k, y0. split_and!; [done|congruence|auto].
    + right. destruct c; try done. destruct Hiss as (_ & _ & <-). simpl. rewrite Hid. apply String.eqb_refl.
Qed.

(** Uses, and an open token, are paid for by issues. *)
Lemma spent_at_most s use issue opened :
  spends use issue opened → initial t0 → opened t0 = false → reachable s →
  times use (log s) + nat_of (opened (tables (db s))) ≤ times issue (log s).
Proof.
  intros Hsp Hi H0 Hs. induction Hs as [d l Hd|s s' Hs IH Hstep]; [simpl; by rewrite Hd, H0|].
  pose proof (admin_reachable_inv s Hi Hs) as Hinv.
  destruct Hstep as [d l L ts q|X d l L l1 c k l2 ids d' r Hc|X d l L l1 c k l2 now l' x Hl|X d l L l1 c k l2 r Hr
    |d l L l1 k l2 t|d l L l1 a l2|d l L l1 p l2|d l L ts now fs]; simpl in *; rewrite ?times_log_snoc; simpl; try lia.
  destruct (repo_call_effect ids c d d' r Hc) as [_ He]. destruct r as [x|e]; simpl; [|rewrite He; lia].
  destruct (Hsp _ _ _ _ _ _ _ (inv_wf _ Hinv) He) as [H1 H2]. simpl in H1, H2.
  destruct (use X c x) eqn:Hu; simpl in *.
  - destruct (H1 eq_refl) as [E1 E2]. rewrite E1, E2 in *. simpl in *. lia.
  - destruct (opened (tables d')); simpl; [|lia]. destruct (H2 eq_refl) as [E|E]; rewrite E in *; simpl in *; [|lia].
    destruct (issue X c x); simpl; lia.
Qed.

(** C15: in every interleaving each refresh token is exchanged, each reset token
    resets a password and each verification token verifies an address at most as
    often as it was issued, and once it is spent it stays spent until the same
    token is issued anew. *)
Theorem tokens_single_use s :
  initial t0 → reachable s →
  (∀ k, times (exchanges k) (log s) + nat_of (open_session k (tables (db s))) ≤ times (issues_session k) (log s)) ∧
  (∀ id, times (resets_by id) (log s) + nat_of (open_reset id (tables (db s))) ≤ times (mails_reset id) (log s)) ∧
  (∀ k, times (verifies_by k) (log s) + nat_of (open_verification k (tables (db s))) ≤
     times (mails_verification k) (log s)).
Proof.
  intros Hi Hs. pose proof Hi as (_ & Hr & Hp & Hv). split_and!; intros k; apply spent_at_most; try done.
  - apply session_spent.
  - unfold open_session. by rewrite Hr, lookup_empty.
  - apply reset_spent.
  - unfold open_reset. by rewrite Hp.
  - apply verification_spent.
  - unfold open_verification. by rewrite Hv, lookup_empty.
Qed.

End guarantees.

End AdminGuarantees.
