(* ===== verification/AdminSequential.v ===== *)
(** * Administrators: one request after the other

    What a request does when no other runs between its calls: an evaluation of
    programs, which is a run of [AdminSystem]; the lock-out of guessed passwords;
    and the recovery of an account from the forgotten password to the next login. *)

From Stdlib Require Import Ascii.
From stdpp Require Import gmap.
From S2P Require Import Prelude GoStrings Store AdminRepo AdminAccess AdminAuth AdminTables AdminSystem.

Module AdminSequential.
Import Tokens AdminToken AdminRepo AdminAuth AdminTables AdminSystem.

(** Tables, limiter and the number of calls so far. *)
Record world := mkWorld { wdb : store tables_of_admin; wlim : LoginRateLimiter.t; wcalls : nat }.

(** The world at a later time. *)
Definition at_time (now : Z) (w : world) : world :=
  mkWorld (mkStore (tables (wdb w)) now (supply (wdb w)) (faults (wdb w))) (wlim w) (wcalls w).

Section sequential.
Context {HU : UnicodeTables} `{!JWT AdminClaims, !JWT OAuthState.oauthStateClaims}.
Context (CompareHashAndPassword : string → string → bool).
Context (Parse_with_token ParseRequestURI_with_token : string → string → option string).
Context (AuthCodeURL : string → string → string).
Context (h : AuthHandler).
(** The replies of the services and the identifiers drawn, by the number of the call. *)
Context (answers : nat → ∀ X, Service X → result string X) (ids_at : nat → new_ids).
#[local] Abbreviation step :=
  (AdminSystem.step CompareHashAndPassword Parse_with_token ParseRequestURI_with_token AuthCodeURL h).

Fixpoint exec (w : world) (p : prog response) : world * response :=
  match p with
  | Done a => (w, a)
  | Repo c k => let '(d', r) := repo_call (ids_at (wcalls w)) c (wdb w) in
      exec (mkWorld d' (wlim w) (S (wcalls w))) (k r)
  | Limit c k => let '(l', x) := limiter_call (clock (wdb w)) c (wlim w) in
      exec (mkWorld (wdb w) l' (S (wcalls w))) (k x)
  | Call c k => exec (mkWorld (wdb w) (wlim w) (S (wcalls w))) (k (answers (wcalls w) _ c))
  | Now k => exec w (k (clock (wdb w)))
  end.

(** The evaluation is one of the runs of the system. *)
Lemma exec_steps w p L ts :
  (∀ n X (c : Service X), reply_ok CompareHashAndPassword c (answers n X c)) →
  ∃ L', rtc step (mkSys (wdb w) (wlim w) L (p :: ts))
          (mkSys (wdb (exec w p).1) (wlim (exec w p).1) (L' ++ [EvAnswer (exec w p).2]) ts).
Proof.
  intros Ha. revert w L. induction p as [a|X c k IH|X c k IH|X c k IH|k IH]; intros w L; simpl.
  - exists L. apply rtc_once. apply (s_answer _ _ _ _ _ _ _ _ [] a ts).
  - destruct (repo_call _ c _) as [d' r] eqn:Hc. destruct (IH r (mkWorld d' (wlim w) (S (wcalls w))) (L ++ [EvRepo c r]))
      as [L' H]. exists L'. eapply rtc_l; [|exact H]. by apply (s_repo _ _ _ _ _ _ _ L [] c k ts (ids_at (wcalls w))).
  - destruct (limiter_call _ c _) as [l' x] eqn:Hc. destruct (IH x (mkWorld (wdb w) l' (S (wcalls w))) L) as [L' H].
    exists L'. eapply rtc_l; [|exact H]. by apply (s_limit _ _ _ _ _ _ _ L [] c k ts (clock (wdb w))).
  - destruct (IH (answers (wcalls w) X c) (mkWorld (wdb w) (wlim w) (S (wcalls w)))
      (L ++ [EvService c (answers (wcalls w) X c)])) as [L' H].
    exists L'. eapply rtc_l; [|exact H]. by apply (s_call _ _ _ _ _ _ _ L [] c k ts).
  - destruct (IH (clock (wdb w)) w (L ++ [EvNow (clock (wdb w))])) as [L' H].
    exists L'. eapply rtc_l; [|exact H]. apply (s_now _ _ _ _ _ _ _ L [] k ts).
Qed.

(** Nothing fails, and the tables are well-formed. *)
Definition calm (w : world) : Prop := faults (wdb w) = [] ∧ well_formed (tables (wdb w)).

Lemma exec_repo {X} w (c : AuthRepository X) k t' r :
  calm w → alone_call (ids_at (wcalls w)) c (wdb w) t' r →
  exec w (Repo c k) = exec (mkWorld (with_tables t' (wdb w)) (wlim w) (S (wcalls w))) (k r).
Proof. intros [Hf _] Hc. simpl. by rewrite Hc. Qed.

(** The same tables at the same time, after more calls. *)
Definition same_db (w w' : world) : Prop := wdb w' = wdb w.

Lemma exec_read {X} w (c : AuthRepository X) f k :
  calm w → repo_call (ids_at (wcalls w)) c = stmt (read f) →
  exec w (Repo c k) =
    exec (mkWorld (wdb w) (wlim w) (S (wcalls w)))
      (k (match f (tables (wdb w)) with Some x => Ok x | None => Err ErrNoRows end)).
Proof.
  intros Hc He. erewrite exec_repo; [|done|by eapply alone_read]. by rewrite with_tables_same.
Qed.

Lemma exec_update w (c : AuthRepository unit) p f k :
  calm w → repo_call (ids_at (wcalls w)) c = mbind (stmt (update_users p f)) (λ _, mret ()) →
  exec w (Repo c k) =
    exec (mkWorld (with_tables (users_updated p (f (clock (wdb w))) (tables (wdb w))) (wdb w)) (wlim w) (S (wcalls w)))
      (k (Ok ())).
Proof. intros Hc He. erewrite exec_repo; [done|done|by eapply alone_update]. Qed.

(** ** What a login does to an account *)

Definition locked (now : Z) (u : AdminUser) : bool :=
  match LockedUntil u with Some until => (now <? until)%Z | None => false end.

(** The account after a wrong password. *)
Definition punished (now : Z) (u : AdminUser) : AdminUser :=
  if (maxLoginFailures <=? FailedLoginAttempts u + 1)%Z
  then lock_user (now + lockoutDuration) (login_failed u) else login_failed u.

(** Nothing fails, and the account [j] changes by [f], the others not at all. *)
Definition changes_only (j : string) (f : AdminUser → AdminUser) (w w' : world) : Prop :=
  calm w' ∧ clock (wdb w') = clock (wdb w) ∧
  ∀ i v, users (tables (wdb w)) !! i = Some v →
    users (tables (wdb w')) !! i = Some (if String.eqb i j then f v else v).

Lemma calm_same w w' : wdb w' = wdb w → calm w → calm w'.
Proof. unfold calm. by intros ->. Qed.

Lemma changes_nothing j w w' : calm w → wdb w' = wdb w → changes_only j id w w'.
Proof.
  intros Hw E. split; [by eapply calm_same|]. rewrite E. split; [done|]. intros i v Hv. by destruct (String.eqb i j).
Qed.

(** *** The steps of a login *)

Lemma exec_now w k : exec w (Now k) = exec w (k (clock (wdb w))).
Proof. done. Qed.

(** The limiter and the services, without evaluating the rest of the program. *)
Lemma exec_limiter {X} w (c : LimiterCall X) k :
  exec w (Limit c k) = exec (mkWorld (wdb w) (limiter_call (clock (wdb w)) c (wlim w)).1 (S (wcalls w)))
    (k (limiter_call (clock (wdb w)) c (wlim w)).2).
Proof. simpl. by destruct (limiter_call _ c _). Qed.

Lemma exec_service {X} w (c : Service X) k :
  exec w (Call c k) = exec (mkWorld (wdb w) (wlim w) (S (wcalls w))) (k (answers (wcalls w) X c)).
Proof. done. Qed.

(** A statement leaves a calm world calm. *)
Lemma calm_call {X} w (c : AuthRepository X) (f : action X) d' r :
  calm w → repo_call (ids_at (wcalls w)) c = stmt f → repo_call (ids_at (wcalls w)) c (wdb w) = (d', r) →
  calm (mkWorld d' (wlim w) (S (wcalls w))) ∧ clock d' = clock (wdb w).
Proof.
  intros [Hf Hwf] Hc Hr. destruct (repo_call_effect _ _ _ _ _ Hr) as [[Hclk _] He]. split; [|done].
  rewrite Hc, stmt_alone in Hr by done. split; simpl.
  - destruct (f _ _) as [[t' x]|e]; injection Hr as <- _; done.
  - destruct r as [x|e]; [by eapply effect_well_formed|by rewrite He].
Qed.

Lemma exec_issue w cl userID username k :
  calm w → (∀ r, ∃ a, k r = Done a) →
  let w' := (exec w (issueTokensForUser h cl userID username k)).1 in
  calm w' ∧ clock (wdb w') = clock (wdb w) ∧ users (tables (wdb w')) = users (tables (wdb w)) ∧
  ∀ P : response → Prop, (∀ r a, k r = Done a → P a) → P (exec w (issueTokensForUser h cl userID username k)).2.
Proof.
  intros Hw Hk. assert (Hend : ∀ w1 r, (exec w1 (k r)).1 = w1) by (intros w1 r; by destruct (Hk r) as [a ->]).
  assert (Hans : ∀ w1 r (P : response → Prop), (∀ r a, k r = Done a → P a) → P (exec w1 (k r)).2).
  { intros w1 r P HP. destruct (Hk r) as [a Ha]. rewrite Ha. by apply (HP r). }
  unfold issueTokensForUser. cbn [exec]. destruct (CreateAdminAccessToken _ _ _ _) as [access|e]; [|rewrite Hend; split_and!; [done..|intros P HP; by apply Hans]].
  cbn [exec]. destruct (answers _ _ _) as [drawn|e]; [|rewrite Hend; split_and!; [done..|intros P HP; by apply Hans]]. cbn [exec].
  destruct (repo_call _ _ _) as [d' r] eqn:Hc.
  assert (calm (mkWorld d' (wlim w) (S (S (wcalls w)))) ∧ clock d' = clock (wdb w)) as [H1 H2].
  { eapply (calm_call (mkWorld (wdb w) (wlim w) (S (wcalls w)))); [done| |exact Hc]. reflexivity. }
  destruct (repo_call_effect _ _ _ _ _ Hc) as [_ He].
  destruct r as [[]|e]; rewrite Hend; (split; [done|]; split; [done|]; split; [|intros P HP; by apply Hans]); simpl.
  - by destruct He as (_ & _ & ->).
  - by rewrite He.
Qed.

(** A right password changes no other account; its answer is not that of a wrong one. *)
Lemma exec_right w cl ip u :
  calm w → users (tables (wdb w)) !! UserID u = Some u →
  (∃ f, changes_only (UserID u) f w (exec w (right_password h cl ip u)).1) ∧
  Status (exec w (right_password h cl ip u)).2 ≠ 401%Z.
Proof.
  intros Hw Hu. unfold right_password. destruct (EmailVerified u); cbn [negb].
  2: { split; [exists id; by apply changes_nothing|done]. }
  rewrite exec_limiter. match goal with |- context [exec ?w0 _] => set (w1 := w0) end.
  erewrite exec_update by done. set (w2 := mkWorld _ _ _).
  assert (Hw2 : calm w2).
  { destruct Hw as [Hf Hwf]. split; simpl; [done|]. apply users_same_wf; [done| |done|done].
    intros v (?&?&?). by split_and!. }
  cbv beta iota. match goal with |- context [exec w2 (issueTokensForUser _ _ _ _ ?k)] =>
    destruct (exec_issue w2 cl (UserID u) (Username u) k Hw2) as (H1 & H2 & H3 & HP) end.
  { by intros [[access ck]|]; eexists. }
  split; [|by apply HP; intros [[access ck]|] a [= <-]].
  exists (login_succeeded (clock (wdb w))). split; [exact H1|]. rewrite H2. split; [done|]. rewrite H3.
  intros i v Hv. simpl. rewrite update_where_lookup, Hv. simpl. unfold by_id.
  by rewrite (wf_user_key _ (proj2 Hw) _ _ Hv).
Qed.

Lemma exec_wrong w ip u :
  calm w → users (tables (wdb w)) !! UserID u = Some u →
  changes_only (UserID u) (punished (clock (wdb w))) w (exec w (wrong_password ip u)).1 ∧
  Status (exec w (wrong_password ip u)).2 = 401%Z.
Proof.
  intros Hw Hu. unfold wrong_password.
  assert (Hkey : ∀ i v, users (tables (wdb w)) !! i = Some v → by_username (Username u) v = String.eqb i (UserID u)).
  { intros i v Hv. destruct (String.eqb_spec i (UserID u)) as [->|Hne].
    - rewrite Hu in Hv. injection Hv as <-. apply String.eqb_refl.
    - apply String.eqb_neq. intros Hn. apply Hne. eapply (wf_username _ (proj2 Hw)); [done..|by rewrite Hn|done]. }
  erewrite exec_update by (eauto || done). set (w1 := mkWorld _ _ _).
  assert (Hw1 : calm w1).
  { destruct Hw as [Hf Hwf]. split; [done|]. simpl. apply users_same_wf; [done| |done|done].
    intros v (?&?&?). split_and!; simpl; [done..|lia]. }
  rewrite exec_limiter. match goal with |- context [exec ?w0 _] => set (w2 := w0) end.
  assert (Hw2 : calm w2) by done.
  destruct (maxLoginFailures <=? FailedLoginAttempts u + 1)%Z eqn:Hmax.
  - rewrite exec_now. erewrite (exec_update w2 (CallLockUser _ _)) by (eauto || done). cbn [exec fst snd]. split; [|done].
    split; [|split; [done|]].
    { destruct Hw2 as [Hf Hwf]. split; [done|]. simpl. by apply users_same_wf. }
    intros i v Hv. simpl. rewrite !update_where_lookup, Hv. simpl. rewrite (Hkey _ _ Hv).
    destruct (String.eqb_spec i (UserID u)) as [->|Hne]; [|by rewrite (Hkey _ _ Hv), (proj2 (String.eqb_neq _ _) Hne)].
    rewrite Hu in Hv. injection Hv as <-. replace (by_username (Username u) (login_failed u)) with true
      by (symmetry; apply String.eqb_refl).
    unfold punished. by rewrite Hmax.
  - cbn [exec fst snd]. split; [|done]. split; [done|]. split; [done|]. intros i v Hv. simpl.
    rewrite update_where_lookup, Hv. simpl. rewrite (Hkey _ _ Hv).
    destruct (String.eqb_spec i (UserID u)) as [->|Hne]; [|done].
    rewrite Hu in Hv. injection Hv as <-. unfold punished. by rewrite Hmax.
Qed.

(** *** Whose password a login tries *)

(** The account a login names: by its email address, else by its user name. *)
Definition named (w : world) (req : loginRequest) : option AdminUser :=
  let identifier := TrimSpace (LoginUsername req) in
  let by_name := user_where (by_username identifier) (tables (wdb w)) in
  if contains_byte "@" identifier then
    match user_where (λ u, same_email (Email u) (ToLower identifier)) (tables (wdb w)) with
    | Some u => Some u
    | None => by_name
    end
  else by_name.

Lemma named_stored w req u : calm w → named w req = Some u → users (tables (wdb w)) !! UserID u = Some u.
Proof.
  intros [_ Hwf] H. assert (Hp : ∃ p, user_where p (tables (wdb w)) = Some u).
  { unfold named in H. cbv zeta in H. destruct (contains_byte _ _); [|by eexists].
    destruct (user_where (λ u, same_email _ _) _) eqn:E; [injection H as <-|]; by eexists. }
  destruct Hp as [p Hp]. unfold user_where in Hp. apply find_first_split in Hp as (l1 & l2 & E & _).
  assert (u ∈ rows (users (tables (wdb w)))) as [j Hj]%elem_of_table.
  { rewrite E. apply elem_of_app. right. by left. }
  by rewrite (wf_user_key _ Hwf _ _ Hj).
Qed.

(** What decides the outcome of a login: its answer is settled, or the named
    account is not locked and the comparison [C] of its password decides. *)
Definition settled (w : world) (p : (string → string → bool) → prog response) : Prop :=
  ∃ w1 a, wdb w1 = wdb w ∧ ∀ C, exec w (p C) = (w1, a).
Definition decided (w : world) (cl : client) (password : string) (u : AdminUser)
    (p : (string → string → bool) → prog response) : Prop :=
  ∃ w1 hash, wdb w1 = wdb w ∧ locked (clock (wdb w)) u = false ∧ PasswordHash u = Some hash ∧
    ∀ C, exec w (p C) =
      exec w1 (if negb (C hash password) then wrong_password (ip_of cl) u else right_password h cl (ip_of cl) u).

Lemma found_cases w cl password r :
  settled w (λ C, login_found C h cl (ip_of cl) password r) ∨
  ∃ u, r = Ok u ∧ decided w cl password u (λ C, login_found C h cl (ip_of cl) password r).
Proof.
  assert (Hfail : settled w (λ _, Limit (AddFailure (ip_of cl)) (λ _, Done login_failed_answer))).
  { eexists _, _. split; [|intros C; rewrite exec_limiter; reflexivity]. done. }
  destruct r as [u|e]; [|left; destruct e; try exact Hfail; by eexists w, _].
  assert (Hcheck : locked (clock (wdb w)) u = false →
    settled w (λ C, check_password C h cl (ip_of cl) password u) ∨
    ∃ u', Ok (E := error) u = Ok u' ∧ decided w cl password u' (λ C, check_password C h cl (ip_of cl) password u)).
  { intros Hl. unfold check_password. destruct (PasswordHash u) as [hash|] eqn:Hh; [right|left; exact Hfail].
    exists u. split; [done|]. exists w, hash. by split_and!. }
  unfold login_found, locked in *. destruct (LockedUntil u) as [until|]; [|by apply Hcheck].
  destruct (clock (wdb w) <? until)%Z eqn:Hlt.
  - left. eexists w, _. split; [done|]. intros C. rewrite exec_now, Hlt. reflexivity.
  - destruct (Hcheck eq_refl) as [(w1 & a & E & H)|(u' & Hu & w1 & hash & E & Hl & Hh & H)]; [left; exists w1, a|right; exists u'].
    + split; [done|]. intros C. rewrite exec_now, Hlt. apply H.
    + split; [done|]. exists w1, hash. split_and!; [done..|]. intros C. rewrite exec_now, Hlt. apply H.
Qed.

(** The look-up of the account. *)
Lemma exec_lookup w req :
  calm w → ∃ w1, wdb w1 = wdb w ∧ ∀ k : result error AdminUser → prog response,
  exec w (let identifier := TrimSpace (LoginUsername req) in
          if contains_byte "@" identifier then
            Repo (CallUserByEmail (ToLower identifier)) (λ r,
              match r with Err ErrNoRows => Repo (CallUserByUsername identifier) k | _ => k r end)
          else Repo (CallUserByUsername identifier) k) =
  exec w1 (k match named w req with Some u => Ok u | None => Err ErrNoRows end).
Proof.
  intros Hw. cbv zeta. unfold named. set (n := TrimSpace (LoginUsername req)). cbv zeta.
  destruct (contains_byte "@" n).
  - destruct (user_where (λ u, same_email (Email u) (ToLower n)) (tables (wdb w))) as [u|] eqn:Hu.
    + exists (mkWorld (wdb w) (wlim w) (S (wcalls w))). split; [done|]. intros k.
      erewrite exec_read by done. by rewrite Hu.
    + exists (mkWorld (wdb w) (wlim w) (S (S (wcalls w)))). split; [done|]. intros k.
      erewrite exec_read by done. rewrite Hu. by erewrite exec_read by done.
  - exists (mkWorld (wdb w) (wlim w) (S (wcalls w))). split; [done|]. intros k. by erewrite exec_read by done.
Qed.

Lemma login_cases w cl body :
  calm w →
  settled w (λ C, Login C h cl body) ∨
  ∃ req u, body = Ok req ∧ named w req = Some u ∧ decided w cl (LoginPassword req) u (λ C, Login C h cl body).
Proof.
  intros Hw. unfold Login. cbv zeta.
  set (w1 := mkWorld (wdb w) (limiter_call (clock (wdb w)) (AskFailures (ip_of cl)) (wlim w)).1 (S (wcalls w))).
  destruct (limiter_call (clock (wdb w)) (AskFailures (ip_of cl)) (wlim w)).2 eqn:Hmany.
  { left. eexists w1, _. split; [done|]. intros C. rewrite exec_limiter, Hmany. reflexivity. }
  destruct body as [req|e].
  2: { left. eexists w1, _. split; [done|]. intros C. rewrite exec_limiter, Hmany. reflexivity. }
  destruct (exec_lookup w1 req Hw) as (w2 & E2 & Hlook).
  destruct (found_cases w2 cl (LoginPassword req) match named w1 req with Some u => Ok u | None => Err ErrNoRows end)
    as [(w3 & a & E3 & H)|(u & Hu & w3 & hash & E3 & Hl & Hh & H)].
  - left. exists w3, a. split; [by rewrite E3, E2|]. intros C. rewrite exec_limiter, Hmany. cbn [negb]. rewrite <-(H C). apply Hlook.
  - right. exists req, u. split; [done|]. split.
    { change (named w req) with (named w1 req). destruct (named w1 req); [by injection Hu as <-|done]. }
    exists w3, hash. rewrite E2 in Hl. split_and!; [by rewrite E3, E2|done|done|]. intros C. rewrite exec_limiter, Hmany.
    rewrite <-(H C). apply Hlook.
Qed.

(** ** Guessing a password *)

Abbreviation attempt := (Z * client * result string loginRequest)%type.

Definition login_at (a : attempt) (w : world) : world :=
  let '(now, cl, body) := a in (exec (at_time now w) (Login CompareHashAndPassword h cl body)).1.

(** The login tells its sender whether the password is right: its answer depends
    on how the comparison comes out. *)
Definition tested (a : attempt) (w : world) : bool :=
  let '(now, cl, body) := a in
  let answer C := Status (exec (at_time now w) (Login C h cl body)).2 in
  negb (answer (λ _ _, true) =? answer (λ _ _, false))%Z.

(** It names the account. *)
Definition tries (i : string) (a : attempt) (w : world) : bool :=
  match a.2 with
  | Ok req => match named w req with Some u => String.eqb (UserID u) i | None => false end
  | Err _ => false
  end.

(** It has the password of the account it names. *)
Definition right_guess (a : attempt) (w : world) : bool :=
  match a.2 with
  | Ok req =>
      match named w req with
      | Some u => match PasswordHash u with
                  | Some hash => CompareHashAndPassword hash (LoginPassword req)
                  | None => false
                  end
      | None => false
      end
  | Err _ => false
  end.

(** A wrong password tried on the account. *)
Definition wrong_guess (i : string) (a : attempt) (w : world) : bool := tries i a w && tested a w && negb (right_guess a w).

(** The times of the guesses among logins that come one after the other. *)
Fixpoint guesses (i : string) (w : world) (ins : list attempt) : list Z :=
  match ins with
  | [] => []
  | a :: ins => (if wrong_guess i a w then [a.1.1] else []) ++ guesses i (login_at a w) ins
  end.

(** None of them has the password of the account. *)
Fixpoint unbroken (i : string) (w : world) (ins : list attempt) : Prop :=
  match ins with
  | [] => True
  | a :: ins => tries i a w && right_guess a w = false ∧ unbroken i (login_at a w) ins
  end.

(** A guess is made while the account is not locked, and punished; nothing else
    changes the account. *)
Lemma login_account i u (a : attempt) w :
  calm w → users (tables (wdb w)) !! i = Some u → tries i a w && right_guess a w = false →
  calm (login_at a w) ∧
  users (tables (wdb (login_at a w))) !! i = Some (if wrong_guess i a w then punished a.1.1 u else u) ∧
  (wrong_guess i a w = true → locked a.1.1 u = false).
Proof.
  destruct a as [[now cl] body]. intros Hw Hu Hnr. unfold wrong_guess. cbn [fst snd].
  set (w0 := at_time now w). assert (Hw0 : calm w0) by by destruct Hw.
  unfold login_at. fold w0. unfold tested. fold w0. cbv zeta.
  destruct (login_cases w0 cl body Hw0) as [(w1 & a & E & H)|(req & u0 & -> & Hn & w1 & hash & E & Hl & Hh & H)].
  { rewrite !H, Z.eqb_refl, andb_false_r. cbn [negb andb fst]. split; [by eapply calm_same|].
    split; [by rewrite E|done]. }
  assert (Hw1 : calm w1) by by eapply calm_same.
  assert (Hu0 : users (tables (wdb w1)) !! UserID u0 = Some u0) by (rewrite E; by eapply named_stored).
  destruct (exec_wrong w1 (ip_of cl) u0 Hw1 Hu0) as [Hwc Hws].
  destruct (exec_right w1 cl (ip_of cl) u0 Hw1 Hu0) as [(f & Hrc) Hrs].
  rewrite (H (λ _ _, true)), (H (λ _ _, false)), (H CompareHashAndPassword). cbn [negb].
  rewrite Hws, (proj2 (Z.eqb_neq _ _)) by done. cbn [negb].
  unfold tries, right_guess in *. cbn [snd] in *. change (named w req) with (named w0 req) in *. rewrite Hn in *.
  rewrite Hh in *. rewrite andb_true_r.
  assert (Hi : users (tables (wdb w1)) !! i = Some u) by by rewrite E.
  destruct (CompareHashAndPassword hash (LoginPassword req)); cbn [negb andb] in *.
  - destruct Hrc as (Hc & _ & Hch). specialize (Hch i u Hi). rewrite String.eqb_sym in Hch. rewrite andb_true_r in Hnr.
    rewrite Hnr in *. split_and!; done.
  - destruct Hwc as (Hc & Hclk & Hch). specialize (Hch i u Hi). rewrite String.eqb_sym in Hch. rewrite andb_true_r.
    split; [done|]. assert (Hnow : clock (wdb w1) = now) by by rewrite E.
    destruct (String.eqb_spec (UserID u0) i) as [<-|]; [|by split].
    assert (u0 = u) as -> by congruence. rewrite <-Hnow. split; [done|]. intros _. by rewrite Hnow.
Qed.

#[local] Arguments login_at : simpl never.
#[local] Arguments wrong_guess : simpl never.

(** From a counter [f] on, with the lock that goes with it. *)
Lemma guesses_bounded T0 T1 i ins : ∀ w u,
  calm w → users (tables (wdb w)) !! i = Some u → unbroken i w ins →
  Forall (λ a : attempt, T0 ≤ a.1.1 ≤ T1)%Z ins →
  (5 ≤ FailedLoginAttempts u → ∃ until, LockedUntil u = Some until ∧
     T0 + (FailedLoginAttempts u - 4) * lockoutDuration ≤ until)%Z →
  (Z.of_nat (length (guesses i w ins)) ≤
     Z.max 0 (5 + (T1 - T0) / lockoutDuration - FailedLoginAttempts u))%Z.
Proof.
  induction ins as [|a ins IH]; intros w u Hw Hu Hun HT Hlock; simpl; [lia|].
  apply Forall_cons in HT as [HT HTs]. destruct Hun as [Hnr Hun].
  destruct (login_account i u a w Hw Hu Hnr) as (Hw' & Hu' & Hl).
  assert (HD : (0 < lockoutDuration)%Z) by by vm_compute.
  destruct (wrong_guess i a w); simpl; [|by apply (IH _ u)].
  specialize (Hl eq_refl). set (now := a.1.1) in *. specialize (IH _ _ Hw' Hu' Hun HTs).
  assert (EF : FailedLoginAttempts (punished now u) = (FailedLoginAttempts u + 1)%Z).
  { unfold punished. by destruct (maxLoginFailures <=? FailedLoginAttempts u + 1)%Z. }
  rewrite EF in IH.
  assert (Hnow : (5 ≤ FailedLoginAttempts u → T0 + (FailedLoginAttempts u - 4) * lockoutDuration ≤ now)%Z).
  { intros H5. destruct (Hlock H5) as (until & Eu & Hle). unfold locked in Hl. rewrite Eu in Hl.
    apply Z.ltb_ge in Hl. lia. }
  assert (Hf : (FailedLoginAttempts u + 1 ≤ 5 + (T1 - T0) / lockoutDuration)%Z).
  { destruct (Z.le_gt_cases 5 (FailedLoginAttempts u)) as [H5|H5].
    - assert (FailedLoginAttempts u - 4 ≤ (T1 - T0) / lockoutDuration)%Z; [|lia].
      apply Z.div_le_lower_bound; [done|]. specialize (Hnow H5). lia.
    - assert (0 ≤ (T1 - T0) / lockoutDuration)%Z; [|lia]. apply Z.div_pos; lia. }
  assert (Hlock' : (5 ≤ FailedLoginAttempts u + 1 → ∃ until, LockedUntil (punished now u) = Some until ∧
    T0 + (FailedLoginAttempts u + 1 - 4) * lockoutDuration ≤ until)%Z).
  { intros H5. unfold punished, maxLoginFailures. rewrite (proj2 (Z.leb_le _ _)) by lia.
    exists (now + lockoutDuration)%Z. split; [done|]. destruct (Z.le_gt_cases 5 (FailedLoginAttempts u)) as [H6|H6].
    - specialize (Hnow H6). lia.
    - nia. }
  specialize (IH Hlock'). lia.
Qed.

(** C24: however many clients send however many login requests one after the
    other, an account whose counter is at zero takes at most five wrong passwords
    plus one per quarter of an hour, as long as no login has the right one and no
    query fails (the handler ignores the error of a counter it could not raise).  A
    wrong password counts when the login names the account and its answer would
    have been another with the right password; what a locked account or a blocked
    address is sent tells nothing and is not counted. *)
Theorem lockout_bounds_guesses T0 T1 i u w ins :
  calm w → users (tables (wdb w)) !! i = Some u → FailedLoginAttempts u = 0%Z →
  unbroken i w ins → Forall (λ a : attempt, T0 ≤ a.1.1 ≤ T1)%Z ins → (T0 ≤ T1)%Z →
  (Z.of_nat (length (guesses i w ins)) ≤ 5 + (T1 - T0) / lockoutDuration)%Z.
Proof.
  intros Hw Hu HF Hun HT Hle. pose proof (guesses_bounded T0 T1 i ins w u Hw Hu Hun HT) as H. rewrite HF in H.
  assert (0 ≤ (T1 - T0) / lockoutDuration)%Z by (apply Z.div_pos; [lia|by vm_compute]).
  specialize (H ltac:(intros; lia)). lia.
Qed.

(** ** Recovering an account *)

Lemma room_checks m id tok :
  room_for_token m id tok →
  existsb (λ x, String.eqb (TokenID x) id) (rows m) = false ∧ bool_decide (is_Some (m !! tok)) = false.
Proof.
  intros [Hn Hid]. split.
  - apply existsb_rows. intros x Hx. by apply String.eqb_neq, Hid.
  - apply bool_decide_eq_false. rewrite Hn. by intros [? ?].
Qed.

Lemma alone_replace_reset ids i u tok exp d :
  users (tables d) !! i = Some u → room_for_token (reset_tokens (tables d)) (new_token ids) tok →
  alone_call ids (CallReplaceReset i tok exp) d
    (set_resets (<[tok := mkOneTime (new_token ids) i tok exp None (clock d)]>
       (used_where (λ x, String.eqb (TokenUser x) i) (clock d) (reset_tokens (tables d)))) (tables d))
    (Ok (new_token ids)).
Proof.
  intros Hu Hroom Hf. apply (used_where_room (λ x, String.eqb (TokenUser x) i) (clock d)), room_checks in Hroom as [H1 H2].
  cbn [repo_call]. unfold ReplacePasswordResetTokenTx. eapply with_tx_alone; [done|..].
  { unfold mbind. rewrite (tx_stmt_alone _ _ (tables d)) by done. unfold read. rewrite Hu.
    rewrite (tx_stmt_alone _ _ (tables d)) by done. unfold use_resets at 1. cbv zeta. cbn [clock with_tables].
    erewrite tx_stmt_alone by done. unfold insert_reset. cbn [clock with_tables reset_tokens set_resets users].
    change (update_where (λ x, String.eqb (TokenUser x) i && unused x) (use_token (clock d)) (reset_tokens (tables d)))
      with (used_where (λ x, String.eqb (TokenUser x) i) (clock d) (reset_tokens (tables d))).
    rewrite H1, H2, Hu, bool_decide_true by eauto. cbn [negb].
    replace (existsb _ _) with false; [reflexivity|]. symmetry. apply existsb_rows. intros x Hx.
    destruct (String.eqb_spec (TokenUser x) i) as [E|]; [|done]. by apply (used_where_none i (clock d) _ x Hx). }
  all: reflexivity.
Qed.

Lemma alone_reset_password ids id i u hash d k x :
  users (tables d) !! i = Some u → UserID u = i →
  reset_tokens (tables d) !! k = Some x → TokenID x = id → TokenUser x = i → UsedAt x = None →
  (clock d < TokenExpiresAt x)%Z →
  alone_call ids (CallResetPassword id i hash) d
    (revoked_where (λ r, String.eqb (RefreshUser r) i) (clock d)
       (users_updated (by_id i) (set_password hash)
         (set_resets (used_where (λ x, String.eqb (TokenID x) id && String.eqb (TokenUser x) i &&
            (clock d <? TokenExpiresAt x)%Z) (clock d) (reset_tokens (tables d))) (tables d))))
    (Ok ()).
Proof.
  intros Hu Hi Hx Hid Hux Hun Hexp Hf. cbn [repo_call]. unfold ResetPasswordTx.
  assert (Hc : ∀ V (p : V → bool) (m : gmap string V) j y, m !! j = Some y → p y = true →
    (count_where p m =? 0)%nat = false).
  { intros V p m j y Hj Hp. apply Nat.eqb_neq. unfold count_where. intros E%length_zero_iff_nil.
    assert (y ∈ filter (λ x, p x = true) (rows m)) as Hin by (apply list_elem_of_filter; split; [done|apply elem_of_table; eauto]).
    rewrite E in Hin. by apply elem_of_nil in Hin. }
  eapply with_tx_alone; [done|..].
  { unfold mbind. rewrite (tx_stmt_alone _ _ (tables d)) by done. unfold use_resets at 1. cbv zeta. cbn [clock].
    rewrite (Hc _ _ _ k x Hx); cycle 1.
    { rewrite Hid, Hux, !String.eqb_refl. unfold unused. rewrite bool_decide_true by done.
      by rewrite (proj2 (Z.ltb_lt _ _) Hexp). }
    erewrite tx_stmt_alone by done. unfold update_users at 1. cbn [clock with_tables users set_resets].
    rewrite (Hc _ _ _ i u Hu) by (unfold by_id; by rewrite Hi, String.eqb_refl).
    erewrite tx_stmt_alone by done. unfold revoke_where at 1. cbv zeta. cbn [clock with_tables]. reflexivity. }
  all: reflexivity.
Qed.

(** What the services answer when they work. *)
Context (draw : nat → list Z) (generated : nat → string → string).
Definition services_work : Prop :=
  (∀ n, answers n _ (RandRead 32) = Ok (draw n)) ∧ (∀ n, length (draw n) = 32) ∧
  (∀ n pw, answers n _ (GenerateFromPassword pw) = Ok (generated n pw)) ∧
  (∀ n pw, CompareHashAndPassword (generated n pw) pw = true) ∧
  (∀ n e url, answers n _ (SendPasswordReset e url) = Ok ()).

Lemma token_clean n :
  services_work → TrimSpace (GenerateToken (draw n)) = GenerateToken (draw n) ∧ len (GenerateToken (draw n)) = 43.
Proof.
  intros (_ & Hlen & _). destruct (encode_spec (draw n)) as [H1 H2]. unfold GenerateToken. rewrite H2, Hlen.
  split; [|done]. by apply TrimSpace_graphic, token_is_graphic.
Qed.

(** The request that starts it. *)
Lemma forgot_issues w email i u :
  services_work → calm w → has_mailer h = true →
  (∀ tok, is_Some (ParseRequestURI_with_token (passwordResetURL h) tok)) →
  users (tables (wdb w)) !! i = Some u → same_email (Email u) (ToLower (TrimSpace email)) = true →
  has_password u = true → HasSuffix (ToLower (Email u)) "@elitegate.local" = false →
  let hash := HashToken (GenerateToken (draw (S (wcalls w)))) in
  let ids := ids_at (S (S (wcalls w))) in
  let now := clock (wdb w) in
  room_for_token (reset_tokens (tables (wdb w))) (new_token ids) hash →
  ∃ w', exec w (ForgotPassword ParseRequestURI_with_token h (Ok email)) = (w', forgot_answer) ∧ calm w' ∧
    clock (wdb w') = now ∧ wlim w' = wlim w ∧
    tables (wdb w') = set_resets (<[hash := mkOneTime (new_token ids) i hash (now + 15 * minute) None now]>
      (used_where (λ x, String.eqb (TokenUser x) i) now (reset_tokens (tables (wdb w))))) (tables (wdb w)).
Proof.
  intros Hs Hw Hm Hurl Hu He Hp Hloc hash ids now Hroom. pose proof Hs as (Hr & _ & _ & _ & Hsend).
  pose proof (wf_user_key _ (proj2 Hw) _ _ Hu) as Hi.
  unfold ForgotPassword. cbv zeta. erewrite exec_read by done. rewrite (user_by_email _ _ _ _ (proj2 Hw) Hu He).
  rewrite Hp, Hloc, Hm. cbn [negb orb]. unfold forgot_send. cbn [exec wcalls]. rewrite Hr. rewrite exec_now. cbn [wdb].
  rewrite Hi.
  assert (Halone := alone_replace_reset ids i u hash (now + 15 * minute) (wdb w) Hu Hroom).
  erewrite exec_repo; [|exact Hw|exact Halone]. destruct (Hurl (GenerateToken (draw (S (wcalls w))))) as [link ->].
  cbn [exec]. rewrite Hsend. eexists. split; [reflexivity|]. split; [|done]. split; [apply Hw|]. simpl.
  destruct (repo_call_effect ids _ _ _ _ (Halone (proj1 Hw))) as [_ He']. simpl with_tables in He'.
  exact (effect_well_formed ids (clock (wdb w)) _ _ (CallReplaceReset i hash (now + 15 * minute)) (new_token ids) He' (proj2 Hw)).
Qed.

(** The request that presents the token. *)
Lemma reset_accepts w req k x i u :
  services_work → calm w → Password.Validate (NewPassword req) = Ok () →
  HashToken (TrimSpace (ResetToken req)) = k →
  String.eqb (TrimSpace (ResetToken req)) "" = false → (len (TrimSpace (ResetToken req)) ≤ 1024) →
  reset_tokens (tables (wdb w)) !! k = Some x → TokenUser x = i → UsedAt x = None →
  (clock (wdb w) < TokenExpiresAt x)%Z →
  users (tables (wdb w)) !! i = Some u → same_password CompareHashAndPassword u (NewPassword req) = false →
  let now := clock (wdb w) in
  let hash := generated (S (S (wcalls w))) (NewPassword req) in
  ∃ w', exec w (ResetPassword CompareHashAndPassword h (Ok req)) =
      (w', with_cookies [clearRefreshCookie h]
             (message 200 "Password reset successfully. Sign in using your new password.")) ∧ calm w' ∧
    clock (wdb w') = now ∧ wlim w' = wlim w ∧
    tables (wdb w') = revoked_where (λ r, String.eqb (RefreshUser r) i) now
      (users_updated (by_id i) (set_password hash)
        (set_resets (used_where (λ y, String.eqb (TokenID y) (TokenID x) && String.eqb (TokenUser y) i &&
           (now <? TokenExpiresAt y)%Z) now (reset_tokens (tables (wdb w)))) (tables (wdb w)))).
Proof.
  intros Hs Hw Hv Hk Hne Hlen Hx Hi Hun Hexp Hu Hsame now hash. pose proof Hs as (_ & _ & Hg & _).
  unfold ResetPassword. cbv zeta. rewrite Hne, (proj2 (Nat.ltb_ge _ _) Hlen), Hv, Hk. cbn [orb].
  assert (Hfv : find_valid (reset_tokens (tables (wdb w))) k (clock (wdb w)) = Some x) by by apply find_valid_spec.
  erewrite exec_repo; [|exact Hw|].
  2:{ intros Hf. cbn [repo_call]. unfold FindValidPasswordResetToken. rewrite stmt_alone by done. by rewrite Hfv. }
  rewrite with_tables_same. set (w1 := mkWorld _ _ _). rewrite Hi.
  erewrite (exec_read w1) by done. unfold w1 at 4. cbn [wdb]. rewrite Hu, Hsame. unfold reset_password.
  cbn [exec wcalls]. rewrite Hg. set (w2 := mkWorld _ _ _). rewrite Hi.
  assert (Halone := alone_reset_password (ids_at (wcalls w2)) (TokenID x) i u hash (wdb w) k x Hu
    (wf_user_key _ (proj2 Hw) _ _ Hu) Hx eq_refl Hi Hun Hexp).
  erewrite (exec_repo w2); [|done|exact Halone]. cbn [exec]. eexists. split; [reflexivity|]. split; [|done].
  split; [apply Hw|]. simpl.
  destruct (repo_call_effect (ids_at (wcalls w2)) _ _ _ _ (Halone (proj1 Hw))) as [_ He].
  exact (effect_well_formed _ _ _ _ (CallResetPassword (TokenID x) i hash) () He (proj2 Hw)).
Qed.

(** The login with the right password. *)
Lemma login_accepts w cl req i u hash access :
  services_work → calm w →
  users (tables (wdb w)) !! i = Some u → TrimSpace (LoginUsername req) = Username u →
  contains_byte "@" (Username u) = false → PasswordHash u = Some hash →
  CompareHashAndPassword hash (LoginPassword req) = true → EmailVerified u = true →
  locked (clock (wdb w)) u = false →
  (LoginRateLimiter.TooManyFailures (clock (wdb w)) (ip_of cl) (wlim w)).2 = false →
  CreateAdminAccessToken (tokens h) (clock (wdb w)) i (Username u) = Ok access →
  let refresh := GenerateToken (draw (4 + wcalls w)) in
  refresh_tokens (tables (wdb w)) !! HashToken refresh = None →
  ∃ w' r, exec w (Login CompareHashAndPassword h cl (Ok req)) =
      (w', with_cookies [setRefreshCookie h refresh] (answer 200 (tokenResponse access))) ∧
    refresh_tokens (tables (wdb w')) !! HashToken refresh = Some r ∧ RefreshUser r = i ∧ RevokedAt r = None.
Proof.
  intros Hs Hw Hu Hn Hat Hh Hc Hv Hl Hlim Hacc refresh Hfresh. pose proof Hs as (Hr & _).
  pose proof (wf_user_key _ (proj2 Hw) _ _ Hu) as Hi.
  unfold Login. cbv zeta. rewrite exec_limiter. cbn [limiter_call]. rewrite Hlim. cbv iota.
  rewrite Hn, Hat. set (w1 := mkWorld (wdb w) _ (S (wcalls w))). assert (Hw1 : calm w1) by done.
  erewrite (exec_read w1) by done. unfold w1 at 4. cbn [wdb]. rewrite (user_by_username _ _ _ (proj2 Hw) Hu).
  cbn [login_found]. set (w2 := mkWorld _ _ _). assert (Hw2 : calm w2) by done.
  assert (Hgo : exec w2 (match LockedUntil u with
    | Some until => Now (λ t, if (t <? until)%Z then Done (error_answer 423 "admin account locked")
                              else check_password CompareHashAndPassword h cl (ip_of cl) (LoginPassword req) u)
    | None => check_password CompareHashAndPassword h cl (ip_of cl) (LoginPassword req) u
    end) = exec w2 (right_password h cl (ip_of cl) u)).
  { assert (E : check_password CompareHashAndPassword h cl (ip_of cl) (LoginPassword req) u =
      right_password h cl (ip_of cl) u) by (unfold check_password; by rewrite Hh, Hc).
    unfold locked in Hl. destruct (LockedUntil u) as [until|]; [rewrite exec_now|by rewrite E].
    change (clock (wdb w2)) with (clock (wdb w)). by rewrite Hl, E. }
  rewrite Hgo. unfold right_password. rewrite Hv. cbn [negb]. rewrite exec_limiter. set (w3 := mkWorld _ _ _).
  assert (Hw3 : calm w3) by done. erewrite (exec_update w3) by done. cbv beta iota. unfold issueTokensForUser.
  rewrite exec_now, Hi. cbn [wdb clock with_tables]. change (clock (wdb w3)) with (clock (wdb w)). rewrite Hacc.
  rewrite exec_service. cbn [wcalls w3 w2 w1]. rewrite Hr, exec_now. cbn [wdb wcalls].
  erewrite exec_repo.
  2:{ split; [apply Hw|]. simpl. apply users_same_wf; [done| |done|apply Hw]. intros v (?&?&?). by split_and!. }
  2:{ intros _. cbn [repo_call]. unfold CreateRefreshToken. rewrite stmt_alone by apply Hw. unfold insert_refresh.
      cbn [wdb with_tables tables refresh_tokens users_updated set_users users]. 
      change (wdb w3) with (wdb w). change (GenerateToken (draw (S (S (S (S (wcalls w))))))) with refresh.
      rewrite Hfresh.
      rewrite bool_decide_false by (by intros [? ?]). rewrite update_where_lookup, Hu. cbn [fmap option_fmap option_map].
      rewrite bool_decide_true by eauto. reflexivity. }
  cbn [exec]. eexists _, _. split; [reflexivity|]. simpl. by rewrite lookup_insert_eq.
Qed.

(** A token that has been used is refused. *)
Lemma used_token_refused w req k x :
  calm w → HashToken (TrimSpace (ResetToken req)) = k →
  reset_tokens (tables (wdb w)) !! k = Some x → UsedAt x ≠ None →
  Status (exec w (ResetPassword CompareHashAndPassword h (Ok req))).2 = 400%Z.
Proof.
  intros Hw Hk Hx Hu. unfold ResetPassword. cbv zeta. destruct (_ || _); [done|].
  destruct (Password.Validate _); [|done]. rewrite Hk.
  rewrite (exec_repo w _ _ (tables (wdb w)) (Err ErrInvalidPasswordResetToken) Hw); [done|].
  intros Hf. cbn [repo_call]. unfold FindValidPasswordResetToken. rewrite stmt_alone by done.
  destruct (find_valid _ _ _) as [y|] eqn:Hy; [|by rewrite with_tables_same].
  apply find_valid_spec in Hy as (Hy & Hun & _). congruence.
Qed.

(** While the services work, the owner of a verified account who asks for a
    reset, presents the mailed token within 15 minutes with a new password that
    meets the policy and then logs in with it, succeeds; all sessions from before
    are revoked, and the token is refused from then on. *)
Theorem password_recovery w t1 t2 t3 email i u req cl lreq access :
  services_work → calm w → has_mailer h = true →
  (∀ tok, is_Some (ParseRequestURI_with_token (passwordResetURL h) tok)) →
  users (tables (wdb w)) !! i = Some u → same_email (Email u) (ToLower (TrimSpace email)) = true →
  EmailVerified u = true → has_password u = true → HasSuffix (ToLower (Email u)) "@elitegate.local" = false →
  contains_byte "@" (Username u) = false →
  (t1 ≤ t2 < t1 + 15 * minute)%Z →
  let token := GenerateToken (draw (S (wcalls w))) in
  let w1 := (exec (at_time t1 w) (ForgotPassword ParseRequestURI_with_token h (Ok email))).1 in
  let w2 := (exec (at_time t2 w1) (ResetPassword CompareHashAndPassword h (Ok req))).1 in
  let answer3 := (exec (at_time t3 w2) (Login CompareHashAndPassword h cl (Ok lreq))).2 in
  room_for_token (reset_tokens (tables (wdb w))) (new_token (ids_at (S (S (wcalls w))))) (HashToken token) →
  ResetToken req = token → Password.Validate (NewPassword req) = Ok () →
  same_password CompareHashAndPassword u (NewPassword req) = false →
  TrimSpace (LoginUsername lreq) = Username u → LoginPassword lreq = NewPassword req →
  (LoginRateLimiter.TooManyFailures t3 (ip_of cl) (wlim w)).2 = false →
  CreateAdminAccessToken (tokens h) t3 i (Username u) = Ok access →
  refresh_tokens (tables (wdb w2)) !! HashToken (GenerateToken (draw (4 + wcalls w2))) = None →
  Status answer3 = 200%Z ∧ Body answer3 = tokenResponse access ∧
  (∀ k r, refresh_tokens (tables (wdb w2)) !! k = Some r → RefreshUser r = i → RevokedAt r ≠ None) ∧
  (∀ t req', ResetToken req' = token →
     Status (exec (at_time t w2) (ResetPassword CompareHashAndPassword h (Ok req'))).2 = 400%Z).
Proof.
  intros Hs Hw Hm Hurl Hu He Hv Hp Hloc Hat Ht token w1 w2 answer3 Hroom Hreq Hpol Hsame Hname Hpw Hlim Hacc Hfresh.
  assert (Hwa : ∀ t w, calm w → calm (at_time t w)) by by intros t w0 [].
  destruct (forgot_issues (at_time t1 w) email i u Hs (Hwa _ _ Hw) Hm Hurl Hu He Hp Hloc Hroom)
    as (v1 & E1 & Hv1 & _ & L1 & T1).
  assert (Ev1 : w1 = v1) by (unfold w1; by rewrite E1). simpl in T1, L1.
  destruct (token_clean (S (wcalls w)) Hs) as [Hclean H43]. fold token in Hclean, H43.
  set (x := mkOneTime (new_token (ids_at (S (S (wcalls w))))) i (HashToken token) (t1 + 15 * minute) None t1).
  destruct (reset_accepts (at_time t2 w1) req (HashToken token) x i u Hs) as (v2 & E2 & Hv2 & _ & L2 & T2).
  1: by rewrite Ev1; apply Hwa.
  1: done.
  1: by rewrite Hreq, Hclean.
  1: rewrite Hreq, Hclean; by destruct token.
  1: rewrite Hreq, Hclean, H43; lia.
  1: { simpl. rewrite Ev1, T1. simpl. by rewrite lookup_insert_eq. }
  1-2: done.
  1: simpl; lia.
  1: { simpl. by rewrite Ev1, T1. }
  1: done.
  assert (Ev2 : w2 = v2) by (unfold w2; by rewrite E2). simpl in T2, L2. rewrite Ev1 in T2, L2. rewrite T1 in T2.
  set (hash := generated _ _) in T2.
  destruct (login_accepts (at_time t3 w2) cl lreq i (set_password hash u) hash access Hs) as (v3 & r & E3 & _).
  1: by rewrite Ev2; apply Hwa.
  1: { simpl. rewrite Ev2, T2. simpl. rewrite update_where_lookup, Hu. simpl.
       unfold by_id. by rewrite (wf_user_key _ (proj2 Hw) _ _ Hu), String.eqb_refl. }
  1-3: done.
  1: { rewrite Hpw. by apply Hs. }
  1-2: done.
  1: { simpl. rewrite Ev2, L2, L1. done. }
  1-2: done.
  unfold answer3. rewrite E3. split_and!; [done|done| |].
  - rewrite Ev2, T2. simpl. intros k rr. rewrite update_where_lookup. intros (r0 & _ & ->)%fmap_Some.
    destruct (String.eqb_spec (RefreshUser r0) i) as [E|N]; simpl.
    + unfold unrevoked. destruct (RevokedAt r0) eqn:Hrev; simpl; [by rewrite Hrev|done].
    + intros E. congruence.
  - intros t req' Hr'. eapply (used_token_refused (at_time t w2) req' (HashToken token) (use_token t2 x));
      [by rewrite Ev2; apply Hwa|by rewrite Hr', Hclean| |done].
    simpl. rewrite Ev2, T2. simpl. unfold used_where. rewrite !update_where_lookup, lookup_insert_eq. simpl.
    rewrite !String.eqb_refl. rewrite (proj2 (Z.ltb_lt _ _)) by lia. done.
Qed.

End sequential.
End AdminSequential.
