(* ===== verification/AdminScenario.v ===== *)
(** * Executions of administrator authentication

    An interpreter that drives the system of [AdminSystem] through concrete
    schedules, a deployment with toy services, and the runs that witness the
    theorems and show what the code does in some unwelcome situations. *)

From Stdlib Require Import Ascii.
From stdpp Require Import gmap pretty.
From S2P Require Import Prelude GoStrings Store AdminRepo AdminAccess AdminAuth AdminTables AdminSystem AdminGuarantees AdminSequential.

Module AdminScenario.
Import Tokens AdminToken AdminRepo AdminAuth AdminTables AdminSystem AdminGuarantees AdminSequential.

(** ** The interpreter *)

(** A request arrives at a time, or task [i] makes its next call. *)
Inductive input := Arrive (now : Z) (q : request) | Tick (i : nat) | Ticks (n : nat).

Section drive.
Context {HU : UnicodeTables} `{!JWT AdminClaims, !JWT OAuthState.oauthStateClaims}.
Context (CompareHashAndPassword : string → string → bool).
Context (Parse_with_token ParseRequestURI_with_token : string → string → option string).
Context (AuthCodeURL : string → string → string).
Context (h : AuthHandler).
(** The replies of the services and the identifiers drawn, by the length of the log. *)
Context (answers : nat → ∀ X, Service X → result string X) (ids_at : nat → new_ids).
#[local] Abbreviation step :=
  (AdminSystem.step CompareHashAndPassword Parse_with_token ParseRequestURI_with_token AuthCodeURL h).
#[local] Abbreviation reachable :=
  (AdminSystem.reachable CompareHashAndPassword Parse_with_token ParseRequestURI_with_token AuthCodeURL h).
#[local] Abbreviation serve :=
  (AdminSystem.serve CompareHashAndPassword Parse_with_token ParseRequestURI_with_token AuthCodeURL h).

Definition run_call (s : sys) (l1 l2 : list (prog response)) (p : prog response) : sys :=
  let '(mkSys d l L _) := s in
  match p with
  | Done a => mkSys d l (L ++ [EvAnswer a]) (l1 ++ l2)
  | Repo c k => let '(d', r) := repo_call (ids_at (length L)) c d in
      mkSys d' l (L ++ [EvRepo c r]) (l1 ++ k r :: l2)
  | Limit c k => let '(l', x) := limiter_call (clock d) c l in mkSys d l' L (l1 ++ k x :: l2)
  | Call c k => let r := answers (length L) _ c in mkSys d l (L ++ [EvService c r]) (l1 ++ k r :: l2)
  | Now k => mkSys d l (L ++ [EvNow (clock d)]) (l1 ++ k (clock d) :: l2)
  end.

Definition tick (i : nat) (s : sys) : sys :=
  match drop i (tasks s) with
  | p :: l2 => run_call s (take i (tasks s)) l2 p
  | [] => s
  end.

Fixpoint ticks (n : nat) (s : sys) : sys := match n with O => s | S n => ticks n (tick 0 s) end.

Definition arrive (now : Z) (q : request) (s : sys) : sys :=
  mkSys (mkStore (tables (db s)) now (supply (db s)) (faults (db s))) (limiter s) (log s ++ [EvRequest q])
    (tasks s ++ [serve q]).

Definition drive_one (i : input) (s : sys) : sys :=
  match i with Arrive now q => arrive now q s | Tick j => tick j s | Ticks n => ticks n s end.

Definition drive (t0 : tables_of_admin) (l : LoginRateLimiter.t) (ins : list input) : sys :=
  foldl (λ s i, drive_one i s) (mkSys (mkStore t0 0%Z 0 []) l [] []) ins.

Context (Hanswers : ∀ n X (c : Service X), reply_ok CompareHashAndPassword c (answers n X c)).

Lemma tick_reachable t0 i s : reachable t0 s → reachable t0 (tick i s).
Proof using Hanswers.
  intros Hs. unfold tick. destruct (drop i (tasks s)) as [|p l2] eqn:Hd; [done|].
  eapply r_step; [exact Hs|]. destruct s as [d l L ts]. simpl in *.
  pose proof (take_drop i ts) as E. rewrite Hd in E. remember (take i ts) as l1 eqn:Hl1. rewrite <-E. clear E Hl1 Hd.
  destruct p as [a|X c k|X c k|X c k|k]; simpl.
  - apply s_answer.
  - destruct (repo_call _ c d) as [d' r] eqn:Hc. by eapply s_repo.
  - destruct (limiter_call _ c l) as [l' x] eqn:Hc. by eapply s_limit.
  - by apply s_call.
  - apply s_now.
Qed.

Lemma arrive_reachable t0 now q s : reachable t0 s → reachable t0 (arrive now q s).
Proof.
  intros Hs. destruct s as [d l L ts]. unfold arrive. simpl. eapply r_step; [|apply s_begin].
  eapply r_step; [exact Hs|]. apply s_env.
Qed.

Lemma driven_system_reachable t0 l ins : reachable t0 (drive t0 l ins).
Proof using Hanswers.
  unfold drive. assert (H0 : reachable t0 (mkSys (mkStore t0 0%Z 0 []) l [] [])) by by apply r_init.
  revert H0. generalize (mkSys (mkStore t0 0%Z 0 []) l [] []).
  induction ins as [|i ins IH]; intros s Hs; [done|]. simpl. apply IH. destruct i as [now q|j|n]; simpl.
  - by apply arrive_reachable.
  - by apply tick_reachable.
  - clear IH. revert s Hs. induction n as [|n IH]; intros s Hs; [done|]. apply IH. by apply tick_reachable.
Qed.

End drive.

(** ** A deployment *)

(** A toy [bcrypt]: the hash carries the password. *)
Definition toy_hash (password : string) : string := "$2a$10$" +:+ password.
Definition toy_compare (hash password : string) : bool := String.eqb hash (toy_hash password).

Definition toy_url (base token : string) : option string := Some (base +:+ "?token=" +:+ token).

(** 32 bytes that differ from draw to draw. *)
Definition toy_bytes (n : nat) : list Z := Z.of_nat n :: replicate 31 7%Z.

Definition google_payload : IDPayload :=
  mkPayload "g-1" {["email" := IDString "eve@corp.example"; "email_verified" := IDBool true;
                    "name" := IDString "Eve"; "picture" := IDString ""]}.

Definition toy_answers (n : nat) (X : Type) (c : Service X) : result string X :=
  match c in Service X return result string X with
  | RandRead k => if (k =? 32)%nat then Ok (toy_bytes n) else Err "short read"
  | GenerateFromPassword pw => Ok (toy_hash pw)
  | SendPasswordReset _ _ => Ok ()
  | SendEmailVerification _ _ => Ok ()
  | OAuthExchange _ _ => Ok (Some "id-token")
  | ValidateIDToken _ _ => Ok google_payload
  end.

Lemma toy_answers_ok n X (c : Service X) : reply_ok toy_compare c (toy_answers n X c).
Proof.
  destruct c; simpl; try done.
  - intros drawn. destruct (Nat.eqb_spec n0 32) as [->|]; [|done]. by intros [= <-].
  - intros hash [= <-]. apply String.eqb_refl.
Qed.

Definition toy_ids (n : nat) : new_ids :=
  mkIDs ("user-" +:+ pretty n) ("proj-" +:+ pretty n) ("retry-" +:+ pretty n) ("token-" +:+ pretty n).

(** A library that signs by writing the subject or the verifier down. *)
Definition toy_jwt : JWT AdminClaims := {|
  SignedString _ c _ := Ok (Subject c);
  ParseWithClaims now _ raw := Ok (mkClaims "someone" AdminRole raw "elitegate-admin" 0 0, true);
  signature_ok _ _ _ := true;
|}.
Definition toy_state_jwt : JWT OAuthState.oauthStateClaims := {|
  SignedString _ c _ := Ok (OAuthState.CodeVerifier c);
  ParseWithClaims now _ raw := Ok (OAuthState.mkState raw 0 0, true);
  signature_ok _ _ _ := true;
|}.

Definition toy_handler : AuthHandler :=
  mkHandler (mkManager "0123456789abcdef0123456789abcdef" "elitegate-admin") true "https://app.example/reset"
    "https://app.example/verify" true "state-secret" "client-1" "https://app.example".

(** What the migrations leave in a fresh database (0009 and 0012), without the
    default project: one system administrator, with a hash no password matches. *)
Definition system_admin : AdminUser :=
  tenant_row "sys" "system_admin" "system_admin@elitegate.local" (Some "$2a$10$locked") None None "password" true true 0.
Definition seeded : tables_of_admin := set_users {["sys" := system_admin]} empty_tables.

Lemma seeded_initial : initial seeded.
Proof.
  split; [|done].
  change seeded with (set_users (<[UserID system_admin := system_admin]> (users empty_tables)) empty_tables).
  apply user_inserted; [apply empty_well_formed|by vm_compute|done].
Qed.

Definition driven (ins : list input) : sys :=
  @drive Password.ascii_tables toy_jwt toy_state_jwt toy_compare toy_url toy_url (λ s _, s) toy_handler toy_answers toy_ids seeded
    (LoginRateLimiter.NewLoginRateLimiter 5 minute) ins.

Abbreviation toy_reachable := (@AdminSystem.reachable Password.ascii_tables toy_jwt toy_state_jwt toy_compare toy_url toy_url
  (λ s _, s) toy_handler seeded).

Lemma driven_reachable ins : toy_reachable (driven ins).
Proof. apply driven_system_reachable, toy_answers_ok. Qed.

#[local] Existing Instances Password.ascii_tables toy_jwt toy_state_jwt.

(** ** The life of an account *)

Definition browser : client := mkClient "10.0.0.7:1234" "ua" None None None.
Definition with_cookie (c : string) : client := mkClient "10.0.0.7:1234" "ua" (Some c) None None.

(** The secret drawn at the [n]th event. *)
Definition drawn (n : nat) : string := GenerateToken (toy_bytes n).

(** Sign-up, login refused, address verified, login, refresh, a wrong password,
    reset, login. *)
Definition life : list input :=
  [Arrive second (SignupRequest (Ok (mkSignupRequest "alice" "Alice@Corp.Example " "P@ssw0rd!" "Corp Example" "")));
   Ticks 12;
   Arrive (2 * second) (LoginRequest browser (Ok (mkLogin "alice@corp.example" "P@ssw0rd!"))); Ticks 12;
   Arrive (2 * second) (VerifyRequest (Ok (drawn 2))); Ticks 12;
   Arrive (3 * second) (LoginRequest browser (Ok (mkLogin "alice@corp.example" "P@ssw0rd!"))); Ticks 12;
   Arrive (4 * second) (RefreshRequest (with_cookie (drawn 17))); Ticks 12;
   Arrive (5 * second) (LoginRequest browser (Ok (mkLogin "alice@corp.example" "wrong"))); Ticks 12;
   Arrive (6 * second) (ForgotRequest (Ok "alice@corp.example")); Ticks 12;
   Arrive (7 * second) (ResetRequest (Ok (mkResetRequest (drawn 36) "Sup3r-Secret"))); Ticks 12;
   Arrive (8 * second) (LoginRequest browser (Ok (mkLogin "alice" "Sup3r-Secret"))); Ticks 12]%Z.

Definition statuses (s : sys) : list Z := omap (λ e, match e with EvAnswer a => Some (Status a) | _ => None end) (log s).

Lemma life_answers : statuses (driven life) = [201; 403; 200; 200; 200; 401; 200; 200; 200]%Z.
Proof. vm_compute. reflexivity. Qed.

Definition first_session : RefreshToken :=
  mkRefresh "user-4" (HashToken (drawn 17)) (3 * second + RefreshTokenTTL) (Some (4 * second)%Z) (Some "10.0.0.7")
    (Some "ua") (3 * second).

Lemma sessions_authenticated_witness :
  refresh_tokens (tables (db (driven life))) !! HashToken (drawn 17) = Some first_session ∧
  drawn_here (log (driven life)) (HashToken (drawn 17)) ∧
  ((∃ cl req user hash (c : AuthRepository AdminUser),
      EvRequest (LoginRequest cl (Ok req)) ∈ log (driven life) ∧ EvRepo c (Ok user) ∈ log (driven life) ∧
      names (TrimSpace (LoginUsername req)) user ∧ UserID user = "user-4" ∧
      PasswordHash user = Some hash ∧ toy_compare hash (LoginPassword req) = true ∧ EmailVerified user = true ∧
      (LockedUntil user = None ∨
       ∃ until t, LockedUntil user = Some until ∧ EvNow t ∈ log (driven life) ∧ (until ≤ t)%Z)) ∨
   google_login toy_handler (log (driven life)) "user-4").
Proof.
  assert (refresh_tokens (tables (db (driven life))) !! HashToken (drawn 17) = Some first_session) as Hk
    by (vm_compute; reflexivity).
  split; [exact Hk|].
  exact (sessions_authenticated toy_compare toy_url toy_url (λ s _, s) toy_handler seeded (driven life) _ _
    seeded_initial (driven_reachable life) Hk).
Defined.

Lemma verified_emails_justified_witness :
  (EmailVerified <$> users (tables (db (driven life))) !! "user-4") = Some true ∧
  verified_reason toy_handler seeded (log (driven life)) "user-4".
Proof.
  assert ((EmailVerified <$> users (tables (db (driven life))) !! "user-4") = Some true) as Hv
    by (vm_compute; reflexivity).
  split; [exact Hv|]. apply fmap_Some in Hv as (u & Hu & Hv).
  exact (verified_emails_justified toy_compare toy_url toy_url (λ s _, s) toy_handler seeded (driven life) _ _
    seeded_initial (driven_reachable life) Hu (eq_sym Hv)).
Defined.

Lemma accounts_safe_witness :
  (is_super_admin <$> users (tables (db (driven life))) !! "sys") = Some true ∧
  (∃ u, users (tables (db (driven life))) !! "sys" = Some u ∧
    ∀ hash, PasswordHash u = Some hash → password_reason seeded (log (driven life)) "sys" hash) ∧
  super_reason seeded (log (driven life)) "sys" ∧ well_formed (tables (db (driven life))).
Proof.
  assert ((is_super_admin <$> users (tables (db (driven life))) !! "sys") = Some true) as Hv
    by (vm_compute; reflexivity).
  split; [exact Hv|]. apply fmap_Some in Hv as (u & Hu & Hv).
  destruct (accounts_safe toy_compare toy_url toy_url (λ s _, s) toy_handler seeded (driven life) _ _
    seeded_initial (driven_reachable life) Hu) as (Hsup & Hp & Hwf).
  exact (conj (ex_intro _ u (conj Hu Hp)) (conj (Hsup (eq_sym Hv)) Hwf)).
Defined.

(** In a database without any account, as no migration leaves it, [Register]
    counts first and creates later: two registrations that interleave both count
    zero, and both make a super-administrator. *)
Definition first_registrations : list input :=
  [Arrive second (RegisterRequest browser (Ok (mkRegister "first" "P@ssw0rd!")));
   Arrive second (RegisterRequest browser (Ok (mkRegister "other" "P@ssw0rd!")));
   Tick 0; Tick 1; Ticks 6].
Definition bootstrapped : sys :=
  @drive Password.ascii_tables toy_jwt toy_state_jwt toy_compare toy_url toy_url (λ s _, s) toy_handler toy_answers toy_ids
    empty_tables (LoginRateLimiter.NewLoginRateLimiter 5 minute) first_registrations.

Example first_registration_race :
  (λ u, (Username u, is_super_admin u)) <$> rows (users (tables (db bootstrapped))) =
  [("first", true); ("other", true)].
Proof. vm_compute. reflexivity. Qed.

Lemma tokens_single_use_witness :
  times (exchanges (HashToken (drawn 17))) (log (driven life)) = 1 ∧
  open_session (HashToken (drawn 17)) (tables (db (driven life))) = false ∧
  (∀ k, times (exchanges k) (log (driven life)) + nat_of (open_session k (tables (db (driven life)))) ≤
     times (issues_session k) (log (driven life))).
Proof.
  split; [vm_compute; reflexivity|]. split; [vm_compute; reflexivity|].
  exact (proj1 (tokens_single_use toy_compare toy_url toy_url (λ s _, s) toy_handler seeded (driven life)
    seeded_initial (driven_reachable life))).
Defined.

(** The place of the reset in the log. *)
Definition reset_at : nat := 45.

Lemma password_resets_authorised_witness :
  log (driven life) = take reset_at (log (driven life)) ++
    EvRepo (CallResetPassword "token-38" "user-4" (toy_hash "Sup3r-Secret")) (Ok ()) ::
    drop (S reset_at) (log (driven life)) ∧
  ∃ req email user drawn exp,
    EvRequest (ResetRequest (Ok req)) ∈ take reset_at (log (driven life)) ∧
    HashToken (TrimSpace (ResetToken req)) = HashToken (GenerateToken drawn) ∧
    EvService (RandRead 32) (Ok drawn) ∈ take reset_at (log (driven life)) ∧
    EvRepo (CallReplaceReset "user-4" (HashToken (GenerateToken drawn)) exp) (Ok "token-38") ∈
      take reset_at (log (driven life)) ∧
    EvRequest (ForgotRequest (Ok email)) ∈ take reset_at (log (driven life)) ∧
    EvRepo (CallUserByEmail (ToLower (TrimSpace email))) (Ok user) ∈ take reset_at (log (driven life)) ∧
    UserID user = "user-4" ∧ same_email (Email user) (TrimSpace email) = true ∧
    Password.Validate (NewPassword req) = Ok () ∧
    EvService (GenerateFromPassword (NewPassword req)) (Ok (toy_hash "Sup3r-Secret")) ∈
      take reset_at (log (driven life)).
Proof.
  assert (log (driven life) = take reset_at (log (driven life)) ++
    EvRepo (CallResetPassword "token-38" "user-4" (toy_hash "Sup3r-Secret")) (Ok ()) ::
    drop (S reset_at) (log (driven life))) as E by (vm_compute; reflexivity).
  split; [exact E|].
  exact (password_resets_authorised toy_compare toy_url toy_url (λ s _, s) toy_handler seeded (driven life) _ _ _ _ _ _
    seeded_initial (driven_reachable life) E).
Defined.

(** ** One account, one request after the other *)

Definition alice : AdminUser :=
  tenant_row "u-1" "alice" "alice@corp.example" (Some (toy_hash "P@ssw0rd!")) None None "password" true false 0.
Definition with_alice : tables_of_admin := set_users {["u-1" := alice]} empty_tables.
Definition quiet : world := mkWorld (mkStore with_alice 0 0 []) (LoginRateLimiter.NewLoginRateLimiter 5 minute) 0.

Lemma quiet_calm : calm quiet.
Proof.
  split; [done|].
  change (tables (wdb quiet)) with (set_users (<[UserID alice := alice]> (users empty_tables)) empty_tables).
  apply user_inserted; [apply empty_well_formed|by vm_compute|done].
Qed.

Lemma services_work_here : services_work toy_compare toy_answers toy_bytes (λ _, toy_hash).
Proof. split_and!; try done. intros n pw. apply String.eqb_refl. Qed.

Definition guess (t : Z) : Z * client * result string loginRequest :=
  ((t * minute)%Z, browser, Ok (mkLogin "alice" "P@ssword")).

(** Seven guesses in the first seven minutes, two more later: six are counted. *)
Lemma lockout_bounds_guesses_witness :
  let ins := guess <$> [0; 1; 2; 3; 4; 5; 6; 20; 21]%Z in
  length (guesses toy_compare toy_handler toy_answers toy_ids "u-1" quiet ins) = 6 ∧
  (Z.of_nat (length (guesses toy_compare toy_handler toy_answers toy_ids "u-1" quiet ins))
     ≤ 5 + (21 * minute - 0) / lockoutDuration)%Z.
Proof.
  cbv zeta. split; [vm_compute; reflexivity|].
  apply (lockout_bounds_guesses toy_compare toy_handler toy_answers toy_ids 0 (21 * minute) "u-1" alice quiet).
  - exact quiet_calm.
  - vm_compute. reflexivity.
  - reflexivity.
  - vm_compute. repeat split; discriminate.
  - repeat constructor; vm_compute; discriminate.
  - vm_compute. discriminate.
Defined.

Lemma password_recovery_witness :
  let w1 := (exec toy_answers toy_ids (at_time minute quiet)
    (ForgotPassword toy_url toy_handler (Ok " Alice@Corp.Example"))).1 in
  let w2 := (exec toy_answers toy_ids (at_time (10 * minute) w1)
    (ResetPassword toy_compare toy_handler (Ok (mkResetRequest (drawn 1) "Sup3r-Secret")))).1 in
  let answer3 := (exec toy_answers toy_ids (at_time (20 * minute) w2)
    (Login toy_compare toy_handler browser (Ok (mkLogin "alice" "Sup3r-Secret")))).2 in
  Status answer3 = 200%Z ∧ Body answer3 = tokenResponse "u-1" ∧
  (∀ k r, refresh_tokens (tables (wdb w2)) !! k = Some r → RefreshUser r = "u-1" → RevokedAt r ≠ None) ∧
  (∀ t req', ResetToken req' = drawn 1 →
     Status (exec toy_answers toy_ids (at_time t w2) (ResetPassword toy_compare toy_handler (Ok req'))).2
       = 400%Z).
Proof.
  apply (password_recovery toy_compare toy_url toy_handler toy_answers toy_ids toy_bytes (λ _, toy_hash)
    quiet minute (10 * minute) (20 * minute) " Alice@Corp.Example" "u-1" alice
    (mkResetRequest (drawn 1) "Sup3r-Secret") browser (mkLogin "alice" "Sup3r-Secret") "u-1").
  - exact services_work_here.
  - exact quiet_calm.
  - reflexivity.
  - intros tok. eexists. reflexivity.
  - vm_compute. reflexivity.
  - vm_compute. reflexivity.
  - reflexivity.
  - reflexivity.
  - vm_compute. reflexivity.
  - reflexivity.
  - split; [vm_compute; discriminate|vm_compute; reflexivity].
  - split; [vm_compute; reflexivity|]. intros x Hx. vm_compute in Hx. by apply elem_of_nil in Hx.
  - reflexivity.
  - vm_compute. reflexivity.
  - vm_compute. reflexivity.
  - vm_compute. reflexivity.
  - reflexivity.
  - vm_compute. reflexivity.
  - reflexivity.
  - vm_compute. reflexivity.
Defined.

(** ** The repository *)

Definition slug_holder : Project := mkProject "p-1" "Corp" "corp" "u-1" "free" true 0 None.
Definition with_project : tables_of_admin :=
  tenant_added alice slug_holder (set_users ∅ empty_tables).

Lemma with_project_wf : well_formed with_project.
Proof.
  apply tenant_added_wf; [apply empty_well_formed|by vm_compute|split_and!; [by vm_compute|done|]|done..].
  intros q Hq. by apply elem_of_nil in Hq.
Qed.

Definition eve_signs_up (slug : string) : AuthRepository SignupResult :=
  CallSignup "eve" "eve@corp.example" (toy_hash "P@ssw0rd!") "Corp" slug "free" "token-hash" second.

Definition calm_store (t : tables_of_admin) : store tables_of_admin := mkStore t 0 0 [].

Lemma repository_sound_witness :
  let c := eve_signs_up "corp-2" in
  let d' := (repo_call (toy_ids 0) c (calm_store with_project)).1 in
  (UserID <$> users (tables d') !! "user-0") = Some "user-0" ∧ well_formed (tables d') ∧
  match (repo_call (toy_ids 0) c (calm_store with_project)).2 with
  | Ok x => effect (toy_ids 0) 0 with_project (tables d') c x
  | Err _ => tables d' = with_project
  end.
Proof.
  split; [vm_compute; reflexivity|].
  apply (repository_sound (toy_ids 0) (eve_signs_up "corp-2") (calm_store with_project)).
  - exact with_project_wf.
  - apply surjective_pairing.
Defined.

Lemma taken_slug_fails_signup_witness :
  slug_taken "corp" with_project ∧
  (repo_call (toy_ids 0) (eve_signs_up "corp") (calm_store with_project)).2 = Err TxAborted ∧
  tables (repo_call (toy_ids 0) (eve_signs_up "corp") (calm_store with_project)).1 = with_project.
Proof.
  assert (slug_taken "corp" with_project) as Ht.
  { exists slug_holder. split; [apply elem_of_table; exists "p-1"; vm_compute; reflexivity|split; reflexivity]. }
  split; [exact Ht|]. split; [vm_compute; reflexivity|].
  eapply (taken_slug_fails_signup (toy_ids 0) (eve_signs_up "corp") "corp" (calm_store with_project));
    [exact Ht|left; repeat eexists|apply surjective_pairing].
Defined.

(** ** Unwelcome situations *)

(** Someone signs up with Eve's address and a password of their own; Eve never
    confirms the address, but signs in with Google.  The account is linked and its
    address verified, and the other one's password still opens it. *)
Definition google_browser : client := mkClient "10.0.0.9:4321" "ua" None (Some "state-1") None.
Definition hijack : list input :=
  [Arrive second (SignupRequest (Ok (mkSignupRequest "mallory" "eve@corp.example" "M@llory-pw1" "Mallory Inc" "")));
   Ticks 12;
   Arrive (2 * second) (LoginRequest browser (Ok (mkLogin "mallory" "M@llory-pw1"))); Ticks 12;
   Arrive (3 * second) (CallbackRequest google_browser "code" "state-1"); Ticks 20;
   Arrive (4 * second) (LoginRequest browser (Ok (mkLogin "mallory" "M@llory-pw1"))); Ticks 12]%Z.

Lemma linking_keeps_a_foreign_password : statuses (driven hijack) = [201; 403; 302; 200]%Z.
Proof. vm_compute. reflexivity. Qed.

(** Ten logins at once: each reads the counters before any other writes them, and
    all ten passwords are tried. *)
Definition at_once : list input :=
  replicate 10 (Arrive second (LoginRequest browser (Ok (mkLogin "system_admin" "guess")))) ++
  concat (replicate 4 (Tick <$> seq 0 10)) ++ [Ticks 60].

Lemma parallel_guesses_exceed_the_lock :
  statuses (driven at_once) = replicate 10 401%Z ∧
  (FailedLoginAttempts <$> users (tables (db (driven at_once))) !! "sys") = Some 10%Z.
Proof. vm_compute. split; reflexivity. Qed.

(** In a database the migrations have filled, the open registration never makes
    an account. *)
Lemma bootstrap_is_closed ids_at w cl req :
  calm w → users (tables (wdb w)) ≠ ∅ → Caller cl = None →
  Status (exec toy_answers ids_at w (Register cl (Ok req))).2 = 403%Z.
Proof.
  intros Hw Hne Hcl. unfold Register. rewrite Hcl.
  rewrite (exec_repo toy_answers ids_at w _ _ (tables (wdb w)) (Ok (size (users (tables (wdb w)))))); [|done|].
  - destruct (Nat.ltb_spec 0 (size (users (tables (wdb w))))) as [H|H]; [done|].
    destruct Hne. apply map_size_empty_iff. lia.
  - intros Hf. cbn [repo_call]. unfold AdminUserCount. by rewrite stmt_alone.
Qed.

End AdminScenario.
