(* ===== verification/ProjectJWT.v ===== *)
(** * Project JWT configuration: data, normalisation, settings

    [src/internal/model/project_jwt_config.go]; the pure functions of
    [src/internal/admin/service/project_jwt_config_service.go], which bring the
    settings an owner sends into a canonical form; the response of
    [project_jwt_config_handler.go]; and what the gateway is told.  Case mapping
    is Unicode's as far as it can lead into ASCII. *)

From Stdlib Require Import Ascii.
From stdpp Require Import sorting strings.
From S2P Require Import Prelude GoStrings Store Model AdminAccess.

Module ProjectJWT.

Definition JWTAlgorithmHS256 : string := "HS256".

Record ProjectJWTConfig := mkConfig {
  ProjectID : string;
  Enabled : bool;
  Algorithm : string;
  SecretARN : string;
  SecretVersionID : string;
  ConfigVersion : Z;
  Issuer : option string;
  Audiences : list string;
  SubjectClaim : string;
  RoleClaim : string;
  ScopesClaim : string;
  ClockSkewSeconds : Z;
  CreatedBy : option string;
  UpdatedBy : option string;
  CreatedAt : Z;
  UpdatedAt : Z;
}.

(** [projectJWTConfigToSync] for a configuration that is there: the reference to
    the secret only when it is enabled, and then it must be complete. *)
Definition projectJWTConfigToSync (cfg : ProjectJWTConfig) : result string ProjectJWTConfigSync.t :=
  let sync arn version := ProjectJWTConfigSync.mk (Enabled cfg) (Algorithm cfg) arn version (ConfigVersion cfg)
    (Issuer cfg) (Audiences cfg) (SubjectClaim cfg) (RoleClaim cfg) (ScopesClaim cfg) (ClockSkewSeconds cfg) in
  if negb (Enabled cfg) then Ok (sync "" "")
  else if String.eqb (SecretARN cfg) "" then Err "enabled JWT configuration is missing secret ARN"
  else if String.eqb (SecretVersionID cfg) "" then Err "enabled JWT configuration is missing secret version"
  else Ok (sync (SecretARN cfg) (SecretVersionID cfg)).

(** ** The input and its normal form *)

Record ProjectJWTConfigInput := mkInput {
  InEnabled : bool;
  InAlgorithm : string;
  InSecret : string;
  InIssuer : option string;
  InAudiences : list string;
  InSubjectClaim : string;
  InRoleClaim : string;
  InScopesClaim : string;
  InClockSkewSeconds : option Z;
}.

Definition defaultJWTClockSkewSeconds : Z := 30.
Definition minimumHS256SecretBytes : nat := 32.
Definition maximumJWTSecretBytes : nat := 4096.

(** [InvalidConfig] has the whole text of the error. *)
Inductive config_error :=
| SecretRequired | SecretTooShort | SecretTooLarge | UnsupportedAlgorithm
| InvalidConfig (text : string).

#[global] Instance config_error_eq_dec : EqDecision config_error.
Proof. solve_decision. Defined.

Definition config_error_text (e : config_error) : string :=
  match e with
  | SecretRequired => "JWT secret is required when configuring JWT authentication"
  | SecretTooShort => "HS256 JWT secret must be at least 32 bytes"
  | SecretTooLarge => "JWT secret is too large"
  | UnsupportedAlgorithm => "unsupported JWT algorithm"
  | InvalidConfig text => text
  end.

Definition invalid (field what : string) : config_error :=
  InvalidConfig (field +:+ "invalid JWT configuration: " +:+ what).

(** [U+017F], the long s, whose upper case is S; of all runes beyond ASCII only it
    and the dotless i have an upper case in ASCII. *)
Fixpoint fold_long_s (s : string) : string :=
  match s with
  | EmptyString => EmptyString
  | String a s' =>
      match s' with
      | String b s'' =>
          if (code a =? 197)%nat && (code b =? 191)%nat then String "S" (fold_long_s s'')
          else String a (fold_long_s s')
      | EmptyString => s
      end
  end.
Definition upper_algorithm (s : string) : string := ToUpper (fold_long_s s).

Definition defaultClaimName (value fallback : string) : string :=
  let value := TrimSpace value in if String.eqb value "" then fallback else value.

Definition control_rune (r : Z) : bool := (r <? 0x20)%Z || (r =? 0x7f)%Z.

Definition validateClaimName (field value : string) : result config_error unit :=
  if String.eqb value "" then Err (invalid field "claim name cannot be empty")
  else if (128 <? len value)%nat then Err (invalid field "claim name is too long")
  else if existsb control_rune (Runes.runes value) then Err (invalid field "claim name contains control characters")
  else Ok ().

(** [seen] has the values of [result]. *)
Fixpoint collect_audiences (values result_ : list string) : result config_error (list string) :=
  match values with
  | [] => Ok result_
  | value :: values =>
      let value := TrimSpace value in
      if String.eqb value "" then collect_audiences values result_
      else if (512 <? len value)%nat then Err (invalid "" "audience is too long")
      else if bool_decide (value ∈ result_) then collect_audiences values result_
      else collect_audiences values (result_ ++ [value])
  end.

Definition normalizeAudiences (values : list string) : result config_error (list string) :=
  if (20 <? length values)%nat then Err (invalid "" "too many audiences")
  else match collect_audiences values [] with
       | Ok l => Ok (merge_sort String.le l)
       | Err e => Err e
       end.

Definition normalizeIssuer (issuer : option string) : result config_error (option string) :=
  match issuer with
  | None => Ok None
  | Some i =>
      let i := TrimSpace i in
      if String.eqb i "" then Ok None
      else if (512 <? len i)%nat then Err (invalid "" "issuer is too long")
      else Ok (Some i)
  end.

Definition validSecret (secret : string) : result config_error unit :=
  if String.eqb secret "" then Ok ()
  else if String.eqb (TrimSpace secret) "" then Err SecretRequired
  else if (len secret <? minimumHS256SecretBytes)%nat then Err SecretTooShort
  else if (maximumJWTSecretBytes <? len secret)%nat then Err SecretTooLarge
  else Ok ().

Definition validClockSkew (skew : option Z) : result config_error unit :=
  match skew with
  | Some n => if (n <? 0)%Z || (300 <? n)%Z
              then Err (invalid "" "clock skew must be between 0 and 300 seconds") else Ok ()
  | None => Ok ()
  end.

#[local] Open Scope go_scope.

Definition normalizeJWTConfigInput (input : ProjectJWTConfigInput) : result config_error ProjectJWTConfigInput :=
  let algorithm := upper_algorithm (TrimSpace (InAlgorithm input)) in
  let algorithm := if String.eqb algorithm "" then JWTAlgorithmHS256 else algorithm in
  if negb (String.eqb algorithm JWTAlgorithmHS256) then Err UnsupportedAlgorithm
  else
    let! _ := validSecret (InSecret input) in
    let subject := defaultClaimName (InSubjectClaim input) "sub" in
    let role := defaultClaimName (InRoleClaim input) "role" in
    let scopes := defaultClaimName (InScopesClaim input) "scope" in
    let! _ := validateClaimName "subject claim: " subject in
    let! _ := validateClaimName "role claim: " role in
    let! _ := validateClaimName "scopes claim: " scopes in
    let! issuer := normalizeIssuer (InIssuer input) in
    let! audiences := normalizeAudiences (InAudiences input) in
    let! _ := validClockSkew (InClockSkewSeconds input) in
    Ok (mkInput (InEnabled input) algorithm (InSecret input) issuer audiences subject role scopes
          (InClockSkewSeconds input)).

(** [time.Time{}]. *)
Definition zero_time : Z := -62135596800 * second.

Definition configFromInput (input : ProjectJWTConfigInput) : ProjectJWTConfig :=
  mkConfig "" (InEnabled input) (InAlgorithm input) "" "" 0 (InIssuer input) (InAudiences input)
    (InSubjectClaim input) (InRoleClaim input) (InScopesClaim input)
    (default defaultJWTClockSkewSeconds (InClockSkewSeconds input)) None None zero_time zero_time.

(** What decides how tokens are checked, the secret apart. *)
Definition settings (cfg : ProjectJWTConfig) :=
  (Enabled cfg, Algorithm cfg, Issuer cfg, Audiences cfg, SubjectClaim cfg, RoleClaim cfg, ScopesClaim cfg,
   ClockSkewSeconds cfg).

Definition optionalStringEqual (a b : option string) : bool :=
  match a, b with
  | None, None => true
  | Some a, Some b => String.eqb a b
  | _, _ => false
  end.

Definition jwtConfigEquivalent (current next : ProjectJWTConfig) : bool :=
  Bool.eqb (Enabled current) (Enabled next) && String.eqb (Algorithm current) (Algorithm next) &&
  optionalStringEqual (Issuer current) (Issuer next) && bool_decide (Audiences current = Audiences next) &&
  String.eqb (SubjectClaim current) (SubjectClaim next) && String.eqb (RoleClaim current) (RoleClaim next) &&
  String.eqb (ScopesClaim current) (ScopesClaim next) && (ClockSkewSeconds current =? ClockSkewSeconds next)%Z.

(** [next] with the identity and the secret of [current]. *)
Definition adopt (current next : ProjectJWTConfig) : ProjectJWTConfig :=
  mkConfig (ProjectID current) (Enabled next) (Algorithm next) (SecretARN current) (SecretVersionID current)
    (ConfigVersion current) (Issuer next) (Audiences next) (SubjectClaim next) (RoleClaim next) (ScopesClaim next)
    (ClockSkewSeconds next) (CreatedBy current) (UpdatedBy next) (CreatedAt current) (UpdatedAt next).
Definition with_secret (arn version : string) (cfg : ProjectJWTConfig) : ProjectJWTConfig :=
  mkConfig (ProjectID cfg) (Enabled cfg) (Algorithm cfg) arn version (ConfigVersion cfg) (Issuer cfg) (Audiences cfg)
    (SubjectClaim cfg) (RoleClaim cfg) (ScopesClaim cfg) (ClockSkewSeconds cfg) (CreatedBy cfg) (UpdatedBy cfg)
    (CreatedAt cfg) (UpdatedAt cfg).

(** ** The name of a project's secret *)

(** The lower case of a rune where it is one of a-z, 0-9 or "-", else "-".  The
    Kelvin sign and the dotted capital I have theirs in ASCII. *)
Definition env_rune (r : Z) : ascii :=
  let keep := ascii_of_nat (Z.to_nat r) in
  if ((97 <=? r) && (r <=? 122) || (48 <=? r) && (r <=? 57))%Z then keep
  else if ((65 <=? r) && (r <=? 90))%Z then ascii_of_nat (Z.to_nat (r + 32))
  else if (r =? 0x212A)%Z then "k"
  else if (r =? 0x130)%Z then "i"
  else "-".

Definition normalizeEnvironment (value : string) : string :=
  let value := TrimSpace value in
  if String.eqb value "" then "development"
  else
    let result_ := Trim "-" (fold_right (λ r s, String (env_rune r) s) "" (Runes.runes value)) in
    if String.eqb result_ "" then "development" else result_.

Definition projectJWTSecretName (environment projectID : string) : string :=
  "elitegate/" +:+ normalizeEnvironment environment +:+ "/projects/" +:+ projectID +:+ "/jwt/hs256".

Example environment_mixed : normalizeEnvironment (" Prod_EU" +:+ bytes [226; 132; 170]%nat +:+ "! ") = "prod-euk".
Proof. vm_compute. reflexivity. Qed.

(** ** The response *)

Record projectJWTConfigResponse := mkResponse {
  Configured : bool;
  SecretConfigured : bool;
  ResEnabled : bool;
  ResAlgorithm : string;
  ResConfigVersion : Z;
  ResIssuer : option string;
  ResAudiences : list string;
  ResSubjectClaim : string;
  ResRoleClaim : string;
  ResScopesClaim : string;
  ResClockSkewSeconds : Z;
  ResCreatedAt : option Z;
  ResUpdatedAt : option Z;
}.

Definition projectJWTResponse (cfg : option ProjectJWTConfig) : projectJWTConfigResponse :=
  let time t := if (t =? zero_time)%Z then None else Some t in
  match cfg with
  | None => mkResponse false false false JWTAlgorithmHS256 0 None [] "sub" "role" "scope" 30 None None
  | Some cfg =>
      mkResponse true (negb (String.eqb (SecretARN cfg) "")) (Enabled cfg) (Algorithm cfg) (ConfigVersion cfg)
        (Issuer cfg) (Audiences cfg) (SubjectClaim cfg) (RoleClaim cfg) (ScopesClaim cfg) (ClockSkewSeconds cfg)
        (time (CreatedAt cfg)) (time (UpdatedAt cfg))
  end.

(** ** The constraints of migration 0031 *)

(** [BTRIM(s) <> '']: something other than spaces. *)
Fixpoint not_blank (s : string) : bool :=
  match s with EmptyString => false | String c s' => negb (Ascii.eqb c " ") || not_blank s' end.

Definition config_checks (cfg : ProjectJWTConfig) : bool :=
  String.eqb (Algorithm cfg) "HS256" && not_blank (SecretARN cfg) && not_blank (SecretVersionID cfg) &&
  (0 <? ConfigVersion cfg)%Z &&
  (0 <=? ClockSkewSeconds cfg)%Z && (ClockSkewSeconds cfg <=? 300)%Z &&
  match Issuer cfg with Some i => not_blank i | None => true end &&
  not_blank (SubjectClaim cfg) && not_blank (RoleClaim cfg) && not_blank (ScopesClaim cfg).

(** ** Properties *)

(** The normal form of the texts: trimmed and not empty. *)
Definition normal (s : string) : Prop := TrimSpace s = s ∧ s ≠ "".

Lemma TrimSpace_normal s : TrimSpace s ≠ "" → normal (TrimSpace s).
Proof. intros H. split; [apply TrimSpace_idemp|done]. Qed.

Lemma normal_not_blank s : normal s → not_blank s = true.
Proof.
  intros [Hs Hne]. destruct s as [|c s]; [done|]. simpl. apply orb_true_iff. left.
  apply negb_true_iff, Ascii.eqb_neq, (trimmed_head c s). rewrite <-Hs. apply TrimSpace_trimmed.
Qed.

Lemma jwtConfigEquivalent_spec a b : jwtConfigEquivalent a b = true ↔ settings a = settings b.
Proof.
  assert (Ho : ∀ x y, optionalStringEqual x y = true ↔ x = y).
  { intros [x|] [y|]; simpl; try done. rewrite String.eqb_eq. naive_solver. }
  unfold jwtConfigEquivalent, settings.
  rewrite !andb_true_iff, !String.eqb_eq, Bool.eqb_true_iff, Ho, bool_decide_eq_true, Z.eqb_eq.
  split; [intros; destruct_and?; congruence|intros [=]; tauto].
Qed.

Lemma settings_adopt current next : settings (adopt current next) = settings next.
Proof. done. Qed.
Lemma settings_with_secret a v cfg : settings (with_secret a v cfg) = settings cfg.
Proof. done. Qed.

(** *** Audiences *)

Definition canonical_audience (s : string) : Prop := normal s ∧ (len s ≤ 512)%nat.

Lemma collect_audiences_spec values acc l :
  collect_audiences values acc = Ok l → NoDup acc → Forall canonical_audience acc →
  NoDup l ∧ Forall canonical_audience l ∧ (length l ≤ length acc + length values)%nat ∧
  ∀ a, a ∈ l ↔ a ∈ acc ∨ a ≠ "" ∧ ∃ v, v ∈ values ∧ TrimSpace v = a.
Proof.
  revert acc. induction values as [|v values IH]; intros acc; simpl.
  { intros [= <-] ??. split_and!; [done..|lia|]. intros a. split; [by left|].
    intros [?|(_ & v & Hv & _)]; [done|by apply not_elem_of_nil in Hv]. }
  destruct (String.eqb_spec (TrimSpace v) "") as [E|E]; [|destruct (Nat.ltb_spec 512 (len (TrimSpace v))) as [?|Hle]; [done|];
    case_bool_decide as Hin]; intros H Hn Hf.
  - destruct (IH _ H Hn Hf) as (? & ? & ? & Hl). split_and!; [done..|lia|]. intros a. rewrite Hl.
    setoid_rewrite elem_of_cons. naive_solver.
  - destruct (IH _ H Hn Hf) as (? & ? & ? & Hl). split_and!; [done..|lia|]. intros a. rewrite Hl.
    setoid_rewrite elem_of_cons. naive_solver.
  - destruct (IH _ H) as (? & ? & Hlen & Hl).
    + apply NoDup_app. split_and!; [done| |apply NoDup_singleton]. by intros a ? ->%list_elem_of_singleton.
    + apply Forall_app. split; [done|]. constructor; [|done]. split; [by apply TrimSpace_normal|done].
    + rewrite length_app in Hlen. simpl in Hlen. split_and!; [done..|lia|]. intros a. rewrite Hl, elem_of_app, list_elem_of_singleton.
      setoid_rewrite elem_of_cons. naive_solver.
Qed.

(** Canonical, distinct audiences are collected as they are. *)
Lemma collect_canonical values acc :
  NoDup (acc ++ values) → Forall canonical_audience values → collect_audiences values acc = Ok (acc ++ values).
Proof.
  revert acc. induction values as [|v values IH]; intros acc Hn Hf; simpl; [by rewrite app_nil_r|].
  apply Forall_cons in Hf as [[[Ht Hne] Hlen] Hf]. rewrite Ht. destruct (String.eqb_spec v ""); [done|].
  destruct (Nat.ltb_spec 512 (len v)); [lia|]. rewrite bool_decide_eq_false_2.
  - rewrite IH, <-app_assoc; [done| |done]. by rewrite <-app_assoc.
  - intros Hin. apply NoDup_app in Hn as (_ & Hn & _). apply (Hn v Hin). by left.
Qed.

#[local] Instance string_le_trans : Transitive String.le.
Proof. exact _. Qed.

(** The audiences of a normalised input: sorted, distinct, each within its bounds;
    and they are those of the input. *)
Record canonical_audiences (values l : list string) : Prop := {
  audiences_sorted : StronglySorted String.le l;
  audiences_distinct : NoDup l;
  audiences_few : (length l ≤ 20)%nat;
  audiences_normal : Forall canonical_audience l;
  audiences_same a : a ∈ l ↔ a ≠ "" ∧ ∃ v, v ∈ values ∧ TrimSpace v = a;
}.

Lemma normalizeAudiences_spec values l : normalizeAudiences values = Ok l → canonical_audiences values l.
Proof.
  unfold normalizeAudiences. destruct (Nat.ltb_spec 20 (length values)); [done|].
  destruct (collect_audiences values []) as [l0|] eqn:Hc; [|done]. intros [= <-].
  apply collect_audiences_spec in Hc as (Hn & Hf & Hlen & Hl); [|constructor|constructor]. simpl in Hlen.
  pose proof (merge_sort_Permutation String.le l0) as Hp. split.
  - apply StronglySorted_merge_sort; exact _.
  - by rewrite Hp.
  - rewrite Hp. lia.
  - by rewrite Hp.
  - intros a. rewrite Hp, Hl. rewrite elem_of_nil. tauto.
Qed.

(** Inputs that name the same audiences have the same normal form, whatever the
    order, the repetitions and the white space. *)
Lemma normalizeAudiences_canonical values values' l l' :
  (∀ a, a ≠ "" → (∃ v, v ∈ values ∧ TrimSpace v = a) ↔ (∃ v, v ∈ values' ∧ TrimSpace v = a)) →
  normalizeAudiences values = Ok l → normalizeAudiences values' = Ok l' → l = l'.
Proof.
  intros Hsame [S N _ _ A]%normalizeAudiences_spec [S' N' _ _ A']%normalizeAudiences_spec.
  apply (Sorted_unique String.le); [by apply StronglySorted_Sorted..|]. apply NoDup_Permutation; [done..|].
  intros a. rewrite A, A'. naive_solver.
Qed.

Lemma normalizeAudiences_idemp values l : normalizeAudiences values = Ok l → normalizeAudiences l = Ok l.
Proof.
  intros [S N F C _]%normalizeAudiences_spec. unfold normalizeAudiences.
  destruct (Nat.ltb_spec 20 (length l)); [lia|]. rewrite collect_canonical by done. simpl. f_equal.
  apply (Sorted_unique String.le); [apply Sorted_merge_sort; exact _|by apply StronglySorted_Sorted|].
  apply merge_sort_Permutation.
Qed.

(** *** The whole input *)

Lemma defaultClaimName_normal v fallback : normal fallback → normal (defaultClaimName v fallback).
Proof.
  intros Hf. unfold defaultClaimName. destruct (String.eqb_spec (TrimSpace v) ""); [done|by apply TrimSpace_normal].
Qed.

Lemma defaultClaimName_id v fallback : normal v → defaultClaimName v fallback = v.
Proof. intros [Ht Hne]. unfold defaultClaimName. rewrite Ht. by destruct (String.eqb_spec v ""). Qed.

Lemma validSecret_spec s : validSecret s = Ok () → s ≠ "" → (32 ≤ len s ≤ 4096)%nat.
Proof.
  unfold validSecret, minimumHS256SecretBytes, maximumJWTSecretBytes. intros H Hne.
  destruct (String.eqb_spec s ""); [done|]. destruct (String.eqb _ ""); [done|].
  destruct (Nat.ltb_spec (len s) 32); [done|]. destruct (Nat.ltb_spec 4096 (len s)); [done|lia].
Qed.

Record normalised (input : ProjectJWTConfigInput) : Prop := {
  norm_algorithm : InAlgorithm input = "HS256";
  norm_secret : InSecret input ≠ "" → (32 ≤ len (InSecret input) ≤ 4096)%nat;
  norm_issuer i : InIssuer input = Some i → normal i ∧ (len i ≤ 512)%nat;
  norm_audiences : canonical_audiences (InAudiences input) (InAudiences input);
  norm_subject : normal (InSubjectClaim input);
  norm_role : normal (InRoleClaim input);
  norm_scopes : normal (InScopesClaim input);
  norm_skew n : InClockSkewSeconds input = Some n → (0 ≤ n ≤ 300)%Z;
}.

Lemma normalize_spec input n :
  normalizeJWTConfigInput input = Ok n →
  normalised n ∧ normalizeAudiences (InAudiences input) = Ok (InAudiences n) ∧ InSecret n = InSecret input ∧
  InEnabled n = InEnabled input ∧ InClockSkewSeconds n = InClockSkewSeconds input.
Proof.
  unfold normalizeJWTConfigInput. cbv zeta. destruct (negb _) eqn:Ha; [done|]. apply negb_false_iff, String.eqb_eq in Ha.
  destruct (validSecret _) as [[]|] eqn:Hs; [|done]. cbn [rbind].
  destruct (validateClaimName "subject claim: " _); [|done]. cbn [rbind].
  destruct (validateClaimName "role claim: " _); [|done]. cbn [rbind].
  destruct (validateClaimName "scopes claim: " _); [|done]. cbn [rbind].
  destruct (normalizeIssuer _) as [issuer|] eqn:Hi; [|done]. cbn [rbind].
  destruct (normalizeAudiences _) as [audiences|] eqn:Hau; [|done]. cbn [rbind].
  destruct (validClockSkew _) as [[]|] eqn:Hk; [|done]. intros [= <-]. split_and!; try done.
  split; simpl; try done; try (by apply defaultClaimName_normal); try (by apply validSecret_spec).
  - intros i ->. unfold normalizeIssuer in Hi. destruct (InIssuer input) as [j|]; [|done].
    destruct (String.eqb_spec (TrimSpace j) ""); [done|]. destruct (Nat.ltb_spec 512 (len (TrimSpace j))); [done|].
    injection Hi as <-. split; [by apply TrimSpace_normal|done].
  - by eapply normalizeAudiences_spec, normalizeAudiences_idemp.
  - intros k E. rewrite E in Hk. simpl in Hk. destruct (Z.ltb_spec k 0), (Z.ltb_spec 300 k); done.
Qed.

(** Normalising again changes nothing. *)
Theorem normalize_idempotent input n : normalizeJWTConfigInput input = Ok n → normalizeJWTConfigInput n = Ok n.
Proof.
  intros H. pose proof (normalize_spec input n H) as ([Ha _ Hi _ Hsub Hr Hsc Hk] & Hau & Hs & _).
  apply normalizeAudiences_idemp in Hau. revert H. unfold normalizeJWTConfigInput.
  cbv zeta. destruct (negb _); [done|].
  destruct (validSecret (InSecret input)) as [[]|] eqn:E0; [|done]. cbn [rbind].
  destruct (validateClaimName "subject claim: " _) as [[]|] eqn:E1; [|done]. cbn [rbind].
  destruct (validateClaimName "role claim: " _) as [[]|] eqn:E2; [|done]. cbn [rbind].
  destruct (validateClaimName "scopes claim: " _) as [[]|] eqn:E3; [|done]. cbn [rbind].
  destruct (normalizeIssuer (InIssuer input)) as [issuer|]; [|done]. cbn [rbind].
  destruct (normalizeAudiences (InAudiences input)) as [audiences|]; [|done]. cbn [rbind].
  destruct (validClockSkew (InClockSkewSeconds input)) as [[]|] eqn:E4; [|done]. cbn [rbind]. intros Hn.
  rewrite Ha, Hs, E0, Hau, !defaultClaimName_id by done.
  change (upper_algorithm (TrimSpace "HS256")) with "HS256". cbn [String.eqb negb].
  injection Hn as Hn. rewrite <-Hn in Ha, Hi |- *. simpl in *. rewrite Ha, E1, E2, E3, E4. cbn [rbind].
  destruct issuer as [i|]; [|done]. destruct (Hi i eq_refl) as [[Ht Hne] Hlen]. simpl. rewrite Ht.
  destruct (String.eqb_spec i ""); [done|]. by destruct (Nat.ltb_spec 512 (len i)); [lia|].
Qed.

(** ** What does not count as a change *)

(** Two inputs that say the same: up to white space, defaults, and order and
    repetition of the audiences. *)
Record same_input (a b : ProjectJWTConfigInput) : Prop := {
  same_enabled : InEnabled a = InEnabled b;
  same_issuer : TrimSpace (default "" (InIssuer a)) = TrimSpace (default "" (InIssuer b));
  same_audiences v : v ≠ "" →
    (∃ x, x ∈ InAudiences a ∧ TrimSpace x = v) ↔ (∃ x, x ∈ InAudiences b ∧ TrimSpace x = v);
  same_subject : defaultClaimName (InSubjectClaim a) "sub" = defaultClaimName (InSubjectClaim b) "sub";
  same_role : defaultClaimName (InRoleClaim a) "role" = defaultClaimName (InRoleClaim b) "role";
  same_scopes : defaultClaimName (InScopesClaim a) "scope" = defaultClaimName (InScopesClaim b) "scope";
  same_skew : default defaultJWTClockSkewSeconds (InClockSkewSeconds a) =
              default defaultJWTClockSkewSeconds (InClockSkewSeconds b);
}.

(** The fields of a normal form. *)
Lemma normalize_fields input n :
  normalizeJWTConfigInput input = Ok n →
  normalizeIssuer (InIssuer input) = Ok (InIssuer n) ∧ normalizeAudiences (InAudiences input) = Ok (InAudiences n) ∧
  InSubjectClaim n = defaultClaimName (InSubjectClaim input) "sub" ∧
  InRoleClaim n = defaultClaimName (InRoleClaim input) "role" ∧
  InScopesClaim n = defaultClaimName (InScopesClaim input) "scope".
Proof.
  unfold normalizeJWTConfigInput. cbv zeta. destruct (negb _); [done|]. destruct (validSecret _); [|done]. cbn [rbind].
  do 3 (destruct (validateClaimName _ _); [|done]; cbn [rbind]).
  destruct (normalizeIssuer _) as [issuer|]; [|done]. cbn [rbind].
  destruct (normalizeAudiences _) as [audiences|]; [|done]. cbn [rbind].
  destruct (validClockSkew _); [|done]. by intros [= <-].
Qed.

Lemma normalizeIssuer_spec i r :
  normalizeIssuer i = Ok r →
  r = (let t := TrimSpace (default "" i) in if String.eqb t "" then None else Some t).
Proof.
  unfold normalizeIssuer. destruct i as [i|]; simpl; [|by intros [= <-]].
  destruct (String.eqb _ ""); [by intros [= <-]|]. destruct (_ <? _)%nat; [done|]. by intros [= <-].
Qed.

Lemma same_input_settings a b na nb :
  same_input a b → normalizeJWTConfigInput a = Ok na → normalizeJWTConfigInput b = Ok nb →
  settings (configFromInput na) = settings (configFromInput nb).
Proof.
  intros [He Hi Ha Hs Hr Hc Hk] Hna Hnb.
  pose proof (normalize_fields a na Hna) as (Ia & Aa & Sa & Ra & Ca).
  pose proof (normalize_fields b nb Hnb) as (Ib & Ab & Sb & Rb & Cb).
  destruct (normalize_spec a na Hna) as ([Ga _ _ _ _ _ _ _] & _ & _ & Ea & Ka).
  destruct (normalize_spec b nb Hnb) as ([Gb _ _ _ _ _ _ _] & _ & _ & Eb & Kb).
  apply normalizeIssuer_spec in Ia, Ib. unfold settings, configFromInput. cbn.
  rewrite Ea, Eb, Ka, Kb, Ga, Gb, Ia, Ib, Sa, Sb, Ra, Rb, Ca, Cb, He, Hi, Hs, Hr, Hc, Hk.
  by rewrite (normalizeAudiences_canonical _ _ _ _ Ha Aa Ab).
Qed.

(** What is stored of a normalised input never violates a constraint. *)
Lemma normalised_checks n cfg :
  normalised n → settings cfg = settings (configFromInput n) → normal (SecretARN cfg) → normal (SecretVersionID cfg) →
  (0 < ConfigVersion cfg)%Z → config_checks cfg = true.
Proof.
  intros [Ha _ Hi _ Hs Hr Hc Hk] [= _ Ea Ei _ Es Er Ec Ek] Harn Hver Hv. unfold config_checks.
  rewrite Ea, Ei, Es, Er, Ec, Ek, Ha. rewrite !normal_not_blank by done. rewrite String.eqb_refl. simpl.
  assert (0 ≤ default defaultJWTClockSkewSeconds (InClockSkewSeconds n) ≤ 300)%Z as [??].
  { destruct (InClockSkewSeconds n) as [k|]; [by apply Hk|done]. }
  rewrite !(proj2 (Z.leb_le _ _)), (proj2 (Z.ltb_lt _ _)) by done. simpl.
  destruct (InIssuer n) as [i|]; [|done]. by rewrite normal_not_blank by apply (Hi i eq_refl).
Qed.

(** The secrets of two projects have different names. *)
Lemma sapp_cancel_l s t u : s +:+ t = s +:+ u → t = u.
Proof. induction s as [|c s IH]; [done|]. rewrite !sapp_cons. intros [= H]. by apply IH. Qed.
Lemma sapp_cancel_r s t u : s +:+ u = t +:+ u → s = t.
Proof.
  intros H. apply (f_equal String.rev) in H. rewrite !srev_app in H. apply sapp_cancel_l in H.
  by rewrite <-(srev_involutive s), H, srev_involutive.
Qed.
Lemma projectJWTSecretName_inj e p q : projectJWTSecretName e p = projectJWTSecretName e q → p = q.
Proof. unfold projectJWTSecretName. intros H%sapp_cancel_l%sapp_cancel_l%sapp_cancel_l. by apply sapp_cancel_r in H. Qed.

End ProjectJWT.
