(* ===== verification/SecretManager.v ===== *)
(** * The Secrets Manager adapter

    [src/internal/aws/secret_manager.go] and [secret_manager_interfaces.go].  The
    operations of the AWS SDK ([SecretsManagerAPI]) are the requests of [SDK]; who
    performs them is a parameter, so that a method can be part of a program whose
    other calls are interleaved, or run against a given client.  Timeouts and the
    set-up of the client are left out: a request that times out is an error. *)

From S2P Require Import Prelude GoStrings.

Module SecretManager.

Inductive sdk_error :=
| ResourceExistsException
| InvalidRequestException (msg : string)
| ResourceNotFoundException
| OtherSDKError.

(** [ARN] and [VersionId] of an answer, pointers. *)
Abbreviation version_reply := (result sdk_error (option string * option string)).

Inductive SDK : Type → Type :=
| SDKCreateSecret (name value : string) : SDK version_reply
| SDKPutSecretValue (secretID value : string) : SDK version_reply
| SDKGetSecretValue (secretID : string) (versionID : option string) : SDK (result sdk_error (option string))
| SDKDeleteSecret (secretID : string) : SDK (result sdk_error unit)
| SDKRestoreSecret (secretID : string) : SDK (result sdk_error unit).

Record SecretReference := mkReference { ARN : string; VersionID : string }.

Inductive error :=
| ErrSecretAlreadyExists | ErrSecretNotFound
| ErrNameRequired | ErrIDRequired | ErrValueRequired
| ErrEmptyARN | ErrEmptyVersion | ErrNoString
| ErrCallFailed.

#[global] Instance secret_error_eq_dec : EqDecision error.
Proof. solve_decision. Defined.

Definition secretReference (arn versionID : option string) : result error SecretReference :=
  let arn := TrimSpace (default "" arn) in
  let versionID := TrimSpace (default "" versionID) in
  if String.eqb arn "" then Err ErrEmptyARN
  else if String.eqb versionID "" then Err ErrEmptyVersion
  else Ok (mkReference arn versionID).

(** What the methods make of the answers.  For a secret that is scheduled for
    deletion AWS answers [InvalidRequestException]. *)
Definition create_result (r : version_reply) : result error SecretReference :=
  match r with
  | Ok (arn, version) => secretReference arn version
  | Err ResourceExistsException => Err ErrSecretAlreadyExists
  | Err (InvalidRequestException msg) =>
      if Contains (ToLower msg) "scheduled for deletion" then Err ErrSecretAlreadyExists else Err ErrCallFailed
  | Err _ => Err ErrCallFailed
  end.

Definition update_result (r : version_reply) : result error SecretReference :=
  match r with
  | Ok (arn, version) => secretReference arn version
  | Err ResourceNotFoundException => Err ErrSecretNotFound
  | Err _ => Err ErrCallFailed
  end.

Definition get_result (r : result sdk_error (option string)) : result error string :=
  match r with
  | Ok (Some s) => if String.eqb s "" then Err ErrNoString else Ok s
  | Ok None => Err ErrNoString
  | Err ResourceNotFoundException => Err ErrSecretNotFound
  | Err _ => Err ErrCallFailed
  end.

Definition delete_result (r : result sdk_error unit) : result error unit :=
  match r with
  | Ok _ | Err ResourceNotFoundException => Ok ()
  | Err _ => Err ErrCallFailed
  end.

Definition restore_result (r : result sdk_error unit) : result error unit :=
  match r with Ok _ => Ok () | Err _ => Err ErrCallFailed end.

Section methods.
Context {R : Type} (perform : ∀ X, SDK X → (X → R) → R).
#[local] Arguments perform {X} _ _.

Definition CreateSecret (name secretValue : string) (k : result error SecretReference → R) : R :=
  let name := TrimSpace name in
  if String.eqb name "" then k (Err ErrNameRequired)
  else if String.eqb secretValue "" then k (Err ErrValueRequired)
  else perform (SDKCreateSecret name secretValue) (λ r, k (create_result r)).

Definition with_id (secretID : string) {X} (k : result error X → R) (next : string → R) : R :=
  let secretID := TrimSpace secretID in
  if String.eqb secretID "" then k (Err ErrIDRequired) else next secretID.

Definition UpdateSecret (secretID secretValue : string) (k : result error SecretReference → R) : R :=
  with_id secretID k (λ secretID,
    if String.eqb secretValue "" then k (Err ErrValueRequired)
    else perform (SDKPutSecretValue secretID secretValue) (λ r, k (update_result r))).

Definition GetSecret (secretID versionID : string) (k : result error string → R) : R :=
  with_id secretID k (λ secretID,
    let versionID := TrimSpace versionID in
    perform (SDKGetSecretValue secretID (if String.eqb versionID "" then None else Some versionID))
      (λ r, k (get_result r))).

Definition DeleteSecret (secretID : string) (k : result error unit → R) : R :=
  with_id secretID k (λ secretID, perform (SDKDeleteSecret secretID) (λ r, k (delete_result r))).

Definition RestoreSecret (secretID : string) (k : result error unit → R) : R :=
  with_id secretID k (λ secretID, perform (SDKRestoreSecret secretID) (λ r, k (restore_result r))).

End methods.

(** A reference is trimmed and complete. *)
Lemma secretReference_spec arn version ref :
  secretReference arn version = Ok ref →
  ∃ a v, arn = Some a ∧ version = Some v ∧ ARN ref = TrimSpace a ∧ VersionID ref = TrimSpace v ∧
    ARN ref ≠ "" ∧ VersionID ref ≠ "".
Proof.
  unfold secretReference. destruct arn as [a|]; simpl; [|by destruct version].
  destruct (String.eqb_spec (TrimSpace a) ""); [done|]. destruct version as [v|]; simpl; [|done].
  destruct (String.eqb_spec (TrimSpace v) ""); [done|]. intros [= <-]. eauto 10.
Qed.

Lemma update_result_spec r ref :
  update_result r = Ok ref → ∃ arn version, r = Ok (arn, version) ∧ secretReference arn version = Ok ref.
Proof. destruct r as [[arn version]|[]]; [|done..]. eauto. Qed.

Lemma create_result_spec r ref :
  create_result r = Ok ref → ∃ arn version, r = Ok (arn, version) ∧ secretReference arn version = Ok ref.
Proof. destruct r as [[arn version]|[|msg| |]]; simpl; [eauto|done| |done..]. by destruct (Contains _ _). Qed.

End SecretManager.
