(* ===== verification/TenantTables.v ===== *)
(** * Tenants: tables and statements

    The tables of the migrations that belong to projects: [projects],
    [project_members], [routes], [upstreams], [upstream_targets], [policies],
    [api_keys], [gateways], [audit_logs] and [project_jwt_configs], with the
    columns the queries of [src/internal/storage] use; their checks, unique constraints and foreign keys;
    and row-level security: [app.project_id] of the session and the policies of
    [0015_rls_global_bypass.up.sql].  Texts are converted to the column types
    before a statement runs. *)

From stdpp Require Import gmap sorting.
From S2P Require Import Prelude GoStrings Store Transactions AdminRepo ProjectJWT SecretManager.

(** What the queries rely on of PostgreSQL and of package [uuid]. *)
Class Database := {
  row_security : bool;                      (* the role is subject to row-level security *)
  uuid_in : string → option string;         (* text to [uuid], as its canonical text *)
  uuid_parse : string → option string;      (* [uuid.Parse], then [String] *)
  text_le : string → string → bool;         (* the collation *)
  ilike : string → string → bool;
  is_inet : string → bool;
  scan : ∀ {V : Type}, list V → list V;     (* the order in which selected rows are visited *)
}.

Class DatabaseLaws (D : Database) := {
  uuid_in_canonical s u : uuid_in s = Some u → uuid_in u = Some u;
  uuid_parse_canonical s u : uuid_parse s = Some u → uuid_in u = Some u;
  (* where both take a text they agree *)
  uuid_agree s u v : uuid_parse s = Some u → uuid_in s = Some v → u = v;
  scan_perm {V} (l : list V) : scan l ≡ₚ l;
  text_le_total s s' : text_le s s' = true ∨ text_le s' s = true;
  text_le_trans s1 s2 s3 : text_le s1 s2 = true → text_le s2 s3 = true → text_le s1 s3 = true;
}.

Module TenantTables.
Export Store Transactions.

(** ** Rows *)

(** The columns all tables of resources share.  [Parent] is [project_id], for a
    target [upstream_id]. *)
Record row (C : Type) := mkRow {
  ID : string;
  Parent : string;
  Columns : C;
  CreatedAt : Z;
  UpdatedAt : Z;
  DeletedAt : option Z;
}.
#[global] Arguments mkRow {C} _ _ _ _ _ _.
#[global] Arguments ID {C} _.
#[global] Arguments Parent {C} _.
#[global] Arguments Columns {C} _.
#[global] Arguments CreatedAt {C} _.
#[global] Arguments UpdatedAt {C} _.
#[global] Arguments DeletedAt {C} _.

Record RouteColumns := mkRoute {
  RouteName : string;
  Path : string;
  UpstreamID : option string;
  PolicyID : option string;
  MatchType : string;
  RouteEnabled : bool;
  Methods : list string;
}.

Record UpstreamColumns := mkUpstream {
  UpstreamName : string;
  TargetURL : string;
  Protocol : string;
  HealthPath : string;
  LBStrategy : string;
  UpstreamEnabled : bool;
}.

Record TargetColumns := mkTarget { PoolURL : string; Weight : Z; TargetEnabled : bool }.

Record PolicyColumns := mkPolicy {
  PolicyName : string;
  AuthRequired : bool;
  RateLimitRPM : Z;
  AllowedOrigins : list string;
  AllowedRoles : list string;
  AllowedScopes : list string;
  IPAllowlist : list string;
  IPBlocklist : list string;
}.

Record KeyColumns := mkKey {
  KeyName : string;
  KeyHash : string;
  KeyStatus : string;
  Roles : list string;
  Scopes : list string;
  ExpiresAt : option Z;
}.

Inductive json :=
| JString (s : string) | JInt (n : Z) | JBool (b : bool) | JNull
| JStrings (l : list string) | JTime (t : Z).

(** [audit_logs] is append-only: the row has no [updated_at] and no [deleted_at]. *)
Record AuditColumns := mkAudit {
  AdminUserID : option string;
  Action : string;
  EntityType : string;
  EntityID : string;
  EntityLabel : string;
  Changes : list (string * json);
  IPAddress : option string;
  Status : string;
}.

(** The columns of [admin_users] these queries read. *)
Record Account := mkAccount {
  AccountID : string;
  Username : string;
  Email : string;
  AccountActive : bool;
  AccountDeletedAt : option Z;
  SuperAdmin : bool;
}.

Record Project := mkProject {
  ProjectID : string;
  Name : string;
  Slug : string;
  Description : string;
  OwnerID : string;
  IsActive : bool;
  Plan : string;
  DashboardAllowedOrigins : list string;
  ProjectCreatedAt : Z;
  ProjectUpdatedAt : Z;
  ProjectDeletedAt : option Z;
}.

Record Member := mkMember {
  MemberProject : string;
  MemberUser : string;
  MemberRole : string;
  InvitedBy : option string;
  JoinedAt : Z;
}.

Record tenants := mkTenants {
  accounts : gmap string Account;
  projects : gmap string Project;
  members : gmap (string * string) Member;
  routes : gmap string (row RouteColumns);
  upstreams : gmap string (row UpstreamColumns);
  targets : gmap string (row TargetColumns);
  policies : gmap string (row PolicyColumns);
  api_keys : gmap string (row KeyColumns);
  gateways : gmap string (row unit);
  audit_logs : gmap string (row AuditColumns);
  jwt_configs : gmap string ProjectJWT.ProjectJWTConfig;   (* by project *)
}.

Definition set_projects m (t : tenants) : tenants :=
  mkTenants (accounts t) m (members t) (routes t) (upstreams t) (targets t) (policies t) (api_keys t) (gateways t)
    (audit_logs t) (jwt_configs t).
Definition set_members m (t : tenants) : tenants :=
  mkTenants (accounts t) (projects t) m (routes t) (upstreams t) (targets t) (policies t) (api_keys t) (gateways t)
    (audit_logs t) (jwt_configs t).
Definition set_routes m (t : tenants) : tenants :=
  mkTenants (accounts t) (projects t) (members t) m (upstreams t) (targets t) (policies t) (api_keys t) (gateways t)
    (audit_logs t) (jwt_configs t).
Definition set_upstreams m (t : tenants) : tenants :=
  mkTenants (accounts t) (projects t) (members t) (routes t) m (targets t) (policies t) (api_keys t) (gateways t)
    (audit_logs t) (jwt_configs t).
Definition set_targets m (t : tenants) : tenants :=
  mkTenants (accounts t) (projects t) (members t) (routes t) (upstreams t) m (policies t) (api_keys t) (gateways t)
    (audit_logs t) (jwt_configs t).
Definition set_policies m (t : tenants) : tenants :=
  mkTenants (accounts t) (projects t) (members t) (routes t) (upstreams t) (targets t) m (api_keys t) (gateways t)
    (audit_logs t) (jwt_configs t).
Definition set_keys m (t : tenants) : tenants :=
  mkTenants (accounts t) (projects t) (members t) (routes t) (upstreams t) (targets t) (policies t) m (gateways t)
    (audit_logs t) (jwt_configs t).
Definition set_gateways m (t : tenants) : tenants :=
  mkTenants (accounts t) (projects t) (members t) (routes t) (upstreams t) (targets t) (policies t) (api_keys t) m
    (audit_logs t) (jwt_configs t).
Definition set_audit m (t : tenants) : tenants :=
  mkTenants (accounts t) (projects t) (members t) (routes t) (upstreams t) (targets t) (policies t) (api_keys t)
    (gateways t) m (jwt_configs t).
Definition set_jwt m (t : tenants) : tenants :=
  mkTenants (accounts t) (projects t) (members t) (routes t) (upstreams t) (targets t) (policies t) (api_keys t)
    (gateways t) (audit_logs t) m.

(** ** Errors *)

Inductive error :=
| ErrDB
| ErrNoRows                      (* sql.ErrNoRows *)
| UniqueViolation                (* 23505 *)
| CheckViolation                 (* 23514 *)
| ForeignKeyViolation            (* 23503 *)
| InvalidText                    (* 22P02 *)
| OutOfRange                     (* 22003 *)
| NegativeOffset                 (* 2201X *)
| RowSecurity                    (* 42501 *)
| TxAborted                      (* 25P02 *)
| ErrNotFound | ErrForbidden | ErrAlreadyMember | ErrLastOwner | ErrIsProjectOwner
| ErrProjectNotFound | ErrSlugConflict | ErrTooManyOrigins
| ErrRouteNotFound | ErrRouteNameConflict
| ErrUpstreamNotFound | ErrUpstreamNameConflict | ErrUpstreamTargetNotFound
| ErrPolicyNotFound | ErrPolicyNameConflict | ErrPolicyInUse
| ErrAPIKeyNotFound | ErrAPIKeyRevoked
| ErrInvalidAuditLog | ErrPruneAge
| ErrProjectJWTConfigNotFound
(* of the services *)
| ErrInvalidMemberRole | ErrInvalidMatchType | ErrInvalidProtocol | ErrInvalidLBStrategy
| ErrNegativeRPM | ErrIPRule (field pattern : string) | ErrRand | ErrInvalidPage | ErrInvalidLimit
| ErrJWTConfig (e : ProjectJWT.config_error) | ErrSecrets (e : SecretManager.error).

#[global] Instance tenant_error_eq_dec : EqDecision error.
Proof. solve_decision. Defined.
#[global] Instance tenant_db_error : DBError error := ErrDB.
#[global] Instance tenant_tx_error : TxError error := TxAborted.

Definition isUniqueViolation (e : error) : bool := bool_decide (e = UniqueViolation).

Abbreviation action X := (Z → tenants → result error (tenants * X)).
Abbreviation A := (M tenants error).
Abbreviation T := (M (tenants * bool) error).

(** ** The enumerated types and checks of the columns *)

Definition one_of (l : list string) (s : string) : bool := existsb (String.eqb s) l.

Definition member_role : string → bool := one_of ["owner"; "editor"; "viewer"].
Definition http_method : string → bool :=
  one_of ["GET"; "POST"; "PUT"; "PATCH"; "DELETE"; "HEAD"; "OPTIONS"; "ANY"].
Definition lb_strategy : string → bool := one_of ["round_robin"; "least_conn"].
Definition audit_action : string → bool :=
  one_of ["route.create"; "route.update"; "route.delete"; "upstream.create"; "upstream.update"; "upstream.delete";
    "policy.create"; "policy.update"; "policy.delete"; "api_key.create"; "api_key.revoke";
    "member.invite"; "member.remove"; "member.role_change";
    "project.create"; "project.update"; "project.delete"; "consumer.create"; "consumer.delete"].
Definition int4 (n : Z) : bool := (-2 ^ 31 <=? n)%Z && (n <? 2 ^ 31)%Z.

(** ** A table of resources *)

Class Resource (C : Type) := {
  table : tenants → gmap string (row C);
  set_table : gmap string (row C) → tenants → tenants;
  secured : bool;                                   (* ENABLE ROW LEVEL SECURITY *)
  unique_name : C → option string;                  (* UNIQUE (project_id, name) *)
  column_checks : C → bool;
  references : tenants → row C → bool;              (* the foreign keys *)
}.

Definition exists_project (t : tenants) (p : string) : bool := bool_decide (is_Some (projects t !! p)).
Definition exists_ref {V} (m : gmap string V) (o : option string) : bool :=
  match o with Some id => bool_decide (is_Some (m !! id)) | None => true end.

#[global] Instance route_resource : Resource RouteColumns := {
  table := routes; set_table := set_routes; secured := true;
  unique_name c := Some (RouteName c);
  column_checks c := one_of ["exact"; "prefix"] (MatchType c);
  references t x := exists_project t (Parent x) && exists_ref (upstreams t) (UpstreamID (Columns x)) &&
    exists_ref (policies t) (PolicyID (Columns x));
}.
#[global] Instance upstream_resource : Resource UpstreamColumns := {
  table := upstreams; set_table := set_upstreams; secured := true;
  unique_name c := Some (UpstreamName c);
  column_checks c := one_of ["http"; "grpc"] (Protocol c);
  references t x := exists_project t (Parent x);
}.
(** No policy of row-level security covers [upstream_targets]. *)
#[global] Instance target_resource : Resource TargetColumns := {
  table := targets; set_table := set_targets; secured := false;
  unique_name c := Some (PoolURL c);
  column_checks c := (0 <? Weight c)%Z;
  references t x := exists_ref (upstreams t) (Some (Parent x));
}.
#[global] Instance policy_resource : Resource PolicyColumns := {
  table := policies; set_table := set_policies; secured := true;
  unique_name c := Some (PolicyName c);
  column_checks c := true;
  references t x := exists_project t (Parent x);
}.
(** An index on [key_hash], but no constraint. *)
#[global] Instance key_resource : Resource KeyColumns := {
  table := api_keys; set_table := set_keys; secured := true;
  unique_name c := None;
  column_checks c := true;
  references t x := exists_project t (Parent x);
}.
#[global] Instance gateway_resource : Resource unit := {
  table := gateways; set_table := set_gateways; secured := true;
  unique_name c := None;
  column_checks c := true;
  references t x := exists_project t (Parent x);
}.
#[global] Instance audit_resource : Resource AuditColumns := {
  table := audit_logs; set_table := set_audit; secured := true;
  unique_name c := None;
  column_checks c := true;
  references t x := exists_project t (Parent x) && exists_ref (accounts t) (AdminUserID (Columns x));
}.

Section statements.
Context {DB : Database}.

(** [current_project_id()]: NULL outside a transaction that has set it. *)
Abbreviation session := (option string).

Section resource.
Context {C : Type} {R : Resource C}.

Definition visible (s : session) (x : row C) : bool :=
  negb secured || negb row_security || match s with Some p => String.eqb (Parent x) p | None => true end.

Definition live (x : row C) : bool := bool_decide (DeletedAt x = None).
Definition of_parent (p : string) (x : row C) : bool := String.eqb (Parent x) p.

(** The rows a SELECT finds, in the order of the scan. *)
Definition select (s : session) (P : row C → bool) (t : tenants) : list (row C) :=
  scan (rows (filter (λ '(_, x), visible s x && P x = true) (table t))).
Definition count_rows (s : session) (P : row C → bool) (t : tenants) : nat := length (select s P t).

(** WHERE id = $1 AND project_id = $2 AND deleted_at IS NULL. *)
Definition select_one (s : session) (id p : string) (t : tenants) : option (row C) :=
  match table t !! id with
  | Some x => if visible s x && of_parent p x && live x then Some x else None
  | None => None
  end.

Definition clash (x y : row C) : bool :=
  negb (String.eqb (ID x) (ID y)) && String.eqb (Parent x) (Parent y) &&
  match unique_name (Columns x), unique_name (Columns y) with
  | Some n, Some n' => String.eqb n n'
  | _, _ => false
  end.

(** Checks first, then the unique constraints, then the foreign keys. *)
Definition refused (t : tenants) (x : row C) : option error :=
  if negb (column_checks (Columns x)) then Some CheckViolation
  else if existsb (clash x) (rows (table t)) then Some UniqueViolation
  else if negb (references t x) then Some ForeignKeyViolation
  else None.

Definition store_row (id : string) (x : row C) (t : tenants) : tenants := set_table (<[id := x]> (table t)) t.

(** INSERT; the primary key is what [gen_random_uuid()] yields. *)
Definition insert_row (s : session) (id p : string) (c : C) : action (row C) := λ now t,
  let x := mkRow id p c now now None in
  if negb (visible s x) then Err RowSecurity
  else if bool_decide (is_Some (table t !! id)) then Err UniqueViolation
  else match refused t x with Some e => Err e | None => Ok (store_row id x t, x) end.

(** UPDATE ... WHERE id = $1 AND project_id = $2 AND deleted_at IS NULL RETURNING,
    scanned: no row is [sql.ErrNoRows]. *)
Definition update_row (s : session) (id p : string) (f : C → C) : action (row C) := λ now t,
  match select_one s id p t with
  | None => Err ErrNoRows
  | Some x =>
      let y := mkRow (ID x) (Parent x) (f (Columns x)) (CreatedAt x) now (DeletedAt x) in
      match refused t y with Some e => Err e | None => Ok (store_row id y t, y) end
  end.

(** UPDATE of columns without constraints over the rows that satisfy [P]; the
    number of rows. *)
Definition update_rows (s : session) (P : row C → bool) (f : Z → row C → row C) : action nat := λ now t,
  let q x := visible s x && P x in
  Ok (set_table (update_where q (f now) (table t)) t, count_where q (table t)).

Definition edit (f : C → C) (now : Z) (x : row C) : row C :=
  mkRow (ID x) (Parent x) (f (Columns x)) (CreatedAt x) now (DeletedAt x).
Definition soft_delete (now : Z) (x : row C) : row C :=
  mkRow (ID x) (Parent x) (Columns x) (CreatedAt x) now (Some now).

(** WHERE id = $1 AND project_id = $2 AND deleted_at IS NULL, as a test. *)
Definition this (id p : string) (x : row C) : bool := String.eqb (ID x) id && of_parent p x && live x.

End resource.

(** A parameter is converted to the type of its column first. *)
Definition typed {X Y} (x : option X) (k : X → action Y) : action Y :=
  match x with Some x => k x | None => λ _ _, Err InvalidText end.

Definition read {X} (f : tenants → option X) : action X :=
  λ _ t, match f t with Some x => Ok (t, x) | None => Err ErrNoRows end.
Definition look {X} (f : tenants → X) : action X := λ _ t, Ok (t, f t).

(** ORDER BY; [None] as LIMIT: all rows. *)
Definition order_by {V} (before : V → V → bool) (l : list V) : list V :=
  @merge_sort V (λ x y, before x y = true) (λ x y, bool_eq_dec (before x y) true) l.

Definition page_of {V} (limit offset : Z) (l : list V) : result error (list V) :=
  if (limit <=? 0)%Z then Ok l
  else if (offset <? 0)%Z then Err NegativeOffset
  else Ok (take (Z.to_nat limit) (drop (Z.to_nat (Z.min offset (Z.of_nat (length l)))) l)).

(** SELECT COUNT, then SELECT ... LIMIT OFFSET. *)
Definition page_action {V} (limit offset : Z) (l : tenants → list V) : action (list V) := λ _ t,
  match page_of limit offset (l t) with Ok vs => Ok (t, vs) | Err e => Err e end.

End statements.

End TenantTables.
