(* ===== verification/TenantRepo.v ===== *)
(** * Tenants: the repositories

    [src/internal/storage/tenant.go], [project_repo.go], [route_repo.go],
    [upstream_repo.go], [upstream_target_repo.go], [policy_repo.go],
    [api_key_repo.go] and [audit_log_repo.go] over [TenantTables].  A method of a
    tenant takes the [TenantContext] the request's context carries and runs in a
    transaction whose session names the project.  The methods of
    [MembershipRepo] that run several statements without a transaction are given
    here statement by statement. *)

From stdpp Require Import gmap sorting.
From S2P Require Import Prelude GoStrings Store Transactions Model AdminRepo Auth TenantTables.

Module TenantRepo.
Export TenantTables.
#[local] Open Scope store_scope.

Record TenantContext := mkTenant { TenantProject : string; TenantUser : string; UserRole : string }.

Section repositories.
Context {DB : Database}.

(** [withTenantTx]: the session is set by the first statement of the transaction. *)
Definition withTenantTx {X} (ctx : option TenantContext) (fn : TenantContext → option string → T X) : A X :=
  match ctx with
  | None => mfail ErrForbidden
  | Some tc =>
      with_tx (let* _ := tx_stmt (λ _ t, Ok (t, ())) in fn tc (Some (TenantProject tc)))
  end.

(** The error a method puts in the place of another. *)
Definition map_err {S X} (f : error → error) (m : M S error X) : M S error X := λ d,
  match m d with (d, Ok x) => (d, Ok x) | (d, Err e) => (d, Err (f e)) end.

Definition instead (e e' : error) : error → error := λ x, if bool_decide (x = e) then e' else x.

(** UPDATE whose result is only whether a row was affected. *)
Definition affects (notFound : error) (f : action nat) : T unit :=
  let* n := tx_stmt f in if (n =? 0)%nat then mfail notFound else mret ().

(** ** [MembershipRepo]: statements *)

Definition account_ok (a : Account) : bool := AccountActive a && bool_decide (AccountDeletedAt a = None).
Definition project_live (p : Project) : bool := bool_decide (ProjectDeletedAt p = None).

(** The role of the membership, if project and account are live. *)
Definition valid_membership (projectID userID : string) (t : tenants) : option string :=
  match members t !! (projectID, userID), projects t !! projectID, accounts t !! userID with
  | Some m, Some p, Some a => if project_live p && account_ok a then Some (MemberRole m) else None
  | _, _, _ => None
  end.

Definition ValidateMembership (projectID userID : string) : A string :=
  map_err (instead ErrNoRows ErrForbidden) (stmt (read (valid_membership projectID userID))).

Definition role_of (projectID userID : string) (t : tenants) : option string :=
  MemberRole <$> members t !! (projectID, userID).

Definition SelectMember (projectID userID : string) : A string := stmt (read (role_of projectID userID)).

Definition insert_member (projectID userID role : string) (invitedBy : option string) : action unit := λ now t,
  if negb (member_role role) then Err InvalidText
  else if bool_decide (is_Some (members t !! (projectID, userID))) then Err UniqueViolation
  else if negb (exists_project t projectID && exists_ref (accounts t) (Some userID) && exists_ref (accounts t) invitedBy)
  then Err ForeignKeyViolation
  else Ok (set_members (<[(projectID, userID) := mkMember projectID userID role invitedBy now]> (members t)) t, ()).

Definition InsertMember (projectID userID role inviterID : string) : A unit :=
  stmt (insert_member projectID userID role (Some inviterID)).

Definition is_owner (m : Member) : bool := String.eqb (MemberRole m) "owner".
Definition memberships (projectID : string) (t : tenants) : gmap (string * string) Member :=
  filter (λ '(k, _), k.1 = projectID) (members t).
Definition owners (projectID : string) (t : tenants) : nat :=
  size (filter (λ '(_, m), is_owner m = true) (memberships projectID t)).
Definition CountOwners (projectID : string) : A nat := stmt (look (owners projectID)).

Definition with_role (role : string) (m : Member) : Member :=
  mkMember (MemberProject m) (MemberUser m) role (InvitedBy m) (JoinedAt m).
Definition SetRole (projectID userID role : string) : A nat :=
  stmt (λ _ t,
    if negb (member_role role) then Err InvalidText
    else match members t !! (projectID, userID) with
         | Some m => Ok (set_members (<[(projectID, userID) := with_role role m]> (members t)) t, 1)
         | None => Ok (t, 0)
         end).

Definition SelectProjectOwner (projectID : string) : A string :=
  stmt (read (λ t, OwnerID <$> projects t !! projectID)).
Definition DeleteMember (projectID userID : string) : A nat :=
  stmt (λ _ t,
    match members t !! (projectID, userID) with
    | Some _ => Ok (set_members (delete (projectID, userID) (members t)) t, 1)
    | None => Ok (t, 0)
    end).

Record ProjectMember := mkProjectMember {
  PMProject : string; PMUser : string; PMUsername : string; PMEmail : string; PMRole : string; PMJoinedAt : Z }.

(** The members whose accounts are not deleted, in the order they joined. *)
Definition member_view (t : tenants) (m : Member) : option ProjectMember :=
  match accounts t !! MemberUser m with
  | Some a => if bool_decide (AccountDeletedAt a = None)
              then Some (mkProjectMember (MemberProject m) (MemberUser m) (Username a) (Email a) (MemberRole m) (JoinedAt m))
              else None
  | None => None
  end.
Definition member_list (projectID : string) (t : tenants) : list ProjectMember :=
  order_by (λ x y, PMJoinedAt x <=? PMJoinedAt y)%Z
    (scan (omap (member_view t) (rows (memberships projectID t)))).

Definition ListMembers (projectID : string) (limit offset : Z) : A (list ProjectMember * nat) :=
  let* total := stmt (look (λ t, length (member_list projectID t))) in
  let* ms := stmt (page_action limit offset (member_list projectID)) in
  mret (ms, total).

Record MemberLookupResult := mkLookup { LookupID : string; LookupUsername : string; LookupEmail : string }.

(** [email] is CITEXT. *)
Definition FindUserByEmail (email : string) : A MemberLookupResult :=
  stmt (read (λ t,
    (λ a, mkLookup (AccountID a) (Username a) (Email a)) <$>
      find_first (λ a, AdminRepo.same_email (Email a) email && account_ok a) (rows (accounts t)))).

(** ** [ProjectRepo] *)

Definition insert_project (p : Project) : action Project := λ _ t,
  if negb (AdminRepo.slug_format (Slug p)) then Err CheckViolation
  else if bool_decide (is_Some (projects t !! ProjectID p)) then Err UniqueViolation
  else if existsb (λ q, String.eqb (Slug q) (Slug p) && project_live q) (rows (projects t)) then Err UniqueViolation
  else if negb (exists_ref (accounts t) (Some (OwnerID p))) then Err ForeignKeyViolation
  else Ok (set_projects (<[ProjectID p := p]> (projects t)) t, p).

(** What the constraints of [projects] ask of a row: the CHECKs on the slug and on
    the number of origins, and the unique index on the slugs of live projects. *)
Definition project_checks (p : Project) : bool :=
  AdminRepo.slug_format (Slug p) && (length (DashboardAllowedOrigins p) <=? 10)%nat.
Definition slug_free (t : tenants) (p : Project) : Prop :=
  ∀ q r, projects t !! q = Some r → project_live r = true → Slug r = Slug p → q = ProjectID p.

Definition ProjectCreate (newID name slug description ownerID plan : string) : A Project :=
  with_tx (
    let* p := map_err (instead UniqueViolation ErrSlugConflict)
      (tx_stmt (typed (uuid_in ownerID) (λ owner now,
         insert_project (mkProject newID name slug description owner true plan [] now now None) now))) in
    let* _ := tx_stmt (insert_member (ProjectID p) (OwnerID p) "owner" None) in
    mret p).

Definition user_projects (userID : string) (t : tenants) : list (Project * string) :=
  order_by (λ x y, text_le (Name x.1) (Name y.1))
    (scan (omap (λ m,
       match projects t !! MemberProject m with
       | Some p => if project_live p then Some (p, MemberRole m) else None
       | None => None
       end) (rows (filter (λ '(k, _), k.2 = userID) (members t))))).

Definition ListForUser (userID : string) (limit offset : Z) : A (list (Project * string) * nat) :=
  let* total := stmt (typed (uuid_in userID) (λ u, look (λ t, length (user_projects u t)))) in
  let* ps := stmt (typed (uuid_in userID) (λ u, page_action limit offset (user_projects u))) in
  mret (ps, total).

(** UPDATE projects SET ... WHERE id = $1 AND deleted_at IS NULL: the row, if
    there is one.  A trigger sets [updated_at]. *)
Definition update_project (id : string) (f : Project → Project) : action (option Project) :=
  typed (uuid_in id) (λ id now t,
    match projects t !! id with
    | Some p =>
        if project_live p then
          let q := f p in
          let q := mkProject (ProjectID q) (Name q) (Slug q) (Description q) (OwnerID q) (IsActive q) (Plan q)
                     (DashboardAllowedOrigins q) (ProjectCreatedAt q) now (ProjectDeletedAt q) in
          Ok (set_projects (<[id := q]> (projects t)) t, Some q)
        else Ok (t, None)
    | None => Ok (t, None)
    end).

Definition project_or {S X} (e : error) (o : option X) : M S error X :=
  match o with Some x => mret x | None => mfail e end.

Definition with_details (name description plan : string) (p : Project) : Project :=
  mkProject (ProjectID p) name (Slug p) description (OwnerID p) (IsActive p) plan
    (DashboardAllowedOrigins p) (ProjectCreatedAt p) (ProjectUpdatedAt p) (ProjectDeletedAt p).
Definition with_active (b : bool) (p : Project) : Project :=
  mkProject (ProjectID p) (Name p) (Slug p) (Description p) (OwnerID p) b (Plan p)
    (DashboardAllowedOrigins p) (ProjectCreatedAt p) (ProjectUpdatedAt p) (ProjectDeletedAt p).
Definition with_origins (origins : list string) (p : Project) : Project :=
  mkProject (ProjectID p) (Name p) (Slug p) (Description p) (OwnerID p) (IsActive p) (Plan p)
    origins (ProjectCreatedAt p) (ProjectUpdatedAt p) (ProjectDeletedAt p).
Definition deleted_project (now : Z) (p : Project) : Project :=
  mkProject (ProjectID p) (Name p) (Slug p) (Description p) (OwnerID p) (IsActive p) (Plan p)
    (DashboardAllowedOrigins p) (ProjectCreatedAt p) (ProjectUpdatedAt p) (Some now).

Definition ProjectUpdate (id name description plan : string) : A Z :=
  let* o := stmt (update_project id (with_details name description plan)) in
  let* p := project_or ErrProjectNotFound o in mret (ProjectUpdatedAt p).

Definition all_projects (t : tenants) : list Project :=
  order_by (λ x y, ProjectCreatedAt y <=? ProjectCreatedAt x)%Z
    (scan (filter (λ p, project_live p = true) (rows (projects t)))).
Definition ListAllGlobal (limit offset : Z) : A (list Project * nat) :=
  let* total := stmt (look (λ t, length (all_projects t))) in
  let* ps := stmt (page_action limit offset all_projects) in
  mret (ps, total).

(** Soft deletion of a project's resources of one kind, without a session. *)
Definition delete_of {C} `{!Resource C} (id : string) (f : Z → row C → row C) : action nat :=
  typed (uuid_in id) (λ p, update_rows None (λ x, of_parent p x && live x) f).

Definition revoked (c : KeyColumns) : KeyColumns :=
  mkKey (KeyName c) (KeyHash c) "revoked" (Roles c) (Scopes c) (ExpiresAt c).
Definition revoke (now : Z) (x : row KeyColumns) : row KeyColumns := soft_delete now (edit revoked now x).

Definition ProjectDelete (id : string) : A unit :=
  with_tx (
    let* _ := tx_stmt (delete_of id revoke) in
    let* _ := tx_stmt (delete_of (C := RouteColumns) id soft_delete) in
    let* _ := tx_stmt (delete_of (C := UpstreamColumns) id soft_delete) in
    let* o := tx_stmt (λ now, update_project id (deleted_project now) now) in
    let* _ := project_or ErrProjectNotFound o in mret ()).

Record ProjectCounts := mkCounts { CountActive : nat; CountSuspended : nat; CountTotal : nat }.
Definition live_projects (P : Project → bool) (t : tenants) : nat :=
  length (filter (λ p, project_live p && P p = true) (rows (projects t))).
Definition GlobalCounts : A ProjectCounts :=
  stmt (look (λ t, mkCounts (live_projects IsActive t) (live_projects (λ p, negb (IsActive p)) t)
    (live_projects (λ _, true) t))).

Definition active_key (x : row KeyColumns) : bool := live x && String.eqb (KeyStatus (Columns x)) "active".

Definition PlatformMetricsSnapshot : A (list (string * nat)) :=
  stmt (look (λ t,
    [("total_tenants", live_projects (λ _, true) t);
     ("total_routes", count_rows (C := RouteColumns) None live t);
     ("total_upstreams", count_rows (C := UpstreamColumns) None live t);
     ("active_api_keys", count_rows None active_key t);
     ("revoked_api_keys", count_rows None (λ x, String.eqb (KeyStatus (Columns x)) "revoked") t);
     ("total_admin_users", size (accounts t))])).

Definition Suspend (projectID : string) : A unit :=
  let* o := stmt (update_project projectID (with_active false)) in
  let* _ := project_or ErrProjectNotFound o in mret ().
Definition Reactivate (projectID : string) : A unit :=
  let* o := stmt (update_project projectID (with_active true)) in
  let* _ := project_or ErrProjectNotFound o in mret ().

Definition live_project (projectID : string) (t : tenants) : option Project :=
  match projects t !! projectID with
  | Some p => if project_live p then Some p else None
  | None => None
  end.

Definition ProjectIsActive (projectID : string) : A bool :=
  map_err (instead ErrNoRows ErrProjectNotFound)
    (stmt (typed (uuid_in projectID) (λ p, read (λ t, IsActive <$> live_project p t)))).

Record ProjectSummaryMetrics := mkMetrics {
  TotalGateways : nat; TotalRoutes : nat; EnabledRoutes : nat; TotalUpstreams : nat; EnabledUpstreams : nat;
  TotalPolicies : nat; TotalAPIKeys : nat; ActiveAPIKeys : nat; TotalMembers : nat; TotalAuditLogs4d : nat }.
Record ProjectSummary := mkSummary {
  SummaryProject : Project;
  Metrics : ProjectSummaryMetrics;
  SummaryRole : string;
  SummaryPlan : option string;
  Subscription : option (string * string);      (* plan, status *)
}.

Definition day : Z := 24 * 60 * minute.

(** Only the membership count names the project: the others rely on row-level
    security. *)
Definition summary_metrics (s : option string) (p : string) (now : Z) (t : tenants) : ProjectSummaryMetrics :=
  mkMetrics
    (count_rows (C := unit) s live t)
    (count_rows (C := RouteColumns) s live t)
    (count_rows s (λ x, live x && RouteEnabled (Columns x)) t)
    (count_rows (C := UpstreamColumns) s live t)
    (count_rows s (λ x, live x && UpstreamEnabled (Columns x)) t)
    (count_rows (C := PolicyColumns) s live t)
    (count_rows (C := KeyColumns) s live t)
    (count_rows s active_key t)
    (length (member_list p t))
    (count_rows (C := AuditColumns) s (λ x, now - 4 * day <=? CreatedAt x)%Z t).

Definition GetSummary (ctx : option TenantContext) : A ProjectSummary :=
  map_err (instead ErrNoRows ErrProjectNotFound)
    (withTenantTx ctx (λ tc s,
      tx_stmt (λ now, read (λ t,
        (λ p, mkSummary p (summary_metrics s (TenantProject tc) now t) "" (Some (Plan p)) None) <$>
          live_project (TenantProject tc) t) now))).

Definition GetDashboardOrigins (projectID : string) : A (list string) :=
  stmt (typed (uuid_in projectID) (λ p, read (λ t, DashboardAllowedOrigins <$> live_project p t))).

Definition UpdateDashboardOrigins (projectID : string) (origins : list string) : A unit :=
  if (10 <? length origins)%nat then mfail ErrTooManyOrigins
  else
    let* o := stmt (update_project projectID (with_origins origins)) in
    let* _ := project_or ErrNoRows o in mret ().

End repositories.
End TenantRepo.
