(* ===== verification/TenantResources.v ===== *)
(** * Tenants: the repositories of resources

    [src/internal/storage/route_repo.go], [upstream_repo.go],
    [upstream_target_repo.go], [policy_repo.go], [api_key_repo.go],
    [audit_log_repo.go] and [project_jwt_config_repo.go]. *)

From stdpp Require Import gmap sorting.
From S2P Require Import Prelude GoStrings Store Transactions Model Auth TenantTables TenantRepo.
From S2P Require Import ProjectJWT.

Module TenantResources.
Export TenantRepo.
#[local] Open Scope store_scope.

Section resources.
Context {DB : Database}.

Definition live_in {C} (p : string) (x : row C) : bool := of_parent p x && live x.

(** ** What the methods of the resources share *)

(** SELECT COUNT and SELECT ... ORDER BY ... LIMIT, in one transaction. *)
Definition list_tx {V} (limit offset : Z) (l : tenants → list V) : T (list V * nat) :=
  let* total := tx_stmt (look (λ t, length (l t))) in
  let* vs := tx_stmt (page_action limit offset l) in
  mret (vs, total).

(** UPDATE one live row of the project. *)
Definition update_this {C} `{!Resource C} (s : option string) (notFound : error) (id p : string)
    (f : Z → row C → row C) : T unit :=
  affects notFound (typed (uuid_in id) (λ id, update_rows s (this id p) f)).

(** A parameter of type [INT]. *)
Definition ranged {X} (n : Z) (f : action X) : action X := if int4 n then f else λ _ _, Err OutOfRange.

(** ** [RouteRepo] *)

Definition joined {C} `{!Resource C} (s : option string) (t : tenants) (id : option string) : option (row C) :=
  match id with
  | Some id => match table t !! id with Some x => if visible s x && live x then Some x else None | None => None end
  | None => None
  end.

(** [listQuery], scanned: the left joins see the upstream and the policy that the
    session sees and that are not deleted. *)
Definition route_view (s : option string) (t : tenants) (x : row RouteColumns) : Route.t :=
  let c := Columns x in
  let u := joined (C := UpstreamColumns) s t (UpstreamID c) in
  let p := joined (C := PolicyColumns) s t (PolicyID c) in
  let get {X} (f : PolicyColumns → X) (d : X) := match p with Some y => f (Columns y) | None => d end in
  Route.mk (ID x) (Parent x) (RouteName c) (Path c) (UpstreamID c)
    (match u with Some y => TargetURL (Columns y) | None => "" end)
    (Methods c)
    (match u with Some y => Protocol (Columns y) | None => "http" end)
    (MatchType c) (RouteEnabled c) (PolicyID c)
    (get AuthRequired false) (get RateLimitRPM 0%Z)
    (get AllowedOrigins []) (get AllowedRoles []) (get AllowedScopes [])
    (get IPAllowlist []) (get IPBlocklist []) (CreatedAt x) (UpdatedAt x).

Definition by_length (x y : Route.t) : bool := (len (Route.Path y) <=? len (Route.Path x))%nat.
Definition by_path (x y : Route.t) : bool := text_le (Route.Path x) (Route.Path y).

Definition route_list (s : option string) (before : Route.t → Route.t → bool) (P : row RouteColumns → bool)
    (t : tenants) : list Route.t := order_by before (route_view s t <$> select s P t).

Definition enabled_route (x : row RouteColumns) : bool := RouteEnabled (Columns x) && live x.

Definition ListEnabled (ctx : option TenantContext) : A (list Route.t) :=
  match ctx with
  | None => stmt (look (route_list None by_length enabled_route))
  | Some tc => withTenantTx ctx (λ tc s,
      tx_stmt (look (route_list s by_length (λ x, of_parent (TenantProject tc) x && enabled_route x))))
  end.

Definition RouteGetByID (ctx : option TenantContext) (id : string) : A Route.t :=
  map_err (instead ErrNoRows ErrRouteNotFound)
    (withTenantTx ctx (λ tc s,
      tx_stmt (typed (uuid_in id) (λ id, read (λ t, route_view s t <$> select_one s id (TenantProject tc) t))))).

Definition RouteListAll (ctx : option TenantContext) (limit offset : Z) : A (list Route.t * nat) :=
  match ctx with
  | None =>
      let l := route_list None by_path live in
      let* total := stmt (look (λ t, length (l t))) in
      let* rs := stmt (page_action limit offset l) in mret (rs, total)
  | Some _ => withTenantTx ctx (λ tc s, list_tx limit offset (route_list s by_path (live_in (TenantProject tc))))
  end.

Record RouteInput := mkRouteInput {
  InName : string; InPath : string; InUpstreamID : option string; InPolicyID : option string;
  InMatchType : string; InEnabled : bool; InMethods : list string }.

(** The parameters of INSERT and UPDATE, converted. *)
Definition uuid_opt (o : option string) : option (option string) :=
  match o with None => Some None | Some s => Some <$> uuid_in s end.
Definition route_columns (i : RouteInput) : option RouteColumns :=
  match uuid_opt (InUpstreamID i), uuid_opt (InPolicyID i) with
  | Some u, Some p =>
      if forallb http_method (InMethods i)
      then Some (mkRoute (InName i) (InPath i) u p (InMatchType i) (InEnabled i) (InMethods i)) else None
  | _, _ => None
  end.

Definition named (generated : string) (i : RouteInput) : RouteInput :=
  if String.eqb (InName i) ""
  then mkRouteInput ("route_" +:+ stake 8 generated) (InPath i) (InUpstreamID i) (InPolicyID i) (InMatchType i)
         (InEnabled i) (InMethods i)
  else i.

Definition RouteCreate (newID generated : string) (ctx : option TenantContext) (rt : RouteInput)
    : A (row RouteColumns) :=
  withTenantTx ctx (λ tc s,
    map_err (instead UniqueViolation ErrRouteNameConflict)
      (tx_stmt (typed (route_columns (named generated rt)) (insert_row s newID (TenantProject tc))))).

Definition RouteUpdate (ctx : option TenantContext) (id : string) (rt : RouteInput) : A (row RouteColumns) :=
  withTenantTx ctx (λ tc s,
    map_err (instead ErrNoRows ErrRouteNotFound)
      (tx_stmt (typed (uuid_in id) (λ id, typed (route_columns rt) (λ c,
         update_row s id (TenantProject tc) (λ _, c)))))).

(** Sets [deleted_at] only. *)
Definition RouteDelete (ctx : option TenantContext) (id : string) : A unit :=
  withTenantTx ctx (λ tc s, update_this s ErrRouteNotFound id (TenantProject tc)
    (λ now (x : row RouteColumns), mkRow (ID x) (Parent x) (Columns x) (CreatedAt x) (UpdatedAt x) (Some now))).

Definition enabled (b : bool) (c : RouteColumns) : RouteColumns :=
  mkRoute (RouteName c) (Path c) (UpstreamID c) (PolicyID c) (MatchType c) b (Methods c).
Definition with_policy (p : option string) (c : RouteColumns) : RouteColumns :=
  mkRoute (RouteName c) (Path c) (UpstreamID c) p (MatchType c) (RouteEnabled c) (Methods c).
Definition without_upstream (c : RouteColumns) : RouteColumns :=
  mkRoute (RouteName c) (Path c) None (PolicyID c) (MatchType c) (RouteEnabled c) (Methods c).

Definition RouteDisable (ctx : option TenantContext) (id : string) : A unit :=
  withTenantTx ctx (λ tc s, update_this s ErrRouteNotFound id (TenantProject tc) (edit (enabled false))).
Definition RouteEnable (ctx : option TenantContext) (id : string) : A unit :=
  withTenantTx ctx (λ tc s, update_this s ErrRouteNotFound id (TenantProject tc) (edit (enabled true))).

Definition AssignPolicy (ctx : option TenantContext) (routeID policyID : string) : A unit :=
  withTenantTx ctx (λ tc s,
    let* pCount := tx_stmt (typed (uuid_in policyID) (λ p, look (λ t,
      count_rows (C := PolicyColumns) s (this p (TenantProject tc)) t))) in
    if (pCount =? 0)%nat then mfail ErrPolicyNotFound
    else affects ErrRouteNotFound (typed (uuid_in policyID) (λ p, typed (uuid_in routeID) (λ id,
      update_rows s (this id (TenantProject tc)) (edit (with_policy (Some p))))))).

Definition RemovePolicy (ctx : option TenantContext) (routeID : string) : A unit :=
  withTenantTx ctx (λ tc s, update_this s ErrRouteNotFound routeID (TenantProject tc) (edit (with_policy None))).

(** ** [UpstreamRepo] *)

Definition upstream_columns (c : UpstreamColumns) : option UpstreamColumns :=
  if lb_strategy (LBStrategy c) then Some c else None.

Definition UpstreamCreate (newID : string) (ctx : option TenantContext) (u : UpstreamColumns)
    : A (row UpstreamColumns) :=
  withTenantTx ctx (λ tc s,
    map_err (instead UniqueViolation ErrUpstreamNameConflict)
      (tx_stmt (typed (upstream_columns u) (insert_row s newID (TenantProject tc))))).

Definition UpstreamGetByID (ctx : option TenantContext) (id : string) : A (row UpstreamColumns) :=
  map_err (instead ErrNoRows ErrUpstreamNotFound)
    (withTenantTx ctx (λ tc s,
      tx_stmt (typed (uuid_in id) (λ id, read (select_one s id (TenantProject tc)))))).

Definition by_upstream_name (x y : row UpstreamColumns) : bool :=
  text_le (UpstreamName (Columns x)) (UpstreamName (Columns y)).

Definition UpstreamListEnabledGlobal : A (list (row UpstreamColumns)) :=
  stmt (look (λ t, order_by by_upstream_name (select None (λ x, UpstreamEnabled (Columns x) && live x) t))).

Definition upstream_list (s : option string) (p : string) (t : tenants) : list (row UpstreamColumns) :=
  order_by by_upstream_name (select s (live_in p) t).
Definition UpstreamListAll (ctx : option TenantContext) (limit offset : Z) : A (list (row UpstreamColumns) * nat) :=
  withTenantTx ctx (λ tc s, list_tx limit offset (upstream_list s (TenantProject tc))).

Definition UpstreamUpdate (ctx : option TenantContext) (id : string) (u : UpstreamColumns)
    : A (row UpstreamColumns) :=
  map_err (instead ErrNoRows ErrUpstreamNotFound)
    (withTenantTx ctx (λ tc s,
      tx_stmt (typed (uuid_in id) (λ id, typed (upstream_columns u) (λ c,
        update_row s id (TenantProject tc) (λ _, c)))))).

Definition upstream_off (c : UpstreamColumns) : UpstreamColumns :=
  mkUpstream (UpstreamName c) (TargetURL c) (Protocol c) (HealthPath c) (LBStrategy c) false.
Definition UpstreamDisable (ctx : option TenantContext) (id : string) : A unit :=
  withTenantTx ctx (λ tc s, update_this s ErrUpstreamNotFound id (TenantProject tc) (edit upstream_off)).

(** The routes of the project lose the upstream, its targets are deleted. *)
Definition UpstreamDelete (ctx : option TenantContext) (id : string) : A unit :=
  withTenantTx ctx (λ tc s,
    let* _ := update_this (C := UpstreamColumns) s ErrUpstreamNotFound id (TenantProject tc) soft_delete in
    let* _ := tx_stmt (typed (uuid_in id) (λ u, update_rows s
      (λ x, bool_decide (UpstreamID (Columns x) = Some u) && live_in (TenantProject tc) x) (edit without_upstream))) in
    let* _ := tx_stmt (typed (uuid_in id) (λ u, update_rows (C := TargetColumns) s (live_in u) soft_delete)) in
    mret ()).

(** ** [UpstreamTargetRepo] *)

Definition TargetAdd (newID : string) (ctx : option TenantContext) (upstreamID : string) (c : TargetColumns)
    : A (row TargetColumns) :=
  withTenantTx ctx (λ tc s,
    tx_stmt (typed (uuid_in upstreamID) (λ u,
      ranged (Weight c) (insert_row s newID u c)))).

Definition by_creation {C} (x y : row C) : bool := (CreatedAt x <=? CreatedAt y)%Z.

(** The inner join hides the targets of upstreams that the session does not see. *)
Definition target_list (s : option string) (u : string) (t : tenants) : list (row TargetColumns) :=
  match joined (C := UpstreamColumns) s t (Some u) with
  | Some _ => order_by by_creation (select s (live_in u) t)
  | None => []
  end.
Definition ListByUpstream (ctx : option TenantContext) (upstreamID : string) : A (list (row TargetColumns)) :=
  withTenantTx ctx (λ tc s, tx_stmt (typed (uuid_in upstreamID) (λ u, look (target_list s u)))).

(** Per upstream the enabled targets, by age. *)
Definition enabled_targets (t : tenants) : gmap string (list (row TargetColumns)) :=
  let pool u := order_by by_creation (select None (λ x, live_in u x && TargetEnabled (Columns x)) t) in
  filter (λ '(_, l), l ≠ []) (map_imap (λ u x, if live x then Some (pool u) else None) (upstreams t)).
Definition TargetListEnabledGlobal : A (gmap string (list (row TargetColumns))) := stmt (look enabled_targets).

Definition TargetRemove (ctx : option TenantContext) (id : string) : A unit :=
  withTenantTx ctx (λ tc s,
    affects ErrUpstreamTargetNotFound (typed (uuid_in id) (λ id,
      update_rows (C := TargetColumns) s (λ x, String.eqb (ID x) id && live x) soft_delete))).

(** ** [PolicyRepo] *)

Definition policy_list (s : option string) (p : string) (t : tenants) : list (row PolicyColumns) :=
  order_by (λ x y, text_le (PolicyName (Columns x)) (PolicyName (Columns y))) (select s (live_in p) t).
Definition PolicyListAll (ctx : option TenantContext) (limit offset : Z) : A (list (row PolicyColumns) * nat) :=
  withTenantTx ctx (λ tc s, list_tx limit offset (policy_list s (TenantProject tc))).

Definition PolicyGetByID (ctx : option TenantContext) (id : string) : A (row PolicyColumns) :=
  map_err (instead ErrNoRows ErrPolicyNotFound)
    (withTenantTx ctx (λ tc s,
      tx_stmt (typed (uuid_in id) (λ id, read (select_one s id (TenantProject tc)))))).

Definition PolicyCreate (newID : string) (ctx : option TenantContext) (p : PolicyColumns) : A (row PolicyColumns) :=
  withTenantTx ctx (λ tc s,
    map_err (instead UniqueViolation ErrPolicyNameConflict)
      (tx_stmt (ranged (RateLimitRPM p) (insert_row s newID (TenantProject tc) p)))).

Definition PolicyUpdate (ctx : option TenantContext) (id : string) (p : PolicyColumns) : A (row PolicyColumns) :=
  withTenantTx ctx (λ tc s,
    map_err (instead ErrNoRows ErrPolicyNotFound)
      (tx_stmt (typed (uuid_in id) (λ id, ranged (RateLimitRPM p) (update_row s id (TenantProject tc) (λ _, p)))))).

(** The routes of the project lose the policy. *)
Definition PolicyDelete (ctx : option TenantContext) (id : string) : A unit :=
  withTenantTx ctx (λ tc s,
    let* _ := update_this s ErrPolicyNotFound id (TenantProject tc)
      (λ now (x : row PolicyColumns), mkRow (ID x) (Parent x) (Columns x) (CreatedAt x) (UpdatedAt x) (Some now)) in
    let* _ := tx_stmt (typed (uuid_in id) (λ p, update_rows s
      (λ x, bool_decide (PolicyID (Columns x) = Some p) && live_in (TenantProject tc) x) (edit (with_policy None)))) in
    mret ()).

(** ** [ApiKeyRepo] *)

Definition hashRawKey (rawKey : string) : string := Sha256.sha256_hex rawKey.

Definition KeyCreate (newID : string) (ctx : option TenantContext) (name rawKey : string) (expiresAt : option Z)
    (roles scopes : list string) : A (row KeyColumns) :=
  withTenantTx ctx (λ tc s,
    tx_stmt (insert_row s newID (TenantProject tc)
      (mkKey name (hashRawKey rawKey) "active" roles scopes expiresAt))).

Definition KeyRevoke (ctx : option TenantContext) (keyID : string) : A unit :=
  withTenantTx ctx (λ tc s, update_this s ErrAPIKeyNotFound keyID (TenantProject tc) revoke).

(** UPDATE ... RETURNING name, expires_at: the row before it, if there is one. *)
Definition revoke_returning (s : option string) (id p : string) : action (row KeyColumns) := λ now t,
  match select_one s id p t with
  | Some x => Ok (store_row id (revoke now x) t, x)
  | None => Err ErrNoRows
  end.

(** The columns [roles] and [scopes] of the new row stay NULL. *)
Definition KeyRotate (newID : string) (ctx : option TenantContext) (oldKeyID rawNewKey : string)
    : A (row KeyColumns) :=
  withTenantTx ctx (λ tc s,
    let* old := map_err (instead ErrNoRows ErrAPIKeyNotFound)
      (tx_stmt (typed (uuid_in oldKeyID) (λ id, revoke_returning s id (TenantProject tc)))) in
    tx_stmt (insert_row s newID (TenantProject tc)
      (mkKey (KeyName (Columns old)) (hashRawKey rawNewKey) "active" [] [] (ExpiresAt (Columns old))))).

Definition KeyGetByID (ctx : option TenantContext) (keyID : string) : A (row KeyColumns) :=
  map_err (instead ErrNoRows ErrAPIKeyNotFound)
    (withTenantTx ctx (λ tc s,
      tx_stmt (typed (uuid_in keyID) (λ id, read (select_one s id (TenantProject tc)))))).

Definition key_list (s : option string) (p : string) (t : tenants) : list (row KeyColumns) :=
  order_by (λ x y, CreatedAt y <=? CreatedAt x)%Z (select s (live_in p) t).
Definition KeyListAll (ctx : option TenantContext) (limit offset : Z) : A (list (row KeyColumns) * nat) :=
  withTenantTx ctx (λ tc s, list_tx limit offset (key_list s (TenantProject tc))).

(** A key counts as revoked from its deletion, and once it has expired. *)
Definition key_record (now : Z) (x : row KeyColumns) : KeyStore.APIKeyRecord :=
  let c := Columns x in
  let expired := match ExpiresAt c with Some e => (e <? now)%Z | None => false end in
  KeyStore.mkRecord (Parent x) (if expired then Some now else DeletedAt x) (Roles c) (Scopes c).

Definition findByHashQuery (s : option string) (hash : string) (now : Z) (t : tenants)
    : option KeyStore.APIKeyRecord :=
  key_record now <$> head (select s (λ x, String.eqb (KeyHash (Columns x)) hash) t).

Definition uuid_Nil : string := "00000000-0000-0000-0000-000000000000".

Definition FindByHash (ctx : option TenantContext) (hash : string) : A (option KeyStore.APIKeyRecord) :=
  let global := stmt (λ now t, Ok (t, findByHashQuery None hash now t)) in
  match ctx with
  | Some tc =>
      if negb (String.eqb (TenantProject tc) uuid_Nil)
      then withTenantTx ctx (λ tc s, tx_stmt (λ now t, Ok (t, findByHashQuery s hash now t)))
      else global
  | None => global
  end.

(** ** [AuditLogRepo] *)

Definition nullUUID (v : string) : option string := if String.eqb v "" then None else Some v.

(** The parameters of the INSERT, converted. *)
Definition audit_columns (adminUserID action entityType entityID entityLabel : string)
    (changes : list (string * json)) (ip : string) : option AuditColumns :=
  match uuid_opt (nullUUID adminUserID) with
  | Some admin =>
      if audit_action action && (String.eqb ip "" || is_inet ip)
      then Some (mkAudit admin action entityType entityID entityLabel changes
             (if String.eqb ip "" then None else Some ip) "success")
      else None
  | None => None
  end.

Definition AuditCreate (newID : string) (ctx : option TenantContext)
    (adminUserID action entityType entityID entityLabel : string) (changes : list (string * json)) (ip : string)
    : A (row AuditColumns) :=
  if String.eqb action "" || String.eqb entityType "" || String.eqb entityID "" then mfail ErrInvalidAuditLog
  else match ctx with
       | None => mfail ErrForbidden
       | Some tc => stmt (typed (audit_columns adminUserID action entityType entityID entityLabel changes ip)
           (insert_row None newID (TenantProject tc)))
       end.

Definition defaultListLimit : Z := 100.
Definition maxListLimit : Z := 1000.

Record AuditLogFilter := mkFilter {
  FilterLimit : Z; FilterOffset : Z; Actor : string; FilterAction : string;
  DateFrom : option Z; DateTo : option Z }.

Definition actor_of (t : tenants) (x : row AuditColumns) : option string :=
  match AdminUserID (Columns x) with
  | Some id => Username <$> accounts t !! id
  | None => None
  end.

(** The WHERE clause; [u.username] is NULL without a matching account. *)
Definition audit_where (f : AuditLogFilter) (p : string) (t : tenants) (x : row AuditColumns) : bool :=
  of_parent p x &&
  (String.eqb (Actor f) "" ||
     match actor_of t x with Some u => ilike u ("%" +:+ Actor f +:+ "%") | None => false end) &&
  (String.eqb (FilterAction f) "" || String.eqb (Action (Columns x)) (FilterAction f)) &&
  match DateFrom f with Some d => (d <=? CreatedAt x)%Z | None => true end &&
  match DateTo f with Some d => (CreatedAt x <=? d)%Z | None => true end.

Definition audit_list (f : AuditLogFilter) (p : string) (t : tenants) : list (row AuditColumns * string) :=
  (λ x, (x, default "system" (actor_of t x))) <$>
    order_by (λ x y, CreatedAt y <=? CreatedAt x)%Z (select None (audit_where f p t) t).

(** An action that is no value of the enumeration fails the query. *)
Definition known_action {X} (f : AuditLogFilter) (k : action X) : action X :=
  if String.eqb (FilterAction f) "" || audit_action (FilterAction f) then k else λ _ _, Err InvalidText.

Definition AuditList (ctx : option TenantContext) (f : AuditLogFilter)
    : A (list (row AuditColumns * string) * nat) :=
  match ctx with
  | None => mfail ErrForbidden
  | Some tc =>
      let limit := if (FilterLimit f <=? 0)%Z then defaultListLimit else FilterLimit f in
      let limit := if (maxListLimit <? limit)%Z then maxListLimit else limit in
      let offset := if (FilterOffset f <? 0)%Z then 0%Z else FilterOffset f in
      let l := audit_list f (TenantProject tc) in
      let* total := stmt (known_action f (look (λ t, length (l t)))) in
      let* logs := stmt (known_action f (page_action limit offset l)) in
      mret (logs, total)
  end.

(** [olderThan.Seconds()] is cut to whole seconds. *)
Definition PruneAuditLogs (olderThan : Z) : A nat :=
  if (olderThan <=? 0)%Z then mfail ErrPruneAge
  else
    let old now (x : row AuditColumns) := (CreatedAt x <? now - (olderThan / second) * second)%Z in
    stmt (λ now t, Ok (set_audit (filter (λ '(_, x), old now x = false) (audit_logs t)) t,
                       count_where (old now) (audit_logs t))).

(** ** [ProjectJWTConfigRepo] *)

(** [project_jwt_configs_tenant_isolation] has no bypass: without a project in the
    session no row is visible. *)
Definition jwt_visible (s : option string) (p : string) : bool :=
  negb row_security || match s with Some q => String.eqb p q | None => false end.

Definition jwt_config (s : option string) (p : string) (t : tenants) : option ProjectJWT.ProjectJWTConfig :=
  if jwt_visible s p then jwt_configs t !! p else None.

Definition JWTGet (ctx : option TenantContext) : A ProjectJWT.ProjectJWTConfig :=
  map_err (instead ErrNoRows ErrProjectJWTConfigNotFound) (withTenantTx ctx (λ tc s,
    tx_stmt (read (jwt_config s (TenantProject tc))))).

(** The row an upsert leaves: a new one has version 1, an old one keeps who and
    when created it and goes one version up. *)
Definition upserted (tc : TenantContext) (cfg : ProjectJWT.ProjectJWTConfig) (now : Z)
    (old : option ProjectJWT.ProjectJWTConfig) : ProjectJWT.ProjectJWTConfig :=
  ProjectJWT.mkConfig (TenantProject tc) (ProjectJWT.Enabled cfg) (ProjectJWT.Algorithm cfg)
    (ProjectJWT.SecretARN cfg) (ProjectJWT.SecretVersionID cfg)
    (match old with Some o => ProjectJWT.ConfigVersion o + 1 | None => 1 end)
    (ProjectJWT.Issuer cfg) (ProjectJWT.Audiences cfg) (ProjectJWT.SubjectClaim cfg) (ProjectJWT.RoleClaim cfg)
    (ProjectJWT.ScopesClaim cfg) (ProjectJWT.ClockSkewSeconds cfg)
    (match old with Some o => ProjectJWT.CreatedBy o | None => Some (TenantUser tc) end) (Some (TenantUser tc))
    (match old with Some o => ProjectJWT.CreatedAt o | None => now end) now.

Definition int8 (n : Z) : bool := (- 2 ^ 63 <=? n)%Z && (n <? 2 ^ 63)%Z.

(** INSERT ... ON CONFLICT (project_id) DO UPDATE ... RETURNING, which is scanned
    into [cfg]: together the row. *)
Definition upsert_jwt (s : option string) (tc : TenantContext) (cfg : ProjectJWT.ProjectJWTConfig)
    : action ProjectJWT.ProjectJWTConfig := λ now t,
  let p := TenantProject tc in
  let x := upserted tc cfg now (jwt_configs t !! p) in
  if negb (int4 (ProjectJWT.ClockSkewSeconds cfg)) then Err OutOfRange
  else if negb (jwt_visible s p) then Err RowSecurity
  else if negb (int8 (ProjectJWT.ConfigVersion x)) then Err OutOfRange
  else if negb (ProjectJWT.config_checks x) then Err CheckViolation
  else if negb (exists_project t p && exists_ref (accounts t) (Some (TenantUser tc))) then Err ForeignKeyViolation
  else Ok (set_jwt (<[p := x]> (jwt_configs t)) t, x).

Definition JWTUpsert (ctx : option TenantContext) (cfg : ProjectJWT.ProjectJWTConfig) : A ProjectJWT.ProjectJWTConfig :=
  withTenantTx ctx (λ tc s, tx_stmt (upsert_jwt s tc cfg)).

Definition JWTDelete (ctx : option TenantContext) : A unit :=
  withTenantTx ctx (λ tc s,
    affects ErrProjectJWTConfigNotFound (λ _ t,
      match jwt_config s (TenantProject tc) t with
      | Some _ => Ok (set_jwt (delete (TenantProject tc) (jwt_configs t)) t, 1%nat)
      | None => Ok (t, 0%nat)
      end)).

End resources.
End TenantResources.
