(* ===== verification/TenantServices.v ===== *)
(** * Tenants: calls and services

    [src/internal/admin/service]: [membership_service.go], [project_service.go],
    [route_service.go], [upstream_service.go], [policy_service.go],
    [api_key_service.go], [audit_service.go], [platform_service.go] and
    [pagination.go]; the methods of [MembershipRepo] that run several statements
    without a transaction; and [src/internal/storage/summary_cache.go].  A service
    is a program of calls to the repositories; between two calls other requests
    may run. *)

From Stdlib Require Import Ascii.
From stdpp Require Import gmap.
From S2P Require Import Prelude GoStrings Store Transactions Model GatewayRepo IPFilter TenantTables.
From S2P Require Import TenantRepo TenantResources ProjectJWT SecretManager CustomDomain DomainService.

(** ** Pagination *)

Module Pagination.
Import TenantTables.

Record Pagination := mk { Page : Z; Limit : Z; Total : Z; TotalPages : Z }.

(** [int] has 64 bits. *)
Definition wrap_int (n : Z) : Z := (n + 2 ^ 63) mod 2 ^ 64 - 2 ^ 63.

Definition ParsePagination (pageStr limitStr : string) : result error (Z * Z) :=
  let page :=
    if String.eqb pageStr "" then Some 1%Z
    else match GatewayRepo.Atoi pageStr with
         | Some p => if (p <? 1)%Z then None else Some p
         | None => None
         end in
  let limit :=
    if String.eqb limitStr "" then Some 25%Z
    else match GatewayRepo.Atoi limitStr with
         | Some l => if (l <? 1)%Z || (100 <? l)%Z then None else Some l
         | None => None
         end in
  match page, limit with
  | None, _ => Err ErrInvalidPage
  | _, None => Err ErrInvalidLimit
  | Some p, Some l => Ok (p, l)
  end.

Definition ParsePaginationOffset (pageStr limitStr : string) : result error (Z * Z * Z) :=
  match ParsePagination pageStr limitStr with
  | Err e => Err e
  | Ok (page, limit) => Ok (page, limit, wrap_int (wrap_int (page - 1) * limit))
  end.

Definition BuildPagination (page limit total : Z) : Pagination :=
  mk page limit total
    (if (0 <? total)%Z && (0 <? limit)%Z
     then total `div` limit + (if total `mod` limit =? 0 then 0 else 1)
     else 0)%Z.
End Pagination.

Module TenantServices.
Export TenantResources Pagination.

(** ** Calls *)

(** The methods that take the tenant from the request's context. *)
Inductive ScopedCall : Type → Type :=
| CallRoutes (limit offset : Z) : ScopedCall (list Route.t * nat)
| CallRouteCreate (rt : RouteInput) : ScopedCall (row RouteColumns)
| CallRouteUpdate (id : string) (rt : RouteInput) : ScopedCall (row RouteColumns)
| CallRouteDelete (id : string) : ScopedCall unit
| CallRouteDisable (id : string) : ScopedCall unit
| CallRouteEnable (id : string) : ScopedCall unit
| CallAssignPolicy (routeID policyID : string) : ScopedCall unit
| CallRemovePolicy (routeID : string) : ScopedCall unit
| CallUpstreams (limit offset : Z) : ScopedCall (list (row UpstreamColumns) * nat)
| CallUpstream (id : string) : ScopedCall (row UpstreamColumns)
| CallUpstreamCreate (u : UpstreamColumns) : ScopedCall (row UpstreamColumns)
| CallUpstreamUpdate (id : string) (u : UpstreamColumns) : ScopedCall (row UpstreamColumns)
| CallUpstreamDisable (id : string) : ScopedCall unit
| CallUpstreamDelete (id : string) : ScopedCall unit
| CallTargets (upstreamID : string) : ScopedCall (list (row TargetColumns))
| CallTargetAdd (upstreamID : string) (c : TargetColumns) : ScopedCall (row TargetColumns)
| CallTargetRemove (id : string) : ScopedCall unit
| CallPolicies (limit offset : Z) : ScopedCall (list (row PolicyColumns) * nat)
| CallPolicyCreate (p : PolicyColumns) : ScopedCall (row PolicyColumns)
| CallPolicyUpdate (id : string) (p : PolicyColumns) : ScopedCall (row PolicyColumns)
| CallPolicyDelete (id : string) : ScopedCall unit
| CallKeys (limit offset : Z) : ScopedCall (list (row KeyColumns) * nat)
| CallKeyCreate (name rawKey : string) (expiresAt : option Z) (roles scopes : list string)
    : ScopedCall (row KeyColumns)
| CallKeyRotate (id rawNewKey : string) : ScopedCall (row KeyColumns)
| CallKeyRevoke (id : string) : ScopedCall unit
| CallAudit (adminUserID action entityType entityID entityLabel : string) (changes : list (string * json))
    (ip : string) : ScopedCall (row AuditColumns)
| CallAuditLogs (f : AuditLogFilter) : ScopedCall (list (row AuditColumns * string) * nat)
| CallSummary : ScopedCall ProjectSummary
| CallJWT : ScopedCall ProjectJWT.ProjectJWTConfig
| CallJWTUpsert (cfg : ProjectJWT.ProjectJWTConfig) : ScopedCall ProjectJWT.ProjectJWTConfig
| CallJWTDelete : ScopedCall unit.

(** A call of a repository; the statements of the methods of [MembershipRepo]
    that are not one statement or transaction are calls of their own. *)
Inductive TenantRepository : Type → Type :=
| CallScoped {X} (ctx : option TenantContext) (op : ScopedCall X) : TenantRepository X
| CallValidateMembership (projectID userID : string) : TenantRepository string
| CallIsActive (projectID : string) : TenantRepository bool
| CallSelectMember (projectID userID : string) : TenantRepository string
| CallInsertMember (projectID userID role inviterID : string) : TenantRepository unit
| CallCountOwners (projectID : string) : TenantRepository nat
| CallSetRole (projectID userID role : string) : TenantRepository nat
| CallProjectOwner (projectID : string) : TenantRepository string
| CallDeleteMember (projectID userID : string) : TenantRepository nat
| CallMembers (projectID : string) (limit offset : Z) : TenantRepository (list ProjectMember * nat)
| CallUserByEmail (email : string) : TenantRepository MemberLookupResult
| CallProjectCreate (name slug description ownerID plan : string) : TenantRepository Project
| CallProjects (userID : string) (limit offset : Z) : TenantRepository (list (Project * string) * nat)
| CallProjectUpdate (id name description plan : string) : TenantRepository Z
| CallProjectDelete (id : string) : TenantRepository unit
| CallAllProjects (limit offset : Z) : TenantRepository (list Project * nat)
| CallSuspend (projectID : string) : TenantRepository unit
| CallReactivate (projectID : string) : TenantRepository unit
| CallUpdateOrigins (projectID : string) (origins : list string) : TenantRepository unit
| CallIsSuperAdmin (userID : string) : TenantRepository bool
| CallPruneAudit (olderThan : Z) : TenantRepository nat.

(** The UUIDs that the database and [uuid.New] yield during a call. *)
Record fresh_ids := mkFresh { new_id : string; name_id : string }.

Section repositories.
Context {DB : Database}.

Definition scoped_call {X} (ids : fresh_ids) (ctx : option TenantContext) (op : ScopedCall X) : A X :=
  match op in ScopedCall X return A X with
  | CallRoutes l o => RouteListAll ctx l o
  | CallRouteCreate rt => RouteCreate (new_id ids) (name_id ids) ctx rt
  | CallRouteUpdate id rt => RouteUpdate ctx id rt
  | CallRouteDelete id => RouteDelete ctx id
  | CallRouteDisable id => RouteDisable ctx id
  | CallRouteEnable id => RouteEnable ctx id
  | CallAssignPolicy r p => AssignPolicy ctx r p
  | CallRemovePolicy r => RemovePolicy ctx r
  | CallUpstreams l o => UpstreamListAll ctx l o
  | CallUpstream id => UpstreamGetByID ctx id
  | CallUpstreamCreate u => UpstreamCreate (new_id ids) ctx u
  | CallUpstreamUpdate id u => UpstreamUpdate ctx id u
  | CallUpstreamDisable id => UpstreamDisable ctx id
  | CallUpstreamDelete id => UpstreamDelete ctx id
  | CallTargets u => ListByUpstream ctx u
  | CallTargetAdd u c => TargetAdd (new_id ids) ctx u c
  | CallTargetRemove id => TargetRemove ctx id
  | CallPolicies l o => PolicyListAll ctx l o
  | CallPolicyCreate p => PolicyCreate (new_id ids) ctx p
  | CallPolicyUpdate id p => PolicyUpdate ctx id p
  | CallPolicyDelete id => PolicyDelete ctx id
  | CallKeys l o => KeyListAll ctx l o
  | CallKeyCreate n k e r s => KeyCreate (new_id ids) ctx n k e r s
  | CallKeyRotate id k => KeyRotate (new_id ids) ctx id k
  | CallKeyRevoke id => KeyRevoke ctx id
  | CallAudit u a y i l c ip => AuditCreate (new_id ids) ctx u a y i l c ip
  | CallAuditLogs f => AuditList ctx f
  | CallSummary => GetSummary ctx
  | CallJWT => JWTGet ctx
  | CallJWTUpsert cfg => JWTUpsert ctx cfg
  | CallJWTDelete => JWTDelete ctx
  end.

(** [AdminAuthRepo.IsSuperAdmin]. *)
Definition IsSuperAdmin (userID : string) : A bool :=
  stmt (typed (uuid_in userID) (λ u, look (λ t,
    match accounts t !! u with Some a => SuperAdmin a | None => false end))).

Definition tenant_call {X} (ids : fresh_ids) (c : TenantRepository X) : A X :=
  match c in TenantRepository X return A X with
  | CallScoped ctx op => scoped_call ids ctx op
  | CallValidateMembership p u => ValidateMembership p u
  | CallIsActive p => ProjectIsActive p
  | CallSelectMember p u => SelectMember p u
  | CallInsertMember p u r i => InsertMember p u r i
  | CallCountOwners p => CountOwners p
  | CallSetRole p u r => SetRole p u r
  | CallProjectOwner p => SelectProjectOwner p
  | CallDeleteMember p u => DeleteMember p u
  | CallMembers p l o => ListMembers p l o
  | CallUserByEmail e => FindUserByEmail e
  | CallProjectCreate n s d o p => ProjectCreate (new_id ids) n s d o p
  | CallProjects u l o => ListForUser u l o
  | CallProjectUpdate i n d p => ProjectUpdate i n d p
  | CallProjectDelete i => ProjectDelete i
  | CallAllProjects l o => ListAllGlobal l o
  | CallSuspend p => Suspend p
  | CallReactivate p => Reactivate p
  | CallUpdateOrigins p os => UpdateDashboardOrigins p os
  | CallIsSuperAdmin u => IsSuperAdmin u
  | CallPruneAudit d => PruneAuditLogs d
  end.

End repositories.

(** ** [SummaryCache] *)

Abbreviation SummaryCache := (gmap string (ProjectSummary * Z)).
Definition summaryTTL : Z := 10 * second.
Definition CacheGet (now : Z) (c : SummaryCache) (projectID : string) : option ProjectSummary :=
  match c !! projectID with
  | Some (s, expiresAt) => if (expiresAt <? now)%Z then None else Some s
  | None => None
  end.
Definition CacheSet (now : Z) (projectID : string) (s : ProjectSummary) (c : SummaryCache) : SummaryCache :=
  <[projectID := (s, now + summaryTTL)%Z]> c.

(** ** Custom domains *)

(** What the service of custom domains ([DomainService]) asks for: a method of its
    repository, the resolver, [uuid.New]. *)
Inductive DomainOp : Type → Type :=
| DomainRepo {X} (c : DomainService.CustomDomainRepository X) : DomainOp (result CustomDomain.error X)
| DomainTXT (name : string) : DomainOp (result DomainService.DNSError (list string))
| DomainCNAME (host : string) : DomainOp (result DomainService.DNSError string)
| DomainNewID : DomainOp string.

(** ** Programs *)

Inductive prog (A : Type) : Type :=
| Done (a : A)
| Repo {X : Type} (c : TenantRepository X) (k : result error X → prog A)
| Now (k : Z → prog A)
| RandRead (n : nat) (k : option (list Z) → prog A)
| AskCache (projectID : string) (k : option ProjectSummary → prog A)
| PutCache (projectID : string) (s : ProjectSummary) (k : prog A)
| Lookups (callerID : string) (k : bool → prog A)       (* the limit of user lookups *)
| HTTPGet (url : string) (k : option Z → prog A)        (* the status, if there is an answer *)
| Secrets {X : Type} (op : SecretManager.SDK X) (k : X → prog A)
| Domains {X : Type} (op : DomainOp X) (k : X → prog A).
#[global] Arguments Done {A} a.
#[global] Arguments Repo {A X} c k.
#[global] Arguments Now {A} k.
#[global] Arguments RandRead {A} n k.
#[global] Arguments AskCache {A} projectID k.
#[global] Arguments PutCache {A} projectID s k.
#[global] Arguments Lookups {A} callerID k.
#[global] Arguments HTTPGet {A} url k.
#[global] Arguments Secrets {A X} op k.
#[global] Arguments Domains {A X} op k.

Fixpoint pbind {A B} (p : prog A) (f : A → prog B) : prog B :=
  match p with
  | Done a => f a
  | Repo c k => Repo c (λ r, pbind (k r) f)
  | Now k => Now (λ t, pbind (k t) f)
  | RandRead n k => RandRead n (λ r, pbind (k r) f)
  | AskCache p k => AskCache p (λ r, pbind (k r) f)
  | PutCache p s k => PutCache p s (pbind k f)
  | Lookups c k => Lookups c (λ b, pbind (k b) f)
  | HTTPGet u k => HTTPGet u (λ r, pbind (k r) f)
  | Secrets op k => Secrets op (λ r, pbind (k r) f)
  | Domains op k => Domains op (λ r, pbind (k r) f)
  end.

Notation "'let!' x := c 'in' k" := (pbind c (λ x, k)) (at level 10, x pattern, c at level 100, k at level 200).
(** An error is returned at once. *)
Notation "'try!' x := c 'in' k" :=
  (pbind c (λ r, match r with Ok x => k | Err e => Done (Err e) end))
  (at level 10, x name, c at level 100, k at level 200).

Definition call {X} (c : TenantRepository X) : prog (result error X) := Repo c Done.
Abbreviation service X := (prog (result error X)).
Definition ok {X} (x : X) : service X := Done (Ok x).
Definition fail {X} (e : error) : service X := Done (Err e).

(** ** [MembershipRepo], the methods of several statements *)

Definition AddMember (projectID userID role inviterID : string) : service unit :=
  let! exists_ := call (CallSelectMember projectID userID) in
  match exists_ with
  | Ok _ => fail ErrAlreadyMember
  | Err ErrNoRows => call (CallInsertMember projectID userID role inviterID)
  | Err e => fail e
  end.

Definition select_role (projectID memberID : string) : service string :=
  let! r := call (CallSelectMember projectID memberID) in
  match r with Err ErrNoRows => fail ErrNotFound | _ => Done r end.

(** A member with the role [owner] may go or change if there is another owner. *)
Definition keep_owner (projectID : string) : service unit :=
  try! ownerCount := call (CallCountOwners projectID) in
  if (ownerCount <=? 1)%nat then fail ErrLastOwner else ok ().

Definition affected (n : nat) : service unit := if (n =? 0)%nat then fail ErrNotFound else ok ().

Definition UpdateRole (projectID memberID role : string) : service unit :=
  try! currentRole := select_role projectID memberID in
  if String.eqb currentRole role then ok ()
  else
    try! _u := (if String.eqb currentRole "owner" && negb (String.eqb role "owner")
                then keep_owner projectID else ok ()) in
    try! n := call (CallSetRole projectID memberID role) in
    affected n.

Definition RemoveMember (projectID memberID : string) : service unit :=
  let! owner := call (CallProjectOwner projectID) in
  match owner with
  | Err ErrNoRows => fail ErrNotFound
  | Err e => fail e
  | Ok ownerID =>
      if String.eqb ownerID memberID then fail ErrIsProjectOwner
      else
        try! currentRole := select_role projectID memberID in
        try! _u := (if String.eqb currentRole "owner" then keep_owner projectID else ok ()) in
        try! n := call (CallDeleteMember projectID memberID) in
        affected n
  end.

(** ** The services *)

Definition validMemberRoles : string → bool := one_of ["owner"; "editor"; "viewer"].
Definition validMatchTypes : string → bool := one_of ["exact"; "prefix"].
Definition validProtocols : string → bool := one_of ["http"; "grpc"].
Definition validLBStrategies : string → bool := one_of ["round_robin"; "least_conn"].

Definition MemberAdd (projectID email role inviterID : string) : service ProjectMember :=
  if negb (validMemberRoles role) then fail ErrInvalidMemberRole
  else
    try! target := call (CallUserByEmail email) in
    try! _u := AddMember projectID (LookupID target) role inviterID in
    ok (mkProjectMember projectID (LookupID target) (LookupUsername target) (LookupEmail target) role 0).

Definition ChangeRole (projectID targetUserID newRole : string) : service unit :=
  if negb (validMemberRoles newRole) then fail ErrInvalidMemberRole
  else UpdateRole projectID targetUserID newRole.

Definition CreateProject (name slug description ownerID plan : string) : service Project :=
  call (CallProjectCreate name (ToLower slug) description ownerID (if String.eqb plan "" then "free" else plan)).

(** Plan and subscription are for owners. *)
Definition ApplyRoleBasedFields (s : ProjectSummary) (role : string) : ProjectSummary :=
  if String.eqb role "owner" then
    mkSummary (SummaryProject s) (Metrics s) (SummaryRole s) (SummaryPlan s)
      (Some (default "" (SummaryPlan s), if IsActive (SummaryProject s) then "active" else "suspended"))
  else mkSummary (SummaryProject s) (Metrics s) (SummaryRole s) None None.

Definition summary_for (role : string) (s : ProjectSummary) : ProjectSummary :=
  let s := ApplyRoleBasedFields s role in
  mkSummary (SummaryProject s) (Metrics s) role (SummaryPlan s) (Subscription s).

Definition GetProjectSummary (ctx : option TenantContext) (projectID userRole : string) : service ProjectSummary :=
  AskCache projectID (λ cached,
  match cached with
  | Some s => ok (summary_for userRole s)
  | None =>
      try! summary := call (CallScoped ctx CallSummary) in
      PutCache projectID summary (ok (summary_for userRole summary))
  end).

(** The request of the route handlers. *)
Record createRouteRequest := mkRouteRequest {
  ReqName : string; ReqPath : string; ReqUpstreamID : string; ReqPolicyID : option string;
  ReqMethods : list string; ReqMatchType : string; ReqEnabled : bool }.

Definition or_else (default s : string) : string := if String.eqb s "" then default else s.

Definition route_input (req : createRouteRequest) (matchType : string) : RouteInput :=
  mkRouteInput (ReqName req) (ReqPath req) (Some (ReqUpstreamID req))
    (match ReqPolicyID req with Some p => if String.eqb p "" then None else Some p | None => None end)
    matchType (ReqEnabled req) (ReqMethods req).

Definition with_match_type {X} (req : createRouteRequest) (k : RouteInput → service X) : service X :=
  let matchType := or_else "prefix" (ReqMatchType req) in
  if negb (validMatchTypes matchType) then fail ErrInvalidMatchType else k (route_input req matchType).

Definition CreateRoute (ctx : option TenantContext) (req : createRouteRequest) : service (row RouteColumns) :=
  with_match_type req (λ rt, call (CallScoped ctx (CallRouteCreate rt))).
Definition UpdateRoute (ctx : option TenantContext) (id : string) (req : createRouteRequest)
    : service (row RouteColumns) :=
  with_match_type req (λ rt, call (CallScoped ctx (CallRouteUpdate id rt))).

Definition valid_upstream {X} (u : UpstreamColumns) (k : UpstreamColumns → service X) : service X :=
  let lb := or_else "round_robin" (LBStrategy u) in
  if negb (validProtocols (Protocol u)) then fail ErrInvalidProtocol
  else if negb (validLBStrategies lb) then fail ErrInvalidLBStrategy
  else k (mkUpstream (UpstreamName u) (TargetURL u) (Protocol u) (HealthPath u) lb (UpstreamEnabled u)).
Definition CreateUpstream (ctx : option TenantContext) (u : UpstreamColumns) : service (row UpstreamColumns) :=
  valid_upstream u (λ u, call (CallScoped ctx (CallUpstreamCreate u))).
Definition UpdateUpstream (ctx : option TenantContext) (id : string) (u : UpstreamColumns)
    : service (row UpstreamColumns) :=
  valid_upstream u (λ u, call (CallScoped ctx (CallUpstreamUpdate id u))).
Definition AddTarget (ctx : option TenantContext) (upstreamID targetURL : string) (weight : Z) (enabled : bool)
    : service (row TargetColumns) :=
  call (CallScoped ctx (CallTargetAdd upstreamID
    (mkTarget targetURL (if (weight <=? 0)%Z then 1%Z else weight) enabled))).

Definition ValidateIPRules (field : string) (ips : list string) : result error unit :=
  if (length ips =? 0)%nat then Ok ()
  else match IPFilter.NewIPChecker ips with Ok _ => Ok () | Err (IPFilter.InvalidPattern pat) => Err (ErrIPRule field pat) end.

Definition valid_policy {X} (p : PolicyColumns) (k : service X) : service X :=
  if (RateLimitRPM p <? 0)%Z then fail ErrNegativeRPM
  else match ValidateIPRules "ip_allowlist" (IPAllowlist p) with
       | Err e => fail e
       | Ok _ => match ValidateIPRules "ip_blocklist" (IPBlocklist p) with Err e => fail e | Ok _ => k end
       end.
Definition CreatePolicy (ctx : option TenantContext) (p : PolicyColumns) : service (row PolicyColumns) :=
  valid_policy p (call (CallScoped ctx (CallPolicyCreate p))).
Definition UpdatePolicy (ctx : option TenantContext) (id : string) (p : PolicyColumns)
    : service (row PolicyColumns) :=
  valid_policy p (call (CallScoped ctx (CallPolicyUpdate id p))).

(** ["cg_" + hex.EncodeToString] of 16 random bytes. *)
Fixpoint hex_bytes (bs : list Z) : string :=
  match bs with [] => "" | b :: bs => Sha256.hex_digits [4; 0]%Z b (hex_bytes bs) end.
Definition GenerateRawKey {X} (k : string → service X) : service X :=
  RandRead 16 (λ r, match r with Some b => k ("cg_" +:+ hex_bytes b) | None => fail ErrRand end).

Definition CreateApiKey (ctx : option TenantContext) (name : string) (expiresAt : option Z)
    (roles scopes : list string) : service (row KeyColumns * string) :=
  GenerateRawKey (λ rawKey,
    try! record := call (CallScoped ctx (CallKeyCreate name rawKey expiresAt roles scopes)) in
    ok (record, rawKey)).
Definition RotateApiKey (ctx : option TenantContext) (id : string) : service string :=
  GenerateRawKey (λ newRawKey,
    try! _rec := call (CallScoped ctx (CallKeyRotate id newRawKey)) in
    ok newRawKey).

(** [AuditService.Record]: a failed write is only logged. *)
Definition RecordAudit {X} (ctx : option TenantContext) (adminUserID ip action entityType entityID entityLabel : string)
    (changes : list (string * json)) (k : prog X) : prog X :=
  Repo (CallScoped ctx (CallAudit adminUserID action entityType entityID entityLabel changes ip)) (λ _, k).

End TenantServices.
