(* ===== verification/TenantHandlers.v ===== *)
(** * Tenants: middleware and handlers

    [src/internal/admin/middleware/tenant.go]; [membership_handler.go],
    [project_handler.go], [origin_validate.go], [route_handler.go],
    [upstream_handler.go], [upstream_target_handler.go], [policy_handler.go],
    [api_key_handler.go], [audit_log_handler.go] and the tenant operations of
    [platform_handler.go] under [src/internal/admin/handler]. *)

From Stdlib Require Import Ascii.
From stdpp Require Import gmap.
From S2P Require Import Prelude GoStrings GoNet Store Model GatewayRepo TenantTables TenantRepo.
From S2P Require Import TenantResources TenantServices ProjectJWT CustomDomain DomainService.

(** ** Dates: [time.Parse("2006-01-02", s)] *)

Module Dates.
#[local] Open Scope Z_scope.

Definition leap (y : Z) : bool := (y mod 4 =? 0) && (negb (y mod 100 =? 0) || (y mod 400 =? 0)).
Definition daysIn (m y : Z) : Z :=
  if m =? 2 then (if leap y then 29 else 28)
  else if existsb (Z.eqb m) [4; 6; 9; 11] then 30 else 31.

(** Days since 1970-01-01. *)
Definition days (y m d : Z) : Z :=
  let y := if m <=? 2 then y - 1 else y in
  let era := y / 400 in
  let yoe := y - era * 400 in
  let doy := (153 * (m + (if 2 <? m then -3 else 9)) + 2) / 5 + d - 1 in
  era * 146097 + (yoe * 365 + yoe / 4 - yoe / 100 + doy) - 719468.

Definition digits (s : string) : option Z :=
  if sforallb is_digit s && negb (String.eqb s "") then GoNet.dec_value 0 s else None.

Definition ParseDate (s : string) : option Z :=
  if (len s =? 10)%nat && String.eqb (stake 1 (sdrop 4 s)) "-" && String.eqb (stake 1 (sdrop 7 s)) "-" then
    match digits (stake 4 s), digits (stake 2 (sdrop 5 s)), digits (sdrop 8 s) with
    | Some y, Some m, Some d =>
        if (1 <=? m) && (m <=? 12) && (1 <=? d) && (d <=? daysIn m y)
        then Some (days y m d * (24 * 60 * minute)) else None
    | _, _, _ => None
    end
  else None.

Example date_epoch : ParseDate "1970-01-01" = Some 0.
Proof. vm_compute. reflexivity. Qed.
Example date_leap : ParseDate "2024-02-29" = Some (1709164800 * second) ∧ ParseDate "2023-02-29" = None.
Proof. split; vm_compute; reflexivity. Qed.
Example date_year_end : ParseDate "2025-12-31" = Some (1767139200 * second) ∧ ParseDate "2025-1-31" = None.
Proof. split; vm_compute; reflexivity. Qed.
End Dates.

Module TenantHandlers.
Export TenantServices.
#[local] Open Scope Z_scope.

(** ** Requests and answers *)

(** What [gin.Context] gives: path and query parameters, absent ones empty; what
    the middleware stored; the client's address. *)
Record context := mkContext {
  Param : string → string;
  Query : string → string;
  CallerID : option string;               (* AdminUserIDKey *)
  Tenant : option TenantContext;          (* "tenant_ctx" and the request's context *)
  ClientIP : string;
}.
Definition with_tenant (tc : TenantContext) (cx : context) : context :=
  mkContext (Param cx) (Query cx) (CallerID cx) (Some tc) (ClientIP cx).
Definition with_caller (id : string) (cx : context) : context :=
  mkContext (Param cx) (Query cx) (Some id) (Tenant cx) (ClientIP cx).

Inductive origin_error := InvalidOrigin | OriginScheme | OriginPath | OriginWildcard.

(** The JSON bodies. *)
Inductive payload :=
| Fields (l : list (string * json))
| OriginRejected (e : origin_error) (raw : string)
| RoutePage (l : list Route.t) (p : Pagination)
| OneRoute (r : Route.t)
| UpstreamPage (l : list (row UpstreamColumns)) (p : Pagination)
| OneUpstream (x : row UpstreamColumns)
| TargetList (l : list (row TargetColumns))
| OneTarget (x : row TargetColumns)
| PolicyPage (l : list (row PolicyColumns)) (p : Pagination)
| OnePolicy (x : row PolicyColumns)
| KeyPage (l : list (row KeyColumns)) (p : Pagination)
| NewKey (x : row KeyColumns) (raw : string)
| MemberPage (l : list ProjectMember) (p : Pagination)
| OneMember (m : ProjectMember)
| ProjectPage (l : list (Project * string)) (p : Pagination)
| OneProject (p : Project)
| TenantPage (l : list Project) (p : Pagination)
| SummaryOf (s : ProjectSummary)
| AuditPage (l : list (row AuditColumns * string)) (total offset limit : Z)
| JWTConfigOf (r : ProjectJWT.projectJWTConfigResponse)
| DomainCreated (r : DomainService.CreateCustomDomainResponse)
| DomainList (l : list CustomDomain.t)
| WithDomain (l : list (string * json)) (c : CustomDomain.t)
| DomainStatusOf (r : DomainService.ProvisioningStatusResponse)
| WithDetails (l details : list (string * json)).

Record response := mkResponse { Status : Z; Body : payload }.

Definition answer (status : Z) (l : list (string * json)) : prog response := Done (mkResponse status (Fields l)).
Definition refuse (status : Z) (msg : string) : prog response := answer status [("error", JString msg)].
Definition internal : string → prog response := refuse 500.
Definition reply (status : Z) (p : payload) : prog response := Done (mkResponse status p).

(** [err.Error()] of the errors a handler passes on. *)
Definition text_of (e : error) : string :=
  match e with
  | ErrInvalidPage => "page must be greater than or equal to 1"
  | ErrInvalidLimit => "limit must be greater than 0 and less than or equal to 100"
  | ErrInvalidMemberRole => "role must be one of: owner, editor, viewer"
  | ErrInvalidMatchType => "match_type must be 'exact' or 'prefix'"
  | ErrInvalidProtocol => "protocol must be 'http' or 'grpc'"
  | ErrInvalidLBStrategy => "lb_strategy must be 'round_robin' or 'least_conn'"
  | ErrNegativeRPM => "rate_limit_rpm must be >= 0"
  | ErrIPRule field pat => "invalid IP or CIDR in " +:+ field +:+ ": invalid IP/CIDR value: " +:+ pat
  | ErrTooManyOrigins => "update dashboard origins: dashboard origins: max 10 entries"
  | _ => ""
  end.

(** The answer for each error a handler tells apart; the others are internal. *)
Definition on_error {E} `{EqDecision E} (table : list (E * (Z * string))) (msg : string) (e : E) : prog response :=
  match find_first (λ '(e', _), bool_decide (e = e')) table with
  | Some (_, (status, text)) => refuse status text
  | None => internal msg
  end.

Definition finish {E X} (p : prog (result E X)) (failed : E → prog response) (k : X → prog response) : prog response :=
  let! r := p in match r with Ok x => k x | Err e => failed e end.

Section handlers.
Context {DB : Database}.

(** ** [middleware/tenant.go] *)

Definition ProjectScope (cx : context) (next : context → prog response) : prog response :=
  if String.eqb (Param cx "projectId") "" then refuse 400 "project ID required"
  else match uuid_parse (Param cx "projectId"), CallerID cx with
  | None, _ => refuse 400 "invalid project ID format"
  | Some _, None => refuse 401 "unauthenticated"
  | Some projectID, Some str =>
      match uuid_parse str with
      | None => refuse 401 "invalid user ID format"
      | Some userID =>
          Repo (CallValidateMembership projectID userID) (λ r,
          match r with
          | Err ErrForbidden => refuse 403 "access denied to project"
          | Err _ => internal "internal error"
          | Ok role =>
              Repo (CallIsActive projectID) (λ r,
              match r with
              | Err ErrProjectNotFound => refuse 404 "project not found"
              | Err _ => internal "internal error"
              | Ok false => refuse 403 "project suspended"
              | Ok true => next (with_tenant (mkTenant projectID userID role) cx)
              end)
          end)
      end
  end.

Definition role_weight (role : string) : option nat :=
  if String.eqb role "viewer" then Some 0%nat
  else if String.eqb role "editor" then Some 1%nat
  else if String.eqb role "owner" then Some 2%nat
  else None.

(** The role weighs enough. *)
Definition permits (minRole role : string) : bool :=
  match role_weight minRole, role_weight role with
  | Some w, Some u => negb (u <? w)%nat
  | _, _ => false
  end.

Definition RBAC (minRole : string) (cx : context) (next : context → prog response) : prog response :=
  match Tenant cx with
  | None => refuse 403 "tenant context missing"
  | Some tc =>
      if permits minRole (UserRole tc) then next cx
      else answer 403 [("error", JString "insufficient project permissions"); ("required", JString minRole);
                       ("current", JString (UserRole tc))]
  end.

Definition SuperAdminOnly (cx : context) (next : context → prog response) : prog response :=
  match CallerID cx with
  | None => refuse 401 "unauthenticated"
  | Some userID =>
      Repo (CallIsSuperAdmin userID) (λ r,
      match r with
      | Err _ => internal "super-admin check db error"
      | Ok false => refuse 403 "super-admin access required"
      | Ok true => next cx
      end)
  end.

(** ** Shared by the handlers *)

Definition paginated {V} (cx : context) (msg : string) (list : Z → Z → service (list V * nat))
    (page : List.list V → Pagination → payload) : prog response :=
  match ParsePaginationOffset (Query cx "page") (Query cx "limit") with
  | Err e => refuse 400 (text_of e)
  | Ok (p, limit, offset) =>
      finish (list limit offset) (λ _, internal msg) (λ '(items, total),
        reply 200 (page items (BuildPagination p limit (Z.of_nat total))))
  end.

Definition bound {Q} (body : result string Q) (k : Q → prog response) : prog response :=
  match body with Err msg => refuse 400 msg | Ok q => k q end.

Definition scoped {X} (cx : context) (op : ScopedCall X) : service X := call (CallScoped (Tenant cx) op).

Definition audited (cx : context) (action entityType entityID entityLabel : string) (changes : list (string * json))
    (k : prog response) : prog response :=
  RecordAudit (Tenant cx) (default "" (CallerID cx)) (ClientIP cx) action entityType entityID entityLabel changes k.

(** ** [membership_handler.go] *)

Record addMemberRequest := mkAddMember { MemberEmail : string; NewMemberRole : string }.

Definition with_uuid (raw msg : string) (k : string → prog response) : prog response :=
  match uuid_parse raw with None => refuse 400 msg | Some id => k id end.

Definition MembersAdd (cx : context) (body : result string addMemberRequest) : prog response :=
  with_uuid (Param cx "projectId") "invalid project ID" (λ projectID,
  bound body (λ req,
  let inviterID := match CallerID cx with
                   | Some s => default uuid_Nil (uuid_parse s) | None => uuid_Nil end in
  finish (MemberAdd projectID (MemberEmail req) (NewMemberRole req) inviterID)
    (on_error [(ErrInvalidMemberRole, (400, text_of ErrInvalidMemberRole));
               (ErrNoRows, (404, "no user found with that email address"));
               (ErrAlreadyMember, (409, "user is already a member of this project"))]
       "failed to add project member")
    (λ member,
       audited cx "member.add" "project" projectID (PMUsername member)
         [("target_user_id", JString (PMUser member)); ("role", JString (NewMemberRole req))]
         (reply 201 (OneMember member))))).

Definition LookupMemberByEmail (cx : context) : prog response :=
  let email := Query cx "email" in
  if String.eqb email "" then refuse 400 "email query parameter is required"
  else finish (call (CallUserByEmail email)) (on_error [(ErrNoRows, (404, "user not found"))] "failed to lookup user")
    (λ target, answer 200 [("id", JString (LookupID target)); ("username", JString (LookupUsername target));
                           ("email", JString (LookupEmail target))]).

Definition MembersChangeRole (cx : context) (body : result string string) : prog response :=
  with_uuid (Param cx "projectId") "invalid project ID" (λ projectID,
  with_uuid (Param cx "adminUserId") "invalid user ID" (λ targetUserID,
  bound body (λ role,
  finish (ChangeRole projectID targetUserID role)
    (on_error [(ErrInvalidMemberRole, (400, text_of ErrInvalidMemberRole));
               (ErrLastOwner, (409, "cannot demote the last owner of a project"));
               (ErrNotFound, (404, "membership not found"))] "failed to change member role")
    (λ _, audited cx "member.role_change" "project" projectID targetUserID [("new_role", JString role)]
            (answer 200 [("message", JString "role updated"); ("role", JString role)]))))).

Definition MembersRemove (cx : context) : prog response :=
  with_uuid (Param cx "projectId") "invalid project ID" (λ projectID,
  with_uuid (Param cx "adminUserId") "invalid user ID" (λ targetUserID,
  finish (RemoveMember projectID targetUserID)
    (on_error [(ErrLastOwner, (409, "cannot remove the last owner of a project"));
               (ErrIsProjectOwner, (409, "cannot remove the project owner; transfer ownership first"));
               (ErrNotFound, (404, "member not found"))] "failed to remove project member")
    (λ _, audited cx "member.remove" "project" projectID targetUserID []
            (answer 200 [("message", JString "member removed")])))).

Definition MembersList (cx : context) : prog response :=
  match Tenant cx with
  | None => internal "tenant context missing"
  | Some tc => paginated cx "failed to list project members"
      (λ limit offset, call (CallMembers (TenantProject tc) limit offset)) MemberPage
  end.

(** ** [project_handler.go] and [origin_validate.go] *)

Record projectRequest := mkProjectRequest {
  ProjectName : string; ProjectSlug : string; ProjectDescription : string; ProjectPlan : string }.

Definition ProjectsCreate (cx : context) (body : result string projectRequest) : prog response :=
  bound body (λ req,
  match CallerID cx with
  | None => refuse 401 "unauthenticated"
  | Some userID =>
      finish (CreateProject (ProjectName req) (ProjectSlug req) (ProjectDescription req) userID (ProjectPlan req))
        (on_error [(ErrSlugConflict, (409, "slug already exists"))] "failed to create project")
        (λ p, reply 201 (OneProject p))
  end).

Definition ProjectsList (cx : context) : prog response :=
  match CallerID cx with
  | None => refuse 401 "unauthenticated"
  | Some userID => paginated cx "failed to list projects" (λ l o, call (CallProjects userID l o)) ProjectPage
  end.

(** Neither of the two asks who the caller is. *)
Definition ProjectsUpdate (cx : context) (body : result string projectRequest) : prog response :=
  bound body (λ req,
  finish (call (CallProjectUpdate (Param cx "projectId") (ProjectName req) (ProjectDescription req) (ProjectPlan req)))
    (on_error [(ErrProjectNotFound, (404, "project not found"))] "failed to update project")
    (λ updatedAt, reply 200 (OneProject (mkProject "" (ProjectName req) "" (ProjectDescription req) "" false
       (ProjectPlan req) [] 0 updatedAt None)))).

Definition ProjectsDelete (cx : context) : prog response :=
  let id := Param cx "projectId" in
  finish (call (CallProjectDelete id))
    (on_error [(ErrProjectNotFound, (404, "project not found"))] "failed to delete project")
    (λ _, answer 200 [("message", JString "project deleted"); ("id", JString id)]).

Definition ProjectsSummary (cx : context) : prog response :=
  match Tenant cx with
  | None => internal "internal context error"
  | Some tc =>
      finish (GetProjectSummary (Tenant cx) (TenantProject tc) (UserRole tc))
        (on_error [(ErrProjectNotFound, (404, "project not found"))] "failed to get project summary")
        (λ s, reply 200 (SummaryOf s))
  end.

(** What [url.Parse] yields of an origin. *)
Record URL := mkURL { Scheme : string; Hostname : string; URLPath : string; RawQuery : string; Fragment : string }.
Context (url_Parse : string → option URL).

Definition validateOrigin (raw : string) : result origin_error unit :=
  match url_Parse raw with
  | None => Err InvalidOrigin
  | Some u =>
      let isLocalhost := String.eqb (Hostname u) "localhost" || HasSuffix (Hostname u) ".localhost" in
      if negb (String.eqb (Scheme u) "https") && negb (String.eqb (Scheme u) "http" && isLocalhost)
      then Err OriginScheme
      else if negb (String.eqb (URLPath u) "") || negb (String.eqb (RawQuery u) "") || negb (String.eqb (Fragment u) "")
      then Err OriginPath
      else if contains_byte "*" raw then Err OriginWildcard
      else Ok ()
  end.

Fixpoint first_bad_origin (origins : list string) : option (origin_error * string) :=
  match origins with
  | [] => None
  | o :: origins => match validateOrigin o with Err e => Some (e, o) | Ok _ => first_bad_origin origins end
  end.

Definition ProjectsOrigins (cx : context) (body : result string (list string)) : prog response :=
  bound body (λ origins,
  match first_bad_origin origins with
  | Some (e, o) => reply 400 (OriginRejected e o)
  | None =>
      finish (call (CallUpdateOrigins (Param cx "projectId") origins))
        (on_error [(ErrTooManyOrigins, (400, text_of ErrTooManyOrigins))] "failed to update dashboard origins")
        (λ _, answer 200 [("origins", JStrings origins)])
  end).

(** ** [route_handler.go] *)

Definition RoutesList (cx : context) : prog response :=
  paginated cx "failed to load routes" (λ l o, scoped cx (CallRoutes l o)) RoutePage.

(** The [model.Route] the service filled in and the repository completed. *)
Definition route_answer (id project name : string) (req : createRouteRequest) (created updated : Z) : Route.t :=
  let i := route_input req (or_else "prefix" (ReqMatchType req)) in
  Route.mk id project name (ReqPath req) (Some (ReqUpstreamID req)) "" (ReqMethods req) "" (InMatchType i)
    (ReqEnabled req) (InPolicyID i) false 0 [] [] [] [] [] created updated.

Definition route_changes (rt : Route.t) : list (string * json) :=
  [("name", JString (Route.Name rt)); ("path", JString (Route.Path rt));
   ("upstream_id", JString (default "" (Route.UpstreamID rt))); ("methods", JStrings (Route.Methods rt));
   ("match_type", JString (Route.MatchType rt)); ("enabled", JBool (Route.Enabled rt))].

Definition RoutesCreate (cx : context) (body : result string createRouteRequest) : prog response :=
  bound body (λ req,
  finish (CreateRoute (Tenant cx) req)
    (on_error [(ErrInvalidMatchType, (400, text_of ErrInvalidMatchType));
               (ErrRouteNameConflict, (409, "route name already exists"))] "internal server error")
    (λ x, let rt := route_answer (ID x) (Parent x) (RouteName (Columns x)) req (CreatedAt x) (UpdatedAt x) in
       audited cx "route.create" "route" (ID x) (ReqPath req) (route_changes rt) (reply 201 (OneRoute rt)))).

Definition with_id (param msg : string) (cx : context) (k : string → prog response) : prog response :=
  if String.eqb (Param cx param) "" then refuse 400 msg else k (Param cx param).

Definition RoutesUpdate (cx : context) (body : result string createRouteRequest) : prog response :=
  with_id "id" "route id is required" cx (λ id,
  bound body (λ req,
  finish (UpdateRoute (Tenant cx) id req)
    (on_error [(ErrInvalidMatchType, (400, text_of ErrInvalidMatchType));
               (ErrRouteNotFound, (404, "route not found"))] "internal server error")
    (λ x, let rt := route_answer (ID x) "" (ReqName req) req 0 (UpdatedAt x) in
       audited cx "route.update" "route" id (ReqPath req) (route_changes rt) (reply 200 (OneRoute rt))))).

(** Deletion and switching: the operation, the audit record, the message. *)
Definition route_op (cx : context) (op : string → ScopedCall unit) (action : string) (changes : list (string * json))
    (msg : string) : prog response :=
  with_id "id" "route id is required" cx (λ id,
  finish (scoped cx (op id)) (on_error [(ErrRouteNotFound, (404, "route not found"))] "internal server error")
    (λ _, audited cx action "route" id "" changes (answer 200 [("message", JString msg); ("id", JString id)]))).

Definition RoutesDelete (cx : context) : prog response := route_op cx CallRouteDelete "route.delete" [] "route deleted".
Definition RoutesDisable (cx : context) : prog response :=
  route_op cx CallRouteDisable "route.update" [("enabled", JBool false)] "route disabled".
Definition RoutesEnable (cx : context) : prog response :=
  route_op cx CallRouteEnable "route.update" [("enabled", JBool true)] "route enabled".

(** ** [upstream_handler.go] *)

Definition UpstreamsList (cx : context) : prog response :=
  paginated cx "failed to load upstreams" (λ l o, scoped cx (CallUpstreams l o)) UpstreamPage.

Definition upstream_changes (u : UpstreamColumns) : list (string * json) :=
  [("name", JString (UpstreamName u)); ("target_url", JString (TargetURL u)); ("protocol", JString (Protocol u));
   ("health_path", JString (HealthPath u)); ("enabled", JBool (UpstreamEnabled u));
   ("lb_strategy", JString (LBStrategy u))].

Definition upstream_errors (more : list (error * (Z * string))) : error → prog response :=
  on_error ([(ErrInvalidProtocol, (400, text_of ErrInvalidProtocol));
             (ErrInvalidLBStrategy, (400, text_of ErrInvalidLBStrategy))] ++ more) "internal server error".
Definition upstream_missing : error * (Z * string) := (ErrUpstreamNotFound, (404, "upstream not found")).

Definition UpstreamsCreate (cx : context) (body : result string UpstreamColumns) : prog response :=
  bound body (λ req,
  finish (CreateUpstream (Tenant cx) req) (upstream_errors [(ErrUpstreamNameConflict, (409, "upstream name already exists"))])
    (λ x, audited cx "upstream.create" "upstream" (ID x) (UpstreamName (Columns x)) (upstream_changes (Columns x))
            (reply 201 (OneUpstream x)))).

Definition UpstreamsUpdate (cx : context) (body : result string UpstreamColumns) : prog response :=
  let id := Param cx "id" in
  bound body (λ req,
  finish (UpdateUpstream (Tenant cx) id req) (upstream_errors [upstream_missing])
    (λ x, audited cx "upstream.update" "upstream" id (UpstreamName (Columns x)) (upstream_changes (Columns x))
            (reply 200 (OneUpstream x)))).

Definition upstream_op (cx : context) (op : string → ScopedCall unit) (action : string) (changes : list (string * json))
    (msg : string) : prog response :=
  let id := Param cx "id" in
  finish (scoped cx (op id)) (on_error [upstream_missing] "internal server error")
    (λ _, audited cx action "upstream" id "" changes (answer 200 [("message", JString msg); ("id", JString id)])).

Definition UpstreamsDisable (cx : context) : prog response :=
  upstream_op cx CallUpstreamDisable "upstream.update" [("enabled", JBool false)] "upstream disabled".
Definition UpstreamsDelete (cx : context) : prog response :=
  upstream_op cx CallUpstreamDelete "upstream.delete" [] "upstream deleted".

(** The URL of the probe, if [url.Parse] takes the target: its path joined with
    the health path. *)
Context (health_url : string → string → option string).

Definition UpstreamsHealth (cx : context) : prog response :=
  finish (scoped cx (CallUpstream (Param cx "id"))) (on_error [upstream_missing] "internal server error")
    (λ x,
       let u := Columns x in
       if negb (String.eqb (Protocol u) "http")
       then answer 200 [("status", JString "unsupported");
              ("reason", JString "health check probe is only supported for http protocol")]
       else match health_url (TargetURL u) (or_else "/health" (HealthPath u)) with
       | None => answer 200 [("status", JString "unhealthy"); ("reason", JString "invalid target_url")]
       | Some url =>
           HTTPGet url (λ r,
           match r with
           | None => answer 200 [("status", JString "unhealthy")]
           | Some code =>
               if (200 <=? code) && (code <? 300) then answer 200 [("status", JString "healthy")]
               else answer 200 [("status", JString "unhealthy"); ("status_code", JInt code)]
           end)
       end).

(** ** [upstream_target_handler.go] *)

Record addTargetRequest := mkAddTarget { ReqTargetURL : string; ReqWeight : Z; ReqTargetEnabled : option bool }.

Definition TargetsAdd (cx : context) (body : result string addTargetRequest) : prog response :=
  with_id "id" "upstream id is required" cx (λ upstreamID,
  bound body (λ req,
  finish (AddTarget (Tenant cx) upstreamID (ReqTargetURL req) (ReqWeight req) (default true (ReqTargetEnabled req)))
    (λ _, internal "internal server error")
    (λ x, let c := Columns x in
       audited cx "upstream.update" "upstream" upstreamID (PoolURL c)
         [("action", JString "target_add"); ("target_url", JString (PoolURL c)); ("weight", JInt (Weight c));
          ("enabled", JBool (TargetEnabled c))]
         (reply 201 (OneTarget x))))).

Definition TargetsList (cx : context) : prog response :=
  let upstreamID := Param cx "id" in
  if String.eqb upstreamID "" then answer 400 [("Error", JString "upstream id is required")]
  else finish (scoped cx (CallTargets upstreamID)) (λ _, internal "internal server error")
         (λ l, reply 200 (TargetList l)).

Definition TargetsRemove (cx : context) : prog response :=
  with_id "targetId" "target id is required" cx (λ targetID,
  finish (scoped cx (CallTargetRemove targetID))
    (on_error [(ErrUpstreamTargetNotFound, (404, "target not found"))] "internal server error")
    (λ _, audited cx "upstream.update" "upstream" targetID ""
            [("action", JString "target_remove"); ("target_id", JString targetID)]
            (answer 200 [("message", JString "target removed"); ("id", JString targetID)]))).

(** ** [policy_handler.go] *)

Definition PoliciesList (cx : context) : prog response :=
  paginated cx "failed to load policies" (λ l o, scoped cx (CallPolicies l o)) PolicyPage.

Definition policy_changes (p : PolicyColumns) : list (string * json) :=
  [("name", JString (PolicyName p)); ("auth_required", JBool (AuthRequired p));
   ("rate_limit_rpm", JInt (RateLimitRPM p)); ("allowed_origins", JStrings (AllowedOrigins p));
   ("allowed_roles", JStrings (AllowedRoles p)); ("allowed_scopes", JStrings (AllowedScopes p));
   ("ip_allowlist", JStrings (IPAllowlist p)); ("ip_blocklist", JStrings (IPBlocklist p))].

(** Errors of the checks carry their text. *)
Definition policy_errors (more : error * (Z * string)) (e : error) : prog response :=
  match e with
  | ErrNegativeRPM | ErrIPRule _ _ => refuse 400 (text_of e)
  | _ => on_error [more] "internal server error" e
  end.

Definition PoliciesCreate (cx : context) (body : result string PolicyColumns) : prog response :=
  bound body (λ req,
  finish (CreatePolicy (Tenant cx) req) (policy_errors (ErrPolicyNameConflict, (409, "policy name already exists")))
    (λ x, audited cx "policy.create" "policy" (ID x) (PolicyName req) (policy_changes req) (reply 201 (OnePolicy x)))).

Definition PoliciesUpdate (cx : context) (body : result string PolicyColumns) : prog response :=
  let id := Param cx "id" in
  bound body (λ req,
  finish (UpdatePolicy (Tenant cx) id req) (policy_errors (ErrPolicyNotFound, (404, "policy not found")))
    (λ x, audited cx "policy.update" "policy" id (PolicyName req) (policy_changes req)
            (reply 200 (OnePolicy (mkRow "" "" req 0 (UpdatedAt x) None))))).

Definition PoliciesDelete (cx : context) : prog response :=
  let id := Param cx "id" in
  finish (scoped cx (CallPolicyDelete id))
    (on_error [(ErrPolicyNotFound, (404, "policy not found"));
               (ErrPolicyInUse, (409, "policy is attached to active routes and cannot be deleted"))]
       "internal server error")
    (λ _, audited cx "policy.delete" "policy" id "" []
            (answer 200 [("message", JString "policy deleted"); ("id", JString id)])).

Definition PoliciesAssign (cx : context) (body : result string string) : prog response :=
  let routeID := Param cx "id" in
  bound body (λ policyID,
  finish (scoped cx (CallAssignPolicy routeID policyID))
    (on_error [(ErrRouteNotFound, (404, "route not found")); (ErrPolicyNotFound, (404, "policy not found"))]
       "internal server error")
    (λ _, audited cx "route.update" "route" routeID ""
            [("action", JString "assign_policy"); ("policy_id", JString policyID)]
            (answer 200 [("message", JString "policy assigned to route"); ("route_id", JString routeID);
                         ("policy_id", JString policyID)]))).

Definition PoliciesRemove (cx : context) : prog response :=
  let routeID := Param cx "id" in
  finish (scoped cx (CallRemovePolicy routeID))
    (on_error [(ErrRouteNotFound, (404, "route not found"))] "internal server error")
    (λ _, audited cx "route.update" "route" routeID "" [("action", JString "remove_policy")]
            (answer 200 [("message", JString "policy removed from route"); ("route_id", JString routeID)])).

(** ** [api_key_handler.go] *)

Record createApiKeyRequest := mkKeyRequest {
  ReqKeyName : string; ReqExpiresAt : option Z; ReqRoles : list string; ReqScopes : list string }.

(** The JSON of a key leaves out the hash. *)
Definition shown (x : row KeyColumns) : row KeyColumns :=
  let c := Columns x in
  mkRow (ID x) (Parent x) (mkKey (KeyName c) "" (KeyStatus c) (Roles c) (Scopes c) (ExpiresAt c))
    (CreatedAt x) (UpdatedAt x) None.

Definition KeysCreate (cx : context) (body : result string createApiKeyRequest) : prog response :=
  bound body (λ req,
  finish (CreateApiKey (Tenant cx) (ReqKeyName req) (ReqExpiresAt req) (ReqRoles req) (ReqScopes req))
    (λ _, internal "failed to save API key in database")
    (λ '(record, rawKey), let c := Columns record in
       audited cx "api_key.create" "api_key" (ID record) (KeyName c)
         [("name", JString (KeyName c)); ("expires_at", match ExpiresAt c with Some e => JTime e | None => JNull end);
          ("roles", JStrings (Roles c)); ("scopes", JStrings (Scopes c))]
         (reply 201 (NewKey (shown record) rawKey)))).

Definition KeysRotate (cx : context) : prog response :=
  with_id "id" "api key id is required" cx (λ id,
  finish (RotateApiKey (Tenant cx) id)
    (on_error [(ErrAPIKeyNotFound, (404, "api key not found"));
               (ErrAPIKeyRevoked, (409, "cannot rotate a revoked api key"))] "failed to rotate API key")
    (λ newRawKey, audited cx "api_key.rotate" "api_key" id "" []
       (answer 200 [("id", JString id); ("raw_key", JString newRawKey)]))).

Definition KeysRevoke (cx : context) : prog response :=
  with_id "id" "api key id is required" cx (λ id,
  finish (scoped cx (CallKeyRevoke id))
    (on_error [(ErrAPIKeyNotFound, (404, "api key not found"))] "failed to revoke API key")
    (λ _, audited cx "api_key.revoke" "api_key" id "" []
            (answer 200 [("message", JString "api key revoked"); ("id", JString id)]))).

Definition KeysList (cx : context) : prog response :=
  paginated cx "failed to list API keys" (λ l o, scoped cx (CallKeys l o)) (λ l, KeyPage (shown <$> l)).

(** ** [audit_log_handler.go] *)

Definition parseQueryInt (cx : context) (key : string) (fallback : Z) : Z :=
  if String.eqb (Query cx key) "" then fallback
  else match GatewayRepo.Atoi (Query cx key) with
       | Some v => if v <? 0 then fallback else v
       | None => fallback
       end.

Definition AuditLogsList (cx : context) : prog response :=
  let f := mkFilter (parseQueryInt cx "limit" 20) (parseQueryInt cx "offset" 0) (Query cx "actor") (Query cx "action")
    (Dates.ParseDate (Query cx "date_from"))
    ((λ d, d + 24 * 60 * minute) <$> Dates.ParseDate (Query cx "date_to")) in
  finish (scoped cx (CallAuditLogs f)) (λ _, internal "failed to retrieve audit logs")
    (λ '(logs, total), reply 200 (AuditPage logs (Z.of_nat total) (FilterOffset f) (FilterLimit f))).

(** ** [platform_handler.go]: tenants *)

Definition PlatformList (cx : context) : prog response :=
  paginated cx "failed to list tenants" (λ l o, call (CallAllProjects l o)) TenantPage.

Definition tenant_op (cx : context) (op : string → TenantRepository unit) (failed msg : string)
    (status : list (string * json)) : prog response :=
  with_id "projectId" "project id is required" cx (λ projectID,
  finish (call (op projectID)) (on_error [(ErrProjectNotFound, (404, "project not found"))] failed)
    (λ _, answer 200 ([("message", JString msg); ("project_id", JString projectID)] ++ status))).

Definition PlatformDelete (cx : context) : prog response :=
  tenant_op cx CallProjectDelete "failed to delete tenant" "tenant deleted" [].
Definition PlatformSuspend (cx : context) : prog response :=
  tenant_op cx CallSuspend "failed to suspend tenant" "tenant suspended" [("status", JString "suspended")].
Definition PlatformReactivate (cx : context) : prog response :=
  tenant_op cx CallReactivate "failed to reactivate tenant" "tenant reactivated" [("status", JString "active")].

End handlers.
End TenantHandlers.
