(* ===== verification/TenantJWT.v ===== *)
(** * Tenants: JWT authentication of a project

    [ProjectJWTConfigService] of
    [src/internal/admin/service/project_jwt_config_service.go] and the handlers of
    [project_jwt_config_handler.go].  The service coordinates the table of
    configurations and Secrets Manager: between a call to one and a call to the
    other, requests of others may run. *)

From stdpp Require Import gmap.
From S2P Require Import Prelude GoStrings Store Model TenantTables TenantRepo TenantResources.
From S2P Require Import TenantServices TenantHandlers ProjectJWT SecretManager.

Module TenantJWT.
Import TenantHandlers.
#[local] Open Scope Z_scope.

(** ** The adapter's methods as programs *)

Definition CreateSecret (name value : string) : prog (result SecretManager.error SecretManager.SecretReference) :=
  SecretManager.CreateSecret (λ X op k, Secrets op k) name value Done.
Definition UpdateSecret (secretID value : string) : prog (result SecretManager.error SecretManager.SecretReference) :=
  SecretManager.UpdateSecret (λ X op k, Secrets op k) secretID value Done.
Definition DeleteSecret (secretID : string) : prog (result SecretManager.error unit) :=
  SecretManager.DeleteSecret (λ X op k, Secrets op k) secretID Done.
Definition RestoreSecret (secretID : string) : prog (result SecretManager.error unit) :=
  SecretManager.RestoreSecret (λ X op k, Secrets op k) secretID Done.

(** ** The service *)

Section service.
Context (environment : string).                    (* cfg.AppEnv *)

Definition secret_name (p : string) : string :=
  ProjectJWT.projectJWTSecretName (ProjectJWT.normalizeEnvironment environment) p.

Definition jwt_call {X} (ctx : option TenantContext) (op : ScopedCall X) : service X := call (CallScoped ctx op).

Definition referenced (ref : SecretManager.SecretReference) : ProjectJWT.ProjectJWTConfig → ProjectJWT.ProjectJWTConfig :=
  ProjectJWT.with_secret (SecretManager.ARN ref) (SecretManager.VersionID ref).

(** A new secret and the row that names it; without the row the secret goes. *)
Definition persist_new (ctx : option TenantContext) (input : ProjectJWT.ProjectJWTConfigInput)
    (r : result SecretManager.error SecretManager.SecretReference) : service ProjectJWT.ProjectJWTConfig :=
  match r with
  | Err e => fail (ErrSecrets e)
  | Ok ref =>
      let! u := jwt_call ctx (CallJWTUpsert (referenced ref (ProjectJWT.configFromInput input))) in
      match u with
      | Ok cfg => ok cfg
      | Err e => let! _ := DeleteSecret (SecretManager.ARN ref) in fail e
      end
  end.

Definition create (ctx : option TenantContext) (input : ProjectJWT.ProjectJWTConfigInput)
    : service ProjectJWT.ProjectJWTConfig :=
  let secret := ProjectJWT.InSecret input in
  if String.eqb secret "" then fail (ErrJWTConfig ProjectJWT.SecretRequired)
  else match ctx with
  | None => fail ErrForbidden
  | Some tc =>
      let secretName := secret_name (TenantProject tc) in
      let! r := CreateSecret secretName secret in
      match r with
      | Err SecretManager.ErrSecretAlreadyExists =>
          let! _ := RestoreSecret secretName in
          let! r := UpdateSecret secretName secret in
          persist_new ctx input r
      | _ => persist_new ctx input r
      end
  end.

Definition update (ctx : option TenantContext) (current : ProjectJWT.ProjectJWTConfig)
    (input : ProjectJWT.ProjectJWTConfigInput) : service ProjectJWT.ProjectJWTConfig :=
  let next := ProjectJWT.adopt current (ProjectJWT.configFromInput input) in
  let secret := ProjectJWT.InSecret input in
  if String.eqb secret "" then
    if ProjectJWT.jwtConfigEquivalent current next then ok current
    else jwt_call ctx (CallJWTUpsert next)
  else
    let! r := UpdateSecret (ProjectJWT.SecretARN current) secret in
    match r with
    | Err e => fail (ErrSecrets e)
    | Ok ref => jwt_call ctx (CallJWTUpsert (referenced ref next))
    end.

Definition Configure (ctx : option TenantContext) (input : ProjectJWT.ProjectJWTConfigInput)
    : service ProjectJWT.ProjectJWTConfig :=
  match ProjectJWT.normalizeJWTConfigInput input with
  | Err e => fail (ErrJWTConfig e)
  | Ok normalized =>
      let! current := jwt_call ctx CallJWT in
      match current with
      | Ok current => update ctx current normalized
      | Err ErrProjectJWTConfigNotFound => create ctx normalized
      | Err e => fail e
      end
  end.

(** The row goes first; if the secret cannot be scheduled for deletion the row is
    put back. *)
Definition DeleteConfig (ctx : option TenantContext) : service unit :=
  try! current := jwt_call ctx CallJWT in
  try! _u := jwt_call ctx CallJWTDelete in
  let! r := DeleteSecret (ProjectJWT.SecretARN current) in
  match r with
  | Ok _ => ok ()
  | Err e => let! _ := jwt_call ctx (CallJWTUpsert current) in fail (ErrSecrets e)
  end.

End service.

(** ** The handlers *)

(** The body is over 16 KiB, or is no such object. *)
Inductive body_error := BodyTooLarge | BodyInvalid.

Section handlers.
Context (environment : string).

Definition JWTGetHandler (cx : context) : prog response :=
  finish (jwt_call (Tenant cx) CallJWT)
    (λ e, match e with
          | ErrProjectJWTConfigNotFound => reply 200 (JWTConfigOf (ProjectJWT.projectJWTResponse None))
          | _ => internal "failed to load JWT configuration"
          end)
    (λ cfg, reply 200 (JWTConfigOf (ProjectJWT.projectJWTResponse (Some cfg)))).

Definition audit_settings (cfg : ProjectJWT.ProjectJWTConfig) : list (string * json) :=
  [("enabled", JBool (ProjectJWT.Enabled cfg));
   ("algorithm", JString (ProjectJWT.Algorithm cfg));
   ("issuer", match ProjectJWT.Issuer cfg with Some i => JString i | None => JNull end);
   ("audiences", JStrings (ProjectJWT.Audiences cfg));
   ("subject_claim", JString (ProjectJWT.SubjectClaim cfg));
   ("role_claim", JString (ProjectJWT.RoleClaim cfg));
   ("scopes_claim", JString (ProjectJWT.ScopesClaim cfg));
   ("clock_skew_seconds", JInt (ProjectJWT.ClockSkewSeconds cfg))].

Definition JWTConfigureHandler (cx : context) (body : result body_error ProjectJWT.ProjectJWTConfigInput)
    : prog response :=
  match body with
  | Err BodyTooLarge => refuse 413 "JWT configuration request is too large"
  | Err BodyInvalid => refuse 400 "invalid JWT configuration"
  | Ok input =>
      finish (Configure environment (Tenant cx) input)
        (λ e, match e with
              | ErrJWTConfig e => refuse 400 (ProjectJWT.config_error_text e)
              | _ => internal "failed to configure project JWT authentication"
              end)
        (λ cfg, audited cx "project_jwt.configure" "project" (Param cx "projectId") "JWT authentication"
           (audit_settings cfg) (reply 200 (JWTConfigOf (ProjectJWT.projectJWTResponse (Some cfg)))))
  end.

Definition JWTDeleteHandler (cx : context) : prog response :=
  finish (DeleteConfig (Tenant cx))
    (on_error [(ErrProjectJWTConfigNotFound, (404, "JWT configuration not found"))]
       "failed to delete project JWT configuration")
    (λ _, audited cx "project_jwt.delete" "project" (Param cx "projectId") "JWT authentication" []
            (answer 204 [])).

End handlers.
End TenantJWT.
