(* ===== verification/TenantDomains.v ===== *)
(** * Tenants: custom domains

    The handlers of [src/internal/admin/handler/custom_domain_handler.go] over the
    service of [DomainService], whose requests to the repository and the resolver
    are those of the handler's program. *)

From stdpp Require Import gmap.
From S2P Require Import Prelude GoStrings Store Model TenantTables TenantRepo TenantResources.
From S2P Require Import TenantServices TenantHandlers ProjectJWT SecretManager TenantJWT CustomDomain DomainService.

Module TenantDomains.
Import TenantHandlers.
#[local] Open Scope Z_scope.

Abbreviation svc_error := DomainService.svc_error.

(** The configuration of the process that the services of a project read. *)
Record deployment := mkDeployment {
  AppEnv :> string;
  GatewayPublicHost : string;
  AutomationEnabled : bool;
}.

(** ** Methods of the service as programs *)

Fixpoint run_service {A} (p : DomainService.prog A) : prog (result svc_error A) :=
  match p with
  | DomainService.Done r => Done r
  | DomainService.Repo c k => Domains (DomainRepo c) (λ r, run_service (k r))
  | DomainService.LookupTXT name k => Domains (DomainTXT name) (λ r, run_service (k r))
  | DomainService.LookupCNAME host k => Domains (DomainCNAME host) (λ r, run_service (k r))
  end.

(** The random bytes and the new UUID are drawn first: nothing depends on when. *)
Definition with_random {A} (k : string → option string → prog A) : prog A :=
  RandRead 32 (λ r, Domains DomainNewID (λ id, k id ((λ l, bytes (Z.to_nat <$> l)) <$> r))).

(** ** Answers *)

Definition provisioning_string (s : CustomDomain.ProvisioningStatus) : string :=
  match s with
  | CustomDomain.NotStarted => "not_started"
  | CustomDomain.RequestingCertificate => "requesting_certificate"
  | CustomDomain.WaitingForValidationRecord => "waiting_for_validation_record"
  | CustomDomain.WaitingForDNS => "waiting_for_dns"
  | CustomDomain.WaitingForCertificate => "waiting_for_certificate"
  | CustomDomain.AttachingCertificate => "attaching_certificate"
  | CustomDomain.Completed => "completed"
  | CustomDomain.Failed => "failed"
  | CustomDomain.Deprovisioning => "deprovisioning"
  | CustomDomain.Deprovisioned => "deprovisioned"
  | CustomDomain.DeprovisionFailed => "deprovision_failed"
  end.

(** The JSON of a domain leaves out the token's hash, the deletion mark, the
    listener rule and the lease. *)
Definition shown_domain (c : CustomDomain.t) : CustomDomain.t :=
  let v := CustomDomain.verification c in
  CustomDomain.set_lease CustomDomain.no_lease (CustomDomain.set_rule (CustomDomain.mkRule None None)
    (CustomDomain.set_deleted None (CustomDomain.set_verification (CustomDomain.mkVerification ""
      (CustomDomain.VerificationRecordName v) (CustomDomain.FailureReason v) (CustomDomain.VerifiedAt v)
      (CustomDomain.LastCheckedAt v)) c))).

Definition provisioning_of (c : CustomDomain.t) : json := JString (provisioning_string (CustomDomain.pstatus c)).
Definition status_of (c : CustomDomain.t) : json := JString (CustomDomain.status_string (CustomDomain.Status c)).
Definition routing_of (c : CustomDomain.t) : json :=
  JString (CustomDomain.routing_string (CustomDomain.Routing_status (CustomDomain.routing c))).

Definition with_domain (status : Z) (msg : string) (more : list (string * json)) (c : CustomDomain.t) : prog response :=
  reply status (WithDomain ([("message", JString msg)] ++ more) (shown_domain c)).

(** The answer to work that goes on after it. *)
Definition accepted (msg status : string) (c : CustomDomain.t) : prog response :=
  with_domain 202 msg [("status", JString status); ("provisioningStatus", provisioning_of c)] c.

Definition not_found : svc_error * (Z * string) := (DomainService.ErrNotFound, (404, "custom domain not found")).
Definition automation_disabled : svc_error * (Z * string) :=
  (DomainService.ErrAutomationDisabled, (503, "automatic certificate provisioning is currently disabled")).

(** ** The handlers *)

Section handlers.
Context {DB : Database} (env : deployment).

Definition getTenantContext (cx : context) (k : TenantContext → prog response) : prog response :=
  match Tenant cx with None => internal "internal tenant context missing" | Some tc => k tc end.

(** A method of the service for the domain in the path. *)
Definition on_domain {X} (cx : context) (method : string → string → DomainService.prog X)
    (failed : svc_error → prog response) (k : string → X → prog response) : prog response :=
  getTenantContext cx (λ tc,
  with_uuid (Param cx "domainId") "invalid custom domain ID" (λ id,
  finish (run_service (method (TenantProject tc) id)) failed (k id))).

Definition DomainsCreate (cx : context) (body : option string) : prog response :=
  match body with
  | None => refuse 400 "hostname is required"
  | Some hostname =>
      match Tenant cx with
      | None => refuse 403 "tenant context missing"
      | Some tc =>
          with_random (λ newID random,
          finish (run_service (DomainService.CreateCustomDomain (GatewayPublicHost env) Sha256.sha256_hex newID random
                    (TenantProject tc) hostname))
            (on_error [(DomainService.ErrInvalidCustomDomainHostname,
                          (400, "invalid custom domain hostname: invalid hostname"));
                       (DomainService.ErrCustomDomainAlreadyExists, (409, "custom domain is already registered"))]
               "failed to register custom domain")
            (λ r, audited cx "custom_domain.create" "custom_domain" (DomainService.RespID r) (DomainService.RespHostname r)
               [("hostname", JString (DomainService.RespHostname r));
                ("status", JString (CustomDomain.status_string (DomainService.RespStatus r)))]
               (reply 201 (DomainCreated r))))
      end
  end.

Definition verify_failed (e : svc_error) : prog response :=
  match e with
  | DomainService.ErrVerificationRecordNotFound =>
      reply 422 (WithDetails [("error", JString "DNS verification TXT record was not found")]
                   [("record_name", JString "_elitegate-verification"); ("record_type", JString "TXT")])
  | _ => on_error [not_found; (DomainService.ErrVerificationTokenMismatch, (422, "DNS verification token does not match"))]
           "failed to verify custom domain" e
  end.

Definition DomainsVerify (cx : context) : prog response :=
  on_domain cx (DomainService.VerifyCustomDomain Sha256.sha256_hex) verify_failed (λ _ c,
    audited cx "custom_domain.verify" "custom_domain" (CustomDomain.ID c) (CustomDomain.Hostname c)
      [("status", status_of c)] (with_domain 200 "custom domain verified successfully" [] c)).

Definition DomainsList (cx : context) : prog response :=
  getTenantContext cx (λ tc,
  finish (run_service (DomainService.ListCustomDomains (TenantProject tc)))
    (λ _, internal "failed to list custom domains") (λ l, reply 200 (DomainList (shown_domain <$> l)))).

Definition DomainsGet (cx : context) : prog response :=
  on_domain cx DomainService.GetCustomDomain (on_error [not_found] "failed to get custom domain")
    (λ _ c, reply 200 (WithDomain [] (shown_domain c))).

Definition DomainsDelete (cx : context) : prog response :=
  on_domain cx (DomainService.DeleteCustomDomain (AutomationEnabled env))
    (on_error [automation_disabled; not_found] "failed to delete custom domain") (λ id c,
    audited cx "custom_domain.delete" "custom_domain" id (CustomDomain.Hostname c)
      [("provisioning_status", provisioning_of c)]
      (if bool_decide (CustomDomain.pstatus c = CustomDomain.Deprovisioned) || negb (CustomDomain.live c)
       then with_domain 200 "custom domain is already deprovisioned" [] c
       else accepted "custom domain deprovisioning started" "deprovisioning" c)).

Definition DomainsRetryDeprovisioning (cx : context) : prog response :=
  on_domain cx (DomainService.RetryDeprovisioning (AutomationEnabled env))
    (on_error [automation_disabled; not_found;
               (DomainService.ErrNotEligibleForRetry, (422, "custom domain is not eligible for deprovisioning retry"))]
       "failed to retry deprovisioning") (λ _ c,
    audited cx "custom_domain.retry_deprovisioning" "custom_domain" (CustomDomain.ID c) (CustomDomain.Hostname c)
      [("provisioning_status", provisioning_of c)]
      (accepted "custom domain deprovisioning retry initiated" "deprovisioning_restarted" c)).

Definition DomainsCheckRouting (cx : context) : prog response :=
  on_domain cx (DomainService.CheckCustomDomainRouting (GatewayPublicHost env))
    (on_error [not_found;
               (DomainService.ErrCustomDomainNotVerified,
                  (409, "custom domain ownership must be verified before checking routing"));
               (DomainService.ErrCNAMERecordNotFound, (422, "DNS CNAME record was not found"));
               (DomainService.ErrCNAMERoutingMismatch,
                  (422, "CNAME record does not point to the expected gateway target"))]
       "failed to check custom domain routing") (λ _ c,
    audited cx "custom_domain.check_routing" "custom_domain" (CustomDomain.ID c) (CustomDomain.Hostname c)
      [("routing_status", routing_of c);
       ("routing_target",
          match CustomDomain.RoutingTarget (CustomDomain.routing c) with Some t => JString t | None => JNull end)]
      (with_domain 200 "custom domain CNAME routing verified successfully" [] c)).

Definition DomainsActivate (cx : context) : prog response :=
  on_domain cx (DomainService.ActivateCustomDomain (AutomationEnabled env))
    (on_error [automation_disabled; not_found;
               (DomainService.ErrCustomDomainNotVerified, (422, "custom domain must be verified before activation"));
               (DomainService.ErrCustomDomainRoutingNotReady,
                  (422, "custom domain routing status must be ready before activation"))]
       "failed to activate custom domain") (λ _ '(c, state),
    audited cx "custom_domain.activate" "custom_domain" (CustomDomain.ID c) (CustomDomain.Hostname c)
      [("status", status_of c); ("routing_status", routing_of c); ("provisioning_status", provisioning_of c)]
      (match state with
       | DomainService.ActivationAlreadyActive => with_domain 200 "custom domain is already active" [] c
       | DomainService.ActivationInProgress =>
           accepted "custom domain provisioning in progress" "provisioning_in_progress" c
       | DomainService.ActivationQueued => accepted "custom domain provisioning initiated" "provisioning_started" c
       end)).

Definition DomainsGetProvisioningStatus (cx : context) : prog response :=
  on_domain cx DomainService.GetProvisioningStatus (on_error [not_found] "failed to get provisioning status")
    (λ _ r, reply 200 (DomainStatusOf r)).

Definition DomainsRetryProvisioning (cx : context) : prog response :=
  on_domain cx (DomainService.RetryProvisioning (AutomationEnabled env))
    (on_error [automation_disabled; not_found;
               (DomainService.ErrNotEligibleForRetry, (422, "custom domain is not eligible for retry"));
               (DomainService.ErrCustomDomainNotVerified,
                  (422, "custom domain must be verified before retrying provisioning"));
               (DomainService.ErrCustomDomainRoutingNotReady,
                  (422, "custom domain routing status must be ready before retrying provisioning"))]
       "failed to retry provisioning") (λ _ c,
    audited cx "custom_domain.retry_provisioning" "custom_domain" (CustomDomain.ID c) (CustomDomain.Hostname c)
      [("provisioning_status", provisioning_of c)]
      (accepted "custom domain provisioning retry initiated" "provisioning_restarted" c)).

End handlers.
End TenantDomains.
