(* ===== verification/TenantFacts.v ===== *)
(** * Tenants: what a call can change

    The data of a project, the footprint of a call, and that no call changes
    anything outside its footprint, whichever of its queries fail. *)

From stdpp Require Import gmap sorting.
From S2P Require Import Prelude GoStrings Store Transactions Model TenantTables TenantRepo TenantResources.
From S2P Require Import TenantServices.

Module TenantFacts.
Import TenantServices.

(** ** The data of a project *)

Definition owned {C} (p : string) (m : gmap string (row C)) : gmap string (row C) :=
  filter (λ '(_, x), Parent x = p) m.

(** Targets belong to upstreams: their table names no project. *)
Definition resources (p : string) (t : tenants) :=
  (owned p (routes t), owned p (upstreams t), owned p (policies t), owned p (api_keys t)).
Definition audit_trail (p : string) (t : tenants) : gmap string (row AuditColumns) := owned p (audit_logs t).

Record footprint := mkFootprint {
  may_resources : string → bool;
  may_members : string → bool;
  may_audit : string → bool;
  may_project : string → bool;
  may_jwt : string → bool;
}.

Record unchanged (fp : footprint) (t t' : tenants) : Prop := {
  same_resources p : may_resources fp p = false → resources p t' = resources p t;
  same_members p : may_members fp p = false → memberships p t' = memberships p t;
  same_audit p : may_audit fp p = false → audit_trail p t' = audit_trail p t;
  same_project p : may_project fp p = false → projects t' !! p = projects t !! p;
  same_jwt p : may_jwt fp p = false → jwt_configs t' !! p = jwt_configs t !! p;
  same_accounts : accounts t' = accounts t;
  same_gateways : gateways t' = gateways t;
}.

#[global] Instance unchanged_preorder fp : PreOrder (unchanged fp).
Proof.
  split; [by split|]. intros t1 t2 t3 [R1 M1 A1 P1 J1 C1 G1] [R2 M2 A2 P2 J2 C2 G2]. split; [| | | | |congruence..]; intros p Hp;
    [rewrite R2, R1|rewrite M2, M1|rewrite A2, A1|rewrite P2, P1|rewrite J2, J1]; done.
Qed.

Definition nowhere : string → bool := λ _, false.
Definition at_project (p : string) : string → bool := String.eqb p.
Definition reads_only : footprint := mkFootprint nowhere nowhere nowhere nowhere nowhere.

(** ** Tables *)

Lemma owned_update {C} (p q : string) (P : row C → bool) f (m : gmap string (row C)) :
  (∀ x, P x = true → Parent x = p) → (∀ x, Parent (f x) = Parent x) → q ≠ p →
  owned q (update_where P f m) = owned q m.
Proof.
  intros HP Hf Hq. apply map_eq. intros k. apply option_eq. intros y. unfold owned.
  rewrite !map_lookup_filter_Some, update_where_lookup.
  destruct (m !! k) as [x|]; [|naive_solver]. simpl. destruct (P x) eqn:Hx; [|naive_solver].
  apply HP in Hx. specialize (Hf x). split; intros [[= <-] ?]; congruence.
Qed.

Lemma owned_insert {C} (p q k : string) (x : row C) m :
  Parent x = p → (∀ y, m !! k = Some y → Parent y = p) → q ≠ p → owned q (<[k := x]> m) = owned q m.
Proof.
  intros Hx Hm Hq. apply map_eq. intros j. apply option_eq. intros y. unfold owned.
  rewrite !map_lookup_filter_Some. destruct (decide (j = k)) as [->|Hj]; [|by rewrite lookup_insert_ne].
  rewrite lookup_insert_eq. split; [intros [[= <-] ?]; congruence|].
  intros [H ?]. specialize (Hm _ H). congruence.
Qed.

(** A table whose rows of other projects are the same. *)
Class Confined (C : Type) `{!Resource C} (fp : footprint) (p : string) :=
  confined t (m : gmap string (row C)) :
    (∀ q, q ≠ p → owned q m = owned q (table t)) → unchanged fp t (set_table m t).

Section confined.
Context (fp : footprint) (p : string).

Ltac confine H := intros Hfp t m H; split; intros; try done;
  unfold resources, audit_trail; simpl; rewrite H; [done|]; intros ->; congruence.

Lemma confined_routes : may_resources fp p = true → Confined RouteColumns fp p.
Proof. confine H. Qed.
Lemma confined_upstreams : may_resources fp p = true → Confined UpstreamColumns fp p.
Proof. confine H. Qed.
Lemma confined_policies : may_resources fp p = true → Confined PolicyColumns fp p.
Proof. confine H. Qed.
Lemma confined_keys : may_resources fp p = true → Confined KeyColumns fp p.
Proof. confine H. Qed.
Lemma confined_audit : may_audit fp p = true → Confined AuditColumns fp p.
Proof. confine H. Qed.

End confined.

(** Targets are outside every footprint. *)
Lemma targets_free fp t m : unchanged fp t (set_targets m t).
Proof. by split. Qed.

Create HintDb confined.
#[export] Hint Resolve confined_routes confined_upstreams confined_policies confined_keys confined_audit : confined.

(** ** Through a method *)

Section methods.
Context {DB : Database}.

Lemma keeps_map_err {R X} (P : R → R → Prop) f (m : M R error X) : keeps P m → keeps P (map_err f m).
Proof.
  intros H d d' r. unfold map_err. destruct (m d) as [d1 [x|e]] eqn:Hm; intros [= <- _]; by eapply H.
Qed.

Lemma keeps_tenant_tx P `{!PreOrder P} {X} ctx (fn : TenantContext → option string → T X) :
  (∀ tc, ctx = Some tc → keeps (within P) (fn tc (Some (TenantProject tc)))) → keeps P (withTenantTx ctx fn).
Proof.
  intros H. unfold withTenantTx. destruct ctx as [tc|]; [|apply keeps_fail; exact _].
  apply keeps_with_tx; [exact _|]. apply keeps_bind; [exact _| |intros _; by apply H].
  apply keeps_tx_stmt; [exact _|]. by intros now t t' x [= <- _].
Qed.

Lemma keeps_project_or {R X} (P : R → R → Prop) `{!PreOrder P} e (o : option X) : keeps P (project_or e o).
Proof. destruct o; [by apply keeps_ret|by apply keeps_fail]. Qed.

End methods.

(** Down to the statements. *)
Ltac changes :=
  repeat first
    [ apply keeps_tenant_tx; [exact _|intros ? [= <-]] | apply keeps_map_err | apply keeps_with_tx; [exact _|]
    | apply keeps_stmt; [exact _|intros ? ? ? ? ?] | apply keeps_tx_stmt; [exact _|intros ? ? ? ? ?]
    | apply keeps_bind; [exact _| |intros ?] | apply keeps_fail; exact _ | apply keeps_ret; exact _ | apply keeps_if
    | apply keeps_project_or; exact _ ];
  try lazymatch goal with H : Ok _ = Ok _ |- _ => injection H as <- _; reflexivity end.

(** ** Statements *)

Section statements.
Context {DB : Database}.

Section resource.
Context {C : Type} `{!Resource C} (fp : footprint) (p : string).

Lemma select_one_spec s id q t (x : row C) :
  select_one s id q t = Some x → table t !! id = Some x ∧ visible s x = true ∧ Parent x = q ∧ live x = true.
Proof.
  unfold select_one. destruct (table t !! id) as [y|]; [|done]. destruct (_ && _) eqn:H; [|done].
  intros [= ->]. split_bool. unfold of_parent in *. by apply String.eqb_eq in H1.
Qed.

Lemma this_parent id q (x : row C) : this id q x = true → Parent x = q.
Proof. unfold this, of_parent. intros H. split_bool. by apply String.eqb_eq. Qed.

Lemma unchanged_insert s id c now t t' x :
  insert_row s id p c now t = Ok (t', x) → Confined C fp p → unchanged fp t t'.
Proof.
  unfold insert_row. destruct (visible _ _); [|done]. simpl. destruct (bool_decide _) eqn:Hk; [done|].
  destruct (refused _ _); [done|]. intros [= <- _] HC. apply confined. intros q Hq. apply (owned_insert p); [done| |done].
  intros y Hy. apply not_is_Some in Hk. congruence.
Qed.

Lemma unchanged_update_row s id f now t t' x :
  update_row (C := C) s id p f now t = Ok (t', x) → Confined C fp p → unchanged fp t t'.
Proof.
  unfold update_row. destruct (select_one _ _ _ _) as [y|] eqn:Hy; [|done].
  apply select_one_spec in Hy as (Hy & _ & Hp & _). destruct (refused _ _); [done|]. intros [= <- _] HC.
  apply confined. intros q Hq. apply (owned_insert p); [done| |done]. intros z Hz. congruence.
Qed.

Lemma unchanged_update_rows s (P : row C → bool) f now t t' n :
  update_rows s P f now t = Ok (t', n) → Confined C fp p →
  (∀ x, P x = true → Parent x = p) → (∀ now x, Parent (f now x) = Parent x) → unchanged fp t t'.
Proof.
  intros [= <- _] HC HP Hf. apply confined. intros q Hq. apply (owned_update p); try done.
  intros x Hx. split_bool. by apply HP.
Qed.

End resource.

Lemma unchanged_look {X} fp (f : tenants → X) now t t' x : look f now t = Ok (t', x) → unchanged fp t t'.
Proof. by intros [= <- _]. Qed.

Lemma unchanged_read {X} fp (f : tenants → option X) now t t' x : read f now t = Ok (t', x) → unchanged fp t t'.
Proof. unfold read. destruct (f t); [|done]. by intros [= <- _]. Qed.

Lemma unchanged_page {V} fp l o (f : tenants → list V) now t t' x :
  page_action l o f now t = Ok (t', x) → unchanged fp t t'.
Proof. unfold page_action. destruct (page_of _ _ _); [|done]. by intros [= <- _]. Qed.

Lemma typed_spec {X Y} (o : option X) (k : X → action Y) now t r :
  typed o k now t = Ok r → ∃ x, o = Some x ∧ k x now t = Ok r.
Proof. destruct o; [eauto|done]. Qed.

(** ** Calls *)

Definition scoped_footprint (p : string) {X} (op : ScopedCall X) : footprint :=
  match op with
  | CallRoutes _ _ | CallUpstreams _ _ | CallUpstream _ | CallTargets _ | CallPolicies _ _ | CallKeys _ _
  | CallAuditLogs _ | CallSummary | CallTargetAdd _ _ | CallTargetRemove _ | CallJWT => reads_only
  | CallJWTUpsert _ | CallJWTDelete => mkFootprint nowhere nowhere nowhere nowhere (at_project p)
  | CallAudit _ _ _ _ _ _ _ => mkFootprint nowhere nowhere (at_project p) nowhere nowhere
  | _ => mkFootprint (at_project p) nowhere nowhere nowhere nowhere
  end.

(** The table is in the footprint. *)
Ltac in_footprint :=
  first [ apply confined_routes | apply confined_upstreams | apply confined_policies | apply confined_keys
        | apply confined_audit ]; apply String.eqb_refl.

Lemma unchanged_targets_insert fp s id u c now t t' (x : row TargetColumns) :
  insert_row s id u c now t = Ok (t', x) → unchanged fp t t'.
Proof.
  unfold insert_row. destruct (visible _ _); [|done]. simpl. destruct (bool_decide _); [done|].
  destruct (refused _ _); [done|]. intros [= <- _]. apply targets_free.
Qed.

Lemma unchanged_targets_update fp s (P : row TargetColumns → bool) f now t t' n :
  update_rows s P f now t = Ok (t', n) → unchanged fp t t'.
Proof. intros [= <- _]. apply targets_free. Qed.

Lemma live_in_parent {C} p (x : row C) : live_in p x = true → Parent x = p.
Proof. unfold live_in, of_parent. intros ?. split_bool. by apply String.eqb_eq. Qed.

Ltac statement :=
  match goal with
  | H : typed _ _ _ _ = Ok _ |- _ => apply typed_spec in H as (? & ? & H); cbv beta in H; statement
  | H : ranged _ _ _ _ = Ok _ |- _ => unfold ranged in H; destruct (int4 _); [statement|done]
  | H : known_action _ _ _ _ = Ok _ |- _ => unfold known_action in H; destruct (_ || _); [statement|done]
  | H : Ok (?t, _) = Ok (?t', _) |- _ => injection H as <- _; reflexivity
  | H : look _ _ _ = Ok _ |- _ => by eapply unchanged_look
  | H : read _ _ _ = Ok _ |- _ => by eapply unchanged_read
  | H : page_action _ _ _ _ _ = Ok _ |- _ => by eapply unchanged_page
  | H : @insert_row _ TargetColumns _ _ _ _ _ _ _ = Ok _ |- _ => by eapply unchanged_targets_insert
  | H : @update_rows _ TargetColumns _ _ _ _ _ _ = Ok _ |- _ => by eapply unchanged_targets_update
  | H : insert_row _ _ _ _ _ _ = Ok _ |- _ => refine (unchanged_insert _ _ _ _ _ _ _ _ _ H _)
  | H : update_row _ _ _ _ _ _ = Ok _ |- _ => refine (unchanged_update_row _ _ _ _ _ _ _ _ _ H _)
  | H : update_rows _ _ _ _ _ = Ok _ |- _ => refine (unchanged_update_rows _ _ _ _ _ _ _ _ _ H _ _ _)
  end.

(** One operation: its statements, their tables, the rows they pick. *)
Ltac confine :=
  changes; try statement; try in_footprint; try done;
  try (intros ? ?; first [by eapply this_parent | split_bool; by apply live_in_parent]).

Section scoped.
Context (tc : TenantContext) (ids : fresh_ids).

Abbreviation writes op := (keeps (unchanged (scoped_footprint (TenantProject tc) op)) (scoped_call ids (Some tc) op)).

Lemma route_calls_confined {X} (op : ScopedCall X) :
  match op with
  | CallRouteCreate _ | CallRouteUpdate _ _ | CallRouteDelete _ | CallRouteDisable _ | CallRouteEnable _
  | CallAssignPolicy _ _ | CallRemovePolicy _ | CallRoutes _ _ => writes op
  | _ => True
  end.
Proof.
  destruct op; try done; simpl.
  - unfold RouteListAll, list_tx. confine.
  - unfold RouteCreate. confine.
  - unfold RouteUpdate. confine.
  - unfold RouteDelete. confine.
  - unfold RouteDisable. confine.
  - unfold RouteEnable. confine.
  - unfold AssignPolicy, affects. confine.
  - unfold RemovePolicy. confine.
Qed.

Lemma upstream_calls_confined {X} (op : ScopedCall X) :
  match op with
  | CallUpstreams _ _ | CallUpstream _ | CallUpstreamCreate _ | CallUpstreamUpdate _ _ | CallUpstreamDisable _
  | CallUpstreamDelete _ | CallTargets _ | CallTargetAdd _ _ | CallTargetRemove _ => writes op
  | _ => True
  end.
Proof.
  destruct op; try done; simpl.
  - unfold UpstreamListAll, list_tx. confine.
  - unfold UpstreamGetByID. confine.
  - unfold UpstreamCreate. confine.
  - unfold UpstreamUpdate. confine.
  - unfold UpstreamDisable. confine.
  - unfold UpstreamDelete. confine.
  - unfold ListByUpstream. confine.
  - unfold TargetAdd. confine.
  - unfold TargetRemove, affects. confine.
Qed.

Lemma policy_key_calls_confined {X} (op : ScopedCall X) :
  match op with
  | CallPolicies _ _ | CallPolicyCreate _ | CallPolicyUpdate _ _ | CallPolicyDelete _
  | CallKeys _ _ | CallKeyCreate _ _ _ _ _ | CallKeyRotate _ _ | CallKeyRevoke _ => writes op
  | _ => True
  end.
Proof.
  destruct op; try done; simpl.
  - unfold PolicyListAll, list_tx. confine.
  - unfold PolicyCreate. confine.
  - unfold PolicyUpdate. confine.
  - unfold PolicyDelete. confine.
  - unfold KeyListAll, list_tx. confine.
  - unfold KeyCreate. confine.
  - unfold KeyRotate. changes.
    + apply typed_spec in H as (? & ? & H). unfold revoke_returning in H.
      destruct (select_one _ _ _ _) as [old|] eqn:Hy; [|done]. injection H as <- _.
      apply select_one_spec in Hy as (Hy & _ & Hp & _). simpl in Hy. unfold store_row.
      refine (confined_keys _ (TenantProject tc) _ _ _ _); [apply String.eqb_refl|]. intros q Hq.
      apply (owned_insert (TenantProject tc)); [done| |done]. intros z Hz. simpl in Hz. congruence.
    + statement. in_footprint.
  - unfold KeyRevoke. confine.
Qed.

Lemma other_calls_confined {X} (op : ScopedCall X) :
  match op with CallAudit _ _ _ _ _ _ _ | CallAuditLogs _ | CallSummary => writes op | _ => True end.
Proof.
  destruct op; try done; simpl.
  - unfold AuditCreate. destruct (_ || _); confine.
  - unfold AuditList. confine.
  - unfold GetSummary. confine.
Qed.

Lemma unchanged_jwt fp p t m :
  may_jwt fp p = true → (∀ q, q ≠ p → m !! q = jwt_configs t !! q) → unchanged fp t (set_jwt m t).
Proof. intros Hfp H. split; intros; try done. simpl. apply H. intros ->. congruence. Qed.

Lemma jwt_calls_confined {X} (op : ScopedCall X) :
  match op with CallJWT | CallJWTUpsert _ | CallJWTDelete => writes op | _ => True end.
Proof.
  destruct op; try done; simpl.
  - unfold JWTGet. confine.
  - unfold JWTUpsert. changes. unfold upsert_jwt in H. cbv zeta in H. repeat (destruct (negb _); [done|]). injection H as <- _.
    apply (unchanged_jwt _ (TenantProject tc)); [apply String.eqb_refl|]. intros q Hq. by rewrite lookup_insert_ne.
  - unfold JWTDelete, affects. changes. destruct (jwt_config _ _ _); injection H as <- _; [|done].
    apply (unchanged_jwt _ (TenantProject tc)); [apply String.eqb_refl|]. intros q Hq. by rewrite lookup_delete_ne.
Qed.

Lemma scoped_calls_confined {X} (op : ScopedCall X) : writes op.
Proof.
  pose proof (route_calls_confined op). pose proof (upstream_calls_confined op).
  pose proof (policy_key_calls_confined op). pose proof (other_calls_confined op). pose proof (jwt_calls_confined op). by destruct op.
Qed.

End scoped.

(** ** The calls without a tenant *)

Definition named_project (raw : string) : string → bool := λ q, bool_decide (uuid_in raw = Some q).

Definition call_footprint (ids : fresh_ids) {X} (c : TenantRepository X) : footprint :=
  match c with
  | CallScoped (Some tc) op => scoped_footprint (TenantProject tc) op
  | CallInsertMember p _ _ _ | CallSetRole p _ _ | CallDeleteMember p _ =>
      mkFootprint nowhere (at_project p) nowhere nowhere nowhere
  | CallProjectCreate _ _ _ _ _ => mkFootprint nowhere (at_project (new_id ids)) nowhere (at_project (new_id ids)) nowhere
  | CallProjectUpdate id _ _ _ => mkFootprint nowhere nowhere nowhere (named_project id) nowhere
  | CallProjectDelete id => mkFootprint (named_project id) nowhere nowhere (named_project id) nowhere
  | CallSuspend p | CallReactivate p | CallUpdateOrigins p _ => mkFootprint nowhere nowhere nowhere (named_project p) nowhere
  | CallPruneAudit _ => mkFootprint nowhere nowhere (λ _, true) nowhere nowhere
  | _ => reads_only
  end.

Lemma unchanged_members fp p t m :
  may_members fp p = true → (∀ k, k.1 ≠ p → m !! k = members t !! k) → unchanged fp t (set_members m t).
Proof.
  intros Hfp H. split; intros; try done. unfold memberships. simpl. apply map_eq. intros k. apply option_eq.
  intros x. rewrite !map_lookup_filter_Some. destruct (decide (k.1 = p)); [|by rewrite H].
  assert (k.1 ≠ p0) by congruence. naive_solver.
Qed.

Lemma unchanged_projects fp p t m :
  may_project fp p = true → (∀ q, q ≠ p → m !! q = projects t !! q) → unchanged fp t (set_projects m t).
Proof. intros Hfp H. split; intros; try done. simpl. apply H. intros ->. congruence. Qed.

Lemma unchanged_insert_member fp p u role inv now t t' x :
  insert_member p u role inv now t = Ok (t', x) → may_members fp p = true → unchanged fp t t'.
Proof.
  unfold insert_member. intros H Hfp. destruct (negb _); [done|]. destruct (bool_decide _); [done|].
  destruct (negb _); [done|]. injection H as <- _. apply (unchanged_members _ p); [done|].
  intros k Hk. rewrite lookup_insert_ne; [done|]. intros <-. done.
Qed.

Lemma unchanged_update_project fp id f now t t' o :
  update_project id f now t = Ok (t', o) → (∀ p, uuid_in id = Some p → may_project fp p = true) → unchanged fp t t'.
Proof.
  unfold update_project. intros H Hfp. apply typed_spec in H as (p & Hp & H).
  destruct (projects t !! p) as [pr|]; [|by injection H as <- _]. destruct (project_live pr); [|by injection H as <- _].
  injection H as <- _. apply (unchanged_projects _ p); [by apply Hfp|]. intros q Hq. by rewrite lookup_insert_ne.
Qed.

Lemma unchanged_delete_of {C} `{!Resource C} fp id (f : Z → row C → row C) now t t' n :
  delete_of id f now t = Ok (t', n) → (∀ now x, Parent (f now x) = Parent x) →
  (∀ p, uuid_in id = Some p → Confined C fp p) → unchanged fp t t'.
Proof.
  unfold delete_of. intros H Hf HC. apply typed_spec in H as (p & Hp & H).
  refine (unchanged_update_rows _ p _ _ _ _ _ _ _ H (HC p Hp) _ Hf). apply live_in_parent.
Qed.

Lemma named_project_eq id p : uuid_in id = Some p → named_project id p = true.
Proof. intros. by apply bool_decide_eq_true. Qed.

#[local] Hint Resolve named_project_eq String.eqb_refl : core.

Lemma project_delete_confined ids id : keeps (unchanged (call_footprint ids (CallProjectDelete id))) (ProjectDelete id).
Proof.
  unfold ProjectDelete. changes.
  - eapply (unchanged_delete_of (C := KeyColumns)); [exact H|done|]. intros p Hp. apply confined_keys. by apply named_project_eq.
  - eapply (unchanged_delete_of (C := RouteColumns)); [exact H|done|]. intros p Hp. apply confined_routes. by apply named_project_eq.
  - eapply (unchanged_delete_of (C := UpstreamColumns)); [exact H|done|]. intros p Hp. apply confined_upstreams. by apply named_project_eq.
  - eapply unchanged_update_project; [exact H|]. apply named_project_eq.
Qed.

(** A project is made whole and new. *)
Lemma insert_project_spec p now t t' x :
  insert_project p now t = Ok (t', x) →
  x = p ∧ projects t !! ProjectID p = None ∧ t' = set_projects (<[ProjectID p := p]> (projects t)) t.
Proof.
  unfold insert_project. destruct (negb _); [done|]. destruct (bool_decide _) eqn:Hk; [done|].
  destruct (existsb _ _); [done|]. destruct (negb _); [done|]. intros [= <- <-].
  by apply not_is_Some in Hk.
Qed.

Lemma project_create_confined ids n s d o p :
  keeps (unchanged (call_footprint ids (CallProjectCreate n s d o p))) (ProjectCreate (new_id ids) n s d o p).
Proof.
  unfold ProjectCreate. apply keeps_with_tx; [exact _|]. apply keeps_bind_from; [exact _| |].
  - changes. apply typed_spec in H as (owner & _ & H). apply insert_project_spec in H as (-> & _ & ->).
    apply (unchanged_projects _ (new_id ids)); [apply String.eqb_refl|].
    intros q Hq. by rewrite lookup_insert_ne.
  - intros pr (d1 & d2 & Hpr).
    assert (Hid : ProjectID pr = new_id ids).
    { unfold map_err in Hpr. destruct (tx_stmt _ d1) as [d3 [x|e]] eqn:Hs; [|done]. injection Hpr as _ ->.
      apply tx_stmt_spec in Hs as (_ & t & t' & _ & _ & Hs). apply typed_spec in Hs as (owner & _ & Hs).
      by apply insert_project_spec in Hs as (-> & _). }
    changes. eapply unchanged_insert_member; [exact H|]. rewrite Hid. apply String.eqb_refl.
Qed.

Lemma tx_ok_map_err {X} f now t (m : T X) Q : tx_ok now t m Q → tx_ok now t (map_err f m) Q.
Proof.
  intros H d d' x Ht Hc. unfold map_err. destruct (m d) as [d1 [y|e]] eqn:Hm; [|done]. intros [= <- <-]. by apply H.
Qed.

Lemma tx_frame_map_err {X} f (m : T X) : tx_frame m → tx_frame (map_err f m).
Proof. intros H d d' r. unfold map_err. destruct (m d) as [d1 [y|e]] eqn:Hm; intros [= <- _]; by eapply H. Qed.

(** A project is created where there was none, with its owner as a member. *)
Definition project_created (newID : string) (t t' : tenants) (p : Project) : Prop :=
  ProjectID p = newID ∧ projects t !! newID = None ∧ IsActive p = true ∧ ProjectDeletedAt p = None ∧
  ∃ m, MemberRole m = "owner" ∧ members t !! (newID, OwnerID p) = None ∧
    t' = set_members (<[(newID, OwnerID p) := m]> (members t)) (set_projects (<[newID := p]> (projects t)) t).

Lemma project_create_spec newID n s d o pl st st' r :
  ProjectCreate newID n s d o pl st = (st', r) →
  match r with
  | Ok p => project_created newID (tables st) (tables st') p
  | Err _ => tables st' = tables st
  end.
Proof.
  unfold ProjectCreate. intros H.
  apply (with_tx_spec _ (project_created newID (tables st))) in H as [_ H]; [exact H| |].
  { apply tx_frame_bind; [apply tx_frame_map_err|intros p]; framed. }
  apply tx_ok_bind, tx_ok_map_err, tx_ok_stmt. intros t' p (owner & _ & H')%typed_spec.
  apply insert_project_spec in H' as (-> & Hnone & ->). simpl in Hnone |- *.
  apply tx_ok_bind, tx_ok_stmt. intros t' [] H'. apply tx_ok_ret. split_and!; try done.
  unfold insert_member in H'. destruct (negb _); [done|]. destruct (bool_decide _) eqn:Hk; [done|].
  destruct (negb _); [done|]. injection H' as <-. apply not_is_Some in Hk.
  eexists. split; [|split; [exact Hk|reflexivity]]. done.
Qed.

Theorem tenant_calls_confined ids {X} (c : TenantRepository X) :
  keeps (unchanged (call_footprint ids c)) (tenant_call ids c).
Proof.
  destruct c; simpl.
  - destruct ctx as [tc|]; [apply scoped_calls_confined|].
    destruct op; simpl; try (by apply keeps_fail; exact _); try (by apply keeps_map_err, keeps_fail; exact _).
    + unfold RouteListAll. confine.
    + unfold AuditCreate. destruct (_ || _); apply keeps_fail; exact _.
  - unfold ValidateMembership. confine.
  - unfold ProjectIsActive. confine.
  - unfold SelectMember. confine.
  - unfold InsertMember. changes. eapply unchanged_insert_member; [exact H|apply String.eqb_refl].
  - unfold CountOwners. confine.
  - unfold SetRole. changes. destruct (negb _); [done|]. destruct (members t !! _); injection H as <- _; [|done].
    apply (unchanged_members _ projectID); [apply String.eqb_refl|]. intros k Hk.
    rewrite lookup_insert_ne; [done|]. by intros <-.
  - unfold SelectProjectOwner. confine.
  - unfold DeleteMember. changes. destruct (members t !! _); injection H as <- _; [|done].
    apply (unchanged_members _ projectID); [apply String.eqb_refl|]. intros k Hk.
    rewrite lookup_delete_ne; [done|]. by intros <-.
  - unfold ListMembers. confine.
  - unfold FindUserByEmail. confine.
  - apply project_create_confined.
  - unfold ListForUser. confine.
  - unfold ProjectUpdate. changes. eapply unchanged_update_project; [exact H|apply named_project_eq].
  - apply (project_delete_confined ids).
  - unfold ListAllGlobal. confine.
  - unfold Suspend. changes. eapply unchanged_update_project; [exact H|apply named_project_eq].
  - unfold Reactivate. changes. eapply unchanged_update_project; [exact H|apply named_project_eq].
  - unfold UpdateDashboardOrigins. changes. eapply unchanged_update_project; [exact H|apply named_project_eq].
  - unfold IsSuperAdmin. confine.
  - unfold PruneAuditLogs. changes. injection H as <- _. by split.
Qed.

End statements.

End TenantFacts.
