(* ===== verification/TenantViews.v ===== *)
(** * Tenants: what a call can see

    A reading call of a project answers alike on any two databases that agree on
    the project, when the role is subject to row-level security. *)

From stdpp Require Import gmap sorting.
From S2P Require Import Prelude GoStrings Store Transactions Model TenantTables TenantRepo TenantResources.
From S2P Require Import TenantServices TenantFacts.

Module TenantViews.
Import TenantServices TenantFacts.

(** Two databases agree on a project: its rows, the targets of its upstreams,
    and the accounts, which are common to all. *)
Record same_view (p : string) (t t' : tenants) : Prop := {
  view_resources : resources p t = resources p t';
  view_members : memberships p t = memberships p t';
  view_audit : audit_trail p t = audit_trail p t';
  view_gateways : owned p (gateways t) = owned p (gateways t');
  view_project : projects t !! p = projects t' !! p;
  view_targets u x : upstreams t !! u = Some x → Parent x = p → owned u (targets t) = owned u (targets t');
  view_accounts : accounts t = accounts t';
  view_jwt : jwt_configs t !! p = jwt_configs t' !! p;
}.

Lemma owned_lookup {C} p (m m' : gmap string (row C)) k x :
  owned p m = owned p m' → m !! k = Some x → Parent x = p → m' !! k = Some x.
Proof.
  intros H Hk Hp. assert (Ho : owned p m !! k = Some x) by by apply map_lookup_filter_Some.
  rewrite H in Ho. by apply map_lookup_filter_Some in Ho as [? _].
Qed.

#[global] Instance same_view_equivalence p : Equivalence (same_view p).
Proof.
  split; [by split| |].
  - intros t t' [R M A G P T' C J]. split; try done. intros u x Hu Hp. symmetry. apply (T' u x); [|done].
    apply (owned_lookup p (upstreams t')); [|done..]. by injection R.
  - intros t1 t2 t3 [R1 M1 A1 G1 P1 T1 C1 J1] [R2 M2 A2 G2 P2 T2 C2 J2]. split; try congruence.
    intros u x Hu Hp. rewrite (T1 u x), (T2 u x); try done.
    apply (owned_lookup p (upstreams t1)); [|done..]. by injection R1.
Qed.

(** A table whose rows of the project two such databases share. *)
Class Viewed (C : Type) `{!Resource C} := {
  viewed p t t' : same_view p t t' → owned p (table t) = owned p (table t');
  viewed_secured : secured (C := C) = true;
}.

#[global] Instance viewed_routes : Viewed RouteColumns.
Proof. split; [|done]. intros p t t' [R _ _ _ _ _ _ _]. by injection R. Qed.
#[global] Instance viewed_upstreams : Viewed UpstreamColumns.
Proof. split; [|done]. intros p t t' [R _ _ _ _ _ _ _]. by injection R. Qed.
#[global] Instance viewed_policies : Viewed PolicyColumns.
Proof. split; [|done]. intros p t t' [R _ _ _ _ _ _ _]. by injection R. Qed.
#[global] Instance viewed_keys : Viewed KeyColumns.
Proof. split; [|done]. intros p t t' [R _ _ _ _ _ _ _]. by injection R. Qed.
#[global] Instance viewed_gateways : Viewed unit.
Proof. split; [|done]. by intros p t t' []. Qed.
#[global] Instance viewed_audit : Viewed AuditColumns.
Proof. split; [|done]. by intros p t t' []. Qed.

Section views.
Context {DB : Database}.
Context (Hrls : row_security = true).

Section table.
Context {C : Type} `{!Resource C, !Viewed C}.

Lemma visible_parent p (x : row C) : visible (Some p) x = true → Parent x = p.
Proof. unfold visible. rewrite viewed_secured, Hrls. simpl. apply String.eqb_eq. Qed.

(** A selection among the rows of the project. *)
Lemma select_owned s (P : row C → bool) p t :
  (∀ x, visible s x && P x = true → Parent x = p) →
  select s P t = scan (rows (filter (λ '(_, x), visible s x && P x = true) (owned p (table t)))).
Proof.
  intros H. unfold select, owned. f_equal. f_equal. apply map_eq. intros k. apply option_eq. intros x.
  rewrite !map_lookup_filter_Some. naive_solver.
Qed.

Lemma select_same s (P : row C → bool) p t t' :
  same_view p t t' → (∀ x, visible s x && P x = true → Parent x = p) → select s P t = select s P t'.
Proof. intros Hv H. rewrite !(select_owned s P p) by done. by rewrite (viewed p t t' Hv). Qed.

Lemma select_session p (P : row C → bool) t t' :
  same_view p t t' → select (Some p) P t = select (Some p) P t'.
Proof. intros Hv. eapply select_same; [done|]. intros x Hx. split_bool. by apply visible_parent. Qed.

Lemma select_one_same s id p t t' : same_view p t t' → select_one (C := C) s id p t = select_one s id p t'.
Proof.
  intros Hv. apply option_eq. intros x. pose proof (viewed p t t' Hv) as Ho.
  assert (Hd : ∀ t t', owned p (table t) = owned p (table t') →
    select_one (C := C) s id p t = Some x → select_one s id p t' = Some x); [|by split; apply Hd].
  clear. intros t t' Ho H. pose proof (select_one_spec _ _ _ _ _ H) as (Hx & Hvis & Hp & Hl).
  unfold select_one. rewrite (owned_lookup p (table t) _ _ _ Ho Hx Hp), Hvis, Hl. unfold of_parent.
  by rewrite Hp, String.eqb_refl.
Qed.

Lemma joined_same p t t' id :
  same_view p t t' → joined (C := C) (Some p) t id = joined (Some p) t' id.
Proof.
  intros Hv. destruct id as [id|]; [|done]. unfold joined.
  assert (Hd : ∀ t t' x, owned p (table t) = owned p (table t') →
    table (C := C) t !! id = Some x → visible (Some p) x = true → table t' !! id = Some x).
  { intros u u' x Ho Hx Hvis. eapply owned_lookup; [done..|]. by apply visible_parent. }
  pose proof (viewed p t t' Hv) as Ho.
  destruct (table (C := C) t !! id) as [x|] eqn:Hx; [destruct (visible (Some p) x) eqn:Hvis|].
  - by rewrite (Hd t t' x Ho Hx Hvis), Hvis.
  - simpl. destruct (table (C := C) t' !! id) as [y|] eqn:Hy; [|done]. destruct (visible (Some p) y) eqn:Hvy; [|done].
    rewrite (Hd t' t y (eq_sym Ho) Hy Hvy) in Hx. congruence.
  - destruct (table (C := C) t' !! id) as [y|] eqn:Hy; [|done]. destruct (visible (Some p) y) eqn:Hvy; [|done].
    by rewrite (Hd t' t y (eq_sym Ho) Hy Hvy) in Hx.
Qed.

End table.

Lemma route_list_same p before P t t' :
  same_view p t t' → route_list (Some p) before P t = route_list (Some p) before P t'.
Proof.
  intros Hv. unfold route_list. rewrite (select_session p P t t' Hv). f_equal. apply list_fmap_ext.
  intros i x _. unfold route_view. by rewrite !(joined_same p t t' _ Hv).
Qed.

Lemma target_list_same p u t t' : same_view p t t' → target_list (Some p) u t = target_list (Some p) u t'.
Proof.
  intros Hv. unfold target_list. rewrite <-(joined_same p t t' _ Hv). destruct (joined _ t _) as [x|] eqn:Hj; [|done].
  unfold joined in Hj. destruct (upstreams t !! u) as [y|] eqn:Hy; simpl in Hj; rewrite Hy in Hj; [|done].
  destruct (visible _ y) eqn:Hvis; [|done].
  assert (Ho : owned u (targets t) = owned u (targets t')).
  { apply (view_targets p t t' Hv u y Hy). by apply (visible_parent (C := UpstreamColumns)). }
  f_equal. unfold select. f_equal. f_equal. simpl.
  assert (Hf : ∀ m : gmap string (row TargetColumns),
    filter (λ '(_, x), visible (Some p) x && live_in u x = true) m =
    filter (λ '(_, x), visible (Some p) x && live_in u x = true) (owned u m)); [|by rewrite Hf, Ho, <-Hf].
  intros m. apply map_eq. intros k. apply option_eq. intros z. unfold owned. rewrite !map_lookup_filter_Some.
  split; [intros [? H]|naive_solver]. split_and!; try done. split_bool. by apply live_in_parent.
Qed.

Lemma member_list_same p t t' : same_view p t t' → member_list p t = member_list p t'.
Proof.
  intros Hv. unfold member_list. rewrite (view_members p t t' Hv).
  assert (Hm : member_view t = member_view t'); [|by rewrite Hm].
  unfold member_view. by rewrite (view_accounts p t t' Hv).
Qed.

Lemma audit_list_same f p t t' : same_view p t t' → audit_list f p t = audit_list f p t'.
Proof.
  intros Hv. unfold audit_list, audit_where, actor_of. rewrite (view_accounts p t t' Hv). f_equal. f_equal.
  eapply select_same; [done|]. intros x Hx. split_bool. by apply String.eqb_eq.
Qed.

Lemma summary_same p now t t' :
  same_view p t t' → summary_metrics (Some p) p now t = summary_metrics (Some p) p now t'.
Proof.
  intros Hv. unfold summary_metrics, count_rows. rewrite (member_list_same p t t' Hv).
  f_equal; f_equal; by apply select_session.
Qed.

(** *** The statements and calls *)

Abbreviation view p := (same_view p).
Abbreviation view_tx p := (λ a b : tenants * bool, same_view p a.1 b.1 ∧ a.2 = b.2).

Lemma same_look {X} p (f : tenants → X) : (∀ t t', same_view p t t' → f t = f t') → same_read (view p) (look f).
Proof. intros H now t t' Hv. simpl. split_and!; auto. Qed.

Lemma same_read_opt {X} p (f : tenants → option X) :
  (∀ t t', same_view p t t' → f t = f t') → same_read (view p) (read f).
Proof. intros H now t t' Hv. unfold read. rewrite (H t t' Hv). by destruct (f t'). Qed.

Lemma same_page {V} p l o (f : tenants → list V) :
  (∀ t t', same_view p t t' → f t = f t') → same_read (view p) (page_action l o f).
Proof. intros H now t t' Hv. unfold page_action. rewrite (H t t' Hv). by destruct (page_of _ _ _). Qed.

Lemma same_typed {X Y} p (o : option X) (k : X → action Y) :
  (∀ x, same_read (view p) (k x)) → same_read (view p) (typed o k).
Proof. intros H. by destruct o; [apply H|]. Qed.

Lemma same_known {X} p f (k : action X) : same_read (view p) k → same_read (view p) (known_action f k).
Proof. unfold known_action. by destruct (_ || _). Qed.

Lemma same_map_err {R X} (rel : R → R → Prop) f (m : M R error X) : same_reply rel m → same_reply rel (map_err f m).
Proof.
  intros H d d' Hd. unfold map_err. destruct (H d d' Hd) as [H1 H2].
  destruct (m d) as [d1 [x|e]], (m d') as [d1' [x'|e']]; simpl in *; by simplify_eq.
Qed.

(** The transaction of [withTenantTx]. *)
Lemma same_tenant_tx {X} p (body : T X) :
  same_reply (view_tx p) body →
  same_reply (view p) (with_tx (let* _ := tx_stmt (λ _ t, Ok (t, ())) in body)%store).
Proof.
  intros H. apply same_with_tx, same_bind; [|done]. apply same_tx_stmt. by intros now t t' Hv.
Qed.

Lemma same_list_tx {V} p l o (f : tenants → list V) :
  (∀ t t', same_view p t t' → f t = f t') → same_reply (view_tx p) (list_tx l o f).
Proof.
  intros H. apply same_bind; [|intros total; apply same_bind; [|intros vs; apply same_ret]].
  - apply same_tx_stmt, same_look. intros t t' Hv. by rewrite (H t t' Hv).
  - by apply same_tx_stmt, same_page.
Qed.

(** The calls that read. *)
Definition reads {X} (op : ScopedCall X) : bool :=
  match op with
  | CallRoutes _ _ | CallUpstreams _ _ | CallUpstream _ | CallTargets _ | CallPolicies _ _ | CallKeys _ _
  | CallAuditLogs _ | CallSummary | CallJWT => true
  | _ => false
  end.

Lemma scoped_reads_same tc ids {X} (op : ScopedCall X) :
  reads op = true → same_reply (view (TenantProject tc)) (scoped_call ids (Some tc) op).
Proof.
  destruct op; try done; intros _; simpl.
  - apply same_tenant_tx, same_list_tx. intros t t' Hv. by apply route_list_same.
  - apply same_tenant_tx, same_list_tx. intros t t' Hv. unfold upstream_list. f_equal. by apply select_session.
  - apply same_map_err, same_tenant_tx, same_tx_stmt, same_typed. intros u. apply same_read_opt. intros t t'.
    apply select_one_same.
  - apply same_tenant_tx, same_tx_stmt, same_typed. intros u. apply same_look. intros t t'. apply target_list_same.
  - apply same_tenant_tx, same_list_tx. intros t t' Hv. unfold policy_list. f_equal. by apply select_session.
  - apply same_tenant_tx, same_list_tx. intros t t' Hv. unfold key_list. f_equal. by apply select_session.
  - apply same_bind; [|intros total; apply same_bind; [|intros logs; apply same_ret]].
    + apply same_stmt, same_known, same_look. intros t t' Hv. by rewrite (audit_list_same f _ t t').
    + apply same_stmt, same_known, same_page. intros t t'. apply audit_list_same.
  - apply same_map_err, same_tenant_tx, same_tx_stmt. intros now t t' Hv. unfold read.
    assert (Hp : live_project (TenantProject tc) t = live_project (TenantProject tc) t').
    { unfold live_project. by rewrite (view_project _ t t' Hv). }
    rewrite Hp, (summary_same _ now t t' Hv). by destruct (live_project _ t').
  - apply same_map_err, same_tenant_tx, same_tx_stmt, same_read_opt. intros t t' Hv. unfold jwt_config.
    by rewrite (view_jwt _ t t' Hv).
Qed.

(** C16: a reading call of a project replies the same on any two databases that
    agree on the rows of the project, whatever the other projects hold: nothing of
    them is seen.  The role must be subject to row-level security. *)
Theorem reads_isolated tc ids {X} (op : ScopedCall X) d d' :
  reads op = true → store_rel (same_view (TenantProject tc)) d d' →
  (scoped_call ids (Some tc) op d).2 = (scoped_call ids (Some tc) op d').2.
Proof. intros Hop Hd. by apply (scoped_reads_same tc ids op Hop d d' Hd). Qed.

End views.
End TenantViews.
