(* ===== verification/TenantSystem.v ===== *)
(** * Tenants: the routes and the system

    The routes of [src/internal/admin/router.go] for projects and their resources:
    [AdminAuth], then for a project [ProjectScope] and [RBAC], for the platform
    [SuperAdminOnly]; any number of requests interleaved between their calls, each
    with the history of its calls and their replies; and what evidence in the
    history of its own request each call rests on. *)

From Stdlib Require Import Ascii.
From stdpp Require Import gmap.
From S2P Require Import Prelude GoStrings Store Transactions Model AdminAccess TenantTables TenantRepo.
From S2P Require Import TenantResources TenantServices TenantHandlers TenantJWT TenantDomains TenantFacts.
From S2P Require Import ProjectJWT SecretManager Hostname CustomDomain DomainService.

Module TenantSystem.
Export TenantHandlers TenantJWT TenantDomains TenantFacts.

(** ** Routes *)

(** Under [/v1/projects/:projectId]. *)
Inductive project_route :=
| GetSummaryRoute
| PutOrigins (body : result string (list string))
| GetRoutes | PostRoute (body : result string createRouteRequest) | PutRoute (body : result string createRouteRequest)
| DisableRoute | EnableRoute | DeleteRoute
| PostRoutePolicy (body : result string string) | DeleteRoutePolicy
| GetUpstreams | PostUpstream (body : result string UpstreamColumns) | GetUpstreamHealth
| PutUpstream (body : result string UpstreamColumns) | DisableUpstream | DeleteUpstream
| GetTargets | PostTarget (body : result string addTargetRequest) | DeleteTarget
| GetPolicies | PostPolicy (body : result string PolicyColumns) | PutPolicy (body : result string PolicyColumns)
| DeletePolicy
| GetMembers | GetMemberLookup | PostMember (body : result string addMemberRequest)
| PutMember (body : result string string) | DeleteMemberRoute
| GetKeys | PostKey (body : result string createApiKeyRequest) | PostKeyRotate | DeleteKey
| GetAuditLogs
| GetJWT | PutJWT (body : result body_error ProjectJWT.ProjectJWTConfigInput) | DeleteJWT
| GetDomains | GetDomain | PostDomain (body : option string) | VerifyDomain | DeleteDomain | CheckDomainRouting
| ActivateDomain | GetDomainStatus | RetryDomain | RetryDomainRemoval.

Definition required_role (r : project_route) : string :=
  match r with
  | GetSummaryRoute | GetRoutes | GetUpstreams | GetUpstreamHealth | GetTargets | GetPolicies | GetMembers
  | GetKeys | GetAuditLogs | GetDomains | GetDomain | GetDomainStatus => "viewer"
  | PutOrigins _ | DeletePolicy | GetMemberLookup | PostMember _ | PutMember _ | DeleteMemberRoute
  | GetJWT | PutJWT _ | DeleteJWT
  | PostDomain _ | VerifyDomain | DeleteDomain | CheckDomainRouting | ActivateDomain | RetryDomain
  | RetryDomainRemoval => "owner"
  | _ => "editor"
  end.

Inductive endpoint :=
| InProject (r : project_route)
| PostProject (body : result string projectRequest)
| GetProjects
| PutProject (body : result string projectRequest)
| DeleteProject
| PlatformProjects
| PlatformDeleteProject
| PlatformSuspendProject
| PlatformReactivateProject.

Record request := mkRequest {
  Authorization : string;
  Params : string → string;
  Queries : string → string;
  RequestIP : string;
  Endpoint : endpoint;
}.

(** What happened: a request came, a call returned, a clock was read, the
    pruner woke. *)
Inductive event :=
| EvRequest (q : request)
| EvCall {X : Type} (c : TenantRepository X) (r : result error X)
| EvNow (t : Z)
| EvSecret {X : Type} (op : SecretManager.SDK X) (r : X)
| EvDomain {X : Type} (op : DomainOp X) (r : X).

(** A task is a program under way, with the history of its own events. *)
Abbreviation task := (list event * prog response)%type.

Section system.
Context {DB : Database} `{!JWT AdminToken.AdminClaims}.
Context (tokens : AdminToken.AdminTokenManager).
Context (url_Parse : string → option URL) (health_url : string → string → option string).
Context (environment : deployment).

Definition handle (r : project_route) (cx : context) : prog response :=
  match r with
  | GetSummaryRoute => ProjectsSummary cx
  | PutOrigins b => ProjectsOrigins url_Parse cx b
  | GetRoutes => RoutesList cx
  | PostRoute b => RoutesCreate cx b
  | PutRoute b => RoutesUpdate cx b
  | DisableRoute => RoutesDisable cx
  | EnableRoute => RoutesEnable cx
  | DeleteRoute => RoutesDelete cx
  | PostRoutePolicy b => PoliciesAssign cx b
  | DeleteRoutePolicy => PoliciesRemove cx
  | GetUpstreams => UpstreamsList cx
  | PostUpstream b => UpstreamsCreate cx b
  | GetUpstreamHealth => UpstreamsHealth health_url cx
  | PutUpstream b => UpstreamsUpdate cx b
  | DisableUpstream => UpstreamsDisable cx
  | DeleteUpstream => UpstreamsDelete cx
  | GetTargets => TargetsList cx
  | PostTarget b => TargetsAdd cx b
  | DeleteTarget => TargetsRemove cx
  | GetPolicies => PoliciesList cx
  | PostPolicy b => PoliciesCreate cx b
  | PutPolicy b => PoliciesUpdate cx b
  | DeletePolicy => PoliciesDelete cx
  | GetMembers => MembersList cx
  | GetMemberLookup =>
      Lookups (default "" (CallerID cx)) (λ allowed,
        if allowed : bool then LookupMemberByEmail cx else refuse 429 "too many lookup requests, slow down")
  | PostMember b => MembersAdd cx b
  | PutMember b => MembersChangeRole cx b
  | DeleteMemberRoute => MembersRemove cx
  | GetKeys => KeysList cx
  | PostKey b => KeysCreate cx b
  | PostKeyRotate => KeysRotate cx
  | DeleteKey => KeysRevoke cx
  | GetAuditLogs => AuditLogsList cx
  | GetJWT => JWTGetHandler cx
  | PutJWT b => JWTConfigureHandler environment cx b
  | DeleteJWT => JWTDeleteHandler cx
  | GetDomains => DomainsList cx
  | GetDomain => DomainsGet cx
  | PostDomain b => DomainsCreate environment cx b
  | VerifyDomain => DomainsVerify cx
  | DeleteDomain => DomainsDelete environment cx
  | CheckDomainRouting => DomainsCheckRouting environment cx
  | ActivateDomain => DomainsActivate environment cx
  | GetDomainStatus => DomainsGetProvisioningStatus cx
  | RetryDomain => DomainsRetryProvisioning environment cx
  | RetryDomainRemoval => DomainsRetryDeprovisioning environment cx
  end.

Definition dispatch (e : endpoint) (cx : context) : prog response :=
  match e with
  | InProject r => ProjectScope cx (λ cx, RBAC (required_role r) cx (handle r))
  | PostProject b => ProjectsCreate cx b
  | GetProjects => ProjectsList cx
  | PutProject b => ProjectsUpdate cx b
  | DeleteProject => ProjectsDelete cx
  | PlatformProjects => SuperAdminOnly cx PlatformList
  | PlatformDeleteProject => SuperAdminOnly cx PlatformDelete
  | PlatformSuspendProject => SuperAdminOnly cx PlatformSuspend
  | PlatformReactivateProject => SuperAdminOnly cx PlatformReactivate
  end.

Definition serve (q : request) : prog response :=
  Now (λ t,
  match AdminToken.AdminAuth tokens t (Authorization q) with
  | Err (status, msg) => refuse status msg
  | Ok (id, _) => dispatch (Endpoint q) (mkContext (Params q) (Queries q) (Some id) None (RequestIP q))
  end).

(** [StartAuditLogPruner]: six months. *)
Definition pruneAge : Z := 180 * 24 * 60 * minute.
Definition prune_tick : prog response := Repo (CallPruneAudit pruneAge) (λ _, Done (mkResponse 0 (Fields []))).

(** ** Steps *)

(** The log has the events of all tasks. *)
Record sys := mkSys { db : store tenants; cache : SummaryCache; log : list event; tasks : list task }.

(** Sign-up adds an account with a project of its own ([SignupTx]), which the
    constraints of [projects] admit; an account may become inactive; gateways come
    and go. *)
Definition set_accounts (m : gmap string Account) (t : tenants) : tenants :=
  mkTenants m (projects t) (members t) (routes t) (upstreams t) (targets t) (policies t) (api_keys t) (gateways t)
    (audit_logs t) (jwt_configs t).

Inductive elsewhere (t : tenants) : tenants → Prop :=
| e_account a : elsewhere t (set_accounts (<[AccountID a := a]> (accounts t)) t)
| e_signup a p m :
    accounts t !! AccountID a = None → projects t !! ProjectID p = None → OwnerID p = AccountID a →
    (∀ u, members t !! (ProjectID p, u) = None) →
    MemberProject m = ProjectID p → MemberUser m = AccountID a → MemberRole m = "owner" → InvitedBy m = None →
    project_checks p = true → slug_free t p →
    elsewhere t (set_members (<[(ProjectID p, AccountID a) := m]> (members t))
      (set_projects (<[ProjectID p := p]> (projects t)) (set_accounts (<[AccountID a := a]> (accounts t)) t)))
| e_gateways m : elsewhere t (set_gateways m t).

Inductive step : sys → sys → Prop :=
| s_begin d ch L ts q :
    step (mkSys d ch L ts) (mkSys d ch (L ++ [EvRequest q]) (ts ++ [([EvRequest q], serve q)]))
| s_prune d ch L ts : step (mkSys d ch L ts) (mkSys d ch L (ts ++ [([], prune_tick)]))
| s_call {X} d ch L l1 h (c : TenantRepository X) k l2 ids d' r :
    tenant_call ids c d = (d', r) →
    step (mkSys d ch L (l1 ++ (h, Repo c k) :: l2)) (mkSys d' ch (L ++ [EvCall c r]) (l1 ++ (h ++ [EvCall c r], k r) :: l2))
| s_now d ch L l1 h k l2 t :
    step (mkSys d ch L (l1 ++ (h, Now k) :: l2)) (mkSys d ch (L ++ [EvNow t]) (l1 ++ (h ++ [EvNow t], k t) :: l2))
| s_rand d ch L l1 h n k l2 r :
    step (mkSys d ch L (l1 ++ (h, RandRead n k) :: l2)) (mkSys d ch L (l1 ++ (h, k r) :: l2))
| s_ask d ch L l1 h p k l2 now :
    step (mkSys d ch L (l1 ++ (h, AskCache p k) :: l2)) (mkSys d ch L (l1 ++ (h, k (CacheGet now ch p)) :: l2))
| s_put d ch L l1 h p s k l2 now :
    step (mkSys d ch L (l1 ++ (h, PutCache p s k) :: l2)) (mkSys d (CacheSet now p s ch) L (l1 ++ (h, k) :: l2))
| s_lookups d ch L l1 h u k l2 b :
    step (mkSys d ch L (l1 ++ (h, Lookups u k) :: l2)) (mkSys d ch L (l1 ++ (h, k b) :: l2))
| s_http d ch L l1 h u k l2 r :
    step (mkSys d ch L (l1 ++ (h, HTTPGet u k) :: l2)) (mkSys d ch L (l1 ++ (h, k r) :: l2))
| s_secret {X} d ch L l1 h (op : SecretManager.SDK X) k l2 r :
    step (mkSys d ch L (l1 ++ (h, Secrets op k) :: l2)) (mkSys d ch (L ++ [EvSecret op r]) (l1 ++ (h ++ [EvSecret op r], k r) :: l2))
| s_domain {X} d ch L l1 h (op : DomainOp X) k l2 r :
    step (mkSys d ch L (l1 ++ (h, Domains op k) :: l2)) (mkSys d ch (L ++ [EvDomain op r]) (l1 ++ (h ++ [EvDomain op r], k r) :: l2))
| s_answer d ch L l1 h a l2 : step (mkSys d ch L (l1 ++ (h, Done a) :: l2)) (mkSys d ch L (l1 ++ l2))
| s_crash d ch L l1 x l2 : step (mkSys d ch L (l1 ++ x :: l2)) (mkSys d ch L (l1 ++ l2))
| s_elsewhere d ch L ts t' :
    elsewhere (tables d) t' → step (mkSys d ch L ts) (mkSys (with_tables t' d) ch L ts)
| s_env d ch L ts now fs : step (mkSys d ch L ts) (mkSys (mkStore (tables d) now (supply d) fs) ch L ts).

Inductive reachable (t0 : tenants) : sys → Prop :=
| r_init d : tables d = t0 → reachable t0 (mkSys d ∅ [] [])
| r_step s s' : reachable t0 s → step s s' → reachable t0 s'.

(** ** Evidence *)

Section evidence.
Context (L : list event).

(** A request with a token that is valid when it is checked. *)
Definition caller (q : request) (id : string) : Prop :=
  EvRequest q ∈ L ∧ ∃ t name, EvNow t ∈ L ∧ AdminToken.AdminAuth tokens t (Authorization q) = Ok (id, name).

(** The caller of a request for the project was found a member of it with the
    role, and the project active. *)
Definition member_of (q : request) (tc : TenantContext) : Prop :=
  ∃ id, caller q id ∧ uuid_parse id = Some (TenantUser tc) ∧
    uuid_parse (Params q "projectId") = Some (TenantProject tc) ∧
    EvCall (CallValidateMembership (TenantProject tc) (TenantUser tc)) (Ok (UserRole tc)) ∈ L ∧
    EvCall (CallIsActive (TenantProject tc)) (Ok true) ∈ L.

Definition authorised (minRole : string) (tc : TenantContext) : Prop :=
  ∃ q, member_of q tc ∧ permits minRole (UserRole tc) = true.

Definition authorised_for (minRole projectID : string) : Prop :=
  ∃ tc, TenantProject tc = projectID ∧ authorised minRole tc.

Definition platform_admin : Prop :=
  ∃ q id, caller q id ∧ EvCall (CallIsSuperAdmin id) (Ok true) ∈ L.

(** PUT and DELETE of [/v1/projects/:projectId] check the token only. *)
Definition unscoped (raw : string) : Prop :=
  ∃ q id, caller q id ∧ Params q "projectId" = raw ∧
    match Endpoint q with PutProject _ | DeleteProject => True | _ => False end.

(** The role an operation needs. *)
Definition op_role {X} (op : ScopedCall X) : string :=
  match op with
  | CallRoutes _ _ | CallUpstreams _ _ | CallUpstream _ | CallTargets _ | CallPolicies _ _ | CallKeys _ _
  | CallAuditLogs _ | CallSummary | CallAudit _ _ _ _ _ _ _ => "viewer"
  | CallPolicyDelete _ | CallJWT | CallJWTUpsert _ | CallJWTDelete => "owner"
  | _ => "editor"
  end.

(** The member that goes is not the owner the project names, and if it was seen
    as an owner there were two. *)
Definition may_leave (p u : string) : Prop :=
  (∃ o, EvCall (CallProjectOwner p) (Ok o) ∈ L ∧ o ≠ u) ∧
  ∃ role, EvCall (CallSelectMember p u) (Ok role) ∈ L ∧
    (role = "owner" → ∃ n, EvCall (CallCountOwners p) (Ok n) ∈ L ∧ 1 < n).

Definition may_change (p u role : string) : Prop :=
  ∃ current, EvCall (CallSelectMember p u) (Ok current) ∈ L ∧ current ≠ role ∧
    (current = "owner" → ∃ n, EvCall (CallCountOwners p) (Ok n) ∈ L ∧ 1 < n).

(** *** JWT authentication *)

(** An owner of the project sent the input. *)
Definition asked (q : request) (tc : TenantContext) (input : ProjectJWT.ProjectJWTConfigInput) : Prop :=
  member_of q tc ∧ permits "owner" (UserRole tc) = true ∧ Endpoint q = InProject (PutJWT (Ok input)).

(** An owner of the project sent the secret, and it has 32 to 4096 bytes. *)
Definition supplied (tc : TenantContext) (value : string) : Prop :=
  (32 ≤ len value ≤ 4096)%nat ∧ ∃ q input, asked q tc input ∧ ProjectJWT.InSecret input = value.

Definition jwt_read (tc : TenantContext) (cfg : ProjectJWT.ProjectJWTConfig) : Prop :=
  EvCall (CallScoped (Some tc) CallJWT) (Ok cfg) ∈ L.

(** The secret of the project, by its name or by the ARN of the row read. *)
Definition addressed (tc : TenantContext) (id : string) : Prop :=
  id = TrimSpace (secret_name environment (TenantProject tc)) ∨
  ∃ cfg, jwt_read tc cfg ∧ id = TrimSpace (ProjectJWT.SecretARN cfg).

(** Secrets Manager made the version from a secret an owner of the project sent. *)
Definition made (tc : TenantContext) (arn version : string) : Prop :=
  ∃ value a v, supplied tc value ∧
    SecretManager.secretReference a v = Ok (SecretManager.mkReference arn version) ∧
    (EvSecret (SecretManager.SDKCreateSecret (TrimSpace (secret_name environment (TenantProject tc))) value) (Ok (a, v)) ∈ L ∨
     ∃ id, addressed tc id ∧ EvSecret (SecretManager.SDKPutSecretValue id value) (Ok (a, v)) ∈ L).

(** The settings are those read, or those an owner sent. *)
Definition settings_basis (tc : TenantContext) (cfg : ProjectJWT.ProjectJWTConfig) : Prop :=
  (∃ old, jwt_read tc old ∧ ProjectJWT.settings cfg = ProjectJWT.settings old) ∨
  ∃ q input n, asked q tc input ∧ ProjectJWT.normalizeJWTConfigInput input = Ok n ∧
    ProjectJWT.settings cfg = ProjectJWT.settings (ProjectJWT.configFromInput n).

Definition secret_basis (tc : TenantContext) (cfg : ProjectJWT.ProjectJWTConfig) : Prop :=
  (∃ old, jwt_read tc old ∧ ProjectJWT.SecretARN cfg = ProjectJWT.SecretARN old ∧
     ProjectJWT.SecretVersionID cfg = ProjectJWT.SecretVersionID old) ∨
  made tc (ProjectJWT.SecretARN cfg) (ProjectJWT.SecretVersionID cfg).

(** The secret of the project, or by the ARN that came with a version of it. *)
Definition secret_of (tc : TenantContext) (id : string) : Prop :=
  addressed tc id ∨ ∃ arn version, made tc arn version ∧ id = TrimSpace arn.

(** On what each request to Secrets Manager rests. *)
Definition secret_guard {X} (op : SecretManager.SDK X) : Prop :=
  ∃ tc, authorised "owner" tc ∧
  match op with
  | SecretManager.SDKCreateSecret id value =>
      supplied tc value ∧ id = TrimSpace (secret_name environment (TenantProject tc))
  | SecretManager.SDKPutSecretValue id value => supplied tc value ∧ addressed tc id
  | SecretManager.SDKDeleteSecret id | SecretManager.SDKRestoreSecret id => secret_of tc id
  | SecretManager.SDKGetSecretValue _ _ => False
  end.

(** *** Custom domains *)

(** An owner of the project sent a request for the route and the domain. *)
Definition asked_domain (tc : TenantContext) (r : project_route) (id : string) : Prop :=
  ∃ q, member_of q tc ∧ permits "owner" (UserRole tc) = true ∧ Endpoint q = InProject r ∧
    uuid_parse (Params q "domainId") = Some id.

(** ... and the row of the domain was found in the project. *)
Definition found_domain (tc : TenantContext) (r : project_route) (c : CustomDomain.t) : Prop :=
  ∃ id, asked_domain tc r id ∧
    EvDomain (DomainRepo (DomainService.CallGetByIDForProject id (TenantProject tc))) (Ok c) ∈ L.

Definition asked_hostname (tc : TenantContext) (hostname : string) : Prop :=
  ∃ q raw, member_of q tc ∧ permits "owner" (UserRole tc) = true ∧ Endpoint q = InProject (PostDomain (Some raw)) ∧
    Hostname.NormalizeHostname raw = Ok hostname.

Definition named (c : CustomDomain.t) (id projectID : string) : Prop :=
  id = CustomDomain.ID c ∧ projectID = CustomDomain.ProjectID c.

(** Neither verified nor routed nor provisioned. *)
Definition unverified (c : CustomDomain.t) : Prop :=
  CustomDomain.pstatus c = CustomDomain.NotStarted ∧ CustomDomain.Status c = CustomDomain.PendingVerification ∧
  CustomDomain.Routing_status (CustomDomain.routing c) = CustomDomain.RoutingPending.

(** On what each call of the repository of custom domains rests. *)
Definition domain_basis (tc : TenantContext) {X} (c : DomainService.CustomDomainRepository X) : Prop :=
  match c with
  | DomainService.CallHostnameExists _ => authorised "owner" tc
  | DomainService.CallCreate c =>
      CustomDomain.ProjectID c = TenantProject tc ∧ unverified c ∧ asked_hostname tc (CustomDomain.Hostname c)
  | DomainService.CallGetByIDForProject _ pid | DomainService.CallListByProject pid
  | DomainService.CallGetActiveProjectGatewayIngress pid => authorised "viewer" tc ∧ pid = TenantProject tc
  | DomainService.CallMarkVerified id pid | DomainService.CallRecordVerificationFailure id pid _ =>
      ∃ c, found_domain tc VerifyDomain c ∧ named c id pid
  | DomainService.CallUpdateRoutingStatus id pid _ _ _ => ∃ c, found_domain tc CheckDomainRouting c ∧ named c id pid
  | DomainService.CallEnqueueProvisioning id pid => asked_domain tc ActivateDomain id ∧ pid = TenantProject tc
  | DomainService.CallResetProvisioningForRetry id pid target =>
      ∃ c, (found_domain tc ActivateDomain c ∨ found_domain tc RetryDomain c) ∧ named c id pid ∧
        target = DomainService.retry_target c
  | DomainService.CallEnqueueDeprovisioning id pid => asked_domain tc DeleteDomain id ∧ pid = TenantProject tc
  | DomainService.CallResetDeprovisioningForRetry id pid => asked_domain tc RetryDomainRemoval id ∧ pid = TenantProject tc
  | DomainService.CallMarkActive _ _ | DomainService.CallSoftDelete _ _
  | DomainService.CallMarkDeprovisionFailed _ _ _ => False
  end.

Definition domain_guard {X} (op : DomainOp X) : Prop :=
  ∃ tc, match op with DomainRepo c => domain_basis tc c | _ => authorised "owner" tc end.

(** An upsert stores settings and a secret that have their basis. *)
Definition op_basis (tc : TenantContext) {X} (op : ScopedCall X) : Prop :=
  match op with CallJWTUpsert cfg => settings_basis tc cfg ∧ secret_basis tc cfg | _ => True end.

(** On what each call rests. *)
Definition guard {X} (c : TenantRepository X) : Prop :=
  match c with
  | CallScoped ctx op => ∃ tc, ctx = Some tc ∧ authorised (op_role op) tc ∧ op_basis tc op
  | CallValidateMembership _ u => ∃ q id, caller q id ∧ uuid_parse id = Some u
  | CallIsActive p => ∃ u role, EvCall (CallValidateMembership p u) (Ok role) ∈ L
  | CallSelectMember p _ | CallCountOwners p | CallProjectOwner p => authorised_for "owner" p
  | CallInsertMember p _ role _ => authorised_for "owner" p ∧ member_role role = true
  | CallSetRole p u role => authorised_for "owner" p ∧ member_role role = true ∧ may_change p u role
  | CallDeleteMember p u => authorised_for "owner" p ∧ may_leave p u
  | CallMembers p _ _ => authorised_for "viewer" p
  | CallUserByEmail _ => ∃ p, authorised_for "owner" p
  | CallProjectCreate _ _ _ owner _ => ∃ q, caller q owner
  | CallProjects u _ _ => ∃ q, caller q u
  | CallProjectUpdate raw _ _ _ => unscoped raw
  | CallProjectDelete raw => unscoped raw ∨ platform_admin
  | CallAllProjects _ _ | CallSuspend _ | CallReactivate _ => platform_admin
  | CallUpdateOrigins raw _ => ∃ p, uuid_parse raw = Some p ∧ authorised_for "owner" p
  | CallIsSuperAdmin u => ∃ q, caller q u
  | CallPruneAudit d => d = pruneAge
  end.

(** A cached summary was computed for its project. *)
Definition summary_of (p : string) (s : ProjectSummary) : Prop :=
  ∃ tc, TenantProject tc = p ∧ EvCall (CallScoped (Some tc) CallSummary) (Ok s) ∈ L.

End evidence.

(** What holds after a program, whose calls are all guarded by its history. *)
Fixpoint wp {A} (L : list event) (p : prog A) (Q : list event → A → Prop) : Prop :=
  match p with
  | Done a => Q L a
  | Repo c k => guard L c ∧ ∀ r, wp (L ++ [EvCall c r]) (k r) Q
  | Now k => ∀ t, wp (L ++ [EvNow t]) (k t) Q
  | RandRead n k => ∀ r, wp L (k r) Q
  | AskCache p k => ∀ o, wp L (k o) Q
  | PutCache p s k => summary_of L p s ∧ wp L k Q
  | Lookups _ k => ∀ b, wp L (k b) Q
  | HTTPGet _ k => ∀ r, wp L (k r) Q
  | Secrets op k => secret_guard L op ∧ ∀ r, wp (L ++ [EvSecret op r]) (k r) Q
  | Domains op k => domain_guard L op ∧ ∀ r, wp (L ++ [EvDomain op r]) (k r) Q
  end.

Definition disciplined (L : list event) (p : prog response) : Prop := wp L p (λ _ _, True).

End system.
End TenantSystem.
