(* ===== verification/TenantDiscipline.v ===== *)
(** * Tenants: the discipline of the handlers

    Every call a handler makes is guarded: a handler of a project calls only with
    that project and a role the middleware checked. *)

From Stdlib Require Import Ascii.
From stdpp Require Import gmap.
From S2P Require Import Prelude GoStrings Store Transactions Model AdminAccess TenantTables TenantRepo.
From S2P Require Import TenantResources TenantServices TenantHandlers TenantJWT TenantDomains TenantFacts TenantSystem.
From S2P Require Import ProjectJWT SecretManager Hostname CustomDomain DomainService.

Module TenantDiscipline.
Import TenantSystem.

Section discipline.
Context {DB : Database} `{!JWT AdminToken.AdminClaims}.
Context (tokens : AdminToken.AdminTokenManager).
Context (url_Parse : string → option URL) (health_url : string → string → option string).
Context (environment : deployment).

Abbreviation authorised := (authorised tokens).
Abbreviation authorised_for := (authorised_for tokens).
Abbreviation guard := (guard tokens environment).
Abbreviation wp := (wp tokens environment).
Abbreviation disciplined := (disciplined tokens environment).

(** ** More evidence does no harm *)

Section mono.
Context (L L' : list event) (HL : L ⊆ L').

Lemma caller_mono q id : caller tokens L q id → caller tokens L' q id.
Proof. intros (? & t & name & ? & ?). split; [by apply HL|]. exists t, name. split; [by apply HL|done]. Qed.

Lemma authorised_mono r tc : authorised L r tc → authorised L' r tc.
Proof.
  intros (q & (id & ? & ? & ? & ? & ?) & ?). exists q. split; [|done]. exists id. split_and!; auto.
  by apply caller_mono.
Qed.

Lemma authorised_for_mono r p : authorised_for L r p → authorised_for L' r p.
Proof. intros (tc & ? & ?). exists tc. split; [done|by apply authorised_mono]. Qed.

Lemma platform_admin_mono : platform_admin tokens L → platform_admin tokens L'.
Proof. intros (q & id & ? & ?). exists q, id. split; [by apply caller_mono|auto]. Qed.

Lemma unscoped_mono raw : unscoped tokens L raw → unscoped tokens L' raw.
Proof. intros (q & id & ? & ? & ?). exists q, id. split_and!; try done. by apply caller_mono. Qed.

Lemma summary_of_mono p s : summary_of L p s → summary_of L' p s.
Proof. intros (tc & ? & ?). exists tc. auto. Qed.

Lemma asked_mono q tc input : asked tokens L q tc input → asked tokens L' q tc input.
Proof.
  intros [(id & ? & ? & ? & ? & ?) ?]. split; [|done]. exists id. split_and!; auto. by apply caller_mono.
Qed.

Lemma supplied_mono tc value : supplied tokens L tc value → supplied tokens L' tc value.
Proof. intros (? & q & input & ? & ?). split; [done|]. exists q, input. split; [by apply asked_mono|done]. Qed.

Lemma addressed_mono tc id : addressed environment L tc id → addressed environment L' tc id.
Proof. intros [?|(cfg & ? & ?)]; [by left|right; exists cfg; split; [by apply HL|done]]. Qed.

Lemma made_mono tc arn version : made tokens environment L tc arn version → made tokens environment L' tc arn version.
Proof.
  intros (value & a & v & Hs & Hr & H). exists value, a, v. split_and!; [by apply supplied_mono|done|].
  destruct H as [?|(id & ? & ?)]; [by auto|right; exists id; split; [by apply addressed_mono|auto]].
Qed.

Lemma op_basis_mono tc {X} (op : ScopedCall X) : op_basis tokens environment L tc op → op_basis tokens environment L' tc op.
Proof.
  destruct op; try done. intros [Hs Hk]. split.
  - destruct Hs as [(old & ? & ?)|(q & input & n & ? & ? & ?)]; [left; exists old; split; [by apply HL|done]|right].
    exists q, input, n. split_and!; try done. by apply asked_mono.
  - destruct Hk as [(old & ? & ? & ?)|?]; [left; exists old; split_and!; [by apply HL|done..]|right; by apply made_mono].
Qed.

Lemma secret_of_mono tc id : secret_of tokens environment L tc id → secret_of tokens environment L' tc id.
Proof.
  intros [?|(arn & v & ? & ?)]; [left; by apply addressed_mono|right].
  exists arn, v. split; [by apply made_mono|done].
Qed.

Lemma secret_guard_mono {X} (op : SecretManager.SDK X) :
  secret_guard tokens environment L op → secret_guard tokens environment L' op.
Proof.
  intros (tc & Ha & H). exists tc. split; [by apply authorised_mono|].
  destruct op; simpl in *; try (destruct H; split); by auto using supplied_mono, addressed_mono, secret_of_mono.
Qed.

Lemma asked_domain_mono tc r id : asked_domain tokens L tc r id → asked_domain tokens L' tc r id.
Proof.
  intros (q & (i & ? & ? & ? & ? & ?) & ? & ? & ?). exists q. split_and!; try done. exists i. split_and!; auto.
  by apply caller_mono.
Qed.

Lemma found_domain_mono tc r c : found_domain tokens L tc r c → found_domain tokens L' tc r c.
Proof. intros (id & ? & ?). exists id. split; [by apply asked_domain_mono|auto]. Qed.

Lemma asked_hostname_mono tc h : asked_hostname tokens L tc h → asked_hostname tokens L' tc h.
Proof.
  intros (q & raw & (i & ? & ? & ? & ? & ?) & ? & ? & ?). exists q, raw. split_and!; try done. exists i.
  split_and!; auto. by apply caller_mono.
Qed.

Lemma domain_guard_mono {X} (op : DomainOp X) : domain_guard tokens L op → domain_guard tokens L' op.
Proof.
  intros (tc & H). exists tc. destruct op as [X c| | |]; try by apply authorised_mono.
  destruct c; simpl in *; naive_solver eauto using authorised_mono, asked_domain_mono, found_domain_mono, asked_hostname_mono.
Qed.

Lemma guards_mono {X} (c : TenantRepository X) : guard L c → guard L' c.
Proof.
  pose proof authorised_for_mono as Ha. destruct c; simpl; try by auto using platform_admin_mono, unscoped_mono.
  - intros (tc & ? & ? & ?). exists tc. split_and!; [done|by apply authorised_mono|by apply op_basis_mono].
  - intros (q & id & ? & ?). exists q, id. split; [by apply caller_mono|done].
  - intros (u & r & ?). exists u, r. auto.
  - intros [? ?]. auto.
  - intros (? & ? & cur & ? & ? & Hn). split_and!; auto. exists cur. split_and!; auto.
    intros Ho. destruct (Hn Ho) as (n & ? & ?). eauto.
  - intros (? & (o & ? & ?) & role' & ? & Hn). split; [auto|]. split; [eauto|]. exists role'. split; [auto|].
    intros Ho. destruct (Hn Ho) as (n & ? & ?). eauto.
  - intros [p ?]. eauto.
  - intros [q ?]. exists q. by apply caller_mono.
  - intros [q ?]. exists q. by apply caller_mono.
  - intros [?|?]; auto using platform_admin_mono, unscoped_mono.
  - intros (p & ? & ?). exists p. auto.
  - intros [q ?]. exists q. by apply caller_mono.
Qed.

End mono.

Lemma history_grows (L L' E : list event) : L ⊆ L' → L ++ E ⊆ L' ++ E.
Proof. intros H e. rewrite !elem_of_app. naive_solver. Qed.
Lemma event_last (L : list event) e : e ∈ L ++ [e].
Proof. apply elem_of_app. right. by apply list_elem_of_singleton. Qed.
Lemma event_earlier (L L' : list event) e : e ∈ L → e ∈ L ++ L'.
Proof. intros H. apply elem_of_app. by left. Qed.
Lemma log_grows (L L' : list event) e : L ⊆ L' → L ⊆ L' ++ [e].
Proof. intros H x Hx. apply elem_of_app. auto. Qed.

#[local] Hint Resolve event_last event_earlier log_grows : core.

(** ** The logic of programs *)

Lemma wp_mono {A} (p : prog A) L L' (Q : list event → A → Prop) :
  wp L p Q → L ⊆ L' → (∀ M M' a, M ⊆ M' → Q M a → Q M' a) → wp L' p Q.
Proof.
  revert L L'. induction p as [a|X c k IH|k IH|n k IH|pr k IH|pr s k IH|u k IH|u k IH|X op k IH|X op k IH];
    intros L L' Hp HL HQ; simpl in *.
  - by eapply HQ.
  - destruct Hp as [Hg Hk]. split; [by eapply guards_mono|]. intros r. eapply IH; [apply Hk|by apply history_grows|done].
  - intros t. eapply IH; [apply Hp|by apply history_grows|done].
  - intros r. by eapply IH; [apply Hp|..].
  - intros o. by eapply IH; [apply Hp|..].
  - destruct Hp as [Hs Hk]. split; [by eapply summary_of_mono|]. by eapply IH.
  - intros b. by eapply IH; [apply Hp|..].
  - intros r. by eapply IH; [apply Hp|..].
  - destruct Hp as [Hg Hk]. split; [by eapply secret_guard_mono|]. intros r.
    eapply IH; [apply Hk|by apply history_grows|done].
  - destruct Hp as [Hg Hk]. split; [by eapply domain_guard_mono|]. intros r.
    eapply IH; [apply Hk|by apply history_grows|done].
Qed.

Lemma discipline_mono L L' p : disciplined L p → L ⊆ L' → disciplined L' p.
Proof. intros Hp HL. by eapply wp_mono. Qed.

(** A program only adds to the log. *)
Lemma wp_conseq {A} (p : prog A) L (Q Q' : list event → A → Prop) :
  wp L p Q → (∀ L' a, L ⊆ L' → Q L' a → Q' L' a) → wp L p Q'.
Proof.
  revert L. induction p as [a|X c k IH|k IH|n k IH|pr k IH|pr s k IH|u k IH|u k IH|X op k IH|X op k IH]; intros L Hp HQ; simpl in *.
  - by apply HQ.
  - destruct Hp as [Hg Hk]. split; [done|]. intros r. eapply IH; [apply Hk|]. intros L' a HL. apply HQ.
    intros e He. by apply HL, event_earlier.
  - intros t. eapply IH; [apply Hp|]. intros L' a HL. apply HQ. intros e He. by apply HL, event_earlier.
  - intros r. by eapply IH; [apply Hp|].
  - intros o. by eapply IH; [apply Hp|].
  - destruct Hp as [Hs Hk]. split; [done|]. by eapply IH.
  - intros b. by eapply IH; [apply Hp|].
  - intros r. by eapply IH; [apply Hp|].
  - destruct Hp as [Hg Hk]. split; [done|]. intros r. eapply IH; [apply Hk|]. intros L' a HL. apply HQ.
    intros e He. by apply HL, event_earlier.
  - destruct Hp as [Hg Hk]. split; [done|]. intros r. eapply IH; [apply Hk|]. intros L' a HL. apply HQ.
    intros e He. by apply HL, event_earlier.
Qed.

Lemma wp_bind {A B} (p : prog A) (f : A → prog B) L Q : wp L p (λ L' a, wp L' (f a) Q) → wp L (pbind p f) Q.
Proof.
  revert L. induction p as [a|X c k IH|k IH|n k IH|pr k IH|pr s k IH|u k IH|u k IH|X op k IH|X op k IH]; intros L Hp; simpl in *;
    try by auto.
  all: destruct Hp as [Hg Hk]; auto.
Qed.

(** A service whose calls are guarded, and a handler around it. *)
Definition serves {E X} (L : list event) (p : prog (result E X)) (Q : list event → X → Prop) : Prop :=
  wp L p (λ L' r, ∀ x, r = Ok x → Q L' x).

Lemma serves_try {X Y} L (p : service X) (k : X → service Y) Q :
  serves L p (λ L' x, L ⊆ L' → serves L' (k x) Q) →
  serves L (pbind p (λ r, match r with Ok x => k x | Err e => Done (Err e) end)) Q.
Proof.
  intros Hp. apply wp_bind. eapply wp_conseq; [exact Hp|]. intros L' [x|e] HL H; [by apply (H x)|by intros y [=]].
Qed.

Lemma serves_call {X} L (c : TenantRepository X) Q :
  guard L c → (∀ x, Q (L ++ [EvCall c (Ok x)]) x) → serves L (call c) Q.
Proof. intros Hg HQ. split; [done|]. intros r x ->. apply HQ. Qed.

Lemma serves_fail {E X} L (e : E) Q : serves L (Done (A := result E X) (Err e)) Q.
Proof. by intros x [=]. Qed.

Lemma serves_ok {E X} L (x : X) Q : Q L x → serves L (Done (A := result E X) (Ok x)) Q.
Proof. by intros HQ y [= <-]. Qed.

Lemma d_finished {E X} L (p : prog (result E X)) failed k :
  (∀ L' e, disciplined L' (failed e)) → serves L p (λ L' x, L ⊆ L' → disciplined L' (k x)) →
  disciplined L (finish p failed k).
Proof.
  intros Hf Hp. apply wp_bind. eapply wp_conseq; [exact Hp|]. intros L' [x|e] HL H; [by apply (H x)|apply Hf].
Qed.

Lemma d_on_error {E} `{EqDecision E} L (table : list (E * (Z * string))) msg e :
  disciplined L (on_error table msg e).
Proof. unfold on_error. by destruct (find_first _ _) as [[? [? ?]]|]. Qed.

Lemma d_done L a : disciplined L (Done a).
Proof. done. Qed.

Lemma d_bound {Q} L (body : result string Q) k : (∀ q, disciplined L (k q)) → disciplined L (bound body k).
Proof. intros Hk. destruct body as [q|e]; [apply Hk|done]. Qed.

Lemma d_with_id L param msg cx k : (∀ id, disciplined L (k id)) → disciplined L (with_id param msg cx k).
Proof. intros Hk. unfold with_id. destruct (String.eqb _ _); [done|apply Hk]. Qed.

Lemma d_with_uuid L raw msg k : (∀ id, uuid_parse raw = Some id → disciplined L (k id)) → disciplined L (with_uuid raw msg k).
Proof. intros Hk. unfold with_uuid. destruct (uuid_parse raw) eqn:H; [by apply Hk|done]. Qed.

Lemma d_paginated {V} L cx msg (list : Z → Z → service (List.list V * nat)) page :
  (∀ l o, serves L (list l o) (λ _ _, True)) → disciplined L (paginated cx msg list page).
Proof.
  intros Hl. unfold paginated. destruct (ParsePaginationOffset _ _) as [[[p l] o]|e]; [|done].
  apply d_finished; [done|]. eapply wp_conseq; [apply Hl|]. intros L' r _ _ [items total] _ _. done.
Qed.

(** ** In the scope of a project *)

Lemma permits_trans r r' u : permits r' r = true → permits r u = true → permits r' u = true.
Proof.
  unfold permits. destruct (role_weight r') as [w'|]; [|done]. destruct (role_weight r) as [w|]; [|done].
  destruct (role_weight u) as [n|]; [|done]. rewrite !negb_true_iff, !Nat.ltb_ge. lia.
Qed.

Record in_scope (L : list event) (role : string) (cx : context) (tc : TenantContext) : Prop := {
  scope_tenant : Tenant cx = Some tc;
  scope_role : authorised L role tc;
  scope_param : uuid_parse (Param cx "projectId") = Some (TenantProject tc);
}.

Lemma in_scope_mono L L' role cx tc : in_scope L role cx tc → L ⊆ L' → in_scope L' role cx tc.
Proof. intros [? ? ?] HL. split; try done. by eapply authorised_mono. Qed.

Lemma authorised_lower L r r' tc : permits r' r = true → authorised L r tc → authorised L r' tc.
Proof. intros Hp (q & Hm & Hr). exists q. split; [done|by eapply permits_trans]. Qed.

Section scope.
Context (L : list event) (role : string) (cx : context) (tc : TenantContext) (Hs : in_scope L role cx tc).

Lemma s_scoped {X} (op : ScopedCall X) :
  permits (op_role op) role = true → op_basis tokens environment L tc op → serves L (scoped cx op) (λ _ _, True).
Proof.
  intros Hr Hb. destruct Hs as [Ht Ha _]. apply serves_call; [|done]. rewrite Ht. exists tc. split_and!; [done| |done].
  by eapply authorised_lower.
Qed.

Lemma s_call {X} (c : TenantRepository X) : guard L c → serves L (call c) (λ _ _, True).
Proof. intros Hg. by apply serves_call. Qed.

Lemma d_audited a y i l c k :
  permits "viewer" role = true → (∀ L', disciplined L' k) → disciplined L (audited cx a y i l c k).
Proof.
  intros Hr Hk. destruct Hs as [Ht Ha _]. split; [|intros r; apply Hk]. rewrite Ht. exists tc. split_and!; [done| |done].
  by eapply authorised_lower.
Qed.

Lemma scope_for r : permits r role = true → authorised_for L r (TenantProject tc).
Proof. intros Hr. exists tc. split; [done|]. eapply authorised_lower; [done|by apply Hs]. Qed.

End scope.

Ltac handler :=
  repeat first
    [ apply d_done | apply d_on_error | apply d_bound; intros ? | apply d_with_id; intros ?
    | apply d_with_uuid; intros ? ? | apply d_paginated; intros ? ? | apply d_finished; [intros ? ?|] ].

(** An audited operation: one call, the record, the answer. *)
Lemma d_op {X} L role cx tc (op : ScopedCall X) failed a y i l c k :
  in_scope L role cx tc → permits (op_role op) role = true → op_basis tokens environment L tc op →
  permits "viewer" role = true → (∀ L' e, disciplined L' (failed e)) → (∀ L' x, disciplined L' (k x)) →
  disciplined L (finish (scoped cx op) failed (λ x, audited cx (a x) (y x) (i x) (l x) (c x) (k x))).
Proof.
  intros Hs Hr Hb Hv Hf Hk. apply d_finished; [done|]. eapply wp_conseq; [by eapply s_scoped|].
  intros L' r _ _ x _ HL. eapply d_audited; [by eapply in_scope_mono|done|]. intros. apply Hk.
Qed.

(** An audited service. *)
Lemma d_served {E X} L role cx tc (p : prog (result E X)) failed a y i l c k :
  in_scope L role cx tc → permits "viewer" role = true → serves L p (λ _ _, True) →
  (∀ L' e, disciplined L' (failed e)) → (∀ L' x, disciplined L' (k x)) →
  disciplined L (finish p failed (λ x, audited cx (a x) (y x) (i x) (l x) (c x) (k x))).
Proof.
  intros Hs Hv Hp Hf Hk. apply d_finished; [done|]. eapply wp_conseq; [exact Hp|].
  intros L' r _ _ x _ HL. eapply d_audited; [by eapply in_scope_mono|done|]. intros. apply Hk.
Qed.

Ltac entry := repeat first [apply d_bound; intros ? | apply d_with_id; intros ? | apply d_with_uuid; intros ? ?].

(** *** Custom domains *)

Lemma s_domain_op {X A} L (op : DomainOp X) (k : X → prog (result DomainService.svc_error A)) Q :
  domain_guard tokens L op → (∀ r, serves (L ++ [EvDomain op r]) (k r) Q) → serves L (Domains op k) Q.
Proof. intros Hg Hk. split; [done|]. intros r. apply Hk. Qed.

Ltac grown := repeat first [apply log_grows | reflexivity].
(** Along a method of the service; what its calls rest on is left to [guarded]. *)
Ltac service_steps guarded := repeat first
  [ apply serves_fail | apply serves_ok; exact I | apply s_domain_op; [guarded|intros ?] | progress simpl | case_match ].

Lemma d_on_domain {X} L cx role tc (method : string → string → DomainService.prog X) failed k :
  in_scope L role cx tc → (∀ L' e, disciplined L' (failed e)) →
  (∀ id, uuid_parse (Param cx "domainId") = Some id →
     serves L (run_service (method (TenantProject tc) id)) (λ L' x, L ⊆ L' → disciplined L' (k id x))) →
  disciplined L (on_domain cx method failed k).
Proof.
  intros Hs Hf Hm. unfold on_domain, getTenantContext. rewrite (scope_tenant _ _ _ _ Hs). entry.
  apply d_finished; [done|by apply Hm].
Qed.

Section handlers.
Context (L : list event) (cx : context) (tc : TenantContext).

Lemma g_viewer L' {X} (c : DomainService.CustomDomainRepository X) :
  in_scope L "viewer" cx tc → L ⊆ L' →
  match c with
  | DomainService.CallGetByIDForProject _ pid | DomainService.CallListByProject pid
  | DomainService.CallGetActiveProjectGatewayIngress pid => pid = TenantProject tc
  | _ => False
  end → domain_guard tokens L' (DomainRepo c).
Proof.
  intros [_ Ha _] HL Hc. exists tc. destruct c; try done; (split; [by eapply authorised_mono|done]).
Qed.

Lemma d_viewer r :
  required_role r = "viewer" → in_scope L "viewer" cx tc → disciplined L (handle url_Parse health_url environment r cx).
Proof.
  intros Hr Hs. destruct r; try done; simpl; clear Hr; try by (handler; by eapply s_scoped).
  - unfold ProjectsSummary. rewrite (scope_tenant _ _ _ _ Hs). handler.
    intros o. destruct o as [s|]; [by intros x _ _|].
    apply serves_try. apply serves_call.
    + exists tc. split_and!; [done| |done]. by apply Hs.
    + intros x HL'. split; [|by intros y _ _]. exists tc. split; [done|]. apply event_last.
  - unfold UpstreamsHealth. handler. eapply wp_conseq; [by eapply s_scoped|]. intros L' r _ _ x _ HL.
    destruct (negb _); [done|]. destruct (health_url _ _); [|done]. intros [code|]; [|done]. by destruct (_ && _).
  - unfold TargetsList. destruct (String.eqb _ _); [done|]. handler. eapply wp_conseq; [by eapply s_scoped|].
    by intros L' r _ _ x _ HL.
  - unfold MembersList. rewrite (scope_tenant _ _ _ _ Hs). handler. apply s_call. eapply scope_for; done.
  - unfold AuditLogsList. handler. eapply wp_conseq; [by eapply s_scoped|]. by intros L' r _ _ [logs total] _ HL.
  - unfold DomainsList, getTenantContext. rewrite (scope_tenant _ _ _ _ Hs). apply d_finished; [done|].
    unfold DomainService.ListCustomDomains. service_steps ltac:(by apply g_viewer; [|grown|]); by apply serves_ok.
  - eapply d_on_domain; [exact Hs|intros; apply d_on_error|]. intros id _.
    unfold DomainService.GetCustomDomain. service_steps ltac:(by apply g_viewer; [|grown|]); by apply serves_ok.
  - eapply d_on_domain; [exact Hs|intros; apply d_on_error|]. intros id _. unfold DomainService.GetProvisioningStatus.
    service_steps ltac:(by apply g_viewer; [|grown|]); by apply serves_ok.
Qed.

End handlers.

(** *** Editors *)

Ltac served := cbv zeta; eapply d_served; [eassumption|reflexivity| |intros; try apply d_on_error|intros; try exact I].

Lemma s_match_type {X} L req (k : RouteInput → service X) Q :
  (∀ rt, serves L (k rt) Q) → serves L (with_match_type req k) Q.
Proof. intros Hk. unfold with_match_type. destruct (negb _); [apply serves_fail|apply Hk]. Qed.

Lemma s_valid_upstream {X} L u (k : UpstreamColumns → service X) Q :
  (∀ u, serves L (k u) Q) → serves L (valid_upstream u k) Q.
Proof.
  intros Hk. unfold valid_upstream. destruct (negb _); [apply serves_fail|].
  destruct (negb _); [apply serves_fail|apply Hk].
Qed.

Lemma s_valid_policy {X} L p (k : service X) Q : serves L k Q → serves L (valid_policy p k) Q.
Proof.
  intros Hk. unfold valid_policy. destruct (_ <? _)%Z; [apply serves_fail|].
  destruct (ValidateIPRules "ip_allowlist" _); [|apply serves_fail].
  destruct (ValidateIPRules "ip_blocklist" _); [exact Hk|apply serves_fail].
Qed.

Lemma d_policy_errors L more e : disciplined L (policy_errors more e).
Proof. unfold policy_errors. destruct e; try apply d_on_error; done. Qed.

Section editor.
Context (L : list event) (cx : context) (tc : TenantContext) (Hs : in_scope L "editor" cx tc).

Lemma s_tenant {X} (op : ScopedCall X) :
  permits (op_role op) "editor" = true → op_basis tokens environment L tc op →
  serves L (call (CallScoped (Tenant cx) op)) (λ _ _, True).
Proof. intros Hr Hb. by eapply (s_scoped L "editor" cx tc Hs op). Qed.

Lemma s_new_key {X} (op : string → ScopedCall X) {Y} (f : X → string → Y) :
  (∀ k, permits (op_role (op k)) "editor" = true ∧ op_basis tokens environment L tc (op k)) →
  serves L (GenerateRawKey (λ raw, try! x := call (CallScoped (Tenant cx) (op raw)) in ok (f x raw))) (λ _ _, True).
Proof.
  intros Hr [b|]; [|by intros x [=]]. apply serves_try. eapply wp_conseq; [apply s_tenant; apply Hr|].
  intros L' r _ _ x _ _. by intros y [= <-].
Qed.

Lemma d_editor r :
  required_role r = "editor" → disciplined L (handle url_Parse health_url environment r cx).
Proof.
  intros Hr. destruct r; try done; simpl; clear Hr;
    unfold RoutesCreate, RoutesUpdate, RoutesDelete, RoutesDisable, RoutesEnable, route_op, PoliciesAssign,
      PoliciesRemove, UpstreamsCreate, UpstreamsUpdate, UpstreamsDisable, UpstreamsDelete, upstream_op, TargetsAdd,
      TargetsRemove, PoliciesCreate, PoliciesUpdate, KeysCreate, KeysRotate, KeysRevoke, upstream_errors;
    entry.
  - served. apply s_match_type. intros rt. by apply s_tenant.
  - served. apply s_match_type. intros rt. by apply s_tenant.
  - eapply d_op; [exact Hs|done..| |done]. intros. apply d_on_error.
  - eapply d_op; [exact Hs|done..| |done]. intros. apply d_on_error.
  - eapply d_op; [exact Hs|done..| |done]. intros. apply d_on_error.
  - eapply d_op; [exact Hs|done..| |done]. intros. apply d_on_error.
  - eapply d_op; [exact Hs|done..| |done]. intros. apply d_on_error.
  - served. apply s_valid_upstream. intros u. by apply s_tenant.
  - served. apply s_valid_upstream. intros u. by apply s_tenant.
  - eapply d_op; [exact Hs|done..| |done]. intros. apply d_on_error.
  - eapply d_op; [exact Hs|done..| |done]. intros. apply d_on_error.
  - served; [|done]. by apply s_tenant.
  - eapply d_op; [exact Hs|done..| |done]. intros. apply d_on_error.
  - served; [|apply d_policy_errors]. apply s_valid_policy. by apply s_tenant.
  - served; [|apply d_policy_errors]. apply s_valid_policy. by apply s_tenant.
  - apply d_finished; [done|].
    eapply wp_conseq; [by apply (s_new_key (λ k, CallKeyCreate (ReqKeyName q) k (ReqExpiresAt q) (ReqRoles q) (ReqScopes q))
      (λ x k, (x, k)))|].
    intros L' r _ _ [x raw] _ HL. eapply d_audited; [by eapply in_scope_mono|done..].
  - served. by apply (s_new_key (λ k, CallKeyRotate _ k) (λ _ k, k)).
  - eapply d_op; [exact Hs|done..| |done]. intros. apply d_on_error.
Qed.

End editor.

(** *** JWT authentication *)

(** The request of a route, found to come from a member with the role. *)
Definition routed (L : list event) (cx : context) (tc : TenantContext) (r : project_route) : Prop :=
  ∃ q, member_of tokens L q tc ∧ permits (required_role r) (UserRole tc) = true ∧ Endpoint q = InProject r ∧
    Param cx = Params q.

Section jwt.
Context (L : list event) (cx : context) (tc : TenantContext) (Hs : in_scope L "owner" cx tc).

Abbreviation made M := (made tokens environment M tc).
Abbreviation secret_of M := (secret_of tokens environment M tc).

Lemma s_jwt {X} L' (op : ScopedCall X) (Q : list event → X → Prop) :
  L ⊆ L' → op_role op = "owner" → op_basis tokens environment L' tc op →
  (∀ x, Q (L' ++ [EvCall (CallScoped (Some tc) op) (Ok x)]) x) → serves L' (jwt_call (Some tc) op) Q.
Proof.
  intros HL Hr Hb HQ. apply serves_call; [|done]. exists tc. split_and!; [done| |done]. rewrite Hr.
  eapply authorised_mono; [exact HL|]. by apply Hs.
Qed.

Lemma owner_now L' : L ⊆ L' → authorised L' "owner" tc.
Proof. intros HL. eapply authorised_mono; [exact HL|]. by apply Hs. Qed.

(** A delete or restore of the project's secret. *)
Lemma w_DeleteSecret L' id (Q : list event → result SecretManager.error unit → Prop) :
  L ⊆ L' → secret_of L' (TrimSpace id) → (∀ M r, L' ⊆ M → Q M r) → wp L' (DeleteSecret id) Q.
Proof.
  intros HL Hid HQ. unfold DeleteSecret, SecretManager.DeleteSecret, SecretManager.with_id. cbv zeta.
  destruct (String.eqb _ _); [by apply HQ|]. split; [exists tc; split; [by apply owner_now|done]|].
  intros r. apply HQ. auto.
Qed.

Lemma w_RestoreSecret L' id (Q : list event → result SecretManager.error unit → Prop) :
  L ⊆ L' → secret_of L' (TrimSpace id) → (∀ M r, L' ⊆ M → Q M r) → wp L' (RestoreSecret id) Q.
Proof.
  intros HL Hid HQ. unfold RestoreSecret, SecretManager.RestoreSecret, SecretManager.with_id. cbv zeta.
  destruct (String.eqb _ _); [by apply HQ|]. split; [exists tc; split; [by apply owner_now|done]|].
  intros r. apply HQ. auto.
Qed.

Section input.
Context (q : request) (input n : ProjectJWT.ProjectJWTConfigInput).
Context (Hq : asked tokens L q tc input) (Hn : ProjectJWT.normalizeJWTConfigInput input = Ok n).

Abbreviation secret := (ProjectJWT.InSecret n).

Lemma secret_supplied L' : L ⊆ L' → secret ≠ "" → supplied tokens L' tc secret.
Proof.
  intros HL Hne. eapply supplied_mono; [exact HL|].
  destruct (ProjectJWT.normalize_spec _ _ Hn) as (Hnorm & _ & He & _). split; [by apply Hnorm|].
  exists q, input. by rewrite He.
Qed.

Lemma input_settings L' cfg :
  L ⊆ L' → ProjectJWT.settings cfg = ProjectJWT.settings (ProjectJWT.configFromInput n) →
  settings_basis tokens L' tc cfg.
Proof. intros HL He. right. exists q, input, n. split_and!; [by eapply asked_mono|done..]. Qed.

Definition makes (M : list event) (r : result SecretManager.error SecretManager.SecretReference) : Prop :=
  ∀ ref, r = Ok ref → made M (SecretManager.ARN ref) (SecretManager.VersionID ref).

Lemma w_UpdateSecret L' id :
  L ⊆ L' → secret ≠ "" → addressed environment L' tc (TrimSpace id) → wp L' (UpdateSecret id secret) makes.
Proof.
  intros HL Hne Hid. unfold UpdateSecret, SecretManager.UpdateSecret, SecretManager.with_id. cbv zeta.
  destruct (String.eqb _ ""); [by intros ? [=]|]. destruct (String.eqb secret ""); [by intros ? [=]|].
  split; [exists tc; split; [by apply owner_now|split; [by apply secret_supplied|done]]|].
  intros r [arn v] (a & b & -> & Href)%SecretManager.update_result_spec. exists secret, a, b.
  split_and!; [apply secret_supplied; auto|done|right].
  eexists. split; [by eapply addressed_mono; [|exact Hid]; auto|apply event_last].
Qed.

Lemma w_CreateSecret L' :
  L ⊆ L' → secret ≠ "" → wp L' (CreateSecret (secret_name environment (TenantProject tc)) secret) makes.
Proof.
  intros HL Hne. unfold CreateSecret, SecretManager.CreateSecret. cbv zeta.
  destruct (String.eqb _ ""); [by intros ? [=]|]. destruct (String.eqb secret ""); [by intros ? [=]|].
  split; [exists tc; split; [by apply owner_now|split; [by apply secret_supplied|done]]|].
  intros r [arn v] (a & b & -> & Href)%SecretManager.create_result_spec. exists secret, a, b.
  split_and!; [apply secret_supplied; auto|done|left; auto].
Qed.

Lemma s_persist_new L' r : L ⊆ L' → makes L' r → serves L' (persist_new (Some tc) n r) (λ _ _, True).
Proof.
  intros HL Hm. destruct r as [ref|e]; [|apply serves_fail]. specialize (Hm ref eq_refl). apply wp_bind.
  eapply wp_conseq.
  - apply (s_jwt L' (CallJWTUpsert _) (λ _ _, True)); [done|done| |done]. split; [by apply input_settings|by right].
  - intros M [cfg|e] HM _; [by intros ? _|]. apply wp_bind, w_DeleteSecret; [by etrans| |done].
    right. exists (SecretManager.ARN ref), (SecretManager.VersionID ref). split; [by eapply made_mono|done].
Qed.

Lemma s_create L' : L ⊆ L' → serves L' (create environment (Some tc) n) (λ _ _, True).
Proof.
  intros HL. unfold create. destruct (String.eqb_spec secret ""); [apply serves_fail|]. apply wp_bind.
  eapply wp_conseq; [by apply w_CreateSecret|]. intros M r HM Hm.
  assert (HLM : L ⊆ M) by by etrans.
  destruct r as [ref|e]; [by apply s_persist_new|]. destruct e; try by apply s_persist_new.
  apply wp_bind, w_RestoreSecret; [done|by left; left|]. intros M1 _ HM1. apply wp_bind.
  eapply wp_conseq; [apply w_UpdateSecret; [by etrans|done|by left]|]. intros M2 r HM2 Hm2.
  apply s_persist_new; [|done]. etrans; [exact HLM|]. by etrans.
Qed.

Lemma s_update L' current :
  L ⊆ L' → jwt_read L' tc current → serves L' (update (Some tc) current n) (λ _ _, True).
Proof.
  intros HL Hc. unfold update. destruct (String.eqb_spec secret "").
  - destruct (ProjectJWT.jwtConfigEquivalent _ _); [by apply serves_ok|].
    apply s_jwt; [done|done| |done]. split; [by apply input_settings|]. left. by exists current.
  - apply wp_bind. eapply wp_conseq; [apply w_UpdateSecret; [done|done|right; by exists current]|].
    intros M [ref|e] HM Hm; [|apply serves_fail]. apply s_jwt; [by etrans|done| |done].
    split; [apply input_settings; [by etrans|done]|right; by apply (Hm ref)].
Qed.

Lemma s_configure L' : L ⊆ L' → serves L' (Configure environment (Some tc) input) (λ _ _, True).
Proof.
  intros HL. unfold Configure. rewrite Hn. apply wp_bind.
  eapply wp_conseq; [apply (s_jwt L' CallJWT (λ M cfg, jwt_read M tc cfg)); [done|done|done|intros x; apply event_last]|].
  intros M [current|e] HM Hr; [apply s_update; [by etrans|by apply Hr]|]. destruct e; try apply serves_fail.
  apply s_create. by etrans.
Qed.

End input.

Lemma s_delete_config : serves L (DeleteConfig (Some tc)) (λ _ _, True).
Proof.
  apply serves_try. eapply wp_conseq;
    [apply (s_jwt L CallJWT (λ M cfg, jwt_read M tc cfg)); [done|done|done|intros x; apply event_last]|].
  intros M r HM Hr current -> _. specialize (Hr current eq_refl). apply serves_try.
  eapply wp_conseq; [by apply (s_jwt M CallJWTDelete (λ _ _, True))|]. intros M1 r HM1 _ [] -> _. apply wp_bind.
  assert (Hr1 : jwt_read M1 tc current) by by apply HM1.
  apply w_DeleteSecret; [by etrans|left; right; by exists current|]. intros M2 [[]|e] HM2; [by apply serves_ok|].
  apply wp_bind. eapply wp_conseq; [apply (s_jwt M2 (CallJWTUpsert current) (λ _ _, True))|by intros; apply serves_fail];
    [by do 2 (etrans; [eassumption|])|done| |done].
  split; left; exists current; (split; [by apply HM2|done]).
Qed.

Lemma d_jwt r :
  match r with GetJWT | PutJWT _ | DeleteJWT => True | _ => False end → routed L cx tc r →
  disciplined L (handle url_Parse health_url environment r cx).
Proof.
  intros Hr (q & Hm & Hp & He & _). pose proof (scope_tenant _ _ _ _ Hs) as Ht.
  destruct r; try done; simpl; clear Hr.
  - unfold JWTGetHandler. rewrite Ht. apply d_finished; [by intros L' []|].
    by apply (s_jwt L CallJWT).
  - destruct body as [input|[]]; [|done..]. unfold JWTConfigureHandler. rewrite Ht.
    eapply d_served; [exact Hs|done| |by intros L' []|done].
    destruct (ProjectJWT.normalizeJWTConfigInput input) as [n|e] eqn:Hn.
    + by eapply s_configure.
    + unfold Configure. rewrite Hn. apply serves_fail.
  - unfold JWTDeleteHandler. rewrite Ht. eapply d_served; [exact Hs|done|apply s_delete_config|intros; apply d_on_error|done].
Qed.

End jwt.

(** *** Custom domains of an owner *)

Section domain_owner.
Context (L : list event) (cx : context) (tc : TenantContext) (Hs : in_scope L "owner" cx tc).
Context (r : project_route) (Hr : required_role r = "owner") (Hq : routed L cx tc r).

Abbreviation p := (TenantProject tc).

Lemma asked_here L' id :
  L ⊆ L' → uuid_parse (Param cx "domainId") = Some id → asked_domain tokens L' tc r id.
Proof.
  intros HL Hid. apply (asked_domain_mono L); [done|]. destruct Hq as (q & Hm & Hp & He & Hc). exists q.
  rewrite <-Hr, <-Hc. by split_and!.
Qed.

Lemma found_here L' id c :
  L ⊆ L' → uuid_parse (Param cx "domainId") = Some id →
  EvDomain (DomainRepo (DomainService.CallGetByIDForProject id p)) (Ok c) ∈ L' → found_domain tokens L' tc r c.
Proof. intros HL Hid Hin. exists id. split; [by apply asked_here|done]. Qed.

Lemma g_get L' id : L ⊆ L' → domain_guard tokens L' (DomainRepo (DomainService.CallGetByIDForProject id p)).
Proof.
  intros HL. exists tc. split; [|done]. apply (authorised_lower L' "owner"); [done|]. eapply authorised_mono; [exact HL|by apply Hs].
Qed.

Lemma g_owner L' {X} (op : DomainOp X) :
  L ⊆ L' → match op with DomainRepo c => domain_basis tokens L' tc c | _ => True end → domain_guard tokens L' op.
Proof. intros HL H. exists tc. destruct op; [done|..]; (eapply authorised_mono; [exact HL|by apply Hs]). Qed.

(** An audited method, for the domain in the path. *)
Lemma d_domain_op {X} (method : string → string → DomainService.prog X) failed a y i l c k :
  (∀ L' e, disciplined L' (failed e)) → (∀ L' id x, disciplined L' (k id x)) →
  (∀ id, uuid_parse (Param cx "domainId") = Some id → serves L (run_service (method p id)) (λ _ _, True)) →
  disciplined L (on_domain cx method failed (λ id x, audited cx (a id x) (y id x) (i id x) (l id x) (c id x) (k id x))).
Proof.
  intros Hf Hk Hm. eapply d_on_domain; [exact Hs|done|]. intros id Hid. eapply wp_conseq; [by apply Hm|].
  intros L' res _ _ x _ HL. eapply d_audited; [by eapply in_scope_mono|done|]. intros. apply Hk.
Qed.

Lemma d_create body : r = PostDomain body → disciplined L (DomainsCreate environment cx body).
Proof.
  intros E. destruct body as [raw|]; [|done]. unfold DomainsCreate. rewrite (scope_tenant _ _ _ _ Hs). intros rnd.
  split; [by apply g_owner|]. intros id. set (L1 := L ++ _).
  assert (H1 : L ⊆ L1) by (subst L1; grown).
  eapply d_served; [by eapply in_scope_mono|done| |intros; apply d_on_error|done].
  unfold DomainService.CreateCustomDomain. destruct (Hostname.NormalizeHostname raw) as [h|e] eqn:Hh; [|apply serves_fail].
  service_steps ltac:(apply g_owner; [grown; exact H1|]).
  - eapply authorised_mono; [exact H1|by apply Hs].
  - split_and!; [done..|]. apply (asked_hostname_mono L); [grown; exact H1|].
    destruct Hq as (q & Hm & Hp & He & Hc). exists q, raw. rewrite <-Hr, <-E. by split_and!.
Qed.

End domain_owner.

(** What a call of the service rests on: what the owner asked for, and the row
    that was found. *)
Ltac domain_found Hq Hid := eapply found_here; [reflexivity|exact Hq|grown|exact Hid|by auto 8].
Ltac domain_call Hs Hq Hid :=
  first [eapply g_get; [exact Hs|grown] | eapply g_owner; [exact Hs|grown|simpl]];
  try done;
  first [ split; [eapply asked_here; [reflexivity|exact Hq|grown|exact Hid]|done]
        | eexists; split; [first [domain_found Hq Hid | left; domain_found Hq Hid | right; domain_found Hq Hid]
                          |by repeat split] ].

Lemma d_domain L cx tc r :
  in_scope L "owner" cx tc → required_role r = "owner" → routed L cx tc r →
  match r with GetJWT | PutJWT _ | DeleteJWT | PutOrigins _ | DeletePolicy | GetMemberLookup | PostMember _ | PutMember _
  | DeleteMemberRoute => False | _ => True end →
  disciplined L (handle url_Parse health_url environment r cx).
Proof.
  intros Hs Hr Hq Hd. destruct r; try done; simpl; clear Hd; [by eapply d_create|..].
  4: eapply d_on_domain; [exact Hs|intros; apply d_on_error|intros id Hid].
  all: try (eapply d_domain_op; [exact Hs|intros ? []; try done; apply d_on_error|intros; try case_match; done|intros id Hid]).
  - unfold DomainService.VerifyCustomDomain. service_steps ltac:(domain_call Hs Hq Hid).

  - unfold DomainService.DeleteCustomDomain. service_steps ltac:(domain_call Hs Hq Hid).
  - unfold DomainService.CheckCustomDomainRouting. service_steps ltac:(domain_call Hs Hq Hid).
  - assert (H : serves L (run_service (DomainService.ActivateCustomDomain (AutomationEnabled environment) (TenantProject tc) id))
      (λ _ _, True)).
    { unfold DomainService.ActivateCustomDomain, DomainService.performRetry. service_steps ltac:(domain_call Hs Hq Hid). }
    eapply wp_conseq; [exact H|]. intros L' res HL _ [c st] _ _.
    eapply d_audited; [by eapply in_scope_mono|done|]. intros. by destruct st.
  - unfold DomainService.RetryProvisioning, DomainService.performRetry. service_steps ltac:(domain_call Hs Hq Hid).
  - unfold DomainService.RetryDeprovisioning. service_steps ltac:(domain_call Hs Hq Hid).
Qed.

(** *** Owners *)

Section owner.
Context (L : list event) (cx : context) (tc : TenantContext) (Hs : in_scope L "owner" cx tc).

Abbreviation p := (TenantProject tc).

Lemma owner_here L' : L ⊆ L' → authorised_for L' "owner" p.
Proof. intros HL. eapply scope_for; [by eapply in_scope_mono|done]. Qed.

Lemma s_select_role L' u :
  L ⊆ L' → serves L' (select_role p u) (λ M role, EvCall (CallSelectMember p u) (Ok role) ∈ M).
Proof. intros HL. split; [by apply owner_here|]. intros [role|[]]; intros x [= <-]. apply event_last. Qed.

Lemma s_keep_owner L' :
  L ⊆ L' → serves L' (keep_owner p) (λ M _, ∃ n, EvCall (CallCountOwners p) (Ok n) ∈ M ∧ 1 < n).
Proof.
  intros HL. apply serves_try, serves_call; [by apply owner_here|]. intros n _.
  destruct (Nat.leb_spec n 1); [apply serves_fail|]. apply serves_ok. exists n. split; [apply event_last|done].
Qed.

(** The check that another owner stays, if it is needed. *)
Lemma s_keep_owner_if L' (b : bool) :
  L ⊆ L' → serves L' (if b then keep_owner p else ok ())
    (λ M _, b = true → ∃ n, EvCall (CallCountOwners p) (Ok n) ∈ M ∧ 1 < n).
Proof.
  intros HL. destruct b; [|by apply serves_ok]. eapply wp_conseq; [by apply s_keep_owner|]. eauto.
Qed.

Lemma s_affected L' n : serves L' (affected n) (λ _ _, True).
Proof. unfold affected. destruct (_ =? _)%nat; [apply serves_fail|by apply serves_ok]. Qed.

Lemma s_update_role u role : member_role role = true → serves L (UpdateRole p u role) (λ _ _, True).
Proof.
  intros Hrole. apply serves_try. eapply wp_conseq; [by apply s_select_role|]. intros L1 r HL1 Hr cur -> HL.
  specialize (Hr cur eq_refl). destruct (String.eqb_spec cur role) as [|Hne]; [by apply serves_ok|].
  apply serves_try. eapply wp_conseq; [by apply s_keep_owner_if|]. intros L2 r HL2 Hk [] -> _. simpl in Hk.
  specialize (Hk () eq_refl). apply serves_try, serves_call; [|intros n _; apply s_affected].
  split_and!; [apply owner_here; by etrans|done|]. exists cur. split_and!; [by apply HL2|done|].
  intros ->. apply Hk. simpl. destruct (String.eqb_spec role "owner"); [by subst|done].
Qed.

Lemma s_remove_member u : serves L (RemoveMember p u) (λ _ _, True).
Proof.
  split; [by apply owner_here|]. intros [o|e]; cbn [pbind]; [|destruct e; apply serves_fail].
  destruct (String.eqb_spec o u) as [|Hne]; [apply serves_fail|].
  assert (HL0 : L ⊆ L ++ [EvCall (CallProjectOwner p) (Ok o)]) by auto.
  apply serves_try. eapply wp_conseq; [by apply s_select_role|]. intros L1 r HL1 Hr cur -> HL.
  specialize (Hr cur eq_refl). apply serves_try.
  eapply wp_conseq; [apply s_keep_owner_if; by etrans|]. intros L2 r HL2 Hk [] -> _. simpl in Hk.
  specialize (Hk () eq_refl). apply serves_try, serves_call; [|intros n _; apply s_affected].
  split; [apply owner_here; intros ev Hev; by apply HL2, HL1, HL0|]. split.
  - exists o. split; [|done]. apply HL2, HL1. auto.
  - exists cur. split; [by apply HL2|]. intros ->. by apply Hk.
Qed.

Lemma s_member_add email role inviter : serves L (MemberAdd p email role inviter) (λ _ _, True).
Proof.
  unfold MemberAdd. destruct (validMemberRoles role) eqn:Hrole; cbn [negb]; [|apply serves_fail].
  apply serves_try, serves_call; [exists p; by apply owner_here|]. intros target HL. apply serves_try.
  eapply wp_conseq with (Q := λ _ _, True); [|intros; by apply serves_ok].
  split; [by apply owner_here|]. intros [x|[]]; try done. split; [|done]. split; [apply owner_here; auto|done].
Qed.

Lemma d_owner r :
  required_role r = "owner" → routed L cx tc r → disciplined L (handle url_Parse health_url environment r cx).
Proof.
  intros Hr Hq. destruct r; try done; try (by eapply d_jwt); try (by eapply d_domain); simpl; clear Hr Hq.
  - unfold ProjectsOrigins. entry. destruct (first_bad_origin _ _) as [[e o]|]; [done|].
    apply d_finished; [intros; apply d_on_error|]. apply serves_call; [|done].
    exists p. split; [by apply Hs|by apply owner_here].
  - unfold PoliciesDelete. eapply d_op; [exact Hs|done..| |done]. intros. apply d_on_error.
  - intros [|]; [|done]. unfold LookupMemberByEmail. destruct (String.eqb _ _); [done|]. handler.
    apply serves_call; [|done]. exists p. by apply owner_here.
  - unfold MembersAdd. entry. rewrite (scope_param _ _ _ _ Hs) in H. injection H as <-. entry. served.
    apply s_member_add.
  - unfold MembersChangeRole. entry. rewrite (scope_param _ _ _ _ Hs) in H. injection H as <-. entry. served.
    unfold ChangeRole. destruct (validMemberRoles _) eqn:Hrole; [|apply serves_fail]. by apply s_update_role.
  - unfold MembersRemove. entry. rewrite (scope_param _ _ _ _ Hs) in H. injection H as <-. served.
    apply s_remove_member.
Qed.

End owner.

(** *** Requests *)

Section requests.
Context (L : list event) (q : request) (id : string) (Hq : caller tokens L q id).

Abbreviation cx := (mkContext (Params q) (Queries q) (Some id) None (RequestIP q)).

Lemma required_roles r : required_role r = "viewer" ∨ required_role r = "editor" ∨ required_role r = "owner".
Proof. destruct r; auto. Qed.

Lemma d_in_project r :
  Endpoint q = InProject r →
  disciplined L (ProjectScope cx (λ cx, RBAC (required_role r) cx (handle url_Parse health_url environment r))).
Proof.
  intros He. unfold ProjectScope. simpl. destruct (String.eqb _ _); [done|].
  destruct (uuid_parse (Params q "projectId")) as [p|] eqn:Hp; [|done].
  destruct (uuid_parse id) as [u|] eqn:Hu; [|done]. split; [by exists q, id|].
  intros [role|[]]; try done. split; [exists u, role; apply event_last|]. intros [[]|[]]; try done.
  unfold RBAC. cbn [Tenant with_tenant]. destruct (permits _ _) eqn:Hperm; [|done].
  set (tc := mkTenant p u role) in *. set (M := (L ++ _) ++ _).
  assert (Hm : member_of tokens M q tc).
  { subst M. exists id. split_and!; try done; [|auto..]. eapply caller_mono; [|exact Hq]. auto. }
  assert (HM : in_scope M (required_role r) (with_tenant tc cx) tc).
  { subst M. split; [done| |done]. by exists q. }
  destruct (required_roles r) as [E|[E|E]]; rewrite E in HM; [by eapply d_viewer|by eapply d_editor|].
  eapply d_owner; [exact HM|done|]. by exists q.
Qed.

Lemma d_super k : (∀ L', platform_admin tokens L' → disciplined L' (k cx)) → disciplined L (SuperAdminOnly cx k).
Proof.
  intros Hk. split; [by exists q|]. intros [[]|e]; try done. apply Hk. exists q, id. split; [|apply event_last].
  eapply caller_mono; [|exact Hq]. auto.
Qed.

Lemma d_tenant_op L' op failed msg status :
  (∀ raw, guard L' (op raw)) → disciplined L' (tenant_op cx op failed msg status).
Proof. intros Hg. unfold tenant_op. entry. apply d_finished; [intros; apply d_on_error|]. by apply serves_call. Qed.

Lemma d_dispatch : disciplined L (dispatch url_Parse health_url environment (Endpoint q) cx).
Proof.
  assert (Hun : match Endpoint q with PutProject _ | DeleteProject => True | _ => False end →
    unscoped tokens L (Params q "projectId")) by (intros; by exists q, id).
  destruct (Endpoint q) eqn:He; simpl in *.
  - by apply d_in_project.
  - unfold ProjectsCreate. entry. apply d_finished; [intros; apply d_on_error|]. apply serves_call; [by exists q|done].
  - unfold ProjectsList. simpl. handler. apply serves_call; [by exists q|done].
  - unfold ProjectsUpdate. entry. apply d_finished; [intros; apply d_on_error|]. apply serves_call; [by apply Hun|done].
  - apply d_finished; [intros; apply d_on_error|]. apply serves_call; [left; by apply Hun|done].
  - apply d_super. intros L' Ha. unfold PlatformList. handler. by apply serves_call.
  - apply d_super. intros L' Ha. apply d_tenant_op. intros raw. by right.
  - apply d_super. intros L' Ha. by apply d_tenant_op.
  - apply d_super. intros L' Ha. by apply d_tenant_op.
Qed.

End requests.

Lemma requests_disciplined L q : EvRequest q ∈ L → disciplined L (serve tokens url_Parse health_url environment q).
Proof.
  intros Hq t. destruct (AdminToken.AdminAuth tokens t (Authorization q)) as [[id name]|[status msg]] eqn:Ha; [|done].
  apply d_dispatch. split; [auto|]. exists t, name. split; [apply event_last|done].
Qed.

(** ** The invariant of the system *)

(** The history of a task is of one request, and in the log. *)
Record task_ok (L : list event) (x : task) : Prop := {
  task_disciplined : disciplined x.1 x.2;
  task_logged : x.1 ⊆ L;
  task_request q q' : EvRequest q ∈ x.1 → EvRequest q' ∈ x.1 → q = q';
}.

Record tenant_inv (s : sys) : Prop := {
  inv_tasks : Forall (task_ok (log s)) (tasks s);
  inv_cache : ∀ p x e, cache s !! p = Some (x, e) → summary_of (log s) p x;
}.

Lemma CacheGet_spec now ch p s : CacheGet now ch p = Some s → ∃ e, ch !! p = Some (s, e).
Proof. unfold CacheGet. destruct (ch !! p) as [[x e]|]; [|done]. destruct (_ <? _)%Z; naive_solver. Qed.

Lemma tasks_mono L L' ts : L ⊆ L' → Forall (task_ok L) ts → Forall (task_ok L') ts.
Proof. intros HL H. eapply Forall_impl; [exact H|]. intros x [? ? ?]. split; [done|by etrans|done]. Qed.

Lemma replace_task L L' l1 x x' l2 :
  Forall (task_ok L) (l1 ++ x :: l2) → L ⊆ L' → (task_ok L x → task_ok L' x') →
  Forall (task_ok L') (l1 ++ x' :: l2).
Proof.
  intros H HL Hp. apply Forall_app in H as [H1 [H0 H2]%Forall_cons]. apply Forall_app. split; [by eapply tasks_mono|].
  constructor; [by apply Hp|by eapply tasks_mono].
Qed.

Lemma remove_task L l1 x l2 : Forall (task_ok L) (l1 ++ x :: l2) → Forall (task_ok L) (l1 ++ l2).
Proof. intros [H1 [H0 H2]%Forall_cons]%Forall_app. by apply Forall_app. Qed.

(** A task goes on, without an event or with one that is no request. *)
Lemma task_goes_on L h p p' : task_ok L (h, p) → (disciplined h p → disciplined h p') → task_ok L (h, p').
Proof. intros [? ? ?] Hp. split; [by apply Hp|done|done]. Qed.

Lemma task_event L h p p' e :
  task_ok L (h, p) → (∀ q, e ≠ EvRequest q) → (disciplined h p → disciplined (h ++ [e]) p') →
  task_ok (L ++ [e]) (h ++ [e], p').
Proof.
  intros [Hd HL Hq] He Hp. split; simpl in *; [by apply Hp|by apply history_grows|].
  intros q q'. rewrite !elem_of_app, !list_elem_of_singleton. naive_solver.
Qed.

Lemma tenant_inv_step s s' : tenant_inv s → step tokens url_Parse health_url environment s s' → tenant_inv s'.
Proof.
  intros [Ht Hc] Hstep.
  assert (Hcache : ∀ L', log s ⊆ L' → ∀ p x e, cache s !! p = Some (x, e) → summary_of L' p x).
  { intros L' HL p x e Hx. eapply summary_of_mono; [exact HL|by eapply Hc]. }
  destruct Hstep; simpl in *.
  - split; simpl; [|apply Hcache; auto]. apply Forall_app. split; [eapply tasks_mono; [|exact Ht]; auto|].
    constructor; [|done]. split; simpl; [by apply requests_disciplined; left|set_solver|].
    intros q1 q2 [= ->]%list_elem_of_singleton [= ->]%list_elem_of_singleton. done.
  - split; [|done]. apply Forall_app. split; [done|]. constructor; [|done]. split; [by split|set_solver|].
    by intros ? ? ?%not_elem_of_nil.
  - split; simpl; [|apply Hcache; auto]. eapply replace_task; [exact Ht|auto|]. intros Hk.
    eapply task_event; [exact Hk|done|]. intros [_ Hk']. apply Hk'.
  - split; simpl; [|apply Hcache; auto]. eapply replace_task; [exact Ht|auto|]. intros Hk.
    eapply task_event; [exact Hk|done|]. intros Hk'. apply Hk'.
  - split; [|done]. eapply replace_task; [exact Ht|done|]. intros Hk. eapply task_goes_on; [exact Hk|]. intros Hk'. apply Hk'.
  - split; [|done]. eapply replace_task; [exact Ht|done|]. intros Hk. eapply task_goes_on; [exact Hk|]. intros Hk'. apply Hk'.
  - split; simpl.
    + eapply replace_task; [exact Ht|done|]. intros Hk. eapply task_goes_on; [exact Hk|]. by intros [_ Hk'].
    + intros p' x e. unfold CacheSet. destruct (decide (p' = p)) as [->|Hne].
      * rewrite lookup_insert_eq. intros [= <- _]. apply Forall_app in Ht as [_ [[[Hs _] HL _] _]%Forall_cons].
        by eapply summary_of_mono.
      * rewrite lookup_insert_ne by done. apply Hc.
  - split; [|done]. eapply replace_task; [exact Ht|done|]. intros Hk. eapply task_goes_on; [exact Hk|]. intros Hk'. apply Hk'.
  - split; [|done]. eapply replace_task; [exact Ht|done|]. intros Hk. eapply task_goes_on; [exact Hk|]. intros Hk'. apply Hk'.
  - split; simpl; [|apply Hcache; auto]. eapply replace_task; [exact Ht|auto|]. intros Hk.
    eapply task_event; [exact Hk|done|]. intros [_ Hk']. apply Hk'.
  - split; simpl; [|apply Hcache; auto]. eapply replace_task; [exact Ht|auto|]. intros Hk.
    eapply task_event; [exact Hk|done|]. intros [_ Hk']. apply Hk'.
  - split; [|done]. by eapply remove_task.
  - split; [|done]. by eapply remove_task.
  - by split.
  - by split.
Qed.

Lemma tenant_reachable_inv t0 s : reachable tokens url_Parse health_url environment t0 s → tenant_inv s.
Proof.
  induction 1 as [d|s s' _ IH Hs]; [split; [constructor|]|by eapply tenant_inv_step].
  intros p x e Hx. simpl in Hx. by rewrite lookup_empty in Hx.
Qed.

(** The step is an event of the task with the history [h]. *)
Definition acts (s s' : sys) (h : list event) : Prop :=
  ∃ e p p', (h, p) ∈ tasks s ∧ (h ++ [e], p') ∈ tasks s' ∧ log s' = log s ++ [e].

(** Every call a step makes is guarded by the history of its own task. *)
Lemma step_call_guarded s s' :
  tenant_inv s → step tokens url_Parse health_url environment s s' →
  (∃ h X (c : TenantRepository X) ids r, acts s s' h ∧ h ⊆ log s ∧ guard h c ∧ tenant_call ids c (db s) = (db s', r) ∧
     log s' = log s ++ [EvCall c r]) ∨
  (elsewhere (tables (db s)) (tables (db s')) ∨ tables (db s') = tables (db s)) ∧
  (log s' = log s ∨ (∃ q, log s' = log s ++ [EvRequest q]) ∨ (∃ t, log s' = log s ++ [EvNow t]) ∨
   (∃ Y (op : SecretManager.SDK Y) r, secret_guard tokens environment (log s) op ∧ log s' = log s ++ [EvSecret op r]) ∨
   ∃ Y (op : DomainOp Y) r, log s' = log s ++ [EvDomain op r]).
Proof.
  intros [Ht _] Hstep. destruct Hstep; simpl in *; try solve [right; split; eauto 12].
  2:{ right. split; [by right|]. do 3 right. left. exists X, op, r. split; [|done].
      apply Forall_app in Ht as [_ [[[Hg _] HL _] _]%Forall_cons]. by eapply secret_guard_mono. }
  left. apply Forall_app in Ht as [_ [[[Hg _] HL _] _]%Forall_cons]. exists h, X, c, ids, r. split_and!; try done.
  exists (EvCall c r), (Repo c k), (k r). split_and!; [| |done]; apply elem_of_app; right; by left.
Qed.

(** So is every request of the custom-domain service. *)
Lemma step_domain_guarded s s' e :
  tenant_inv s → step tokens url_Parse health_url environment s s' → log s' = log s ++ [e] →
  match e with EvDomain op _ => ∃ h, acts s s' h ∧ h ⊆ log s ∧ domain_guard tokens h op | _ => True end.
Proof.
  intros [Ht _] Hstep. destruct Hstep; simpl in *; intros E; try (apply (f_equal length) in E; rewrite length_app in E; simpl in E; lia);
    apply app_inv_head in E as [= <-]; try done.
  apply Forall_app in Ht as [_ [[[Hg _] HL _] _]%Forall_cons]. exists h. split_and!; [|done|done].
  exists (EvDomain op r), (Domains op k), (k r). split_and!; [| |done]; apply elem_of_app; right; by left.
Qed.

(** ** What is in the history of a request *)

(** On what an event rests. *)
Definition event_guard (h : list event) (e : event) : Prop :=
  match e with
  | EvCall c _ => guard h c
  | EvSecret op _ => secret_guard tokens environment h op
  | EvDomain op _ => domain_guard tokens h op
  | EvRequest _ | EvNow _ => True
  end.

Lemma event_guard_mono h h' e : h ⊆ h' → event_guard h e → event_guard h' e.
Proof.
  intros Hh. destruct e; [done|by apply guards_mono|done|by apply secret_guard_mono|by apply domain_guard_mono].
Qed.

(** The caller of the one request of the history is a member of the project with
    the role. *)
Definition own_caller (h : list event) (role : string) (tc : TenantContext) : Prop :=
  (∀ q q', EvRequest q ∈ h → EvRequest q' ∈ h → q = q') ∧ authorised h role tc.

(** The histories after a step: those before it, that of a new task, and one that
    a guarded event of its task was added to. *)
Lemma step_histories s s' x :
  tenant_inv s → step tokens url_Parse health_url environment s s' → x ∈ tasks s' →
  (∃ p, (x.1, p) ∈ tasks s) ∨ x.1 = [] ∨ (∃ q, x.1 = [EvRequest q]) ∨
  ∃ h p e, (h, p) ∈ tasks s ∧ x.1 = h ++ [e] ∧ log s' = log s ++ [e] ∧ event_guard h e.
Proof.
  intros [Ht _] Hstep Hx.
  assert (Hold : x ∈ tasks s → ∃ p, (x.1, p) ∈ tasks s) by (destruct x as [h p]; by exists p).
  destruct Hstep; simpl in *; try (by left; auto).
  1,2: apply elem_of_app in Hx as [?| ->%list_elem_of_singleton]; eauto 6.
  all: rewrite ?elem_of_app, ?elem_of_cons in Hx; try (left; apply Hold; rewrite elem_of_app, elem_of_cons; tauto).
  all: destruct Hx as [?|[->|?]]; try (left; apply Hold; rewrite elem_of_app, elem_of_cons; tauto).
  all: try (left; eexists; apply elem_of_app; right; by left).
  all: do 3 right; eexists h, _, _; (split; [apply elem_of_app; right; by left|]); (split; [done|]); (split; [done|]).
  all: try done.
  all: by apply Forall_app in Ht as [_ [[[Hg _] _ _] _]%Forall_cons].
Qed.

Lemma histories_guarded t0 s x :
  reachable tokens url_Parse health_url environment t0 s → x ∈ tasks s → Forall (event_guard x.1) x.1.
Proof.
  intros Hr. revert x. induction Hr as [d|s s' Hr IH Hs]; intros x Hx; [by apply not_elem_of_nil in Hx|].
  apply (step_histories _ _ _ (tenant_reachable_inv _ _ Hr) Hs) in Hx
    as [(p & Hp)|[->|[(q & ->)|(h & p & e & Hh & -> & _ & Hg)]]]; [by apply (IH _ Hp)|constructor|by repeat constructor|].
  apply Forall_app. split.
  - eapply Forall_impl; [apply (IH _ Hh)|]. intros e'. apply event_guard_mono. intros y Hy. by apply event_earlier.
  - constructor; [|done]. eapply event_guard_mono; [|exact Hg]. intros y Hy. by apply event_earlier.
Qed.

Lemma history_own t0 s x role tc :
  reachable tokens url_Parse health_url environment t0 s → x ∈ tasks s → authorised x.1 role tc → own_caller x.1 role tc.
Proof.
  intros Hr Hx Ha. split; [|done]. pose proof (inv_tasks _ (tenant_reachable_inv _ _ Hr)) as Ht.
  rewrite Forall_forall in Ht. exact (task_request _ _ (Ht _ Hx)).
Qed.

End discipline.
End TenantDiscipline.
