(* ===== verification/TenantMembers.v ===== *)
(** * Tenants: members

    The project's owner stays its member whatever is interleaved; the operations
    of [MembershipRepo] run alone against what they are meant to do; that run
    alone they keep an owner. *)

From stdpp Require Import gmap.
From S2P Require Import Prelude GoStrings Store Transactions Model AdminAccess TenantTables TenantRepo.
From S2P Require Import TenantResources TenantServices TenantHandlers TenantFacts TenantSystem.
From S2P Require Import TenantDiscipline.

Module TenantMembers.
Import TenantSystem TenantDiscipline.

(** ** What every call but two keeps *)

(** Projects keep their owners, no member goes. *)
Record steady (t t' : tenants) : Prop := {
  steady_owner p : OwnerID <$> projects t' !! p = OwnerID <$> projects t !! p;
  steady_member k : is_Some (members t !! k) → is_Some (members t' !! k);
}.

#[global] Instance steady_preorder : PreOrder steady.
Proof. split; [by split|]. intros t1 t2 t3 [O1 M1] [O2 M2]. split; [intros p; by rewrite O2|auto]. Qed.

Lemma memberships_member k t : members t !! k = memberships k.1 t !! k.
Proof.
  apply option_eq. intros x. unfold memberships. rewrite map_lookup_filter_Some. naive_solver.
Qed.

Lemma unchanged_steady fp t t' :
  (∀ p, may_project fp p = false) → (∀ p, may_members fp p = false) → unchanged fp t t' → steady t t'.
Proof.
  intros Hp Hm [_ M _ P _ _ _]. split; [intros p; by rewrite P|]. intros k. by rewrite !memberships_member, M.
Qed.

Lemma steady_insert_member k m t : steady t (set_members (<[k := m]> (members t)) t).
Proof. split; [done|]. intros j Hj. simpl. destruct (decide (j = k)) as [->|]; [by rewrite lookup_insert_eq|by rewrite lookup_insert_ne]. Qed.

Section calls.
Context {DB : Database}.

Lemma steady_update_project id f now t t' o :
  (∀ p, OwnerID (f p) = OwnerID p) → update_project id f now t = Ok (t', o) → steady t t'.
Proof.
  intros Hf H. unfold update_project in H. apply typed_spec in H as (p & _ & H).
  destruct (projects t !! p) as [pr|] eqn:Hp; [|by injection H as <- _]. destruct (project_live pr); [|by injection H as <- _].
  injection H as <- _. split; [|done]. intros q. simpl.
  destruct (decide (q = p)) as [->|]; [|by rewrite lookup_insert_ne].
  rewrite lookup_insert_eq, Hp. simpl. by rewrite Hf.
Qed.

Lemma steady_delete_of {C} `{!Resource C} id (f : Z → row C → row C) now t t' n :
  delete_of id f now t = Ok (t', n) → (∀ m, steady t (set_table m t)) → steady t t'.
Proof. intros H Hs. apply typed_spec in H as (p & _ & [= <- _]). apply Hs. Qed.

Lemma calls_steady ids {X} (c : TenantRepository X) :
  match c with
  | CallProjectCreate _ _ _ _ _ | CallDeleteMember _ _ => True
  | _ => keeps steady (tenant_call ids c)
  end.
Proof.
  pose proof (tenant_calls_confined ids c) as Hc.
  assert (Hsame : (∀ p, may_project (call_footprint ids c) p = false) → (∀ p, may_members (call_footprint ids c) p = false) →
    keeps steady (tenant_call ids c)).
  { intros Hp Hm d d' r Hd. eapply unchanged_steady; [exact Hp|exact Hm|]. by eapply Hc. }
  destruct c; try done; try by apply Hsame.
  - destruct ctx as [tc|]; [|by apply Hsame]. apply Hsame; by destruct op.
  - simpl. unfold InsertMember, insert_member. changes. destruct (negb _); [done|]. destruct (bool_decide _); [done|].
    destruct (negb _); [done|]. injection H as <- _. apply steady_insert_member.
  - simpl. unfold SetRole. changes. destruct (negb _); [done|]. destruct (members t !! _); injection H as <- _; [|done].
    apply steady_insert_member.
  - simpl. unfold ProjectUpdate. changes. by eapply steady_update_project; [|exact H].
  - simpl. unfold ProjectDelete. changes; try (refine (steady_delete_of _ _ _ _ _ _ H _); by split).
    by eapply (steady_update_project _ (deleted_project _)); [|exact H].
  - simpl. unfold Suspend. changes. by eapply steady_update_project; [|exact H].
  - simpl. unfold Reactivate. changes. by eapply steady_update_project; [|exact H].
  - simpl. unfold UpdateDashboardOrigins. changes. by eapply steady_update_project; [|exact H].
Qed.

End calls.

(** ** The owner stays a member *)

Definition owner_is_member (t : tenants) : Prop :=
  ∀ p pr, projects t !! p = Some pr → is_Some (members t !! (p, OwnerID pr)).
Definition owners_kept (t t' : tenants) : Prop :=
  ∀ p o, OwnerID <$> projects t !! p = Some o → OwnerID <$> projects t' !! p = Some o.

(** A reply that named a project's owner is still true. *)
Definition reply_holds (t : tenants) {X} (c : TenantRepository X) : result error X → Prop :=
  match c in TenantRepository X return result error X → Prop with
  | CallProjectOwner p => λ r, ∀ o, r = Ok o → OwnerID <$> projects t !! p = Some o
  | _ => λ _, True
  end.
Definition event_holds (t : tenants) (e : event) : Prop := match e with EvCall c r => reply_holds t c r | _ => True end.

Lemma event_holds_kept t t' e : owners_kept t t' → event_holds t e → event_holds t' e.
Proof. destruct e as [q|X c r|n|Y op r|Y op r]; try done. destruct c; try done. simpl. intros Hk H o Hr. by apply Hk, H. Qed.

Lemma steady_invariant t t' : steady t t' → owners_kept t t' ∧ (owner_is_member t → owner_is_member t').
Proof.
  intros [O M]. split; [intros p o; by rewrite O|]. intros H p pr Hp. apply M.
  specialize (O p). rewrite Hp in O. symmetry in O. apply fmap_Some in O as (pr0 & Hp0 & ->). by apply H.
Qed.

Lemma new_project_kept t p pr m m0 :
  projects t !! p = None → m0 !! (p, OwnerID pr) = Some m → (∀ k, is_Some (members t !! k) → is_Some (m0 !! k)) →
  ∀ t', projects t' = <[p := pr]> (projects t) → members t' = m0 →
  owners_kept t t' ∧ (owner_is_member t → owner_is_member t').
Proof.
  intros Hnone Hm Hall t' Hp' Hm'. split.
  - intros q o. rewrite Hp'. destruct (decide (q = p)) as [->|]; [by rewrite Hnone|by rewrite lookup_insert_ne].
  - intros H q pr'. rewrite Hp', Hm'. destruct (decide (q = p)) as [->|].
    + rewrite lookup_insert_eq. intros [= <-]. by rewrite Hm.
    + rewrite lookup_insert_ne by done. intros Hq. by apply Hall, H.
Qed.

Lemma insert_monotone {V} (m : gmap (string * string) V) k v j : is_Some (m !! j) → is_Some (<[k := v]> m !! j).
Proof. intros Hj. destruct (decide (j = k)) as [->|]; [by rewrite lookup_insert_eq|by rewrite lookup_insert_ne]. Qed.

Section owner.
Context {DB : Database} `{!JWT AdminToken.AdminClaims}.
Context (tokens : AdminToken.AdminTokenManager).
Context (url_Parse : string → option URL) (health_url : string → string → option string).
Context (environment : deployment).

Abbreviation step := (step tokens url_Parse health_url environment).
Abbreviation reachable := (reachable tokens url_Parse health_url environment).

Lemma call_invariant ids {X} (c : TenantRepository X) h d d' r :
  guard tokens environment h c → Forall (event_holds (tables d)) h → tenant_call ids c d = (d', r) →
  owners_kept (tables d) (tables d') ∧ (owner_is_member (tables d) → owner_is_member (tables d')).
Proof.
  intros Hg Hh Hc. pose proof (calls_steady ids c) as Hs.
  destruct c; try (apply steady_invariant; exact (Hs _ _ _ Hc)); clear Hs.
  - pose proof (tenant_calls_confined ids _ _ _ _ Hc) as [_ _ _ P _ _ _].
    assert (Hp : ∀ p, projects (tables d') !! p = projects (tables d) !! p) by (intros p; by apply P).
    split; [intros p o; by rewrite Hp|]. intros Ho p pr Hpr. rewrite Hp in Hpr. specialize (Ho _ _ Hpr).
    destruct Hg as (_ & (o & Hin & Hne) & _). rewrite Forall_forall in Hh. specialize (Hh _ Hin o eq_refl).
    simpl in Hc, Hh. unfold DeleteMember in Hc. apply stmt_spec in Hc as [_ Hc]. destruct r as [n|]; [|by rewrite Hc].
    destruct (members (tables d) !! (projectID, userID)); injection Hc as Ht _; rewrite <-Ht; [simpl|done].
    rewrite lookup_delete_ne; [done|]. intros [= -> ->]. rewrite Hpr in Hh. simpl in Hh. congruence.
  - apply project_create_spec in Hc. destruct r as [pr|]; [|rewrite Hc; by apply steady_invariant].
    destruct Hc as (_ & Hnone & _ & _ & m & _ & _ & ->).
    eapply new_project_kept; [exact Hnone| | |reflexivity|reflexivity]; simpl; [apply lookup_insert_eq|].
    intros k. apply insert_monotone.
Qed.

Lemma elsewhere_invariant t t' : elsewhere t t' → owners_kept t t' ∧ (owner_is_member t → owner_is_member t').
Proof.
  intros [a|a p m _ Hp Ho _ _ _ _|m]; try by apply steady_invariant.
  eapply (new_project_kept t (ProjectID p) p m); [done| | |reflexivity|reflexivity]; simpl.
  - rewrite Ho. apply lookup_insert_eq.
  - intros k. apply insert_monotone.
Qed.

Record owner_inv (t0 : tenants) (s : sys) : Prop := {
  inv_members : owner_is_member (tables (db s));
  inv_replies : Forall (event_holds (tables (db s))) (log s);
  inv_owners : owners_kept t0 (tables (db s));
}.

Lemma owner_inv_step t0 s s' : tenant_inv tokens environment s → owner_inv t0 s → step s s' → owner_inv t0 s'.
Proof.
  intros Hi [Hm Hr Ho] Hs.
  assert (Hok : ∀ t', t' = tables (db s') → owners_kept (tables (db s)) t' →
    (owner_is_member (tables (db s)) → owner_is_member t') →
    (∀ e, e ∈ log s' → e ∈ log s ∨ event_holds t' e) → owner_inv t0 s').
  { intros t' -> Hk Hm' Hl. split; [auto| |intros p o H; by apply Hk, Ho]. apply Forall_forall. intros e He.
    destruct (Hl e He) as [He'|]; [|done]. rewrite Forall_forall in Hr. eapply event_holds_kept; [exact Hk|auto]. }
  apply step_call_guarded in Hs as [(h & X & c & ids & r & _ & Hh & Hg & Hc & Hl)|[Ht Hl]]; [| |done].
  - assert (Forall (event_holds (tables (db s))) h) as Hh'.
    { apply Forall_forall. intros e He. rewrite Forall_forall in Hr. by apply Hr, Hh. }
    destruct (call_invariant ids c h _ _ _ Hg Hh' Hc) as [Hk Hm'].
    apply (Hok _ eq_refl Hk Hm'). rewrite Hl. intros e [He|He]%elem_of_app; [by left|right].
    apply list_elem_of_singleton in He as ->. simpl. destruct c; try done. simpl in Hc |- *. intros o ->.
    apply stmt_spec in Hc as [_ Hc]. unfold read in Hc. destruct (_ <$> _) as [o'|] eqn:Ho'; [|done].
    injection Hc as <- <-. exact Ho'.
  - assert (owners_kept (tables (db s)) (tables (db s')) ∧ (owner_is_member (tables (db s)) → owner_is_member (tables (db s'))))
      as [Hk Hm'].
    { destruct Ht as [He|He]; [by apply elsewhere_invariant|rewrite He; by apply steady_invariant]. }
    apply (Hok _ eq_refl Hk Hm'). intros e. destruct Hl as [->|[[q ->]|[[t ->]|[(Y & op & r & _ & ->)|(Y & op & r & ->)]]]]; [by left|..];
      intros [He|He]%elem_of_app; try (by left); right; by apply list_elem_of_singleton in He as ->.
Qed.

Lemma owner_reachable_inv t0 s : owner_is_member t0 → reachable t0 s → owner_inv t0 s.
Proof.
  intros H0. induction 1 as [d Hd|s s' Hr IH Hs].
  - split; simpl; [by rewrite Hd|constructor|intros q o; by rewrite Hd].
  - by eapply owner_inv_step; [eapply tenant_reachable_inv|..].
Qed.

(** C30: In every reachable state, whatever requests were interleaved, the user a
    project names as its owner is a member of the project, if that held at first;
    and the owner a project names never changes.  [RemoveMember] checks the owner
    in one query and deletes in another, but no request changes [owner_id]
    between. *)
Theorem project_owner_stays t0 s p pr :
  owner_is_member t0 → reachable t0 s → projects (tables (db s)) !! p = Some pr →
  is_Some (members (tables (db s)) !! (p, OwnerID pr)) ∧
  ∀ pr0, projects t0 !! p = Some pr0 → OwnerID pr0 = OwnerID pr.
Proof.
  intros H0 Hr Hp. destruct (owner_reachable_inv t0 s H0 Hr) as [Hm _ Ho].
  split; [by apply Hm|]. intros pr0 Hp0. specialize (Ho p (OwnerID pr0)).
  rewrite Hp0, Hp in Ho. specialize (Ho eq_refl). by injection Ho.
Qed.

End owner.
(** ** One request alone *)

(** A program of calls alone, with nothing between them; the identifiers the
    calls draw do not matter here. *)
Fixpoint run_calls {DB : Database} {A} (ids : fresh_ids) (p : prog A) (d : store tenants) : option (store tenants * A) :=
  match p with
  | Done a => Some (d, a)
  | Repo c k => let '(d', r) := tenant_call ids c d in run_calls ids (k r) d'
  | _ => None
  end.

(** What the three methods are for. *)
Definition member_added (p u role inviter : string) (now : Z) (t : tenants) : result error tenants :=
  match members t !! (p, u) with
  | Some _ => Err ErrAlreadyMember
  | None => match insert_member p u role (Some inviter) now t with Ok (t', _) => Ok t' | Err e => Err e end
  end.

(** The only owner stays one. *)
Definition last_owner (p : string) (t : tenants) (m : Member) : bool := is_owner m && (owners p t <=? 1)%nat.

Definition role_changed (p u role : string) (t : tenants) : result error tenants :=
  match members t !! (p, u) with
  | None => Err ErrNotFound
  | Some m =>
      if String.eqb (MemberRole m) role then Ok t
      else if last_owner p t m then Err ErrLastOwner
      else if negb (member_role role) then Err InvalidText
      else Ok (set_members (<[(p, u) := with_role role m]> (members t)) t)
  end.

Definition member_removed (p u : string) (t : tenants) : result error tenants :=
  match projects t !! p, members t !! (p, u) with
  | None, _ => Err ErrNotFound
  | Some pr, o =>
      if String.eqb (OwnerID pr) u then Err ErrIsProjectOwner
      else match o with
           | None => Err ErrNotFound
           | Some m =>
               if last_owner p t m then Err ErrLastOwner
               else Ok (set_members (delete (p, u) (members t)) t)
           end
  end.

Definition done_with (d : store tenants) (r : result error tenants) : store tenants * result error unit :=
  match r with Ok t => (with_tables t d, Ok ()) | Err e => (d, Err e) end.

Section alone.
Context {DB : Database}.

Lemma run_stmt {A} ids (c : TenantRepository A) {B} (k : result error A → prog B) f d :
  tenant_call ids c = stmt f → faults d = [] →
  run_calls ids (Repo c k) d =
    match f (clock d) (tables d) with
    | Ok (t', x) => run_calls ids (k (Ok x)) (with_tables t' d)
    | Err e => run_calls ids (k (Err e)) d
    end.
Proof.
  intros Hc Hf. simpl. rewrite Hc, stmt_alone by done. by destruct (f _ _) as [[t' x]|e].
Qed.

Lemma run_read {A} ids (c : TenantRepository A) {B} (k : result error A → prog B) f d :
  tenant_call ids c = stmt (read f) → faults d = [] →
  run_calls ids (Repo c k) d = run_calls ids (k (match f (tables d) with Some x => Ok x | None => Err ErrNoRows end)) d.
Proof.
  intros Hc Hf. rewrite (run_stmt _ _ _ _ _ Hc Hf). unfold read. destruct (f (tables d)); [|done].
  by rewrite with_tables_same.
Qed.

Lemma run_look {A} ids (c : TenantRepository A) {B} (k : result error A → prog B) f d :
  tenant_call ids c = stmt (look f) → faults d = [] →
  run_calls ids (Repo c k) d = run_calls ids (k (Ok (f (tables d)))) d.
Proof. intros Hc Hf. rewrite (run_stmt _ _ _ _ _ Hc Hf). unfold look. by rewrite with_tables_same. Qed.

(** The count of owners, where it is needed. *)
Lemma run_keep_owner ids p (b : bool) (k : result error unit → service unit) d :
  faults d = [] →
  run_calls ids (pbind (if b then keep_owner p else ok ()) k) d =
    run_calls ids (k (if b && (owners p (tables d) <=? 1)%nat then Err ErrLastOwner else Ok ())) d.
Proof.
  intros Hf. destruct b; [|done]. unfold keep_owner, call. cbn [pbind].
  rewrite (run_look _ (CallCountOwners p) _ (owners p)) by done. simpl. by destruct (_ <=? _)%nat.
Qed.

(** With no other request between its queries, and no query failing, each of
    the three methods of [MembershipRepo] that run several statements without a
    transaction does exactly what it is for, on every branch: it adds, changes or
    removes the membership, or answers with the error that says why not and
    changes nothing. *)
Theorem membership_alone ids p u role inviter d :
  faults d = [] →
  run_calls ids (AddMember p u role inviter) d = Some (done_with d (member_added p u role inviter (clock d) (tables d))) ∧
  run_calls ids (UpdateRole p u role) d = Some (done_with d (role_changed p u role (tables d))) ∧
  run_calls ids (RemoveMember p u) d = Some (done_with d (member_removed p u (tables d))).
Proof.
  intros Hf. split_and!.
  - unfold AddMember, member_added, call. cbn [pbind].
    rewrite (run_read _ (CallSelectMember p u) _ (role_of p u)) by done. unfold role_of.
    destruct (members (tables d) !! (p, u)) as [m|]; [done|]. cbn [fmap option_fmap option_map].
    rewrite (run_stmt _ (CallInsertMember p u role inviter) _ (insert_member p u role (Some inviter))) by done.
    by destruct (insert_member _ _ _ _ _ _) as [[t' []]|e].
  - unfold UpdateRole, role_changed, select_role, call. cbn [pbind].
    rewrite (run_read _ (CallSelectMember p u) _ (role_of p u)) by done. unfold role_of, last_owner, is_owner.
    destruct (members (tables d) !! (p, u)) as [m|] eqn:Hm; [|done]. cbn [fmap option_fmap option_map pbind].
    destruct (String.eqb_spec (MemberRole m) role) as [E|Hne]; [by simpl; rewrite with_tables_same|].
    rewrite run_keep_owner by done.
    assert (String.eqb (MemberRole m) "owner" && negb (String.eqb role "owner") = String.eqb (MemberRole m) "owner") as ->.
    { destruct (String.eqb_spec (MemberRole m) "owner"), (String.eqb_spec role "owner"); simpl; congruence. }
    destruct (_ && _); [done|]. cbn [pbind]. unfold SetRole in *.
    erewrite (run_stmt _ (CallSetRole p u role)) by done. cbv beta.
    destruct (negb (member_role role)); [done|]. by rewrite Hm.
  - unfold RemoveMember, member_removed, select_role, call. cbn [pbind].
    rewrite (run_read _ (CallProjectOwner p) _ (λ t, OwnerID <$> projects t !! p)) by done.
    destruct (projects (tables d) !! p) as [pr|]; [|done]. cbn [fmap option_fmap option_map].
    destruct (String.eqb _ _); [done|]. cbn [pbind].
    rewrite (run_read _ (CallSelectMember p u) _ (role_of p u)) by done. unfold role_of, last_owner, is_owner.
    destruct (members (tables d) !! (p, u)) as [m|] eqn:Hm; [|done]. cbn [fmap option_fmap option_map pbind].
    rewrite run_keep_owner by done. destruct (_ && _); [done|]. cbn [pbind].
    erewrite (run_stmt _ (CallDeleteMember p u)) by done. cbv beta. by rewrite Hm.
Qed.

(** *** Whichever queries fail *)

(** What holds when a program of calls is through, from the tables [t]; it does
    get through. *)
Definition ends {B} (ids : fresh_ids) (t : tenants) (p : prog B) (Q : tenants → Prop) : Prop :=
  ∀ d, tables d = t → ∃ d' b, run_calls ids p d = Some (d', b) ∧ Q (tables d').

Section ends.
Context (ids : fresh_ids) (t : tenants) (Q : tenants → Prop) (HQ : Q t).

Lemma ends_done {B} (b : B) : ends ids t (Done b) Q.
Proof. intros d <-. by exists d, b. Qed.

Lemma ends_stmt {A B} (c : TenantRepository A) (k : result error A → prog B) f :
  tenant_call ids c = stmt f →
  (∀ now t' x, f now t = Ok (t', x) → ends ids t' (k (Ok x)) Q) → (∀ e, ends ids t (k (Err e)) Q) →
  ends ids t (Repo c k) Q.
Proof using Type.
  intros Hc Hok Herr d Ht. simpl. rewrite Hc. destruct (stmt f d) as [d' r] eqn:Hs. apply stmt_spec in Hs as [_ Hs].
  rewrite Ht in Hs.
  destruct r as [x|e]; [by eapply Hok|by apply Herr].
Qed.

Lemma ends_read {A B} (c : TenantRepository A) (k : result error A → prog B) f :
  tenant_call ids c = stmt (read f) → (∀ x, f t = Some x → ends ids t (k (Ok x)) Q) →
  (∀ e, ends ids t (k (Err e)) Q) → ends ids t (Repo c k) Q.
Proof using Type.
  intros Hc Hok. apply ends_stmt with (f := read f); [done|]. intros now t' x. unfold read.
  destruct (f t) as [y|]; [|done]. intros H. injection H as Ht <-. rewrite <-Ht. by apply Hok.
Qed.

Lemma ends_keep_owner p (b : bool) (k : result error unit → service unit) :
  (b && (owners p t <=? 1)%nat = false → ends ids t (k (Ok ())) Q) → (∀ e, ends ids t (k (Err e)) Q) →
  ends ids t (pbind (if b then keep_owner p else ok ()) k) Q.
Proof using Type.
  intros Hok Herr. destruct b; [|by apply Hok]. unfold keep_owner, call. cbn [pbind].
  eapply ends_stmt; [reflexivity| |apply Herr]. intros now t' x H. injection H as Ht <-. rewrite <-Ht.
  destruct (_ <=? _)%nat; [apply Herr|by apply Hok].
Qed.

Lemma ends_affected n : ends ids t (affected n) Q.
Proof. unfold affected. destruct (_ =? _)%nat; apply ends_done. Qed.

End ends.

(** Without one member there is at most one owner less. *)
Lemma owners_delete p u t m :
  members t !! (p, u) = Some m → last_owner p t m = false → 1 ≤ owners p t →
  1 ≤ owners p (set_members (delete (p, u) (members t)) t).
Proof.
  unfold last_owner, owners, memberships. simpl. intros Hm Hl. rewrite !map_filter_delete.
  set (f := filter _ (filter _ _)) in *. destruct (is_owner m) eqn:Ho.
  - simpl in Hl. apply Nat.leb_gt in Hl. destruct (f !! (p, u)) eqn:Hf.
    + rewrite map_size_delete_Some by by rewrite Hf. lia.
    + rewrite map_size_delete_None by done. lia.
  - intros H. rewrite map_size_delete_None; [done|]. apply map_lookup_filter_None. right. intros x.
    rewrite map_lookup_filter_Some. intros [Hx _]. simpl in *. congruence.
Qed.

Lemma owners_insert p u t m m' :
  members t !! (p, u) = Some m → last_owner p t m = false → 1 ≤ owners p t →
  1 ≤ owners p (set_members (<[(p, u) := m']> (members t)) t).
Proof.
  intros Hm Hl H. etrans; [by eapply owners_delete|]. unfold owners, memberships. simpl. apply map_subseteq_size.
  do 2 apply map_filter_subseteq_mono. apply map_subseteq_spec. intros k x. rewrite lookup_delete_Some.
  intros [? ?]. by rewrite lookup_insert_ne.
Qed.

(** C31: Alone, removing a member and changing a role, whichever of the queries
    fail, come to an end and leave a project that has an owner with an owner. *)
Theorem last_owner_kept ids p u role d :
  1 ≤ owners p (tables d) →
  (∃ d' r, run_calls ids (RemoveMember p u) d = Some (d', r) ∧ 1 ≤ owners p (tables d')) ∧
  (∃ d' r, run_calls ids (UpdateRole p u role) d = Some (d', r) ∧ 1 ≤ owners p (tables d')).
Proof.
  set (t := tables d). intros H. set (Q t := 1 ≤ owners p t).
  assert (Hfail : ∀ e, ends ids t (fail (X := unit) e) Q) by (intros e; by apply ends_done).
  assert (ends ids t (RemoveMember p u) Q ∧ ends ids t (UpdateRole p u role) Q) as [Hr Hu].
  2:{ split; [by apply Hr|by apply Hu]. }
  split.
  - unfold RemoveMember, select_role, call. cbn [pbind]. eapply ends_read; [reflexivity| |intros []; apply Hfail].
    intros o _. destruct (String.eqb _ _); [apply Hfail|]. cbn [pbind].
    eapply ends_read; [reflexivity| |intros []; apply Hfail]. intros cur Hcur.
    apply fmap_Some in Hcur as (m & Hm & ->). cbn [pbind]. apply ends_keep_owner; [|apply Hfail].
    intros Hl. cbn [pbind]. eapply ends_stmt; [reflexivity| |apply Hfail].
    intros now t' n. simpl. rewrite Hm. intros [= <- _]. apply ends_affected. by eapply owners_delete.
  - unfold UpdateRole, select_role, call. cbn [pbind]. eapply ends_read; [reflexivity| |intros []; apply Hfail].
    intros cur Hcur. apply fmap_Some in Hcur as (m & Hm & ->). cbn [pbind].
    destruct (String.eqb_spec (MemberRole m) role) as [|Hne]; [by apply ends_done|].
    apply ends_keep_owner; [|apply Hfail]. intros Hl. cbn [pbind].
    eapply ends_stmt; [reflexivity| |apply Hfail]. intros now t' n. simpl. rewrite Hm.
    destruct (negb (member_role role)); [done|]. intros [= <- _]. apply ends_affected. eapply owners_insert; [exact Hm| |done].
    unfold last_owner, is_owner. destruct (String.eqb_spec (MemberRole m) "owner") as [Ho|]; [|done].
    rewrite Ho in Hne. destruct (String.eqb_spec role "owner"); [congruence|]. exact Hl.
Qed.

End alone.

End TenantMembers.
