(* ===== verification/TenantGuarantees.v ===== *)
(** * Tenants: guarantees

    What holds of every interleaving of requests: who can have changed a project's
    data, and that the owner of a project stays its member. *)

From stdpp Require Import gmap.
From S2P Require Import Prelude GoStrings Store Transactions Model AdminAccess TenantTables TenantRepo.
From S2P Require Import TenantResources TenantServices TenantHandlers TenantFacts TenantSystem.
From S2P Require Import TenantDiscipline.

Module TenantGuarantees.
Import TenantSystem TenantDiscipline.

Section guarantees.
Context {DB : Database} `{!JWT AdminToken.AdminClaims}.
Context (tokens : AdminToken.AdminTokenManager).
Context (url_Parse : string → option URL) (health_url : string → string → option string).
Context (environment : deployment).

Abbreviation step := (step tokens url_Parse health_url environment).
Abbreviation reachable := (reachable tokens url_Parse health_url environment).

(** ** Isolation *)

(** What the log shows for a change to project [p]. *)
Definition by_member (L : list event) (role p : string) : Prop := authorised_for tokens L role p.
Definition by_platform (L : list event) : Prop := platform_admin tokens L.
(** Someone with a valid token named the project in PUT or DELETE
    [/v1/projects/:projectId]. *)
Definition by_anyone (L : list event) (p : string) : Prop := ∃ raw, uuid_in raw = Some p ∧ unscoped tokens L raw.

Lemma footprint_at (p q : string) : at_project p q = true → p = q.
Proof. apply String.eqb_eq. Qed.
Lemma footprint_named raw q : named_project raw q = true → uuid_in raw = Some q.
Proof. apply bool_decide_eq_true. Qed.

Lemma by_member_lower L r r' p : permits r' r = true → by_member L r p → by_member L r' p.
Proof. intros Hp (tc & ? & ?). exists tc. split; [done|by eapply authorised_lower]. Qed.

Lemma editor_ops {X} (op : ScopedCall X) p q :
  may_resources (scoped_footprint p op) q = true → p = q ∧ permits "editor" (op_role op) = true.
Proof. destruct op; simpl; try done; intros H; by apply footprint_at in H. Qed.

(** Outside its footprint a call changes nothing; inside, its guard holds. *)
Lemma call_resources_guarded ids {X} (c : TenantRepository X) L p :
  guard tokens environment L c → may_resources (call_footprint ids c) p = true →
  by_member L "editor" p ∨ by_platform L ∨ by_anyone L p.
Proof.
  destruct c; try done; simpl.
  - intros (tc & -> & Ha & _) [<- Hr]%editor_ops. left. exists tc. split; [done|]. by eapply authorised_lower.
  - intros [Hu|Hp] Hn%footprint_named; [right; right; by exists id|by right; left].
Qed.

Lemma call_members_guarded ids {X} (c : TenantRepository X) L p :
  guard tokens environment L c → may_members (call_footprint ids c) p = true →
  by_member L "owner" p ∨
  match c with CallProjectCreate _ _ _ _ _ => p = new_id ids | _ => False end.
Proof.
  destruct c; try done; simpl.
  - intros (tc & -> & _). by destruct op.
  - intros [Ha _] <-%footprint_at. by left.
  - intros [Ha _] <-%footprint_at. by left.
  - intros [Ha _] <-%footprint_at. by left.
  - intros _ <-%footprint_at. by right.
Qed.

Lemma call_audit_guarded ids {X} (c : TenantRepository X) L p :
  guard tokens environment L c → may_audit (call_footprint ids c) p = true →
  by_member L "viewer" p ∨ match c with CallPruneAudit d => d = pruneAge | _ => False end.
Proof.
  destruct c; try done; simpl; [|by right].
  intros (tc & -> & Ha & _) Hp. left. exists tc. destruct op; try done; apply footprint_at in Hp. done.
Qed.

Lemma call_project_guarded `{!DatabaseLaws DB} ids {X} (c : TenantRepository X) L p :
  guard tokens environment L c → may_project (call_footprint ids c) p = true →
  by_member L "owner" p ∨ by_platform L ∨ by_anyone L p ∨
  match c with CallProjectCreate _ _ _ _ _ => p = new_id ids | _ => False end.
Proof.
  destruct c; try done; simpl.
  - intros (tc & -> & _). by destruct op.
  - intros _ <-%footprint_at. by do 3 right.
  - intros Hu Hn%footprint_named. right; right; left. by exists id.
  - intros [Hu|Hp] Hn%footprint_named; [right; right; left; by exists id|by right; left].
  - intros Hp _. by right; left.
  - intros Hp _. by right; left.
  - intros (q & Hq & Ha) Hn%footprint_named. left. by rewrite <-(uuid_agree _ _ _ Hq Hn).
Qed.

Lemma call_jwt_guarded ids {X} (c : TenantRepository X) L p :
  guard tokens environment L c → may_jwt (call_footprint ids c) p = true → by_member L "owner" p.
Proof.
  destruct c; try done; simpl. intros (tc & -> & Ha & _) Hp. exists tc.
  destruct op; try done; apply footprint_at in Hp; done.
Qed.

Lemma elsewhere_new t t' p :
  elsewhere t t' →
  resources p t' = resources p t ∧ jwt_configs t' !! p = jwt_configs t !! p ∧ audit_trail p t' = audit_trail p t ∧
  (memberships p t' = memberships p t ∧ projects t' !! p = projects t !! p ∨ projects t !! p = None).
Proof.
  intros [a|a pr m _ Hp _ _ _ _ _|m]; split_and!; try done; try (by left).
  destruct (decide (p = ProjectID pr)) as [->|Hne]; [by right|left]. simpl. rewrite lookup_insert_ne by done.
  split; [|done]. apply map_eq. intros k. apply option_eq. intros x. unfold memberships. simpl.
  rewrite !map_lookup_filter_Some. split; intros [Hk ?]; (split; [|done]);
    [rewrite lookup_insert_ne in Hk|rewrite lookup_insert_ne]; try done; intros <-; done.
Qed.

Lemma create_new ids {X} (c : TenantRepository X) st st' r p :
  tenant_call ids c st = (st', r) → match c with CallProjectCreate _ _ _ _ _ => p = new_id ids | _ => False end →
  projects (tables st) !! p = None ∨ tables st' = tables st.
Proof.
  destruct c; try done. intros Hc%project_create_spec ->. destruct r as [pr|]; [left; apply Hc|by right].
Qed.

Lemma may_differ {V} (b : bool) (x y : V) : (b = false → x = y) → x ≠ y → b = true.
Proof. destruct b; [done|]. intros H Hne. by destruct Hne, H. Qed.

(** C4: Whatever requests are interleaved, and whichever queries fail, a step
    changes the routes, upstreams, policies or keys of a project only in a request
    whose own calls found its caller an editor of that project, or a super admin,
    or that names it on the unscoped PUT and DELETE; its members only for an owner,
    or when the project is new; its audit trail only for a member, or by the
    pruner; its own row only for an owner, a super admin, an unscoped request, or
    when it is new; its JWT configuration only for an owner. *)
Theorem tenant_isolation `{!DatabaseLaws DB} t0 s s' p :
  reachable t0 s → step s s' →
  let t := tables (db s) in let t' := tables (db s') in
  (resources p t' ≠ resources p t →
     ∃ h, acts s s' h ∧ (by_member h "editor" p ∨ by_platform h ∨ by_anyone h p)) ∧
  (memberships p t' ≠ memberships p t →
     (∃ h, acts s s' h ∧ by_member h "owner" p) ∨ projects t !! p = None) ∧
  (audit_trail p t' ≠ audit_trail p t →
     (∃ h, acts s s' h ∧ by_member h "viewer" p) ∨ ∃ r, log s' = log s ++ [EvCall (CallPruneAudit pruneAge) r]) ∧
  (projects t' !! p ≠ projects t !! p →
     (∃ h, acts s s' h ∧ (by_member h "owner" p ∨ by_platform h ∨ by_anyone h p)) ∨ projects t !! p = None) ∧
  (jwt_configs t' !! p ≠ jwt_configs t !! p → ∃ h, acts s s' h ∧ by_member h "owner" p).
Proof.
  intros Hr%tenant_reachable_inv Hs. simpl.
  apply step_call_guarded in Hs as [(h & X & c & ids & r & Ha & _ & Hg & Hc & Hl)|[[He|He] _]]; [| | |done].
  - pose proof (tenant_calls_confined ids c _ _ _ Hc) as [HR HM HA HP HJ _ _].
    assert (Hnew := λ H, create_new _ _ _ _ _ p Hc H).
    split_and!; intros Hne.
    + pose proof (may_differ _ _ _ (HR p) Hne) as Hm. exists h. split; [done|]. by eapply call_resources_guarded.
    + pose proof (may_differ _ _ _ (HM p) Hne) as Hm. eapply call_members_guarded in Hm as [?|Hn]; [eauto| |done].
      destruct (Hnew Hn) as [?|Ht]; [by right|by rewrite Ht in Hne].
    + pose proof (may_differ _ _ _ (HA p) Hne) as Hm. eapply call_audit_guarded in Hm as [?|Hn]; [eauto| |done].
      right. destruct c; try done. subst. by exists r.
    + pose proof (may_differ _ _ _ (HP p) Hne) as Hm.
      eapply call_project_guarded in Hm as [?|[?|[?|Hn]]]; [eauto 6..| |done].
      destruct (Hnew Hn) as [?|Ht]; [by right|by rewrite Ht in Hne].
    + pose proof (may_differ _ _ _ (HJ p) Hne) as Hm. exists h. split; [done|]. by eapply call_jwt_guarded.
  - apply (elsewhere_new _ _ p) in He as (HR & HJ & HA & [[HM HP]|?]); split_and!; intros Hne; try done; by right.
  - rewrite He. by split_and!.
Qed.

End guarantees.
End TenantGuarantees.
