(* ===== verification/TenantPages.v ===== *)
(** * Tenants: pages

    The offset and the number of pages of [pagination.go] against the rows a
    listing returns. *)

From stdpp Require Import gmap.
From S2P Require Import Prelude GoStrings Store GatewayRepo TenantTables TenantServices.

Module TenantPages.
Import TenantTables Pagination GatewayRepo(Atoi).
#[local] Open Scope Z_scope.

(** The rows a paginated listing answers with. *)
Definition page_rows {V} (page limit : string) (l : list V) : result error (list V) :=
  match ParsePaginationOffset page limit with
  | Ok (_, limit, offset) => page_of limit offset l
  | Err e => Err e
  end.

(** The [n]th page of [k] rows. *)
Definition chunk {V} (k n : nat) (l : list V) : list V := take k (drop (n * k) l).

Lemma chunks_cover {V} (k : nat) (l : list V) m :
  (length l <= m * k)%nat → mjoin ((λ n, chunk k n l) <$> seq 0 m) = l.
Proof.
  revert l. induction m as [|m IH]; intros l Hl.
  - destruct l; [done|simpl in Hl; lia].
  - simpl. rewrite <-seq_shift. change (chunk k 0 l) with (take k l).
    assert (Hc : (λ n, chunk k n l) <$> (S <$> seq 0 m) = (λ n, chunk k n (drop k l)) <$> seq 0 m).
    { rewrite <-list_fmap_compose. apply list_fmap_ext. intros i n _. unfold chunk, compose. simpl. by rewrite drop_drop. }
    setoid_rewrite Hc. rewrite IH; [apply take_drop|]. rewrite length_drop. lia.
Qed.

Lemma wrap_int_small n : - 2 ^ 63 <= n < 2 ^ 63 → wrap_int n = n.
Proof. intros H. unfold wrap_int. rewrite Z.mod_small; lia. Qed.

Lemma Atoi_range s n : Atoi s = Some n → - 2 ^ 63 <= n < 2 ^ 63.
Proof.
  unfold Atoi. intros H.
  destruct (if HasPrefix s "-" then _ else _) as [v|]; [|done]. destruct (_ && _) eqn:Hv; [|done]. injection H as <-.
  split_bool. lia.
Qed.

Lemma ParsePagination_range ps ls n limit :
  ParsePagination ps ls = Ok (n, limit) → 1 <= n < 2 ^ 63 ∧ 1 <= limit <= 100.
Proof.
  unfold ParsePagination. intros H.
  destruct (String.eqb ps ""), (String.eqb ls "");
    repeat match type of H with context [Atoi ?x] =>
      let E := fresh in destruct (Atoi x) eqn:E; [apply Atoi_range in E|] end;
    repeat match type of H with context [if ?b then _ else _] =>
      let E := fresh in destruct b eqn:E end; try done; injection H as <- <-; split_bool; lia.
Qed.

Lemma page_of_chunk {V} limit (n : Z) (l : list V) :
  0 < limit → 1 <= n →
  page_of limit ((n - 1) * limit) l = Ok (chunk (Z.to_nat limit) (Z.to_nat (n - 1)) l).
Proof.
  intros Hl Hn. unfold page_of, chunk.
  assert ((limit <=? 0) = false) as -> by lia. assert (((n - 1) * limit <? 0) = false) as -> by nia.
  assert (Z.to_nat (n - 1) * Z.to_nat limit = Z.to_nat ((n - 1) * limit))%nat as -> by (rewrite Z2Nat.inj_mul; lia).
  do 2 f_equal. destruct (Z.leb_spec ((n - 1) * limit) (Z.of_nat (length l))) as [Hle|Hgt].
  - by rewrite Z.min_l.
  - rewrite Z.min_r by lia. rewrite !drop_ge; [done|lia..].
Qed.

(** C32: The pages of a listing: for every page and limit the parser accepts, as
    long as the offset fits 63 bits, the answer is exactly that page of the rows,
    empty past the last; the pages 1 to [TotalPages] one after the other are all
    rows, each once, and no fewer pages would do. *)
Theorem pages_exact {V} (l : list V) ps ls n limit :
  ParsePagination ps ls = Ok (n, limit) → (n - 1) * limit < 2 ^ 63 →
  let total := Z.of_nat (length l) in
  let pages := TotalPages (BuildPagination n limit total) in
  let page k := chunk (Z.to_nat limit) k l in
  page_rows ps ls l = Ok (page (Z.to_nat (n - 1))) ∧
  (pages < n → page (Z.to_nat (n - 1)) = []) ∧
  mjoin (page <$> seq 0 (Z.to_nat pages)) = l ∧
  (0 < pages → page (Z.to_nat (pages - 1)) ≠ []).
Proof.
  intros Hp Hn. destruct (ParsePagination_range _ _ _ _ Hp) as [Hn' Hl]. cbv zeta.
  set (pages := TotalPages _).
  assert (Hpages : Z.of_nat (length l) <= pages * limit ∧ (pages = 0 ∨ 0 < pages ∧ (pages - 1) * limit < Z.of_nat (length l))).
  { unfold pages, BuildPagination. simpl. pose proof (Z.div_mod (Z.of_nat (length l)) limit ltac:(lia)) as Hd.
    pose proof (Z.mod_pos_bound (Z.of_nat (length l)) limit ltac:(lia)) as Hm.
    pose proof (Z.div_pos (Z.of_nat (length l)) limit ltac:(lia) ltac:(lia)) as Hq.
    destruct (Z.ltb_spec 0 (Z.of_nat (length l))), (Z.ltb_spec 0 limit); simpl; [|lia..].
    destruct (Z.eqb_spec (Z.of_nat (length l) mod limit) 0); nia. }
  destruct Hpages as [Hcover Hleast]. split_and!.
  - unfold page_rows, ParsePaginationOffset. rewrite Hp, (wrap_int_small (n - 1)) by lia.
    rewrite wrap_int_small by nia. apply page_of_chunk; lia.
  - intros Hgt. unfold chunk. rewrite drop_ge; [by rewrite take_nil|].
    rewrite <-Z2Nat.inj_mul by lia. nia.
  - apply chunks_cover. destruct (Z.le_gt_cases 0 pages); [|nia]. rewrite <-Z2Nat.inj_mul by lia. lia.
  - intros Hpos. unfold chunk. intros H%(f_equal length). rewrite length_take, length_drop in H. simpl in H.
    rewrite <-Z2Nat.inj_mul in H by lia. destruct Hleast as [|[_ Hleast]]; [lia|]. nia.
Qed.

(** The page number 2^58 + 1 of 64 rows wraps around to the first. *)
Example page_wraps :
  page_rows "288230376151711745" "64" ["first"] = Ok ["first"] ∧
  page_rows "2" "64" ["first"] = Ok [] ∧
  page_rows "144115188075855873" "64" ["first"] = Err NegativeOffset.
Proof. split_and!; vm_compute; reflexivity. Qed.

Lemma pages_exact_witness :
  page_rows "3" "10" (seq 0 25) = Ok (seq 20 5) ∧
  mjoin ((λ k, chunk 10 k (seq 0 25)) <$> seq 0 3) = seq 0 25.
Proof.
  pose proof (pages_exact (seq 0 25) "3" "10" 3 10 ltac:(vm_compute; reflexivity) ltac:(lia)) as (H1 & _ & H3 & _).
  split; [exact H1|exact H3].
Defined.

End TenantPages.
