(* ===== verification/TenantIntegrity.v ===== *)
(** * Tenants: integrity of the tables

    The constraints of the migrations hold in every reachable state, and a row
    keeps its identity: no row of a resource goes, and a deleted one never
    changes again. *)

From stdpp Require Import gmap.
From S2P Require Import Prelude GoStrings Store Transactions Model AdminAccess TenantTables TenantRepo.
From S2P Require Import TenantResources TenantServices TenantHandlers TenantFacts TenantSystem.
From S2P Require Import TenantDiscipline ProjectJWT.

Module TenantIntegrity.
Import TenantSystem TenantDiscipline.

(** ** Tables *)

(** Primary key, checks, foreign keys, unique names. *)
Definition sound {C} `{!Resource C} (t : tenants) (m : gmap string (row C)) : Prop :=
  ∀ k x, m !! k = Some x →
    ID x = k ∧ column_checks (Columns x) = true ∧ references t x = true ∧
    ∀ k' y, m !! k' = Some y → clash x y = false.

(** Every row is there, of the same parent; if it was deleted it is as it was. *)
Definition evolves {C} (m m' : gmap string (row C)) : Prop :=
  ∀ k x, m !! k = Some x → ∃ x', m' !! k = Some x' ∧ ID x' = ID x ∧ Parent x' = Parent x ∧ CreatedAt x' = CreatedAt x ∧
    (DeletedAt x ≠ None → x' = x).

#[global] Instance evolves_preorder {C} : PreOrder (@evolves C).
Proof.
  split; [intros m k x Hx; by exists x|]. intros m1 m2 m3 H1 H2 k x Hx.
  destruct (H1 k x Hx) as (y & Hy & Hi & Hp & Hc & Hd). destruct (H2 k y Hy) as (z & Hz & Hi' & Hp' & Hc' & Hd').
  exists z. split_and!; [done|congruence..|]. intros Hx'. specialize (Hd Hx'). subst. auto.
Qed.

(** The memberships: keyed by project and user, of projects and accounts that
    exist, with one of the roles. *)
Definition sound_members (t : tenants) : Prop :=
  ∀ k m, members t !! k = Some m →
    k = (MemberProject m, MemberUser m) ∧ member_role (MemberRole m) = true ∧
    is_Some (projects t !! MemberProject m) ∧ is_Some (accounts t !! MemberUser m) ∧
    exists_ref (accounts t) (InvitedBy m) = true.

(** The projects: of accounts that exist, with slugs of the right form and at most
    ten origins; no two live ones have the same slug. *)
Definition sound_projects (t : tenants) : Prop :=
  ∀ p pr, projects t !! p = Some pr →
    ProjectID pr = p ∧ is_Some (accounts t !! OwnerID pr) ∧ project_checks pr = true ∧
    (project_live pr = true → slug_free t pr).
Definition sound_accounts (t : tenants) : Prop := ∀ u a, accounts t !! u = Some a → AccountID a = u.

Definition sound_jwt (t : tenants) : Prop :=
  ∀ p cfg, jwt_configs t !! p = Some cfg →
    ProjectJWT.ProjectID cfg = p ∧ ProjectJWT.config_checks cfg = true ∧ is_Some (projects t !! p) ∧
    exists_ref (accounts t) (ProjectJWT.CreatedBy cfg) = true ∧ exists_ref (accounts t) (ProjectJWT.UpdatedBy cfg) = true.

Record well_formed (t : tenants) : Prop := {
  wf_accounts : sound_accounts t;
  wf_projects : sound_projects t;
  wf_members : sound_members t;
  wf_routes : sound t (routes t);
  wf_upstreams : sound t (upstreams t);
  wf_targets : sound t (targets t);
  wf_policies : sound t (policies t);
  wf_keys : sound t (api_keys t);
  wf_audit : sound t (audit_logs t);
  wf_jwt : sound_jwt t;
}.

Record lasting (t t' : tenants) : Prop := {
  lasting_routes : evolves (routes t) (routes t');
  lasting_upstreams : evolves (upstreams t) (upstreams t');
  lasting_targets : evolves (targets t) (targets t');
  lasting_policies : evolves (policies t) (policies t');
  lasting_keys : evolves (api_keys t) (api_keys t');
  lasting_projects p : is_Some (projects t !! p) → is_Some (projects t' !! p);
  lasting_accounts u : is_Some (accounts t !! u) → is_Some (accounts t' !! u);
}.

#[global] Instance lasting_preorder : PreOrder lasting.
Proof.
  split; [by split|]. intros t1 t2 t3 [? ? ? ? ? ? ?] [? ? ? ? ? ? ?]. split; auto; by etrans.
Qed.

(** What every statement keeps. *)
Record keeps_integrity (t t' : tenants) : Prop := {
  integrity_wf : well_formed t → well_formed t';
  integrity_rows : lasting t t';
}.

#[global] Instance keeps_integrity_preorder : PreOrder keeps_integrity.
Proof. split; [by split|]. intros t1 t2 t3 [W1 L1] [W2 L2]. split; [auto|by etrans]. Qed.

Lemma exists_ref_mono {V} (m m' : gmap string V) o :
  (∀ k, is_Some (m !! k) → is_Some (m' !! k)) → exists_ref m o = true → exists_ref m' o = true.
Proof. destruct o as [k|]; [|done]. simpl. rewrite !bool_decide_eq_true. auto. Qed.

Lemma evolves_dom {C} (m m' : gmap string (row C)) k : evolves m m' → is_Some (m !! k) → is_Some (m' !! k).
Proof. intros H [x Hx]. destruct (H k x Hx) as (y & Hy & _). by exists y. Qed.

(** A foreign key that held still holds. *)
Class Lasting (C : Type) `{!Resource C} :=
  references_lasting t t' (x y : row C) :
    lasting t t' → Parent y = Parent x → Columns y = Columns x → references t x = true → references t' y = true.

Lemma exists_project_lasting t t' p : lasting t t' → exists_project t p = true → exists_project t' p = true.
Proof. intros L. unfold exists_project. rewrite !bool_decide_eq_true. apply L. Qed.

Lemma exists_row_lasting {C} (m m' : gmap string (row C)) o :
  evolves m m' → exists_ref m o = true → exists_ref m' o = true.
Proof. intros H. apply exists_ref_mono. intros k. by apply evolves_dom. Qed.

#[local] Hint Resolve exists_project_lasting exists_row_lasting exists_ref_mono lasting_routes lasting_upstreams
  lasting_targets lasting_policies lasting_keys lasting_projects lasting_accounts : core.

Ltac last := intros t t' x y L Hp Hc; unfold references; cbn -[exists_ref]; rewrite Hp, ?Hc, ?andb_true_iff;
  intros; destruct_and?; split_and?; eauto.

#[global] Instance routes_lasting : Lasting RouteColumns.
Proof. last. Qed.
#[global] Instance upstreams_lasting : Lasting UpstreamColumns.
Proof. last. Qed.
#[global] Instance targets_lasting : Lasting TargetColumns.
Proof. last. Qed.
#[global] Instance policies_lasting : Lasting PolicyColumns.
Proof. last. Qed.
#[global] Instance keys_lasting : Lasting KeyColumns.
Proof. last. Qed.
#[global] Instance audit_lasting : Lasting AuditColumns.
Proof. last. Qed.

Lemma sound_lasting {C} `{!Resource C, !Lasting C} t t' (m : gmap string (row C)) :
  lasting t t' → sound t m → sound t' m.
Proof.
  intros L H k x Hx. destruct (H k x Hx) as (? & ? & ? & ?). split_and!; try done. by eapply references_lasting.
Qed.

(** ** Statements *)

(** A new version of one table. *)
Class Kept (C : Type) `{!Resource C} := {
  kept_last :: Lasting C;
  kept_sound t : well_formed t → sound (C := C) t (table t);
  kept_table t m : evolves (table t) m → lasting t (set_table m t);
  kept_set t m : (well_formed t → lasting t (set_table m t) → sound (C := C) (set_table m t) m) →
    lasting t (set_table m t) → keeps_integrity t (set_table m t);
  kept_get m t : table (set_table m t) = m;
}.

Lemma sound_jwt_lasting t t' : lasting t t' → jwt_configs t' = jwt_configs t → sound_jwt t → sound_jwt t'.
Proof.
  intros L E H p cfg. rewrite E. intros Hp. destruct (H p cfg Hp) as (? & ? & ? & ? & ?).
  split_and!; try done; [by apply L|by eapply exists_ref_mono; [apply L|]..].
Qed.

Lemma well_formed_but t t' :
  lasting t t' → well_formed t → accounts t' = accounts t → projects t' = projects t → members t' = members t →
  jwt_configs t' = jwt_configs t → (sound t (routes t) → sound t' (routes t')) → (sound t (upstreams t) → sound t' (upstreams t')) →
  (sound t (targets t) → sound t' (targets t')) → (sound t (policies t) → sound t' (policies t')) →
  (sound t (api_keys t) → sound t' (api_keys t')) → (sound t (audit_logs t) → sound t' (audit_logs t')) →
  well_formed t'.
Proof.
  intros L [A P M R U T O K G J] EA EP EM EJ. split; auto; try (by eapply sound_jwt_lasting).
  - unfold sound_accounts. by rewrite EA.
  - unfold sound_projects, slug_free. by rewrite EP, EA.
  - unfold sound_members. by rewrite EM, EP, EA.
Qed.

Ltac kept := split; [exact _|by intros ? []|by split| |done]; intros t m H L; split; [|exact L]; intros W;
  eapply well_formed_but; [exact L|exact W|reflexivity..| | | | | |]; simpl; intros S;
  try (by eapply sound_lasting); by apply H.

#[global] Instance kept_routes : Kept RouteColumns.
Proof. kept. Qed.
#[global] Instance kept_upstreams : Kept UpstreamColumns.
Proof. kept. Qed.
#[global] Instance kept_targets : Kept TargetColumns.
Proof. kept. Qed.
#[global] Instance kept_policies : Kept PolicyColumns.
Proof. kept. Qed.
#[global] Instance kept_keys : Kept KeyColumns.
Proof. kept. Qed.
#[global] Instance kept_audit : Kept AuditColumns.
Proof. kept. Qed.

Section statements.
Context {DB : Database}.

Section resource.
Context {C : Type} `{!Resource C, !Kept C}.

Lemma clash_sym (x y : row C) : clash x y = clash y x.
Proof.
  unfold clash. rewrite (String.eqb_sym (ID x)), (String.eqb_sym (Parent x)). f_equal.
  destruct (unique_name (Columns x)), (unique_name (Columns y)); try done. apply String.eqb_sym.
Qed.

Lemma clash_self (x y : row C) : ID x = ID y → clash x y = false.
Proof. unfold clash. intros ->. by rewrite String.eqb_refl. Qed.

(** A row that the constraints did not refuse, under its own key. *)
Lemma sound_store t (k : string) (y : row C) :
  ID y = k → refused t y = None → well_formed t → lasting t (set_table (<[k := y]> (table t)) t) →
  sound (set_table (<[k := y]> (table t)) t) (<[k := y]> (table t)).
Proof.
  unfold refused. intros Hk. destruct (negb _) eqn:Hc; [done|]. destruct (existsb _ _) eqn:Hu; [done|].
  destruct (negb (references t y)) eqn:Hr; [done|]. intros _ W L.
  apply negb_false_iff in Hc, Hr. rewrite existsb_rows in Hu.
  assert (Hother : ∀ j z, table t !! j = Some z → clash y z = false).
  { intros j z Hz. apply Hu. apply elem_of_table. eauto. }
  intros j x Hx. destruct (decide (j = k)) as [->|Hj].
  - rewrite lookup_insert_eq in Hx. injection Hx as <-. split_and!; [done|done|by eapply references_lasting|].
    intros j z. destruct (decide (j = k)) as [->|Hj]; [rewrite lookup_insert_eq; intros [= <-]; by apply clash_self|].
    rewrite lookup_insert_ne by done. apply Hother.
  - rewrite lookup_insert_ne in Hx by done. destruct (kept_sound t W j x Hx) as (? & ? & ? & Hclash).
    split_and!; [done|done|by eapply references_lasting|]. intros i z.
    destruct (decide (i = k)) as [->|Hi]; [rewrite lookup_insert_eq; intros [= <-]|rewrite lookup_insert_ne by done; apply Hclash].
    rewrite clash_sym. by eapply Hother.
Qed.

Lemma integrity_store t (k : string) (y : row C) :
  ID y = k → refused t y = None →
  (∀ x, table t !! k = Some x → ID y = ID x ∧ Parent y = Parent x ∧ CreatedAt y = CreatedAt x ∧ DeletedAt x = None) →
  keeps_integrity t (store_row k y t).
Proof.
  intros Hk Hr Hold. apply kept_set; [by apply sound_store|]. apply kept_table. intros j x Hx.
  destruct (decide (j = k)) as [->|Hj]; [|exists x; by rewrite lookup_insert_ne].
  exists y. rewrite lookup_insert_eq. destruct (Hold x Hx) as (? & ? & ? & ?). split_and!; done.
Qed.

Lemma integrity_insert s id p (c : C) now t t' x : insert_row s id p c now t = Ok (t', x) → keeps_integrity t t'.
Proof.
  unfold insert_row. destruct (negb _); [done|]. destruct (bool_decide _) eqn:Hk; [done|].
  destruct (refused _ _) eqn:Hr; [done|]. intros [= <- _]. apply integrity_store; [done|done|].
  apply not_is_Some in Hk. congruence.
Qed.

(** The row of an id has that id. *)
Lemma integrity_update_row s id p (f : C → C) now t t' x :
  update_row s id p f now t = Ok (t', x) → keeps_integrity t t'.
Proof.
  unfold update_row. destruct (select_one _ _ _ _) as [y|] eqn:Hy; [|done].
  apply select_one_spec in Hy as (Hy & _ & _ & Hl). destruct (refused _ _) eqn:Hr; [done|]. intros [= <- _].
  assert (L : lasting t (store_row id (mkRow (ID y) (Parent y) (f (Columns y)) (CreatedAt y) now (DeletedAt y)) t)).
  { apply kept_table. intros j z Hz. destruct (decide (j = id)) as [->|Hj]; [|exists z; by rewrite lookup_insert_ne].
    rewrite lookup_insert_eq. eexists. split; [done|]. assert (y = z) as <- by congruence. split_and!; try done.
    intros Hd. by apply bool_decide_eq_true in Hl. }
  apply kept_set; [|exact L]. intros W _. apply sound_store; try done. simpl. by apply (kept_sound t W id y).
Qed.

(** An update that touches no column under a constraint. *)
Record harmless (t : tenants) (g : row C → row C) : Prop := {
  same_id x : ID (g x) = ID x;
  same_parent x : Parent (g x) = Parent x;
  same_created x : CreatedAt (g x) = CreatedAt x;
  same_name x : unique_name (Columns (g x)) = unique_name (Columns x);
  same_checks x : column_checks (Columns x) = true → column_checks (Columns (g x)) = true;
  same_references x : well_formed t → references t x = true → references t (g x) = true;
}.

Lemma integrity_update_where t (P : row C → bool) g :
  harmless t g → (∀ x, P x = true → live x = true) → keeps_integrity t (set_table (update_where P g (table t)) t).
Proof.
  intros [Hi Hp Hca Hn Hch Hre] HP.
  assert (L : lasting t (set_table (update_where P g (table t)) t)).
  { apply kept_table. intros k x Hx. rewrite update_where_lookup, Hx. simpl. eexists. split; [done|].
    destruct (P x) eqn:HPx; [|done]. apply HP, bool_decide_eq_true in HPx. by split_and!. }
  apply kept_set; [|exact L]. intros W _ k x. rewrite update_where_lookup. intros Hx.
  apply fmap_Some in Hx as (x0 & Hx & ->). destruct (kept_sound t W k x0 Hx) as (Hid & Hc & Hr & Hcl).
  set (g' x := if P x then g x else x).
  assert (Hg : ∀ x, ID (g' x) = ID x ∧ Parent (g' x) = Parent x ∧ unique_name (Columns (g' x)) = unique_name (Columns x)).
  { intros x. unfold g'. destruct (P x); by split_and!. }
  split_and!.
  - destruct (P x0); [by rewrite Hi|done].
  - destruct (P x0); auto.
  - eapply references_lasting; [exact L|reflexivity..|]. destruct (P x0); auto.
  - intros k' y Hy. rewrite update_where_lookup in Hy. apply fmap_Some in Hy as (y0 & Hy & ->).
    specialize (Hcl k' y0 Hy). destruct (Hg x0) as (Ei & Ep & En), (Hg y0) as (Ei' & Ep' & En').
    unfold clash in *. fold (g' x0) (g' y0). by rewrite Ei, Ep, En, Ei', Ep', En'.
Qed.

Lemma integrity_update_rows s (P : row C → bool) f now t t' n :
  update_rows s P f now t = Ok (t', n) → harmless t (f now) → (∀ x, P x = true → live x = true) →
  keeps_integrity t t'.
Proof.
  intros [= <- _] Hf HP. apply integrity_update_where; [done|]. intros x Hx. split_bool. auto.
Qed.

(** The update of one row, without a check. *)
Lemma integrity_touch t k (x : row C) g :
  table t !! k = Some x → live x = true → harmless t g → keeps_integrity t (store_row k (g x) t).
Proof.
  intros Hx Hl [Hi Hp Hca Hn Hch Hre].
  assert (L : lasting t (store_row k (g x) t)).
  { apply kept_table. intros j z Hz. destruct (decide (j = k)) as [->|Hj]; [|exists z; by rewrite lookup_insert_ne].
    rewrite lookup_insert_eq. assert (x = z) as <- by congruence. eexists. split; [done|]. split_and!; auto.
    intros Hd. by apply bool_decide_eq_true in Hl. }
  apply kept_set; [|exact L]. intros W _. destruct (kept_sound t W k x Hx) as (Hid & Hc & Hr & Hcl).
  apply sound_store; [by rewrite Hi| |done|done]. unfold refused. rewrite Hch, Hre by done. simpl.
  assert (existsb (clash (g x)) (rows (table t)) = false) as ->; [|done].
  apply existsb_rows. intros y [k' Hy]%elem_of_table. specialize (Hcl k' y Hy). unfold clash in *.
  by rewrite Hi, Hp, Hn.
Qed.

Lemma harmless_delete t (f : row C → row C) :
  (∀ x, ID (f x) = ID x ∧ Parent (f x) = Parent x ∧ CreatedAt (f x) = CreatedAt x ∧ Columns (f x) = Columns x) →
  harmless t f.
Proof.
  intros H. split; intros x; destruct (H x) as (? & ? & ? & Hc); rewrite ?Hc; try done.
  intros _. apply references_lasting; [done|done|by rewrite Hc].
Qed.

End resource.
End statements.

(** ** Calls *)

Section calls.
Context {DB : Database}.

Lemma live_in_live {C} p (x : row C) : live_in p x = true → live x = true.
Proof. unfold live_in. intros ?. by split_bool. Qed.
Lemma this_live {C} id p (x : row C) : this id p x = true → live x = true.
Proof. unfold this. intros ?. by split_bool. Qed.

Lemma drop_policy_harmless (g : RouteColumns → RouteColumns) now t :
  (∀ c, RouteName (g c) = RouteName c ∧ MatchType (g c) = MatchType c ∧
     (UpstreamID (g c) = UpstreamID c ∨ UpstreamID (g c) = None) ∧ (PolicyID (g c) = PolicyID c ∨ PolicyID (g c) = None)) →
  harmless t (edit g now).
Proof.
  intros H. split; try done; intros x; destruct (H (Columns x)) as (Hn & Hm & Hu & Hp); simpl; rewrite ?Hn, ?Hm; try done.
  unfold exists_project. rewrite !andb_true_iff. intros _ [[? ?] ?]. unfold edit. simpl.
  destruct Hu as [->| ->], Hp as [->| ->]; split_and!; done.
Qed.

Ltac harm := first [ by apply harmless_delete | by apply drop_policy_harmless; auto | by split | split; try done; simpl; intros ?; destruct_and?; by split_and? ].
Ltac picks := intros ? ?; first [ by eapply this_live | split_bool; first [ done | by eapply live_in_live ] ].

Ltac statement :=
  match goal with
  | H : typed _ _ _ _ = Ok _ |- _ => apply typed_spec in H as (? & ? & H); cbv beta in H; statement
  | H : ranged _ _ _ _ = Ok _ |- _ => unfold ranged in H; destruct (int4 _); [statement|done]
  | H : known_action _ _ _ _ = Ok _ |- _ => unfold known_action in H; destruct (_ || _); [statement|done]
  | H : look _ _ _ = Ok _ |- _ => by injection H as <- _
  | H : read ?f _ ?t = Ok _ |- _ => unfold read in H; destruct (f t); [by injection H as <- _|done]
  | H : page_action _ _ _ _ _ = Ok _ |- _ => unfold page_action in H; destruct (page_of _ _ _); [by injection H as <- _|done]
  | H : insert_row _ _ _ _ _ _ = Ok _ |- _ => exact (integrity_insert _ _ _ _ _ _ _ _ H)
  | H : update_row _ _ _ _ _ _ = Ok _ |- _ => exact (integrity_update_row _ _ _ _ _ _ _ _ H)
  | H : update_rows _ _ _ _ _ = Ok _ |- _ => refine (integrity_update_rows _ _ _ _ _ _ _ H _ _); [harm|picks]
  end.

(** One operation: its statements, each harmless. *)
Ltac upkeep := unfold list_tx, update_this, affects; changes; try statement.

Section scoped.
Context `{!DatabaseLaws DB}.
Context (tc : TenantContext) (ids : fresh_ids).

Abbreviation sane op := (keeps keeps_integrity (scoped_call ids (Some tc) op)).

Lemma route_calls_integrity {X} (op : ScopedCall X) :
  match op with
  | CallRouteCreate _ | CallRouteUpdate _ _ | CallRouteDelete _ | CallRouteDisable _ | CallRouteEnable _
  | CallRemovePolicy _ | CallRoutes _ _ => sane op
  | _ => True
  end.
Proof.
  destruct op; try done; simpl.
  - unfold RouteListAll. upkeep.
  - unfold RouteCreate. upkeep.
  - unfold RouteUpdate. upkeep.
  - unfold RouteDelete. upkeep.
  - unfold RouteDisable. upkeep.
  - unfold RouteEnable. upkeep.
  - unfold RemovePolicy. upkeep.
Qed.

Lemma upstream_calls_integrity {X} (op : ScopedCall X) :
  match op with
  | CallUpstreams _ _ | CallUpstream _ | CallUpstreamCreate _ | CallUpstreamUpdate _ _ | CallUpstreamDisable _
  | CallUpstreamDelete _ | CallTargets _ | CallTargetAdd _ _ | CallTargetRemove _ => sane op
  | _ => True
  end.
Proof.
  destruct op; try done; simpl.
  - unfold UpstreamListAll. upkeep.
  - unfold UpstreamGetByID. upkeep.
  - unfold UpstreamCreate. upkeep.
  - unfold UpstreamUpdate. upkeep.
  - unfold UpstreamDisable. upkeep.
  - unfold UpstreamDelete. upkeep.
  - unfold ListByUpstream. upkeep.
  - unfold TargetAdd. upkeep.
  - unfold TargetRemove. upkeep.
Qed.

Lemma policy_key_calls_integrity {X} (op : ScopedCall X) :
  match op with
  | CallPolicies _ _ | CallPolicyCreate _ | CallPolicyUpdate _ _ | CallPolicyDelete _
  | CallKeys _ _ | CallKeyCreate _ _ _ _ _ | CallKeyRotate _ _ | CallKeyRevoke _ => sane op
  | _ => True
  end.
Proof.
  destruct op; try done; simpl.
  - unfold PolicyListAll. upkeep.
  - unfold PolicyCreate. upkeep.
  - unfold PolicyUpdate. upkeep.
  - unfold PolicyDelete. upkeep.
  - unfold KeyListAll. upkeep.
  - unfold KeyCreate. upkeep.
  - unfold KeyRotate. upkeep. apply typed_spec in H as (id' & _ & H). unfold revoke_returning in H.
    destruct (select_one _ _ _ _) as [old|] eqn:Hy; [|done]. injection H as <- _.
    apply select_one_spec in Hy as (Hy & _ & _ & Hl). by refine (integrity_touch (C := KeyColumns) t id' old (revoke now) _ _ _).
  - unfold KeyRevoke. upkeep.
Qed.

Lemma other_calls_integrity {X} (op : ScopedCall X) :
  match op with CallAudit _ _ _ _ _ _ _ | CallAuditLogs _ | CallSummary => sane op | _ => True end.
Proof.
  destruct op; try done; simpl.
  - unfold AuditCreate. destruct (_ || _); upkeep.
  - unfold AuditList. upkeep.
  - unfold GetSummary. upkeep.
Qed.

Lemma count_found {C} `{!Resource C} s (P : row C → bool) t :
  (count_rows s P t =? 0)%nat = false → ∃ k x, table t !! k = Some x ∧ P x = true.
Proof.
  unfold count_rows, select. rewrite (Permutation_length (scan_perm _)). intros H%Nat.eqb_neq.
  destruct (rows (filter _ _)) as [|x l] eqn:E; [done|].
  assert (x ∈ rows (filter (λ '(_, x), visible s x && P x = true) (table t))) as Hx by (rewrite E; by left).
  apply elem_of_table in Hx as [k Hk]. apply map_lookup_filter_Some in Hk as [Hk HP]. split_bool. eauto.
Qed.

(** The policy was there when it was counted, in the same transaction. *)
Lemma assign_policy_integrity r p : sane (CallAssignPolicy r p).
Proof.
  intros d d' res H. simpl in H. unfold AssignPolicy, withTenantTx, affects in H.
  apply (with_tx_spec _ (λ t _, keeps_integrity (tables d) t)) in H as [_ H].
  { destruct res; [exact H|by rewrite H]. }
  { framed. }
  apply tx_ok_bind, tx_ok_stmt. intros t1 ? [= <- _].
  apply tx_ok_bind, tx_ok_stmt. intros t1 n (pid & Hpid & [= <- <-])%typed_spec.
  apply tx_ok_if; [intros _; apply tx_ok_fail|]. intros Hn. apply tx_ok_bind, tx_ok_stmt. intros t1 m Hm.
  assert (keeps_integrity (tables d) t1); [|by apply tx_ok_if; intros _; [apply tx_ok_fail|apply tx_ok_ret]].
  apply typed_spec in Hm as (pid' & Hpid' & Hm). assert (pid' = pid) as -> by congruence.
  apply typed_spec in Hm as (rid & _ & Hm). refine (integrity_update_rows _ _ _ _ _ _ _ Hm _ _); [|picks].
  split; try done. intros x0 W. simpl. rewrite !andb_true_iff. intros [[? ?] _]. split_and!; [done|done|].
  destruct (count_found (C := PolicyColumns) _ _ _ Hn) as (k & z & Hz & Hthis). unfold this in Hthis.
  apply andb_true_iff in Hthis as [[Hid%String.eqb_eq _]%andb_true_iff _].
  apply bool_decide_eq_true. destruct (kept_sound (C := PolicyColumns) _ W k z Hz) as [Hk _].
  exists z. by rewrite <-Hid, Hk.
Qed.


Lemma jwt_integrity {X} (op : ScopedCall X) :
  match op with CallJWT | CallJWTUpsert _ | CallJWTDelete => sane op | _ => True end.
Proof.
  destruct op; try done; simpl.
  - unfold JWTGet. upkeep.
  - unfold JWTUpsert. changes. unfold upsert_jwt in H. cbv zeta in H. do 3 (destruct (negb _); [done|]).
    destruct (negb (ProjectJWT.config_checks _)) eqn:Hc; [done|]. destruct (negb (exists_project _ _ && _)) eqn:Hf; [done|]. injection H as <- _.
    apply negb_false_iff in Hc, Hf. apply andb_true_iff in Hf as [Hp Hu].
    split; [|by split]. intros [? ? ? ? ? ? ? ? ? J]. split; try done. intros p' cfg'. simpl.
    destruct (decide (p' = TenantProject tc)) as [->|Hne]; [|rewrite lookup_insert_ne by done; apply J].
    rewrite lookup_insert_eq. intros [= <-]. split_and!; [done|exact Hc|by apply bool_decide_eq_true in Hp| |done].
    destruct (jwt_configs t !! TenantProject tc) as [old|] eqn:Ho; [|done]. by apply (J _ _ Ho).
  - unfold JWTDelete. upkeep. destruct (jwt_config _ _ _); injection H as <- _; [|done].
    split; [|by split]. intros [? ? ? ? ? ? ? ? ? J]. split; try done. intros p' cfg'. simpl.
    intros [_ Hp]%lookup_delete_Some. by apply J.
Qed.

Lemma scoped_integrity {X} (op : ScopedCall X) : sane op.
Proof.
  pose proof (route_calls_integrity op). pose proof (upstream_calls_integrity op).
  pose proof (policy_key_calls_integrity op). pose proof (other_calls_integrity op).
  pose proof (jwt_integrity op). destruct op; try done. apply assign_policy_integrity.
Qed.

End scoped.

(** *** Projects, members, accounts *)

(** Projects, members or accounts change; the resources do not. *)
Lemma integrity_roots t t' :
  (∀ p, is_Some (projects t !! p) → is_Some (projects t' !! p)) →
  (∀ u, is_Some (accounts t !! u) → is_Some (accounts t' !! u)) →
  routes t' = routes t → upstreams t' = upstreams t → targets t' = targets t → policies t' = policies t →
  api_keys t' = api_keys t → audit_logs t' = audit_logs t → jwt_configs t' = jwt_configs t →
  (well_formed t → sound_accounts t' ∧ sound_projects t' ∧ sound_members t') → keeps_integrity t t'.
Proof.
  intros HP HA ER EU ET EO EK EL EJ Hroots.
  assert (L : lasting t t') by (split; rewrite ?ER, ?EU, ?ET, ?EO, ?EK; done).
  split; [|exact L]. intros W. destruct (Hroots W) as (? & ? & ?). destruct W.
  split; try done; try (by eapply sound_jwt_lasting);
    rewrite ?ER, ?EU, ?ET, ?EO, ?EK, ?EL; by eapply sound_lasting.
Qed.

Lemma is_Some_insert {K V} `{Countable K} (m : gmap K V) k v j : is_Some (m !! j) → is_Some (<[k := v]> m !! j).
Proof. intros Hj. destruct (decide (j = k)) as [->|]; [by rewrite lookup_insert_eq|by rewrite lookup_insert_ne]. Qed.

Lemma integrity_member t p u m :
  MemberProject m = p → MemberUser m = u → member_role (MemberRole m) = true →
  (well_formed t → is_Some (projects t !! p) ∧ is_Some (accounts t !! u) ∧ exists_ref (accounts t) (InvitedBy m) = true) →
  keeps_integrity t (set_members (<[(p, u) := m]> (members t)) t).
Proof.
  intros Hp Hu Hr Hex. apply integrity_roots; try done. intros W. split_and!; [apply W|apply W|].
  intros k m'. simpl. destruct (decide (k = (p, u))) as [->|Hk].
  - rewrite lookup_insert_eq. intros [= <-]. rewrite Hp, Hu. split_and!; try done; by apply Hex.
  - rewrite lookup_insert_ne by done. apply W.
Qed.

Lemma integrity_insert_member p u role inv now t t' x :
  insert_member p u role inv now t = Ok (t', x) → keeps_integrity t t'.
Proof.
  unfold insert_member. destruct (negb (member_role role)) eqn:Hr; [done|]. destruct (bool_decide _); [done|].
  destruct (negb (_ && _)) eqn:Hf; [done|]. intros [= <- _]. apply negb_false_iff in Hr, Hf.
  apply andb_true_iff in Hf as [[Hp Hu]%andb_true_iff Hi].
  apply integrity_member; try done. intros _. split_and!; [by eapply bool_decide_eq_true..|exact Hi].
Qed.

(** A project whose slug no other live project has. *)
Lemma sound_projects_store t p pr :
  ProjectID pr = p → is_Some (accounts t !! OwnerID pr) → project_checks pr = true →
  (project_live pr = true → slug_free t pr) → sound_projects t →
  sound_projects (set_projects (<[p := pr]> (projects t)) t).
Proof.
  intros Hid Ho Hc Hfree HS q x. simpl. destruct (decide (q = p)) as [->|Hq].
  - rewrite lookup_insert_eq. intros [= <-]. split_and!; [done..|]. intros Hl j r. simpl.
    destruct (decide (j = p)) as [->|Hj]; [done|]. rewrite lookup_insert_ne by done. by apply Hfree.
  - rewrite lookup_insert_ne by done. intros Hx. destruct (HS q x Hx) as (Hix & ? & ? & Hfx). split_and!; [done..|].
    intros Hl j r. simpl. destruct (decide (j = p)) as [->|Hj]; [|rewrite lookup_insert_ne by done; by apply Hfx].
    rewrite lookup_insert_eq. intros [= <-] Hlr Hs. destruct Hq. rewrite <-Hid. by apply (Hfree Hlr q x).
Qed.

Lemma sound_members_grow t t' :
  members t' = members t → (∀ p, is_Some (projects t !! p) → is_Some (projects t' !! p)) →
  (∀ u, is_Some (accounts t !! u) → is_Some (accounts t' !! u)) → sound_members t → sound_members t'.
Proof.
  intros E HP HA H k m. rewrite E. intros Hm. destruct (H k m Hm) as (? & ? & ? & ? & ?). split_and!; auto.
  by eapply exists_ref_mono.
Qed.

Lemma integrity_project t p pr :
  (well_formed t → ProjectID pr = p ∧ is_Some (accounts t !! OwnerID pr) ∧ project_checks pr = true ∧
     (project_live pr = true → slug_free t pr)) →
  keeps_integrity t (set_projects (<[p := pr]> (projects t)) t).
Proof.
  intros H. assert (Hg : ∀ q, is_Some (projects t !! q) → is_Some (projects (set_projects (<[p := pr]> (projects t)) t) !! q))
    by (intros q; apply is_Some_insert).
  apply integrity_roots; try done. intros W. destruct (H W) as (? & ? & ? & ?). split_and!; [apply W| |].
  - by apply sound_projects_store; [..|apply W].
  - by eapply sound_members_grow; [..|apply W].
Qed.

Lemma integrity_update_project id f now t t' o :
  (∀ p, OwnerID (f p) = OwnerID p) → (∀ p, ProjectID (f p) = ProjectID p) → (∀ p, Slug (f p) = Slug p) →
  (∀ p, project_checks p = true → project_checks (f p) = true) →
  update_project id f now t = Ok (t', o) → keeps_integrity t t'.
Proof.
  intros Hf Hi Hs Hc H. apply typed_spec in H as (p & _ & H). cbv beta in H.
  destruct (projects t !! p) as [pr|] eqn:Hp; [|by injection H as <- _].
  destruct (project_live pr) eqn:Hl; [|by injection H as <- _].
  injection H as <- _. apply integrity_project. intros W. destruct (wf_projects _ W p pr Hp) as (Hid & Ho & Hck & Hfree).
  split_and!; [by rewrite Hi|by rewrite Hf|by apply Hc|]. intros _ q r Hq Hr Hsr. simpl in *. rewrite Hi.
  by apply (Hfree Hl q r); [..|rewrite Hsr, Hs].
Qed.

Lemma integrity_insert_project pr now t t' x :
  DashboardAllowedOrigins pr = [] → insert_project pr now t = Ok (t', x) → keeps_integrity t t'.
Proof.
  intros Hor H. unfold insert_project in H. destruct (negb _) eqn:Hslug; [done|]. destruct (bool_decide _); [done|].
  destruct (existsb _ _) eqn:Hu; [done|]. destruct (negb (exists_ref _ _)) eqn:Ho; [done|]. injection H as <- _.
  apply negb_false_iff in Hslug, Ho. apply bool_decide_eq_true in Ho. apply integrity_project. intros _.
  split_and!; [done|done|by unfold project_checks; rewrite Hslug, Hor|]. intros _ q r Hq Hl Hs. exfalso.
  rewrite existsb_rows in Hu. assert (Hr : r ∈ rows (projects t)) by (apply elem_of_table; eauto).
  specialize (Hu r Hr). by rewrite Hs, String.eqb_refl, Hl in Hu.
Qed.

Lemma integrity_delete_of {C} `{!Resource C, !Kept C} id (f : Z → row C → row C) now t t' n :
  delete_of id f now t = Ok (t', n) → harmless t (f now) → keeps_integrity t t'.
Proof.
  intros H Hf. apply typed_spec in H as (p & _ & H). refine (integrity_update_rows _ _ _ _ _ _ _ H Hf _).
  intros x Hx. by split_bool.
Qed.

Ltac root :=
  match goal with
  | H : update_project _ _ _ _ = Ok _ |- _ => refine (integrity_update_project _ _ _ _ _ _ _ _ _ _ H); done
  | H : delete_of _ _ _ _ = Ok _ |- _ => refine (integrity_delete_of _ _ _ _ _ _ H _); harm
  end.

Lemma calls_integrity `{!DatabaseLaws DB} ids {X} (c : TenantRepository X) :
  keeps keeps_integrity (tenant_call ids c).
Proof.
  destruct c; simpl.
  - destruct ctx as [tc|]; [by apply scoped_integrity|].
    destruct op; simpl; try (by apply keeps_fail; exact _); try (by apply keeps_map_err, keeps_fail; exact _).
    + unfold RouteListAll. upkeep.
    + unfold AuditCreate. destruct (_ || _); apply keeps_fail; exact _.
  - unfold ValidateMembership. upkeep.
  - unfold ProjectIsActive. upkeep.
  - unfold SelectMember. upkeep.
  - unfold InsertMember. upkeep. by eapply integrity_insert_member.
  - unfold CountOwners. upkeep.
  - unfold SetRole. upkeep. destruct (negb _) eqn:Hr; [done|]. apply negb_false_iff in Hr.
    destruct (members t !! _) as [m|] eqn:Hm; injection H as <- _; [|done].
    split; [|by split; try done]. intros W. destruct (wf_members _ W _ _ Hm) as ([= Hp Hu] & _ & ? & ? & ?).
    refine (integrity_wf _ _ (integrity_member _ _ _ _ _ _ _ _) W); try done. intros _. by rewrite Hp, Hu.
  - unfold SelectProjectOwner. upkeep.
  - unfold DeleteMember. upkeep. destruct (members t !! _) as [m|] eqn:Hm; injection H as <- _; [|done].
    apply integrity_roots; try done. intros W. split_and!; [apply W|apply W|]. intros k m'. simpl.
    intros [_ Hk]%lookup_delete_Some. by apply (wf_members _ W).
  - unfold ListMembers. upkeep.
  - unfold FindUserByEmail. upkeep.
  - unfold ProjectCreate. upkeep; [apply typed_spec in H as (o & _ & H); by eapply integrity_insert_project; [|exact H]|by eapply integrity_insert_member].
  - unfold ListForUser. upkeep.
  - unfold ProjectUpdate. upkeep. root.
  - unfold ProjectDelete. upkeep; root.
  - unfold ListAllGlobal. upkeep.
  - unfold Suspend. upkeep. root.
  - unfold Reactivate. upkeep. root.
  - unfold UpdateDashboardOrigins. destruct (Nat.ltb_spec 10 (length origins)) as [|Hlen]; upkeep.
    refine (integrity_update_project _ _ _ _ _ _ _ _ _ _ H); try done. intros pr. unfold project_checks. simpl.
    intros [-> _]%andb_true_iff. by apply Nat.leb_le.
  - unfold IsSuperAdmin. upkeep.
  - unfold PruneAuditLogs. upkeep. injection H as <- _. refine (kept_set (C := AuditColumns) t _ _ _); [|by split]. intros W _ k z Hz.
    apply map_lookup_filter_Some in Hz as [Hz _]. destruct (wf_audit _ W k z Hz) as (? & ? & ? & Hc).
    split_and!; try done. intros k' y [Hy _]%map_lookup_filter_Some. by eapply Hc.
Qed.

End calls.

(** ** Whatever is interleaved *)

Lemma elsewhere_integrity t t' : elsewhere t t' → keeps_integrity t t'.
Proof.
  assert (Ha : ∀ t a, keeps_integrity t (set_accounts (<[AccountID a := a]> (accounts t)) t)).
  { intros u a. apply integrity_roots; simpl; try done; [intros ?; apply is_Some_insert|]. intros W. split_and!.
    - intros k b. simpl. destruct (decide (k = AccountID a)) as [->|Hk].
      + rewrite lookup_insert_eq. by intros [= <-].
      + rewrite lookup_insert_ne by done. apply (wf_accounts _ W).
    - intros p pr Hp. destruct (wf_projects _ W p pr Hp) as (? & ? & ? & ?). split_and!; try done. by apply is_Some_insert.
    - apply (sound_members_grow u); [done|done| |apply W]. intros k. simpl. apply is_Some_insert. }
  intros [a|a p m Hacc Hp Ho Hnone Hmp Hmu Hr Hinv Hck Hfree|m]; [apply Ha| |].
  - etrans; [apply (Ha t a)|]. set (t1 := set_accounts _ t).
    assert (H1 : keeps_integrity t1 (set_projects (<[ProjectID p := p]> (projects t1)) t1)).
    { apply integrity_project. intros _. split_and!; [done| |done|done]. rewrite Ho. simpl. by rewrite lookup_insert_eq. }
    etrans; [exact H1|]. refine (integrity_member _ _ _ m Hmp Hmu _ _); [by rewrite Hr|]. intros _.
    simpl. by rewrite !lookup_insert_eq, Hinv.
  - split; [|by split]. intros [? ? ? ? ? ? ? ? ? ?]. by split.
Qed.

Section system.
Context {DB : Database} `{!DatabaseLaws DB, !JWT AdminToken.AdminClaims}.
Context (tokens : AdminToken.AdminTokenManager).
Context (url_Parse : string → option URL) (health_url : string → string → option string).
Context (environment : deployment).

Abbreviation step := (step tokens url_Parse health_url environment).
Abbreviation reachable := (reachable tokens url_Parse health_url environment).

Lemma step_integrity s s' : step s s' → keeps_integrity (tables (db s)) (tables (db s')).
Proof. intros []; simpl; try done; [by eapply calls_integrity|by apply elsewhere_integrity]. Qed.


(** No row of a resource ever goes or changes its project, and a deleted row
    never changes again, however requests are interleaved: a revoked key stays
    revoked, with its hash. *)
Theorem deleted_rows_frozen s s' : rtc step s s' → lasting (tables (db s)) (tables (db s')).
Proof.
  induction 1 as [s|s s1 s2 Hs _ IH]; [done|].
  etrans; [by apply (integrity_rows _ _ (step_integrity _ _ Hs))|done].
Qed.

End system.

End TenantIntegrity.
