(* ===== verification/TenantSync.v ===== *)
(** * Tenants: what the gateway is told

    [src/internal/admin/handler/tenant_sync.go], the snapshot of a project the
    gateway polls, run with no other request between its queries; and with the
    gateway's loader: which routes and keys it then serves. *)

From stdpp Require Import gmap sorting.
From S2P Require Import Prelude GoStrings Store Transactions Model Auth Loader TenantTables TenantRepo.
From S2P Require Import TenantResources TenantFacts ProjectJWT.

Module TenantSync.
Import TenantResources TenantFacts.

(** The JSON of a row, as the gateway decodes it. *)
Definition upstream_model (x : row UpstreamColumns) : Upstream.t :=
  let c := Columns x in
  Upstream.mk (ID x) (Parent x) (UpstreamName c) (TargetURL c) (Protocol c) (HealthPath c) (UpstreamEnabled c)
    (LBStrategy c) [] (CreatedAt x) (UpdatedAt x).
Definition target_model (x : row TargetColumns) : UpstreamTarget.t :=
  let c := Columns x in
  UpstreamTarget.mk (ID x) (Parent x) (PoolURL c) (Weight c) (TargetEnabled c) (CreatedAt x) (UpdatedAt x).

(** A key that is active and has not expired. *)
Definition usable (now : Z) (x : row KeyColumns) : bool :=
  String.eqb (KeyStatus (Columns x)) "active" &&
  match ExpiresAt (Columns x) with Some e => negb (e <? now)%Z | None => true end.
Definition key_model (x : row KeyColumns) : KeyStore.KeySnapshotDTO :=
  KeyStore.mkDTO (KeyHash (Columns x)) (Roles (Columns x)) (Scopes (Columns x)).

(** An answer other than 200: its status and text. *)
Abbreviation refusal := (Z * string)%type.

Section sync.
Context {DB : Database}.

(** Per upstream its targets; an upstream whose targets cannot be read is skipped. *)
Fixpoint targets_of (ctx : option TenantContext) (us : list (row UpstreamColumns))
    (targetsMap : gmap string (list UpstreamTarget.t)) : A (gmap string (list UpstreamTarget.t)) :=
  match us with
  | [] => mret targetsMap
  | u :: us => λ d,
      match ListByUpstream ctx (ID u) d with
      | (d, Ok l) => targets_of ctx us (<[ID u := target_model <$> l]> targetsMap) d
      | (d, Err _) => targets_of ctx us targetsMap d
      end
  end.

(** A query, or the answer if it fails. *)
Definition or_refuse {X Y} (m : A X) (msg : string) (k : X → M tenants refusal Y) : M tenants refusal Y := λ d,
  match m d with (d, Ok x) => k x d | (d, Err _) => (d, Err (500%Z, msg)) end.

(** The JWT configuration of the project as the snapshot carries it; [None]: it has
    none. *)
Definition sync_jwt {Y} (ctx : option TenantContext) (k : option ProjectJWTConfigSync.t → Y) : M tenants refusal Y := λ d,
  match JWTGet ctx d with
  | (d, Ok cfg) =>
      (d, match ProjectJWT.projectJWTConfigToSync cfg with
          | Ok jwtAuth => Ok (k (Some jwtAuth))
          | Err _ => Err (500%Z, "invalid project JWT configuration")
          end)
  | (d, Err ErrProjectJWTConfigNotFound) => (d, Ok (k None))
  | (d, Err _) => (d, Err (500%Z, "failed to fetch tenant JWT configuration"))
  end.

(** [time.Now] is [now]; the custom domains come from another table. *)
Definition GetTenantSnapshot (raw : string) (now : Z) (domains : result string (list CustomDomainSync.t))
    : M tenants refusal Loader.TenantSnapshot :=
  match uuid_parse raw with
  | None => λ d, (d, Err (400%Z, "invalid project_id"))
  | Some projectID =>
      let ctx := Some (mkTenant projectID uuid_Nil "") in
      or_refuse (ListEnabled ctx) "failed to fetch tenant routes" (λ routes,
      or_refuse (UpstreamListAll ctx 0 0) "failed to fetch tenant upstreams" (λ '(upstreams, _),
      or_refuse (targets_of ctx upstreams ∅) "" (λ targetsMap,
      or_refuse (KeyListAll ctx 0 0) "failed to fetch tenant api keys" (λ '(allKeys, _),
      let keyDTOs := key_model <$> filter (λ k, usable now k = true) allKeys in
      match domains with
      | Err _ => λ d, (d, Err (500%Z, "failed to fetch tenant custom domains"))
      | Ok customDomains =>
          sync_jwt ctx (Loader.mkTenantSnapshot routes (upstream_model <$> upstreams) targetsMap keyDTOs customDomains)
      end))))
  end.

End sync.

(** ** What it contains *)

Section contents.
Context {DB : Database} `{!DatabaseLaws DB}.

Lemma elem_of_order_by {V} (before : V → V → bool) (l : list V) x : x ∈ order_by before l ↔ x ∈ l.
Proof. unfold order_by. by rewrite merge_sort_Permutation. Qed.

Lemma elem_of_select {C} `{!Resource C} s (P : row C → bool) t x :
  x ∈ select s P t ↔ ∃ k, table t !! k = Some x ∧ visible s x = true ∧ P x = true.
Proof.
  unfold select. rewrite (scan_perm _), elem_of_table. setoid_rewrite map_lookup_filter_Some.
  setoid_rewrite andb_true_iff. naive_solver.
Qed.

(** A session sees the rows of its project. *)
Lemma visible_own {C} `{!Resource C} p (x : row C) : Parent x = p → visible (Some p) x = true.
Proof. intros <-. unfold visible. by rewrite String.eqb_refl, !orb_true_r. Qed.

Lemma live_in_spec {C} p (x : row C) : live_in p x = true ↔ Parent x = p ∧ DeletedAt x = None.
Proof. unfold live_in, of_parent, live. by rewrite andb_true_iff, String.eqb_eq, bool_decide_eq_true. Qed.

Lemma elem_of_own {C} `{!Resource C} p (P : row C → bool) t x :
  (∀ x, P x = true → Parent x = p) → x ∈ select (Some p) P t ↔ ∃ k, table t !! k = Some x ∧ P x = true.
Proof.
  intros HP. rewrite elem_of_select. split; [naive_solver|]. intros (k & Hk & Hx). exists k. split_and!; try done.
  by apply visible_own, HP.
Qed.

(** A reading transaction of the tenant. *)
Lemma tenant_look tc {X} (f : TenantContext → option string → tenants → X) d d' x :
  withTenantTx (Some tc) (λ tc s, tx_stmt (look (f tc s))) d = (d', Ok x) →
  tables d' = tables d ∧ x = f tc (Some (TenantProject tc)) (tables d).
Proof.
  intros H. unfold withTenantTx in H.
  apply (with_tx_spec _ (λ t y, t = tables d ∧ y = f tc (Some (TenantProject tc)) (tables d))) in H as [_ H]; [exact H| |].
  - framed.
  - apply tx_ok_bind, tx_ok_stmt. intros t' ? [= <- _]. apply tx_ok_stmt. by intros t' y [= <- <-].
Qed.

Lemma tenant_list_all tc {V} (f : TenantContext → option string → tenants → list V) d d' x :
  withTenantTx (Some tc) (λ tc s, list_tx 0 0 (f tc s)) d = (d', Ok x) →
  tables d' = tables d ∧ x.1 = f tc (Some (TenantProject tc)) (tables d).
Proof.
  intros H. unfold withTenantTx in H.
  apply (with_tx_spec _ (λ t y, t = tables d ∧ y.1 = f tc (Some (TenantProject tc)) (tables d))) in H as [_ H]; [exact H| |].
  - framed.
  - apply tx_ok_bind, tx_ok_stmt. intros t' ? [= <- _]. apply tx_ok_bind, tx_ok_stmt. intros t' n [= <- <-].
    apply tx_ok_bind, tx_ok_stmt. intros t' y [= <- <-]. by apply tx_ok_ret.
Qed.

Lemma targets_of_tables ctx us m d d' r : targets_of ctx us m d = (d', r) → tables d' = tables d ∧ is_ok r = true.
Proof.
  revert m d. induction us as [|u us IH]; intros m d; simpl; [by intros [= <- <-]|].
  destruct (ListByUpstream ctx (ID u) d) as [d1 r1] eqn:H1.
  assert (tables d1 = tables d) as Ht.
  { unfold ListByUpstream, withTenantTx in H1. destruct ctx as [tc|]; [|by injection H1 as <- _].
    apply (with_tx_spec _ (λ t _, t = tables d)) in H1 as [_ H1]; [by destruct r1| |].
    - framed.
    - apply tx_ok_bind, tx_ok_stmt. intros t' ? [= <- _]. apply tx_ok_stmt.
      by intros t' y (v & _ & [= <- _])%typed_spec. }
  destruct r1; intros H; apply IH in H; by rewrite <-Ht.
Qed.

Lemma or_refuse_spec {X Y} (m : A X) msg (k : X → M tenants refusal Y) d d' y :
  or_refuse m msg k d = (d', Ok y) → ∃ d1 x, m d = (d1, Ok x) ∧ k x d1 = (d', Ok y).
Proof. unfold or_refuse. destruct (m d) as [d1 [x|e]]; [eauto|done]. Qed.

Record snapshot_of (p : string) (t : tenants) (now : Z) (snap : Loader.TenantSnapshot) : Prop := {
  snap_routes r : r ∈ Loader.SnapRoutes snap ↔ ∃ k x, routes t !! k = Some x ∧ Parent x = p ∧ DeletedAt x = None ∧
    RouteEnabled (Columns x) = true ∧ r = route_view (Some p) t x;
  snap_upstreams u : u ∈ Loader.SnapUpstreams snap ↔ ∃ k x, upstreams t !! k = Some x ∧ Parent x = p ∧
    DeletedAt x = None ∧ u = upstream_model x;
  snap_keys key : key ∈ Loader.SnapAPIKeys snap ↔ ∃ k x, api_keys t !! k = Some x ∧ Parent x = p ∧ DeletedAt x = None ∧
    usable now x = true ∧ key = key_model x;
  snap_jwt : match jwt_configs t !! p with
             | None => Loader.SnapJWTAuth snap = None
             | Some cfg => ∃ s, ProjectJWT.projectJWTConfigToSync cfg = Ok s ∧ Loader.SnapJWTAuth snap = Some s
             end;
}.

(** A reading transaction that may find nothing. *)
Lemma tenant_read tc {X} (f : TenantContext → option string → tenants → option X) d d' r :
  withTenantTx (Some tc) (λ tc s, tx_stmt (read (f tc s))) d = (d', r) →
  tables d' = tables d ∧ match r with
                         | Ok x => f tc (Some (TenantProject tc)) (tables d) = Some x
                         | Err e => e = ErrDB ∨ e = ErrNoRows ∧ f tc (Some (TenantProject tc)) (tables d) = None
                         end.
Proof.
  unfold withTenantTx. intros H.
  assert (Hok : tx_ok (clock d) (tables d) (tx_stmt (λ _ t, Ok (t, ()))) (λ t _, t = tables d)).
  { apply tx_ok_stmt. by intros t' ? [= <- _]. }
  assert (Hread : ∀ t' x, read (f tc (Some (TenantProject tc))) (clock d) (tables d) = Ok (t', x) →
    t' = tables d ∧ f tc (Some (TenantProject tc)) (tables d) = Some x).
  { intros t' x. unfold read. destruct (f _ _ _); [|done]. by intros [= <- <-]. }
  assert (Hbody : tx_ok (clock d) (tables d)
    (let* _ := tx_stmt (λ _ t, Ok (t, ())) in tx_stmt (read (f tc (Some (TenantProject tc)))))%store
    (λ t x, t = tables d ∧ f tc (Some (TenantProject tc)) (tables d) = Some x)).
  { apply tx_ok_bind. intros d0 d1 [] Ht Hc Hs. destruct (Hok d0 d1 () Ht Hc Hs) as (? & t' & Ht' & ->).
    split; [done|]. exists (tables d). split; [done|]. by apply tx_ok_stmt. }
  assert (Hf : tx_frame (let* _ := tx_stmt (λ _ t, Ok (t, ())) in tx_stmt (read (f tc (Some (TenantProject tc)))))%store)
    by framed.
  pose proof (with_tx_spec _ _ _ _ _ Hf Hbody H) as [_ Hr]. destruct r as [x|e]; [exact Hr|split; [exact Hr|]].
  eapply (with_tx_err _ _ (λ e, e = ErrNoRows ∧ f tc (Some (TenantProject tc)) (tables d) = None)); [exact Hf|exact Hbody| |exact H].
  eapply tx_err_bind; [exact Hok|by apply tx_err_stmt|]. intros t' [] ->. apply tx_err_stmt. intros e'. unfold read.
  destruct (f _ _ _); [done|]. by intros [= <-].
Qed.

Lemma jwt_visible_own p : jwt_visible (Some p) p = true.
Proof. unfold jwt_visible. by rewrite String.eqb_refl, orb_true_r. Qed.

Lemma sync_jwt_spec tc {Y} (k : option ProjectJWTConfigSync.t → Y) d d' y :
  sync_jwt (Some tc) k d = (d', Ok y) →
  match jwt_configs (tables d) !! TenantProject tc with
  | None => y = k None
  | Some cfg => ∃ s, ProjectJWT.projectJWTConfigToSync cfg = Ok s ∧ y = k (Some s)
  end.
Proof.
  unfold sync_jwt, JWTGet, map_err.
  destruct (withTenantTx _ _ d) as [d1 r] eqn:H.
  apply (tenant_read tc (λ tc s, jwt_config s (TenantProject tc))) in H as [_ H].
  unfold jwt_config in H. rewrite jwt_visible_own in H. destruct r as [cfg|e].
  - rewrite H. destruct (ProjectJWT.projectJWTConfigToSync cfg) as [s|]; [|done]. intros [= _ <-]. eauto.
  - destruct H as [->|[-> ->]]; simpl; [done|]. by intros [= _ <-].
Qed.

Lemma snapshot_spec raw now domains d d' snap p :
  uuid_parse raw = Some p → GetTenantSnapshot raw now domains d = (d', Ok snap) →
  snapshot_of p (tables d) now snap.
Proof.
  unfold GetTenantSnapshot. intros ->. set (tc := mkTenant p _ _).
  intros (d1 & rs & Hr & (d2 & [us n] & Hu & (d3 & ts & Ht & (d4 & [ks n'] & Hk & H)%or_refuse_spec)%or_refuse_spec)
    %or_refuse_spec)%or_refuse_spec.
  apply (tenant_look tc (λ tc s, route_list s by_length (λ x, of_parent (TenantProject tc) x && enabled_route x)))
    in Hr as [T1 Hr].
  apply (tenant_list_all tc (λ tc s, upstream_list s (TenantProject tc))) in Hu as [T2 Hu].
  apply targets_of_tables in Ht as [T3 _].
  apply (tenant_list_all tc (λ tc s, key_list s (TenantProject tc))) in Hk as [T4 Hk].
  rewrite T3, T2, T1 in Hk. rewrite T1 in Hu. simpl in Hr, Hu, Hk. subst rs us ks.
  destruct domains as [cds|]; [|done]. apply sync_jwt_spec in H. rewrite T4, T3, T2, T1 in H. simpl in H.
  assert (Hj : ∃ s, snap = Loader.mkTenantSnapshot (route_list (Some p) by_length (λ x, of_parent p x && enabled_route x) (tables d))
    (upstream_model <$> upstream_list (Some p) p (tables d)) ts
    (key_model <$> filter (λ k, usable now k = true) (key_list (Some p) p (tables d))) cds s ∧
    match jwt_configs (tables d) !! p with
    | None => s = None
    | Some cfg => ∃ s', ProjectJWT.projectJWTConfigToSync cfg = Ok s' ∧ s = Some s'
    end).
  { destruct (jwt_configs (tables d) !! p) as [cfg|]; [destruct H as (s & Hs & ->)|subst]; eauto. }
  destruct Hj as (s & -> & Hj). clear H. split; simpl; [| | |by destruct (jwt_configs (tables d) !! p)].
  - intros r. unfold route_list. rewrite elem_of_order_by, list_elem_of_fmap. split.
    + intros (x & -> & (k & Hx & [Hp He]%andb_true_iff)%elem_of_own).
      2:{ intros y [? _]%andb_true_iff. by apply String.eqb_eq. }
      apply String.eqb_eq in Hp. apply andb_true_iff in He as [He Hl%bool_decide_eq_true]. eauto 10.
    + intros (k & x & Hx & Hp & Hl & He & ->). exists x. split; [done|]. apply elem_of_own.
      { intros y [? _]%andb_true_iff. by apply String.eqb_eq. }
      exists k. split; [done|]. unfold of_parent, enabled_route, live. rewrite Hp, He, Hl, String.eqb_refl.
      by rewrite bool_decide_eq_true_2.
  - intros u. rewrite list_elem_of_fmap. unfold upstream_list. setoid_rewrite elem_of_order_by.
    setoid_rewrite elem_of_own; [|by intros y [? _]%live_in_spec]. setoid_rewrite live_in_spec. naive_solver.
  - intros key. rewrite list_elem_of_fmap. setoid_rewrite list_elem_of_filter. unfold key_list.
    setoid_rewrite elem_of_order_by. setoid_rewrite elem_of_own; [|by intros y [? _]%live_in_spec].
    setoid_rewrite live_in_spec. naive_solver.
Qed.

End contents.
End TenantSync.
