(* ===== verification/TenantGateway.v ===== *)
(** * From the control plane's tables to the gateway's route table and keys

    The snapshot of [TenantSync] and the reload of [Loader] together: the gateway
    of a project serves exactly its enabled routes, with their policies, and takes
    exactly its usable keys; a revoked key dies. *)

From stdpp Require Import gmap.
From S2P Require Import Prelude GoStrings Store Transactions Model Auth Loader AdminAccess TenantTables.
From S2P Require Import TenantRepo TenantResources TenantServices TenantHandlers TenantFacts TenantSystem.
From S2P Require Import TenantIntegrity TenantSync.

Module TenantGateway.
Import TenantSystem TenantIntegrity TenantSync.

(** ** The keys in memory *)

Lemma local_keys p keys (m : gmap string KeyStore.APIKeyRecord) h :
  is_Some (foldl (λ m k, <[KeyStore.KeyHash k := KeyStore.snapshot_record p k]> m) m keys !! h) ↔
  is_Some (m !! h) ∨ h ∈ KeyStore.KeyHash <$> keys.
Proof.
  revert m. induction keys as [|k keys IH]; intros m; simpl.
  - rewrite elem_of_nil. tauto.
  - rewrite IH, elem_of_cons. destruct (decide (KeyStore.KeyHash k = h)) as [->|Hne].
    + rewrite lookup_insert_eq. split; intros _; [by right; left|by left].
    + rewrite lookup_insert_ne by done. naive_solver.
Qed.

Lemma warm_local redis_prefix env ks p keys :
  KeyStore.local (KeyStore.WarmAPIKeyCache redis_prefix env ks p keys) =
  foldl (λ m k, <[KeyStore.KeyHash k := KeyStore.snapshot_record p k]> m) ∅ keys.
Proof.
  unfold KeyStore.WarmAPIKeyCache. change (foldl _ ∅ keys) with (KeyStore.local (KeyStore.UpdateLocalKeys ks p keys)).
  generalize (KeyStore.UpdateLocalKeys ks p keys) as s. generalize keys at 1.
  intros l. induction l as [|k l IH]; intros s; [done|]. simpl. rewrite IH. unfold KeyStore.redis_set.
  by destruct (_ && _).
Qed.

Section gateway.
Context {DB : Database} `{!DatabaseLaws DB}.
Context (GetSecret : option (string → string → result string string)) (redis_prefix : string).
Context (iter : gmap string Loader.UpstreamPool → list (string * Loader.UpstreamPool)).

(** C10: When the gateway of a project has polled the control plane and reloaded,
    its route table is exactly the live, enabled routes of the project, each with
    the rules of the policy it names; and the keys in its memory are exactly the
    hashes of the project's live, active, unexpired keys. *)
Theorem gateway_serves_project raw now domains d d' snap p env l l' :
  uuid_parse raw = Some p →
  GetTenantSnapshot raw now domains d = (d', Ok snap) →
  Loader.reload GetSecret redis_prefix iter p env (Ok snap) l = (l', Ok ()) →
  let t := tables d in
  (∀ r, r ∈ Loader.Routes (Loader.Current l') ↔
     ∃ k x, routes t !! k = Some x ∧ Parent x = p ∧ DeletedAt x = None ∧ RouteEnabled (Columns x) = true ∧
       r = route_view (Some p) t x) ∧
  (∀ h, is_Some (KeyStore.local (Loader.keyStore l') !! h) ↔
     ∃ k x, api_keys t !! k = Some x ∧ Parent x = p ∧ DeletedAt x = None ∧ usable now x = true ∧
       KeyHash (Columns x) = h).
Proof.
  intros Hp Hs Hl. apply (snapshot_spec _ _ _ _ _ _ _ Hp) in Hs as [HR _ HK _]. simpl.
  unfold Loader.reload in Hl. destruct (ProjectJWTManager.Apply _ _ _) as [[jwt' calls] [u|e]]; [|done].
  destruct (Loader.buildPoolsFromSnapshot _ _) as [[S' H'] pools]. injection Hl as <-. simpl. split.
  - intros r. apply HR.
  - intros h. rewrite warm_local, local_keys, lookup_empty, list_elem_of_fmap. split.
    + intros [[? [=]]|(key & -> & (k & x & ? & ? & ? & ? & ->)%HK)]. eauto 10.
    + intros (k & x & ? & ? & ? & ? & <-). right. exists (key_model x). split; [done|]. apply HK. eauto 10.
Qed.

End gateway.

(** ** Revocation *)

Section revocation.
Context {DB : Database} `{!DatabaseLaws DB, !JWT AdminToken.AdminClaims}.
Context (tokens : AdminToken.AdminTokenManager).
Context (url_Parse : string → option URL) (health_url : string → string → option string).
Context (environment : deployment).
Context (redis_prefix : string).

Abbreviation steps := (rtc (step tokens url_Parse health_url environment)).
Abbreviation hash key := (KeyStore.hashKey Sha256.sha256_hex (TrimSpace key)).

(** No other key has the hash. *)
Definition one_hash (k h : string) (t : tenants) : Prop :=
  ∀ j x, api_keys t !! j = Some x → KeyHash (Columns x) = h → j = k.

(** The database as a gateway that still has one queries it. *)
Definition lookup_at (s : sys) (find : string → result string (option KeyStore.APIKeyRecord)) : Prop :=
  ∀ h, find h = Ok (findByHashQuery None h (clock (db s)) (tables (db s))).

(** What the gateway does after [s]: it validates, without a database or with what
    the database is then, and it polls the control plane. *)
Definition later (k h : string) (s : sys) (ev : KeyStore.event) : Prop :=
  match ev with
  | KeyStore.EvValidate e _ =>
      ∀ find, KeyStore.db e = Some find → ∃ s', steps s s' ∧ one_hash k h (tables (db s')) ∧ lookup_at s' find
  | KeyStore.EvWarm _ _ keys =>
      ∃ s' raw p now domains d' snap, steps s s' ∧ one_hash k h (tables (db s')) ∧ uuid_parse raw = Some p ∧
        GetTenantSnapshot raw now domains (db s') = (d', Ok snap) ∧ keys = Loader.SnapAPIKeys snap
  end.

Lemma revoked_stays s s' k x :
  steps s s' → api_keys (tables (db s)) !! k = Some x → DeletedAt x ≠ None → api_keys (tables (db s')) !! k = Some x.
Proof.
  intros Hs Hx Hd. assert (L : lasting (tables (db s)) (tables (db s'))).
  { induction Hs as [s|s s1 s2 H1 _ IH]; [done|]. pose proof (integrity_rows _ _ (step_integrity _ _ _ _ _ _ H1)) as L1.
    etrans; [exact L1|]. apply IH. destruct (lasting_keys _ _ L1 k x Hx) as (x' & Hx' & _ & _ & _ & E).
    by rewrite Hx', (E Hd). }
  destruct (lasting_keys _ _ L k x Hx) as (x' & Hx' & _ & _ & _ & E). by rewrite Hx', (E Hd).
Qed.

Lemma later_revoked k h s x ev :
  api_keys (tables (db s)) !! k = Some x → DeletedAt x ≠ None → later k h s ev → KeyStore.after_revocation h ev.
Proof.
  intros Hx Hd. destruct ev as [e key|e p keys]; simpl.
  - intros Hl find rec Hdb Hf. destruct (Hl find Hdb) as (s' & Hs & Hone & Hfind).
    pose proof (revoked_stays _ _ _ _ Hs Hx Hd) as Hx'. rewrite Hfind in Hf. injection Hf as Hf.
    unfold findByHashQuery in Hf. destruct (head _) as [y|] eqn:Hy; [|done]. injection Hf as <-.
    apply head_Some_elem_of, elem_of_select in Hy as (j & Hj & _ & Hh%String.eqb_eq).
    simpl in Hj. rewrite (Hone j y Hj Hh), Hx' in Hj. injection Hj as <-. simpl. by destruct (ExpiresAt _) as [?|]; [destruct (_ <? _)%Z|].
  - intros (s' & raw & p' & now & domains & d' & snap & Hs & Hone & Hp & Hsnap & ->).
    pose proof (revoked_stays _ _ _ _ Hs Hx Hd) as Hx'. apply (snapshot_spec _ _ _ _ _ _ _ Hp) in Hsnap as [_ _ HK _].
    intros (key & -> & (j & y & Hj & _ & Hl & _ & ->)%HK)%list_elem_of_fmap.
    rewrite (Hone j y Hj eq_refl), Hx' in Hj. by injection Hj as <-.
Qed.

Lemma fading_poll h d e ks p keys :
  h ∉ KeyStore.KeyHash <$> keys →
  (∀ v expiry, KeyStore.redis ks !! KeyStore.cacheKey redis_prefix h = Some (v, expiry) → (expiry ≤ d)%Z) →
  KeyStore.fading redis_prefix h d (KeyStore.WarmAPIKeyCache redis_prefix e ks p keys).
Proof. intros Hh Hr. apply (KeyStore.fading_Warm _ _ _ _ (KeyStore.mkStore ∅ (KeyStore.redis ks))); [done|]. split; [done|exact Hr]. Qed.

(** C23: A key the control plane has revoked, by revoking, rotating or deleting its
    project, stops working at the gateway for good ten minutes after the last
    cached entry was written, once the gateway has polled: whatever requests the
    control plane serves and whatever the gateway validates and polls meanwhile.
    No two keys have the same hash. *)
Theorem revoked_key_dies s k x key e0 p0 keys0 ks evs e t0 :
  api_keys (tables (db s)) !! k = Some x → DeletedAt x ≠ None →
  (∀ v expiry, KeyStore.redis ks !! KeyStore.cacheKey redis_prefix (hash key) = Some (v, expiry) →
     (expiry ≤ t0 + KeyStore.cacheTTL)%Z) →
  Forall (later k (hash key) s) (KeyStore.EvWarm e0 p0 keys0 :: evs) → later k (hash key) s (KeyStore.EvValidate e key) →
  (t0 + KeyStore.cacheTTL ≤ KeyStore.now e)%Z →
  snd (KeyStore.Validate Sha256.sha256_hex redis_prefix e
    (foldl (KeyStore.apply_event Sha256.sha256_hex redis_prefix) ks (KeyStore.EvWarm e0 p0 keys0 :: evs)) key) = None.
Proof.
  intros Hx Hd Hr [H0 Hevs]%Forall_cons He Ht. simpl.
  apply (KeyStore.revocation_effective_within_ttl _ _ t0); [|by eapply Forall_impl; [exact Hevs|]; intros ev; apply (later_revoked _ _ _ x)| |done].
  - apply fading_poll; [|done]. exact (later_revoked _ _ _ x _ Hx Hd H0).
  - exact (later_revoked _ _ _ x _ Hx Hd He).
Qed.

End revocation.

End TenantGateway.
