(* ===== verification/TenantEffects.v ===== *)
(** * Tenants: effects that surprise

    Deleting a policy opens the routes that named it; rotating a key keeps its
    name and expiry but neither roles nor scopes; a target is added to any
    upstream, of whatever project. *)

From stdpp Require Import gmap.
From S2P Require Import Prelude GoStrings Store Transactions Model TenantTables TenantRepo TenantResources TenantFacts.

Module TenantEffects.
Import TenantResources TenantFacts.

Section effects.
Context {DB : Database}.

(** The body of a tenant's transaction, from the tables it starts from. *)
Lemma tenant_tx_ok tc {X} (fn : TenantContext → option string → T X) Q d d' r :
  tx_frame (fn tc (Some (TenantProject tc))) →
  tx_ok (clock d) (tables d) (fn tc (Some (TenantProject tc))) Q →
  withTenantTx (Some tc) fn d = (d', r) →
  match r with Ok x => Q (tables d') x | Err _ => tables d' = tables d end.
Proof.
  intros Hf Hok H. unfold withTenantTx in H. apply (with_tx_spec _ Q) in H as [_ H]; [exact H| |].
  - by apply tx_frame_bind; [apply tx_frame_stmt|intros].
  - apply tx_ok_bind, tx_ok_stmt. by intros t' ? [= <- _].
Qed.

(** A route to which no policy applies. *)
Definition unprotected (r : Route.t) : Prop :=
  Route.AuthRequired r = false ∧ Route.RateLimitRPM r = 0%Z ∧ Route.IPAllowlist r = [] ∧ Route.IPBlocklist r = [] ∧
  Route.AllowedRoles r = [] ∧ Route.AllowedScopes r = [].

(** When a policy is deleted, every live route that named it is left without any
    protection. *)
Theorem deleted_policy_opens_routes tc id p d d' k x s :
  PolicyDelete (Some tc) id d = (d', Ok ()) → uuid_in id = Some p →
  routes (tables d) !! k = Some x → live_in (TenantProject tc) x = true → PolicyID (Columns x) = Some p →
  visible (Some (TenantProject tc)) x = true →
  ∃ x', routes (tables d') !! k = Some x' ∧ Columns x' = with_policy None (Columns x) ∧ live x' = true ∧
    unprotected (route_view s (tables d') x').
Proof.
  intros H Hid Hx Hl Hp Hv.
  assert (HQ : routes (tables d') !! k = Some (edit (with_policy None) (clock d) x)).
  { apply (tenant_tx_ok tc _ (λ t _, routes t !! k = Some (edit (with_policy None) (clock d) x))) in H; [exact H| |];
      unfold update_this, affects; [framed|].
    apply tx_ok_bind, tx_ok_bind, tx_ok_stmt. intros t1 n (p1 & _ & [= <- _])%typed_spec.
    apply tx_ok_if; intros _; [apply tx_ok_fail|]. apply tx_ok_ret.
    apply tx_ok_bind, tx_ok_stmt. intros t2 m (p2 & Hp2 & [= <- _])%typed_spec. apply tx_ok_ret. simpl.
    assert (p2 = p) as -> by congruence. rewrite update_where_lookup, Hx. simpl. rewrite Hp, Hl, Hv.
    by rewrite bool_decide_eq_true_2. }
  eexists. split; [exact HQ|]. split; [done|]. split; [|by split_and!].
  apply andb_true_iff in Hl as [_ Hl]. exact Hl.
Qed.

(** What a rotation does: the old key is revoked and a new one stored with its
    name and expiry, and with neither roles nor scopes. *)
Definition rotated (newID raw : string) (now : Z) (x : row KeyColumns) : row KeyColumns :=
  mkRow newID (Parent x)
    (mkKey (KeyName (Columns x)) (hashRawKey raw) "active" [] [] (ExpiresAt (Columns x))) now now None.

Theorem rotation_drops_roles newID tc id raw d d' r :
  KeyRotate newID (Some tc) id raw d = (d', r) →
  match r with
  | Ok y => ∃ k x, uuid_in id = Some k ∧ api_keys (tables d) !! k = Some x ∧ live_in (TenantProject tc) x = true ∧
      y = rotated newID raw (clock d) x ∧
      api_keys (tables d') = <[newID := y]> (<[k := revoke (clock d) x]> (api_keys (tables d)))
  | Err _ => tables d' = tables d
  end.
Proof.
  intros H. apply (tenant_tx_ok tc _ (λ t y, ∃ k x, uuid_in id = Some k ∧ api_keys (tables d) !! k = Some x ∧
    live_in (TenantProject tc) x = true ∧ y = rotated newID raw (clock d) x ∧
    api_keys t = <[newID := y]> (<[k := revoke (clock d) x]> (api_keys (tables d))))) in H; [exact H|apply tx_frame_bind; [apply tx_frame_map_err|]; intros; framed|].
  apply tx_ok_bind, tx_ok_map_err, tx_ok_stmt. intros t1 old (k & Hk & H1)%typed_spec. unfold revoke_returning in H1.
  destruct (select_one _ _ _ _) as [x|] eqn:Hx; [|done]. injection H1 as <- <-.
  apply select_one_spec in Hx as (Hx & _ & Hp & Hl). apply tx_ok_stmt. intros t2 y Hins. unfold insert_row in Hins.
  destruct (negb _); [done|]. destruct (bool_decide _); [done|]. destruct (refused _ _); [done|]. injection Hins as <- <-.
  exists k, x. split_and!; try done; [unfold live_in, of_parent; by rewrite Hp, String.eqb_refl|unfold rotated; by rewrite Hp..].
Qed.

(** A target goes to any upstream there is: the project of the caller does not
    matter. *)
Theorem targets_cross_projects newID tc raw u c d k :
  faults d = [] → uuid_in raw = Some k → upstreams (tables d) !! k = Some u →
  targets (tables d) !! newID = None → (0 < Weight c < 2 ^ 31)%Z →
  (∀ x, x ∈ rows (targets (tables d)) → Parent x = k → PoolURL (Columns x) ≠ PoolURL c) →
  ∃ d' x, TargetAdd newID (Some tc) raw c d = (d', Ok x) ∧ targets (tables d') !! newID = Some x ∧ Parent x = k.
Proof.
  intros Hf Hk Hu Hnew Hw Huniq. set (x := mkRow newID k c (clock d) (clock d) None).
  assert (Hins : insert_row (Some (TenantProject tc)) newID k c (clock d) (tables d) =
    Ok (set_targets (<[newID := x]> (targets (tables d))) (tables d), x)).
  { unfold insert_row. simpl. rewrite Hnew, bool_decide_eq_false_2 by by intros [? [=]].
    fold x. assert (refused (tables d) x = None) as ->; [|done]. unfold refused. simpl.
    assert ((0 <? Weight c)%Z = true) as -> by lia. rewrite Hu, bool_decide_eq_true_2 by done. simpl.
    assert (existsb (clash x) (rows (targets (tables d))) = false) as ->; [|done]. apply existsb_rows.
    intros y Hy. unfold clash. simpl. destruct (String.eqb_spec k (Parent y)) as [E|]; [|by rewrite andb_false_r].
    destruct (String.eqb_spec (PoolURL c) (PoolURL (Columns y))) as [E'|]; [|by rewrite andb_false_r].
    by destruct (Huniq y Hy (eq_sym E)). }
  eexists _, x. split; [|split; [|done]].
  - unfold TargetAdd, withTenantTx. eapply with_tx_alone; [done|..].
    { unfold mbind. rewrite (tx_stmt_alone _ _ (tables d)) by done. cbn [clock].
      rewrite (tx_stmt_alone _ _ (tables d)) by done. unfold typed, ranged. rewrite Hk.
      assert (int4 (Weight c) = true) as -> by (unfold int4; apply andb_true_iff; lia). simpl. rewrite Hins. reflexivity. }
    all: reflexivity.
  - simpl. apply lookup_insert_eq.
Qed.

End effects.
End TenantEffects.
