(* ===== verification/TenantTokens.v ===== *)
(** * Tenants: whose JWTs a gateway takes

    What holds of every interleaving of requests for the JWT configuration of a
    project: its settings and its secret were sent by owners of the project, its
    secret in Secrets Manager is the project's own, and the verifier active at the
    project's gateway was built from them. *)

From stdpp Require Import gmap.
From S2P Require Import Prelude GoStrings Store Transactions Model Auth Loader AdminAccess TenantTables.
From S2P Require Import TenantRepo TenantResources TenantServices TenantHandlers TenantJWT TenantFacts TenantSystem.
From S2P Require Import TenantDiscipline TenantMembers TenantSync TenantEffects ProjectJWT SecretManager.

Module TenantTokens.
Import TenantSystem TenantDiscipline TenantSync TenantEffects.

Section calls.
Context {DB : Database}.

(** What the calls do to the configurations, and what a read returns. *)
Definition same_row (cfg cfg' : ProjectJWT.ProjectJWTConfig) : Prop :=
  ProjectJWT.settings cfg' = ProjectJWT.settings cfg ∧ ProjectJWT.SecretARN cfg' = ProjectJWT.SecretARN cfg ∧
  ProjectJWT.SecretVersionID cfg' = ProjectJWT.SecretVersionID cfg.

Lemma JWTGet_spec tc d d' cfg :
  JWTGet (Some tc) d = (d', Ok cfg) → jwt_configs (tables d) !! TenantProject tc = Some cfg.
Proof.
  unfold JWTGet, map_err. destruct (withTenantTx _ _ d) as [d1 r] eqn:H.
  apply (tenant_read tc (λ tc s, jwt_config s (TenantProject tc))) in H as [_ H].
  destruct r as [x|e]; [|done]. intros [= _ <-]. unfold jwt_config in H. by rewrite jwt_visible_own in H.
Qed.

Lemma JWTUpsert_spec tc cfg d d' r :
  JWTUpsert (Some tc) cfg d = (d', r) →
  match r with
  | Ok x => x = upserted tc cfg (clock d) (jwt_configs (tables d) !! TenantProject tc) ∧
            tables d' = set_jwt (<[TenantProject tc := x]> (jwt_configs (tables d))) (tables d)
  | Err _ => tables d' = tables d
  end.
Proof.
  apply (tenant_tx_ok tc (λ tc s, tx_stmt (upsert_jwt s tc cfg)) (λ t x,
    x = upserted tc cfg (clock d) (jwt_configs (tables d) !! TenantProject tc) ∧
    t = set_jwt (<[TenantProject tc := x]> (jwt_configs (tables d))) (tables d))); [framed|].
  apply tx_ok_stmt. intros t' x. unfold upsert_jwt. cbv zeta. repeat (destruct (negb _); [done|]). by intros [= <- <-].
Qed.

Lemma JWTDelete_spec tc d d' r :
  JWTDelete (Some tc) d = (d', r) →
  match r with
  | Ok _ => is_Some (jwt_configs (tables d) !! TenantProject tc) ∧
            tables d' = set_jwt (delete (TenantProject tc) (jwt_configs (tables d))) (tables d)
  | Err _ => tables d' = tables d
  end.
Proof.
  unfold JWTDelete. intros H. eapply (tenant_tx_ok tc _ (λ t _, is_Some (jwt_configs (tables d) !! TenantProject tc) ∧
    t = set_jwt (delete (TenantProject tc) (jwt_configs (tables d))) (tables d))) in H; [exact H| |];
    unfold affects; [framed|].
  apply tx_ok_bind, tx_ok_stmt. intros t' n. unfold jwt_config. rewrite jwt_visible_own.
  destruct (jwt_configs (tables d) !! TenantProject tc) as [x|]; intros [= <- <-]; simpl; [|apply tx_ok_fail].
  apply tx_ok_ret. split; [by exists x|done].
Qed.

(** A configuration after a call was there before it, or the call stored it. *)
Lemma call_jwt_rows ids {X} (c : TenantRepository X) d d' r p cfg :
  tenant_call ids c d = (d', r) → jwt_configs (tables d') !! p = Some cfg →
  jwt_configs (tables d) !! p = Some cfg ∨
  match c with
  | CallScoped (Some tc) (CallJWTUpsert cfg0) => p = TenantProject tc ∧ same_row cfg0 cfg
  | _ => False
  end.
Proof.
  intros Hc Hp.
  assert (Hsame : may_jwt (call_footprint ids c) p = false → jwt_configs (tables d) !! p = Some cfg).
  { intros Hm. pose proof (same_jwt _ _ _ (tenant_calls_confined ids c _ _ _ Hc) p Hm) as E. congruence. }
  destruct c; try (left; by apply Hsame). destruct ctx as [tc|]; [|left; by apply Hsame].
  destruct op; try (left; by apply Hsame); simpl in Hc.
  - apply JWTUpsert_spec in Hc. destruct r as [x|]; [|left; congruence]. destruct Hc as [-> Ht]. rewrite Ht in Hp.
    simpl in Hp. destruct (decide (p = TenantProject tc)) as [->|Hne].
    + rewrite lookup_insert_eq in Hp. injection Hp as <-. by right.
    + rewrite lookup_insert_ne in Hp by done. by left.
  - apply JWTDelete_spec in Hc. left. destruct r; [|congruence]. destruct Hc as [_ Ht]. rewrite Ht in Hp.
    simpl in Hp. by apply lookup_delete_Some in Hp as [_ ?].
Qed.

(** A read, if the call is one. *)
Definition reads_row {X} (c : TenantRepository X) : result error X → string → ProjectJWT.ProjectJWTConfig → Prop :=
  match c in TenantRepository X return result error X → string → ProjectJWT.ProjectJWTConfig → Prop with
  | CallScoped (Some tc) op =>
      match op in ScopedCall X return result error X → string → ProjectJWT.ProjectJWTConfig → Prop with
      | CallJWT => λ r p cfg, p = TenantProject tc ∧ r = Ok cfg
      | _ => λ _ _ _, False
      end
  | _ => λ _ _ _, False
  end.

Lemma reads_row_spec ids {X} (c : TenantRepository X) d d' r p cfg :
  tenant_call ids c d = (d', r) → reads_row c r p cfg → jwt_configs (tables d) !! p = Some cfg.
Proof.
  destruct c; try done. destruct ctx as [tc|]; [|done]. destruct op; try done. simpl. intros H [-> ->].
  by apply JWTGet_spec in H.
Qed.

End calls.

Section tokens.
Context {DB : Database} `{!JWT AdminToken.AdminClaims}.
Context (tokens : AdminToken.AdminTokenManager).
Context (url_Parse : string → option URL) (health_url : string → string → option string).
Context (environment : deployment).

Abbreviation step := (step tokens url_Parse health_url environment).
Abbreviation reachable := (reachable tokens url_Parse health_url environment).
Abbreviation asked := (asked tokens).
Abbreviation supplied := (supplied tokens).
Abbreviation made := (made tokens environment).

(** ** Where a configuration comes from *)

(** The identifiers of the project's own secret: its name, and the ARNs Secrets
    Manager gave for it. *)
Inductive belongs (L : list event) (p : string) : string → Prop :=
| belongs_name : belongs L p (TrimSpace (secret_name environment p))
| belongs_reply id value a v ref :
    belongs L p id →
    EvSecret (SecretManager.SDKCreateSecret id value) (Ok (a, v)) ∈ L ∨
    EvSecret (SecretManager.SDKPutSecretValue id value) (Ok (a, v)) ∈ L →
    SecretManager.secretReference a v = Ok ref →
    belongs L p (SecretManager.ARN ref).

Lemma belongs_mono L L' p id : L ⊆ L' → belongs L p id → belongs L' p id.
Proof. intros HL. induction 1 as [|id value a v ref _ IH H Hr]; [constructor|]. eapply belongs_reply; [exact IH| |exact Hr]. naive_solver. Qed.

(** An owner of the project sent the settings. *)
Definition settings_sent (L : list event) (p : string) (cfg : ProjectJWT.ProjectJWTConfig) : Prop :=
  ∃ q tc input n, TenantProject tc = p ∧ asked L q tc input ∧ ProjectJWT.normalizeJWTConfigInput input = Ok n ∧
    ProjectJWT.settings cfg = ProjectJWT.settings (ProjectJWT.configFromInput n).

(** Secrets Manager made the version for the project's secret, from a value of 32
    to 4096 bytes that an owner of the project sent. *)
Definition version_made (L : list event) (p arn version : string) : Prop :=
  ∃ tc value a v id, TenantProject tc = p ∧ supplied L tc value ∧ belongs L p id ∧
    (EvSecret (SecretManager.SDKCreateSecret id value) (Ok (a, v)) ∈ L ∨
     EvSecret (SecretManager.SDKPutSecretValue id value) (Ok (a, v)) ∈ L) ∧
    SecretManager.secretReference a v = Ok (SecretManager.mkReference arn version).

Definition justified (L : list event) (p : string) (cfg : ProjectJWT.ProjectJWTConfig) : Prop :=
  settings_sent L p cfg ∧ version_made L p (ProjectJWT.SecretARN cfg) (ProjectJWT.SecretVersionID cfg).

Lemma jwt_justified_mono L L' p cfg : L ⊆ L' → justified L p cfg → justified L' p cfg.
Proof.
  intros HL [(q & tc & input & n & ? & ? & ? & ?) (tc' & value & a & v & id & ? & ? & ? & He & ?)]. split.
  - exists q, tc, input, n. split_and!; try done. by eapply asked_mono.
  - exists tc', value, a, v, id. split_and!; try done; [by eapply supplied_mono|by eapply belongs_mono|].
    destruct He as [?|?]; [left|right]; by apply HL.
Qed.

Lemma justified_same L p cfg cfg' : same_row cfg cfg' → justified L p cfg → justified L p cfg'.
Proof.
  intros (Hs & Ha & Hv) [(q & tc & input & n & ? & ? & ? & ?) Hm]. split; [|by rewrite Ha, Hv].
  exists q, tc, input, n. split_and!; try done. congruence.
Qed.

Lemma version_made_trimmed L p arn version : version_made L p arn version → TrimSpace arn = arn ∧ belongs L p arn.
Proof.
  intros (tc & value & a & v & id & _ & _ & Hb & He & Hr). split.
  - apply SecretManager.secretReference_spec in Hr as (a0 & v0 & _ & _ & Ha & _). simpl in Ha. rewrite Ha.
    apply TrimSpace_idemp.
  - by apply (belongs_reply _ _ _ _ _ _ _ Hb He Hr).
Qed.

(** The reads of the log were justified. *)
Definition reads_justified (L : list event) : Prop := ∀ tc cfg, jwt_read L tc cfg → justified L (TenantProject tc) cfg.

Lemma addressed_belongs L tc id :
  reads_justified L → addressed environment L tc id → belongs L (TenantProject tc) id.
Proof.
  intros HR [->|(cfg & Hr & ->)]; [constructor|]. destruct (HR _ _ Hr) as [_ Hm].
  by destruct (version_made_trimmed _ _ _ _ Hm) as [-> ?].
Qed.

Lemma made_version L tc arn version :
  reads_justified L → made L tc arn version → version_made L (TenantProject tc) arn version.
Proof.
  intros HR (value & a & v & Hs & Hr & [He|(id & Hid & He)]).
  - exists tc, value, a, v, (TrimSpace (secret_name environment (TenantProject tc))). split_and!; try done; [constructor|by left].
  - exists tc, value, a, v, id. split_and!; try done; [by apply addressed_belongs|by right].
Qed.

(** An upsert with its basis stores what is justified. *)
Lemma basis_justified L tc cfg :
  reads_justified L → op_basis tokens environment L tc (CallJWTUpsert cfg) → justified L (TenantProject tc) cfg.
Proof.
  intros HR [Hs Hk]. split.
  - destruct Hs as [(old & Hr & E)|(q & input & n & Hq & Hn & E)]; [|by exists q, tc, input, n].
    destruct (HR _ _ Hr) as [(q & tc' & input & n & ? & ? & ? & ?) _]. exists q, tc', input, n.
    split_and!; try done. congruence.
  - destruct Hk as [(old & Hr & -> & ->)|Hm]; [by apply (HR _ _ Hr)|by apply made_version].
Qed.

(** ** The invariant *)

Record tokens_inv (s : sys) : Prop := {
  inv_rows p cfg : jwt_configs (tables (db s)) !! p = Some cfg → justified (log s) p cfg;
  inv_reads : reads_justified (log s);
}.

Lemma log_reads_justified L e :
  reads_justified L → (∀ tc cfg, jwt_read [e] tc cfg → justified (L ++ [e]) (TenantProject tc) cfg) →
  reads_justified (L ++ [e]).
Proof.
  intros HR He tc cfg [H|H]%elem_of_app; [|by apply He]. eapply jwt_justified_mono; [|by apply HR]. intros x Hx. by apply event_earlier.
Qed.

Lemma tokens_inv_step s s' : tenant_inv tokens environment s → tokens_inv s → step s s' → tokens_inv s'.
Proof.
  intros Hi [Hrows HR] Hs.
  apply step_call_guarded in Hs as [(h & X & c & ids & r & _ & Hh & Hg & Hc & Hl)|[Ht Hl]]; [| |done].
  - assert (HL : log s ⊆ log s') by (rewrite Hl; intros x Hx; by apply event_earlier).
    split.
    + intros p cfg Hp. destruct (call_jwt_rows ids c _ _ _ _ _ Hc Hp) as [Hold|Hnew].
      { eapply jwt_justified_mono; [exact HL|by apply Hrows]. }
      destruct c; try done. destruct ctx as [tc|]; [|done]. destruct op; try done. destruct Hnew as [-> Hsame].
      destruct Hg as (tc' & [= <-] & _ & Hb). eapply justified_same; [exact Hsame|].
      eapply jwt_justified_mono; [exact HL|]. apply basis_justified; [done|]. by eapply op_basis_mono.
    + rewrite Hl. apply log_reads_justified; [done|]. intros tc cfg Hr%list_elem_of_singleton.
      assert (Hrow : reads_row c r (TenantProject tc) cfg).
      { change (match EvCall c r with EvCall c r => reads_row c r (TenantProject tc) cfg | _ => False end).
        rewrite <-Hr. done. }
      rewrite <-Hl. eapply jwt_justified_mono; [exact HL|]. apply Hrows. by eapply reads_row_spec.
  - assert (HT : jwt_configs (tables (db s')) = jwt_configs (tables (db s))) by (destruct Ht as [[]| ->]; done).
    assert (log s ⊆ log s' ∧ reads_justified (log s')) as (HL & HR').
    { destruct Hl as [->|[[q ->]|[[t ->]|[(Y & op & r & Hg & ->)|(Y & op & r & ->)]]]]; [done|..];
        (split; [intros x Hx; by apply event_earlier|]);
        (apply log_reads_justified; [done|]; by intros tc cfg Hr%list_elem_of_singleton). }
    split; [|done]. intros p cfg. rewrite HT. intros Hp. eapply jwt_justified_mono; [exact HL|by apply Hrows].
Qed.

Lemma tokens_reachable_inv t0 s : jwt_configs t0 = ∅ → reachable t0 s → tokens_inv s.
Proof.
  intros H0. induction 1 as [d Hd|s s' Hr IH Hs].
  - split; simpl; [|by intros tc cfg ?%not_elem_of_nil]. intros p cfg. rewrite Hd, H0. by rewrite lookup_empty.
  - eapply tokens_inv_step; [by eapply tenant_reachable_inv|done..].
Qed.

(** What a request to Secrets Manager concerns: the secret of the project, and a
    value that the caller's own request brought. *)
Definition secret_of_project (L h : list event) (tc : TenantContext) {X} (op : SecretManager.SDK X) : Prop :=
  match op with
  | SecretManager.SDKCreateSecret id value | SecretManager.SDKPutSecretValue id value =>
      supplied h tc value ∧ belongs L (TenantProject tc) id
  | SecretManager.SDKDeleteSecret id | SecretManager.SDKRestoreSecret id => belongs L (TenantProject tc) id
  | SecretManager.SDKGetSecretValue _ _ => False
  end.

Lemma secret_guard_project L h tc {X} (op : SecretManager.SDK X) :
  h ⊆ L → reads_justified L →
  match op with
  | SecretManager.SDKCreateSecret id value =>
      supplied h tc value ∧ id = TrimSpace (secret_name environment (TenantProject tc))
  | SecretManager.SDKPutSecretValue id value => supplied h tc value ∧ addressed environment h tc id
  | SecretManager.SDKDeleteSecret id | SecretManager.SDKRestoreSecret id => secret_of tokens environment h tc id
  | SecretManager.SDKGetSecretValue _ _ => False
  end → secret_of_project L h tc op.
Proof.
  intros Hh HR H.
  assert (Hadd : ∀ id, addressed environment h tc id → belongs L (TenantProject tc) id).
  { intros id Hid. apply addressed_belongs; [done|]. by eapply addressed_mono. }
  assert (Hsec : ∀ id, secret_of tokens environment h tc id → belongs L (TenantProject tc) id).
  { intros id [Hid|(arn & v & Hm & ->)]; [by apply Hadd|].
    destruct (version_made_trimmed L (TenantProject tc) arn v) as [-> ?]; [|done]. apply made_version; [done|].
    by eapply made_mono. }
  destruct op; [destruct H as [? ->]|destruct H|..]; try done; try (by apply Hsec).
  - split; [done|constructor].
  - split; [done|by apply Hadd].
Qed.

(** C11: In every interleaving of requests the JWT configuration of a project has
    settings that an owner of the project sent, normalised, and a secret version
    that Secrets Manager made, in the project's own secret, from a value of 32 to
    4096 bytes that an owner of the project sent; and whatever a request has asked of
    Secrets Manager, its own caller was found to be an owner of a project, it names
    the secret of that project, and a value it stores came with this request. *)
Theorem jwt_supplied_by_owners t0 s :
  jwt_configs t0 = ∅ → reachable t0 s →
  (∀ p cfg, jwt_configs (tables (db s)) !! p = Some cfg → justified (log s) p cfg) ∧
  (∀ x X (op : SecretManager.SDK X) r, x ∈ tasks s → EvSecret op r ∈ x.1 →
     ∃ tc, own_caller tokens x.1 "owner" tc ∧ secret_of_project (log s) x.1 tc op).
Proof.
  intros H0 Hr. destruct (tokens_reachable_inv _ _ H0 Hr) as [Hrows HR]. split; [done|]. intros x X op r Hx Hin.
  pose proof (histories_guarded _ _ _ _ _ _ _ Hr Hx) as Hg. rewrite Forall_forall in Hg.
  destruct (Hg _ Hin) as (tc & Ha & H). exists tc. split; [by eapply history_own|].
  apply secret_guard_project; [|done|exact H].
  pose proof (inv_tasks _ _ _ (tenant_reachable_inv _ _ _ _ _ _ Hr)) as Ht. rewrite Forall_forall in Ht.
  exact (task_logged _ _ _ _ (Ht _ Hx)).
Qed.

(** ** The verifier at the gateway *)

Import ProjectJWTManager.

(** The settings as the gateway's verifier takes them. *)
Definition verifier_settings (cfg : ProjectJWT.ProjectJWTConfig) : ProjectJWTVerifier.Config :=
  ProjectJWTVerifier.mkConfig (ProjectJWT.Algorithm cfg) (ProjectJWT.Issuer cfg) (ProjectJWT.Audiences cfg)
    (ProjectJWT.SubjectClaim cfg) (ProjectJWT.RoleClaim cfg) (ProjectJWT.ScopesClaim cfg)
    (ProjectJWT.ClockSkewSeconds cfg * second).

Lemma sync_settings cfg s :
  ProjectJWT.projectJWTConfigToSync cfg = Ok s →
  ProjectJWTConfigSync.Enabled s = ProjectJWT.Enabled cfg ∧ projectJWTVerifierConfig s = verifier_settings cfg ∧
  (ProjectJWT.Enabled cfg = true → ProjectJWTConfigSync.SecretARN s = ProjectJWT.SecretARN cfg ∧
     ProjectJWTConfigSync.SecretVersionID s = ProjectJWT.SecretVersionID cfg).
Proof.
  unfold ProjectJWT.projectJWTConfigToSync. destruct (ProjectJWT.Enabled cfg) eqn:He; cbn [negb].
  - destruct (String.eqb _ _); [done|]. destruct (String.eqb _ _); [done|]. intros [= <-]. done.
  - by intros [= <-].
Qed.

(** What Secrets Manager hands the gateway for a version is what the version was
    made from. *)
Definition honest (L : list event) (get : string → string → result string string) : Prop :=
  ∀ id value a v ref s,
    EvSecret (SecretManager.SDKCreateSecret id value) (Ok (a, v)) ∈ L ∨
    EvSecret (SecretManager.SDKPutSecretValue id value) (Ok (a, v)) ∈ L →
    SecretManager.secretReference a v = Ok ref →
    get (SecretManager.ARN ref) (SecretManager.VersionID ref) = Ok s → s = value.

(** The control plane goes on, and the gateway of the project polls it. *)
Inductive gateway_run (t0 : tenants) (p : string) : sys → option state → Prop :=
| run_start s : reachable t0 s → gateway_run t0 p s None
| run_step s s' st : gateway_run t0 p s st → step s s' → gateway_run t0 p s' st
| run_poll s st st' raw now domains d' snap get calls r :
    gateway_run t0 p s st → uuid_parse raw = Some p →
    GetTenantSnapshot raw now domains (db s) = (d', Ok snap) → honest (log s) get →
    Apply (Some get) st (Loader.SnapJWTAuth snap) = (st', calls, r) →
    gateway_run t0 p s st'.

(** The verifier was built from a secret and from settings that owners of the
    project sent. *)
Definition from_owners (L : list event) (p : string) (v : ProjectJWTVerifier.t) : Prop :=
  (∃ tc, TenantProject tc = p ∧ supplied L tc (ProjectJWTVerifier.secret v)) ∧
  ∃ cfg, settings_sent L p cfg ∧ ProjectJWT.Enabled cfg = true ∧
    ProjectJWTVerifier.NewProjectJWTVerifier (ProjectJWTVerifier.secret v) (verifier_settings cfg) = Ok v.

Definition state_from_owners (L : list event) (p : string) (st : option state) : Prop :=
  ∀ s v, st = Some s → verifier s = Some v → from_owners L p v.

Lemma from_owners_mono L L' p v : L ⊆ L' → from_owners L p v → from_owners L' p v.
Proof.
  intros HL [(tc & ? & ?) (cfg & (q & tc' & input & n & ? & ? & ? & ?) & ? & ?)]. split.
  - exists tc. split; [done|by eapply supplied_mono].
  - exists cfg. split_and!; try done. exists q, tc', input, n. split_and!; try done. by eapply asked_mono.
Qed.

Lemma apply_from_owners L p get st cfg s st' calls r :
  honest L get → justified L p cfg → ProjectJWT.projectJWTConfigToSync cfg = Ok s →
  state_from_owners L p st → Apply (Some get) st (Some s) = (st', calls, r) → state_from_owners L p st'.
Proof.
  intros Hg [Hs Hm] (He & Hcfg & Hsec)%sync_settings Hst. unfold Apply. rewrite He, Hcfg.
  destruct (ProjectJWT.Enabled cfg) eqn:Hen; cbn [negb]; [|by intros [= <- _ _] x v [= <-]].
  destruct (Hsec eq_refl) as [-> ->]. destruct (String.eqb _ ""); [by intros [= <- _ _]|].
  destruct (String.eqb _ ""); [by intros [= <- _ _]|].
  destruct (reusable_verifier _ _ _) as [v|] eqn:Hv.
  - apply reusable_verifier_Some in Hv as (s0 & -> & _ & _ & _ & Hv). destruct (Hst s0 v eq_refl Hv) as [Hsup _].
    destruct (same_version _ _); [by intros [= <- _ _]|].
    destruct (ProjectJWTVerifier.Reconfigure v _) as [v'|] eqn:Hr; [|by intros [= <- _ _]].
    intros [= <- _ _] x w [= <-] [= <-]. unfold ProjectJWTVerifier.Reconfigure in Hr.
    pose proof (NewProjectJWTVerifier_secret _ _ _ Hr) as E. split; [by rewrite E|]. exists cfg. by rewrite E.
  - destruct (get _ _) as [secret|] eqn:Hget; [|by intros [= <- _ _]].
    destruct (ProjectJWTVerifier.NewProjectJWTVerifier _ _) as [v|] eqn:Hn; [|by intros [= <- _ _]].
    intros [= <- _ _] x w [= <-] [= <-]. pose proof (NewProjectJWTVerifier_secret _ _ _ Hn) as E.
    destruct Hm as (tc & value & a & b & id & Hp & Hsup & _ & Hev & Href).
    rewrite (Hg _ _ _ _ _ _ Hev Href Hget) in *. split; [exists tc; by rewrite E|]. exists cfg. by rewrite E.
Qed.

(** C12: While the control plane serves requests in any interleaving and the
    gateway of a project polls it whenever it likes, the verifier active at the
    gateway always has a secret of 32 to 4096 bytes that an owner of that project
    sent, and settings that an owner of that project sent: if what Secrets Manager
    returns for a version is what the version was made from. *)
Theorem gateway_jwt_from_owners `{!DatabaseLaws DB} t0 p s st v :
  jwt_configs t0 = ∅ → gateway_run t0 p s st → active_verifier st = Some v → from_owners (log s) p v.
Proof.
  intros H0 Hrun. assert (H : reachable t0 s ∧ state_from_owners (log s) p st).
  { induction Hrun as [s Hr|s s' st _ [Hr IH] Hstep|s st st' raw now domains d' snap get calls r _ [Hr IH] Hp Hsnap Hg Ha].
    - split; [done|]. by intros x w [=].
    - split; [by eapply r_step|]. intros x w Hx Hw. eapply from_owners_mono; [|by eapply IH].
      apply step_call_guarded in Hstep as [(h & X & c & ids & r & _ & _ & _ & _ & ->)|[_ Hl]];
        [intros y Hy; by apply event_earlier| |by eapply tenant_reachable_inv].
      destruct Hl as [->|[[q ->]|[[t ->]|[(Y & op & r & _ & ->)|(Y & op & r & ->)]]]]; [done|..]; intros y Hy; by apply event_earlier.
    - split; [done|]. pose proof (snapshot_spec _ _ _ _ _ _ _ Hp Hsnap) as [_ _ _ Hj].
      destruct (jwt_configs (tables (db s)) !! p) as [cfg|] eqn:Hcfg.
      + destruct Hj as (y & Hy & Hsn). rewrite Hsn in Ha. eapply apply_from_owners; [done| |done..].
        by apply (inv_rows s (tokens_reachable_inv _ _ H0 Hr)).
      + rewrite Hj in Ha. injection Ha as <- _ _. by intros x w [= <-]. }
  destruct H as [_ H]. destruct st as [x|]; [|done]. simpl. destruct (enabled x); [|done]. intros Hv. by apply (H x).
Qed.

End tokens.
(** ** One request alone *)

Section alone.
Context {DB : Database}.

Lemma tenant_read_alone tc {X} (f : TenantContext → option string → tenants → option X) d :
  faults d = [] →
  withTenantTx (Some tc) (λ tc s, tx_stmt (read (f tc s))) d =
  (d, match f tc (Some (TenantProject tc)) (tables d) with Some x => Ok x | None => Err ErrNoRows end).
Proof.
  destruct d as [t now n fs]. simpl. intros ->. unfold withTenantTx, with_tx, tx_stmt, mbind, query, read. simpl.
  by destruct (f _ _ t).
Qed.

(** C34: An owner who sends the settings that are stored once more, without a new
    secret, whatever the white space, the order and the repetition of the audiences
    and the defaults left out, changes nothing: no write, no new version for the
    gateway to load. *)
Theorem same_settings_no_change environment ids tc input a na n cfg d :
  faults d = [] → jwt_configs (tables d) !! TenantProject tc = Some cfg →
  ProjectJWT.normalizeJWTConfigInput a = Ok na → ProjectJWT.settings cfg = ProjectJWT.settings (ProjectJWT.configFromInput na) →
  ProjectJWT.normalizeJWTConfigInput input = Ok n → ProjectJWT.same_input a input → ProjectJWT.InSecret input = "" →
  TenantMembers.run_calls ids (Configure environment (Some tc) input) d = Some (d, Ok cfg).
Proof.
  intros Hf Hrow Hna Hset Hn Hsame Hsec. unfold Configure. rewrite Hn. simpl.
  unfold JWTGet, map_err. rewrite (tenant_read_alone tc (λ tc s, jwt_config s (TenantProject tc)) d Hf).
  unfold jwt_config. rewrite jwt_visible_own, Hrow. simpl.
  destruct (ProjectJWT.normalize_spec _ _ Hn) as (_ & _ & He & _). unfold update. rewrite He, Hsec. simpl.
  rewrite (proj2 (ProjectJWT.jwtConfigEquivalent_spec _ _)); [done|].
  rewrite ProjectJWT.settings_adopt, Hset. by apply ProjectJWT.same_input_settings with (a := a) (b := input).
Qed.

End alone.

End TenantTokens.
