(* ===== verification/DomainTenants.v ===== *)
(** * Custom domains behind the API

    The requests of [TenantSystem] together with the table of custom domains, the
    resolver and the workers of [ControlPlane]: what a handler asks for of the
    custom-domain service is answered by them.  The domains behind the API behave
    as those of [ControlPlane] ([domain_api_refines]); a row changes only as its
    worker does or as an owner of its project asked. *)

From stdpp Require Import gmap.
From S2P Require Import Prelude GoStrings Store Model AdminAccess TenantTables TenantRepo TenantServices TenantHandlers.
From S2P Require Import TenantJWT TenantDomains TenantSystem TenantDiscipline.
From S2P Require Import Hostname CustomDomain Provisioner DomainSystem Lifecycle DomainService ControlPlane EndToEnd.

Module DomainTenants.
Import TenantSystem TenantDiscipline.


(** ** What replies tell *)

Section replies.
Import CustomDomain DomainService.

(** The rows a reply shows, and the project a call names. *)
Definition rows_of {X} (c : CustomDomainRepository X) : result error X → list t :=
  match c in CustomDomainRepository X return result error X → list t with
  | CallListByProject _ => λ r, match r with Ok l => l | Err _ => [] end
  | CallCreate _ | CallGetByIDForProject _ _ | CallMarkVerified _ _ | CallMarkActive _ _
  | CallUpdateRoutingStatus _ _ _ _ _ | CallEnqueueProvisioning _ _ | CallResetProvisioningForRetry _ _ _
  | CallEnqueueDeprovisioning _ _ | CallResetDeprovisioningForRetry _ _ => λ r, match r with Ok c => [c] | Err _ => [] end
  | CallHostnameExists _ | CallRecordVerificationFailure _ _ _ | CallSoftDelete _ _ | CallMarkDeprovisionFailed _ _ _
  | CallGetActiveProjectGatewayIngress _ => λ _, []
  end.

Definition call_project {X} (c : CustomDomainRepository X) : option string :=
  match c with
  | CallCreate c => Some (ProjectID c)
  | CallGetByIDForProject _ pid | CallListByProject pid | CallMarkVerified _ pid | CallMarkActive _ pid
  | CallRecordVerificationFailure _ pid _ | CallSoftDelete _ pid | CallUpdateRoutingStatus _ pid _ _ _
  | CallEnqueueProvisioning _ pid | CallResetProvisioningForRetry _ pid _ | CallEnqueueDeprovisioning _ pid
  | CallResetDeprovisioningForRetry _ pid | CallGetActiveProjectGatewayIngress pid => Some pid
  | CallHostnameExists _ | CallMarkDeprovisionFailed _ _ _ => None
  end.

Lemma in_project_spec pid c : in_project pid c = true ↔ ProjectID c = pid.
Proof. apply String.eqb_eq. Qed.

(** An update guarded by the project answers the row it wrote, or the row that is
    found instead. *)
Lemma update_shows id pid cond f (m : M t) d d' c :
  (∀ x, cond x = true → ProjectID x = pid) → (∀ now x, ProjectID (f now x) = ProjectID x) →
  (∀ d d' x, m d = (d', Ok x) → ProjectID x = pid) →
  (mbind (update_row id cond f) (λ o, match o with Some c => mret c | None => m end)) d = (d', Ok c) → ProjectID c = pid.
Proof.
  intros Hcond Hf Hm. unfold mbind. destruct (update_row id cond f d) as [d1 r] eqn:Hu.
  apply DomainSystem.update_row_spec in Hu as [_ [[_ [-> | ->]]|(x & _ & Hx & _ & ->)]]; [done|apply Hm|].
  unfold mret. intros [= _ <-]. rewrite Hf. by apply Hcond.
Qed.

Lemma select_returns id cond d d' c : select_row id cond d = (d', Ok (Some c)) → domains d !! id = Some c ∧ cond c = true.
Proof.
  intros [(? & _)|(fs & a & Hf & Hr)]%DomainSystem.query_spec; [done|]. simplify_eq/=.
  destruct (domains d !! id) as [x|]; [|done]. destruct (cond x) eqn:Hx; by simplify_eq.
Qed.

Lemma get_shows id pid d d' c :
  GetByIDForProject id pid d = (d', Ok c) → domains d !! id = Some c ∧ ProjectID c = pid.
Proof.
  unfold GetByIDForProject, mbind, mret, mfail. destruct (select_row id _ d) as [d1 [[x|]|e]] eqn:Hs; [|done..].
  apply select_returns in Hs as [Hx [Hp _]%andb_prop]. intros [= _ <-]. split; [done|by apply in_project_spec].
Qed.

Ltac shown_update Hc :=
  revert Hc; apply update_shows; [intros y Hy; rewrite ?andb_true_iff in Hy; apply in_project_spec; tauto|done|];
  intros e0 e1 y; unfold mbind, mret, mfail; try (by intros [= _ ?]);
  intros Hy; destruct (GetByIDForProject _ _ e0) as [e2 [z|e]] eqn:Hz; try apply get_shows in Hz as [_ Hz];
  repeat case_match; by simplify_eq.

Lemma call_shows {X} (c : CustomDomainRepository X) pid d d' r :
  call_project c = Some pid → repo_call c d = (d', r) → Forall (λ x, ProjectID x = pid) (rows_of c r).
Proof.
  intros Hp Hc. destruct c; simplify_eq/=; try (by constructor); try (destruct r as [x|e]; [|by constructor]);
    try (constructor; [|by constructor]).
  4-10: shown_update Hc.
  - unfold Create, mbind, mret, mfail in Hc. destruct (query _ d) as [d1 [[y|]|e]] eqn:Hq; simplify_eq.
    apply DomainSystem.query_spec in Hq as [(? & _)|(fs & a & Hf & Hr)]; [done|]. simplify_eq/=.
    destruct (_ || _); by simplify_eq.
  - by apply get_shows in Hc as [_ Hc].
  - unfold ListByProject in Hc. apply DomainSystem.query_spec in Hc as [(? & _)|(fs & a & Hf & Hr)]; [done|].
    simplify_eq/=. apply Forall_forall. intros y [[Hy _]%andb_prop _]%EndToEnd.elem_of_sort_by%list_elem_of_filter.
    by apply in_project_spec.
Qed.

End replies.

(** ** What calls change *)

Section changes.
Import CustomDomain DomainService.

(** The columns that no request of a tenant changes. *)
Record kept (c c' : t) : Prop := {
  kept_id : ID c' = ID c;
  kept_project : ProjectID c' = ProjectID c;
  kept_hostname : Hostname c' = Hostname c;
  kept_certificate : certificate c' = certificate c;
  kept_rule : rule c' = rule c;
  kept_live : DeletedAt c = None ∧ DeletedAt c' = None;
}.

(** The checks of the domain are as they were. *)
Definition same_checks (c c' : t) : Prop :=
  Status c' = Status c ∧ verification c' = verification c ∧ routing c' = routing c.

(** What a request for the route may change. *)
Definition permitted (r : project_route) (c c' : t) : Prop :=
  match r with
  | VerifyDomain => provisioning c' = provisioning c ∧ lease c' = lease c ∧ routing c' = routing c ∧
      (Status c' = Status c ∨ Status c' = Verified)
  | CheckDomainRouting => provisioning c' = provisioning c ∧ lease c' = lease c ∧ verification c' = verification c ∧
      Status c' = Status c
  | ActivateDomain => same_checks c c' ∧ lease c' = no_lease ∧
      DomainSystem.handled (pstatus c') ∧ pstatus c' ≠ Deprovisioning ∧
      (pstatus c = Failed ∨
       Status c = Verified ∧ Routing_status (routing c) = RoutingReady ∧ pstatus c = NotStarted)
  | RetryDomain => same_checks c c' ∧ lease c' = no_lease ∧
      pstatus c = Failed ∧ DomainSystem.handled (pstatus c') ∧ pstatus c' ≠ Deprovisioning
  | DeleteDomain => same_checks c c' ∧ lease c' = no_lease ∧ pstatus c ≠ Deprovisioned ∧ pstatus c' = Deprovisioning
  | RetryDomainRemoval => same_checks c c' ∧ lease c' = no_lease ∧ pstatus c = DeprovisionFailed ∧
      pstatus c' = Deprovisioning
  | _ => False
  end.

(** A new row: unverified, not routed, not provisioned. *)
Record registered (m : gmap string t) (c : t) : Prop := {
  reg_new : m !! ID c = None;
  reg_checks : Status c = PendingVerification ∧ Routing_status (routing c) = RoutingPending;
  reg_provisioning : pstatus c = NotStarted ∧ lease c = no_lease ∧ rule c = mkRule None None ∧ DeletedAt c = None;
}.

(** The routes whose methods make the call. *)
Definition call_routes {X} (c : CustomDomainRepository X) : list project_route :=
  match c with
  | CallMarkVerified _ _ | CallRecordVerificationFailure _ _ _ => [VerifyDomain]
  | CallUpdateRoutingStatus _ _ _ _ _ => [CheckDomainRouting]
  | CallEnqueueProvisioning _ _ => [ActivateDomain]
  | CallResetProvisioningForRetry _ _ _ => [ActivateDomain; RetryDomain]
  | CallEnqueueDeprovisioning _ _ => [DeleteDomain]
  | CallResetDeprovisioningForRetry _ _ => [RetryDomainRemoval]
  | _ => []
  end.

Definition call_domain {X} (c : CustomDomainRepository X) : string :=
  match c with
  | CallMarkVerified id _ | CallRecordVerificationFailure id _ _ | CallUpdateRoutingStatus id _ _ _ _
  | CallEnqueueProvisioning id _ | CallResetProvisioningForRetry id _ _ | CallEnqueueDeprovisioning id _
  | CallResetDeprovisioningForRetry id _ => id
  | _ => ""
  end.

(** A call for the project [pid] changes nothing, or one live row of the project
    as its routes permit, or adds a row. *)
Definition call_change {X} (c : CustomDomainRepository X) (pid : string) (m m' : gmap string t) : Prop :=
  m' = m ∨
  (∃ x x', m !! call_domain c = Some x ∧ ProjectID x = pid ∧ m' = <[call_domain c := x']> m ∧ kept x x' ∧
     call_routes c ≠ [] ∧ ∀ r, r ∈ call_routes c → permitted r x x') ∨
  ∃ x', registered m x' ∧ m' = <[ID x' := x']> m ∧
    match c with CallCreate x => ProjectID x' = ProjectID x ∧ Hostname x' = Hostname x | _ => False end.

Lemma guarded_change {X} (c : CustomDomainRepository X) pid cond f {A} (k : t → A) (m : M A) d d' r :
  (∀ d d' r, m d = (d', r) → domains d' = domains d) →
  (∀ now x, cond x = true → ProjectID x = pid ∧ kept x (f now x) ∧ call_routes c ≠ [] ∧
     ∀ r, r ∈ call_routes c → permitted r x (f now x)) →
  (mbind (update_row (call_domain c) cond f) (λ o, match o with Some c => mret (k c) | None => m end)) d = (d', r) →
  call_change c pid (domains d) (domains d').
Proof.
  intros Hm Hf. unfold mbind. destruct (update_row _ cond f d) as [d1 r1] eqn:Hu.
  apply DomainSystem.update_row_spec in Hu as [_ [[Hd [-> | ->]]|(x & Hx & Hc & Hd & ->)]]; unfold mret; intros H; simplify_eq.
  - by left.
  - left. by rewrite (Hm _ _ _ H).
  - right; left. destruct (Hf (db_now d) x Hc) as (H1 & H2 & H3 & H4). exists x, (f (db_now d) x). by split_and!.
Qed.

Definition basis_ok {X} (c : CustomDomainRepository X) : Prop :=
  match c with
  | CallCreate c => unverified c
  | CallResetProvisioningForRetry _ _ target => DomainSystem.handled target ∧ target ≠ Deprovisioning
  | CallMarkActive _ _ | CallSoftDelete _ _ | CallMarkDeprovisionFailed _ _ _ => False
  | _ => True
  end.

Lemma kept_intro c c' :
  ID c' = ID c → ProjectID c' = ProjectID c → Hostname c' = Hostname c → certificate c' = certificate c →
  rule c' = rule c → DeletedAt c' = DeletedAt c → live c = true → kept c c'.
Proof. unfold live. rewrite bool_decide_eq_true. intros ?????? Hl. split; try done. split; congruence. Qed.

(** The update a call makes, and why it may. *)
Ltac changed :=
  match goal with
  | Hc : ?m ?d = _ |- call_change ?c ?pid _ _ =>
      eapply (guarded_change c pid);
      [| |cbv beta delta [MarkVerified RecordVerificationFailure UpdateRoutingStatus EnqueueProvisioning
            ResetProvisioningForRetry EnqueueDeprovisioning ResetDeprovisioningForRetry] in Hc; exact Hc]
  end;
  [ intros ???; first [by intros [_ ?]%Lifecycle.mfail_spec
    | intros [_ H]%Lifecycle.GetByIDForProject_spec; [exact H|]; intros ????; unfold mret, mfail; repeat case_match;
      intros; simplify_eq; by split ]
  | intros now x Hx; rewrite ?andb_true_iff, ?orb_true_iff, ?negb_true_iff, ?bool_decide_eq_true, ?bool_decide_eq_false in Hx;
    split_and!; [apply in_project_spec; tauto|apply kept_intro; try done; tauto|done|];
    intros r0; simpl; rewrite ?elem_of_cons; intros Hr; destruct_or?; try (by apply elem_of_nil in Hr); subst; simpl;
    unfold same_checks; tauto ].

Lemma create_change c d d' r :
  pstatus c = NotStarted → Status c = PendingVerification → Routing_status (routing c) = RoutingPending →
  Create c d = (d', r) → call_change (CallCreate c) (ProjectID c) (domains d) (domains d').
Proof.
  intros H1 H2 H3. unfold Create, mbind. destruct (query _ d) as [d1 r1] eqn:Hq. intros H.
  assert (d' = d1) as -> by (destruct r1 as [[x|]|]; unfold mret, mfail in H; by simplify_eq).
  apply DomainSystem.query_spec in Hq as [(_ & ? & _)|(fs & a & Hf & _)]; [by left|]. cbv zeta in Hf.
  set (c' := mk _ _ _ _ _ _ _ _ _ _ _ _ _ _) in Hf. simpl in Hf.
  destruct (bool_decide _ || existsb _ _) eqn:Hex; simplify_eq; [by left|do 2 right].
  apply orb_false_iff in Hex as [Hid _]. apply bool_decide_eq_false, eq_None_not_Some in Hid.
  exists c'. split; [by split|done].
Qed.

Lemma call_changes {X} (c : CustomDomainRepository X) pid d d' r :
  basis_ok c → call_project c = Some pid → repo_call c d = (d', r) → call_change c pid (domains d) (domains d').
Proof.
  intros Hb Hp Hc. assert (Hreq : DomainSystem.handled RequestingCertificate ∧ RequestingCertificate ≠ Deprovisioning) by done.
  destruct (ControlPlane.read_only c) eqn:Hro; [left; by eapply ControlPlane.read_only_spec|].
  destruct c; simplify_eq/=; try done; try changed. destruct Hb as (? & ? & ?). by eapply create_change.
Qed.

End changes.

(** ** The system *)

Record joint {Cloud : AWS} := mkJoint {
  front : TenantSystem.sys;
  core : Lifecycle.sys;                       (* the table, the workers and their exchange with AWS *)
  dns : list ControlPlane.observation;
}.
Arguments joint : clear implicits.
Arguments mkJoint {Cloud} front core dns.
Arguments front {Cloud} _.
Arguments core {Cloud} _.
Arguments dns {Cloud} _.

Section joint.
Context {Cloud : AWS} (listenerARN : string).
Context {DB : Database} `{!JWT AdminToken.AdminClaims}.
Context (tokens : AdminToken.AdminTokenManager).
Context (url_Parse : string → option URL) (health_url : string → string → option string).
Context (environment : deployment).

Abbreviation joint := (joint Cloud).
Abbreviation front_step := (TenantSystem.step tokens url_Parse health_url environment).
Abbreviation front_reachable := (TenantSystem.reachable tokens url_Parse health_url environment).
Abbreviation creachable :=
  (ControlPlane.creachable listenerARN Sha256.sha256_hex (GatewayPublicHost environment) (AutomationEnabled environment)).
Abbreviation method :=
  (ControlPlane.method Sha256.sha256_hex (GatewayPublicHost environment) (AutomationEnabled environment)).
Abbreviation rows s := (Lifecycle.rows (core s)).

(** What answers the request of an event. *)
Definition answered (e : event) (c : Lifecycle.sys) (D : list ControlPlane.observation)
    (c' : Lifecycle.sys) (D' : list ControlPlane.observation) : Prop :=
  match e with
  | EvDomain op r =>
      (match op in DomainOp X return X → Prop with
       | DomainRepo call => λ r, ∃ d, DomainService.repo_call call (Provisioner.store (Lifecycle.sw c)) = (d, r) ∧
           c' = Lifecycle.mkSys (Lifecycle.with_store d (Lifecycle.sw c)) (Lifecycle.jobs c) ∧ D' = D
       | DomainTXT name => λ r, c' = c ∧
           D' = D ++ match r with Ok records => [ControlPlane.ObsTXT name records] | Err _ => [] end
       | DomainCNAME host => λ r, c' = c ∧
           D' = D ++ match r with Ok cname => [ControlPlane.ObsCNAME host cname] | Err _ => [] end
       | DomainNewID => λ _, c' = c ∧ D' = D
       end) r
  | _ => c' = c ∧ D' = D
  end.

(** A request goes on, with or without an event, or a worker does. *)
Inductive jstep : joint → joint → Prop :=
| j_silent F F' c D : front_step F F' → log F' = log F → jstep (mkJoint F c D) (mkJoint F' c D)
| j_event F F' e c c' D D' :
    front_step F F' → log F' = log F ++ [e] → answered e c D c' D' → jstep (mkJoint F c D) (mkJoint F' c' D')
| j_worker F c c' D :
    Lifecycle.worker_step listenerARN Sha256.sha256_hex c c' → jstep (mkJoint F c D) (mkJoint F c' D).

Inductive jreachable (t0 : tenants) : joint → Prop :=
| jr_init d c : tables d = t0 → Lifecycle.initial c → jreachable t0 (mkJoint (mkSys d ∅ [] []) c [])
| jr_step s s' : jreachable t0 s → jstep s s' → jreachable t0 s'.

Lemma jreachable_front t0 s : jreachable t0 s → front_reachable t0 (front s).
Proof.
  induction 1 as [d c Hd Hc|s s' _ IH Hs]; [by constructor|]. destruct Hs; simpl in *; [by eapply r_step..|done].
Qed.

(** ** The methods a handler runs *)

(** The task of [ControlPlane] that the program is in, or a new one. *)
Definition current (o : option ControlPlane.task) (x : ControlPlane.task) : Prop := o = Some x ∨ method x.

(** All that a program asks for of the service is asked for by its methods. *)
Fixpoint hosts {A} (p : prog A) (o : option ControlPlane.task) : Prop :=
  match p with
  | Done _ => True
  | Repo _ k => ∀ r, hosts (k r) o
  | Now k => ∀ t, hosts (k t) o
  | RandRead _ k => ∀ r, hosts (k r) o
  | AskCache _ k => ∀ r, hosts (k r) o
  | PutCache _ _ k => hosts k o
  | Lookups _ k => ∀ b, hosts (k b) o
  | HTTPGet _ k => ∀ r, hosts (k r) o
  | Secrets _ k => ∀ r, hosts (k r) o
  | Domains op k =>
      match op in DomainOp X return (X → prog A) → Prop with
      | DomainRepo c => λ k, ∃ B (kk : _ → DomainService.prog B),
          current o (ControlPlane.Task (DomainService.Repo c kk)) ∧ ∀ r, hosts (k r) (Some (ControlPlane.Task (kk r)))
      | DomainTXT name => λ k, ∃ B (kk : _ → DomainService.prog B),
          current o (ControlPlane.Task (DomainService.LookupTXT name kk)) ∧ ∀ r, hosts (k r) (Some (ControlPlane.Task (kk r)))
      | DomainCNAME host => λ k, ∃ B (kk : _ → DomainService.prog B),
          current o (ControlPlane.Task (DomainService.LookupCNAME host kk)) ∧ ∀ r, hosts (k r) (Some (ControlPlane.Task (kk r)))
      | DomainNewID => λ k, ∀ id, hosts (k id) o
      end k
  end.

Lemma hosts_bind {A B} (p : prog A) (f : A → prog B) o :
  hosts p o → (∀ a o, hosts (f a) o) → hosts (pbind p f) o.
Proof.
  intros Hp Hf. revert o Hp. induction p as [a|X c k IH|k IH|n k IH|pr k IH|pr s k IH|u k IH|u k IH|X op k IH|X op k IH];
    intros o Hp; simpl in *; auto.
  destruct op; try destruct Hp as (B' & kk & Hc & Hk); eauto.
Qed.

Lemma hosts_service {A} (p : DomainService.prog A) o :
  current o (ControlPlane.Task p) → hosts (run_service p) o.
Proof.
  revert o. induction p as [r|X c k IH|name k IH|host k IH]; intros o Hc; simpl; [done|..];
    exists A, k; (split; [done|]); intros r; apply IH; by left.
Qed.

(** What asks for nothing of the service, and the one way the handlers of custom
    domains ask. *)
Lemma hosts_on_error {E} `{EqDecision E} (table : list (E * (Z * string))) msg e o : hosts (on_error table msg e) o.
Proof. unfold on_error. by destruct (find_first _ _) as [[? [? ?]]|]. Qed.

Lemma hosts_finish {E X} (p : prog (result E X)) failed k o :
  hosts p o → (∀ e o, hosts (failed e) o) → (∀ x o, hosts (k x) o) → hosts (finish p failed k) o.
Proof. intros Hp Hf Hk. apply hosts_bind; [done|]. intros [x|e] o'; [apply Hk|apply Hf]. Qed.

Lemma hosts_audited cx a y i l c k o : (∀ o, hosts k o) → hosts (audited cx a y i l c k) o.
Proof. intros Hk r. apply Hk. Qed.

Lemma hosts_on_domain {X} cx (m : string → string → DomainService.prog X) failed k o :
  (∀ pid id, method (ControlPlane.Task (m pid id))) → (∀ e o, hosts (failed e) o) → (∀ id x o, hosts (k id x) o) →
  hosts (on_domain cx m failed k) o.
Proof.
  intros Hm Hf Hk. unfold on_domain, getTenantContext. destruct (Tenant cx); [|done]. unfold with_uuid.
  destruct (uuid_parse _); [|done]. apply hosts_finish; [|done..]. apply hosts_service. right. apply Hm.
Qed.

Ltac hosted := repeat
  match goal with
  | |- hosts (Done _) _ => exact I
  | |- hosts (on_error _ _ _) _ => apply hosts_on_error
  | |- hosts (audited _ _ _ _ _ _ _) _ => apply hosts_audited; intros ?
  | |- hosts (on_domain _ _ _ _) _ => apply hosts_on_domain; [intros ? ?; constructor|intros ? ?|intros ? ? ?]
  | |- hosts (run_service _) _ => apply hosts_service; right; constructor
  | |- hosts (finish _ _ _) _ => apply hosts_finish; [|intros ? ?|intros ? ?]
  | |- hosts (pbind _ _) _ => apply hosts_bind; [|intros ? ?]
  | |- hosts (match ?x with _ => _ end) _ => destruct x
  | |- ∀ _, _ => intros ?
  | |- hosts (PutCache _ _ ?k) ?o => change (hosts k o)
  | |- hosts (Domains DomainNewID _) _ => intros ?
  | |- hosts ?p _ => let h := get_head p in first [is_constructor h; intros ? | unfold h; cbv beta]
  end.

Lemma requests_host q o : hosts (serve tokens url_Parse health_url environment q) o.
Proof. unfold serve, dispatch, ProjectScope. hosted. Qed.

(** ** The simulation *)

(** The tasks of [ControlPlane], as far as they are of the requests under way. *)
Definition simulated (s : joint) : Prop :=
  ∃ os cs, Forall2 (λ (x : task) o, hosts x.2 o) (tasks (front s)) os ∧
    cs ≡ₚ omap id os ∧ creachable (ControlPlane.mkC (core s) (dns s) cs).

(** The program of one request goes on. *)
Lemma simulated_goes_on F F' c D l1 h p l2 h' p' :
  simulated (mkJoint F c D) → tasks F = l1 ++ (h, p) :: l2 → tasks F' = l1 ++ (h', p') :: l2 →
  (∀ o, hosts p o → hosts p' o) → simulated (mkJoint F' c D).
Proof.
  intros (os & cs & Hos & Hcs & Hr) Ht Ht' Hp. exists os, cs. split; [|done]. simpl in *. rewrite Ht in Hos. rewrite Ht'.
  apply Forall2_app_inv_l in Hos as (o1 & o2 & H1 & H2 & ->). apply Forall2_cons_inv_l in H2 as (o & o2' & H & H2 & ->).
  apply Forall2_app; [done|]. constructor; [by apply Hp|done].
Qed.

(** A task with a given next step is among those of [ControlPlane], or begins. *)
Lemma simulated_current c D (o1 o2 : list (option ControlPlane.task)) o x cs :
  cs ≡ₚ omap id (o1 ++ o :: o2) → creachable (ControlPlane.mkC c D cs) → current o x →
  ∃ l1 l2, creachable (ControlPlane.mkC c D (l1 ++ x :: l2)) ∧ l1 ++ l2 ≡ₚ omap id (o1 ++ o2).
Proof.
  intros Hcs Hr Hx. rewrite omap_app in Hcs. simpl in Hcs.
  destruct o as [y|]; simpl in Hcs.
  - assert (Hy : y ∈ cs) by (rewrite Hcs; set_solver). apply list_elem_of_split in Hy as (l1 & l2 & ->).
    assert (Hl : l1 ++ l2 ≡ₚ omap id (o1 ++ o2)).
    { rewrite omap_app. apply (Permutation_cons_inv (a := y)). rewrite Permutation_middle, Hcs. by rewrite <-Permutation_middle. }
    destruct Hx as [[= ->]|Hm]; [by exists l1, l2|]. exists (l1 ++ l2), []. rewrite app_nil_r. split; [|done].
    eapply ControlPlane.creach_step; [|by apply ControlPlane.c_begin].
    eapply ControlPlane.creach_step; [exact Hr|apply ControlPlane.c_end].
  - destruct Hx as [[=]|Hm]. exists cs, []. rewrite app_nil_r. split; [|by rewrite omap_app].
    eapply ControlPlane.creach_step; [exact Hr|by apply ControlPlane.c_begin].
Qed.

(** A request of the service is answered. *)
Lemma simulated_answer F F' c D c' D' l1 h p l2 h' p' :
  simulated (mkJoint F c D) → tasks F = l1 ++ (h, p) :: l2 → tasks F' = l1 ++ (h', p') :: l2 →
  (∀ o, hosts p o → ∃ x y, current o x ∧ hosts p' (Some y) ∧ ∀ l1 l2,
     ControlPlane.cstep listenerARN Sha256.sha256_hex (GatewayPublicHost environment) (AutomationEnabled environment)
       (ControlPlane.mkC c D (l1 ++ x :: l2)) (ControlPlane.mkC c' D' (l1 ++ y :: l2))) →
  simulated (mkJoint F' c' D').
Proof.
  intros (os & cs & Hos & Hcs & Hr) Ht Ht' Hp. simpl in *. rewrite Ht in Hos.
  apply Forall2_app_inv_l in Hos as (o1 & o2 & H1 & H2 & ->). apply Forall2_cons_inv_l in H2 as (o & o2' & H & H2 & ->).
  destruct (Hp _ H) as (x & y & Hx & Hy & Hstep).
  destruct (simulated_current _ _ _ _ _ _ _ Hcs Hr Hx) as (k1 & k2 & Hr' & Hk).
  exists (o1 ++ Some y :: o2'), (k1 ++ y :: k2). split_and!.
  - simpl. rewrite Ht'. apply Forall2_app; [done|]. by constructor.
  - rewrite omap_app. simpl. rewrite <-!Permutation_middle, Hk. by rewrite omap_app.
  - eapply ControlPlane.creach_step; [exact Hr'|apply Hstep].
Qed.

Lemma simulated_drops F c D F' l1 x l2 :
  simulated (mkJoint F c D) → tasks F = l1 ++ x :: l2 → tasks F' = l1 ++ l2 → simulated (mkJoint F' c D).
Proof.
  intros (os & cs & Hos & Hcs & Hr) Ht Ht'. simpl in *. rewrite Ht in Hos.
  apply Forall2_app_inv_l in Hos as (o1 & o2 & H1 & H2 & ->). apply Forall2_cons_inv_l in H2 as (o & o2' & H & H2 & ->).
  rewrite omap_app in Hcs. simpl in Hcs. exists (o1 ++ o2').
  destruct o as [y|]; simpl in Hcs.
  - assert (Hy : y ∈ cs) by (rewrite Hcs; set_solver). apply list_elem_of_split in Hy as (k1 & k2 & ->).
    exists (k1 ++ k2). split_and!; [by simpl; rewrite Ht'; apply Forall2_app| |].
    + rewrite omap_app. apply (Permutation_cons_inv (a := y)). rewrite Permutation_middle, Hcs. by rewrite <-Permutation_middle.
    + eapply ControlPlane.creach_step; [exact Hr|apply ControlPlane.c_end].
  - exists cs. split_and!; [by simpl; rewrite Ht'; apply Forall2_app|by rewrite omap_app|done].
Qed.


Lemma simulated_step s s' : simulated s → jstep s s' → simulated s'.
Proof.
  intros Hs Hstep. destruct Hstep as [F F' c D Hf Hl|F F' e c c' D D' Hf Hl Ha|F c c' D Hw].
  - assert (Hno : ∀ e, log F ++ [e] ≠ log F).
    { intros e He. apply (f_equal length) in He. rewrite length_app in He. simpl in He. lia. }
    destruct Hf; simpl in Hl; try (by destruct (Hno _ Hl));
      try (eapply simulated_drops; [exact Hs|done|done]);
      try (eapply simulated_goes_on; [exact Hs|done|done|]; simpl; intros o Ho; apply Ho).
    + destruct Hs as (os & cs & Hos & Hcs & Hr). exists (os ++ [None]), cs. split_and!; [|by rewrite omap_app, app_nil_r|done].
      apply Forall2_app; [done|]. by repeat constructor.
    + exact Hs.
    + exact Hs.
  - destruct Hf; simpl in Hl; try (apply (f_equal length) in Hl; rewrite length_app in Hl; simpl in Hl; lia);
      apply app_inv_head in Hl as [= <-]; try (destruct Ha as [-> ->]).
    + destruct Hs as (os & cs & Hos & Hcs & Hr). exists (os ++ [None]), cs. split_and!; [|by rewrite omap_app, app_nil_r|done].
      apply Forall2_app; [done|]. repeat constructor. apply requests_host.
    + eapply simulated_goes_on; [exact Hs|done|done|]; simpl; intros o Ho; apply Ho.
    + eapply simulated_goes_on; [exact Hs|done|done|]; simpl; intros o Ho; apply Ho.
    + eapply simulated_goes_on; [exact Hs|done|done|]; simpl; intros o Ho; apply Ho.
    + destruct op as [X call|name|host|].
      * destruct Ha as (d' & Hc & -> & ->). eapply simulated_answer; [exact Hs|done|done|]. simpl.
        intros o (B & kk & Hcur & Hk). eexists _, _. split_and!; [exact Hcur|apply Hk|]. intros k1 k2. destruct c.
        by apply ControlPlane.c_call.
      * destruct Ha as [-> ->]. eapply simulated_answer; [exact Hs|done|done|]. simpl.
        intros o (B & kk & Hcur & Hk). eexists _, _. split_and!; [exact Hcur|apply Hk|]. intros k1 k2.
        apply ControlPlane.c_txt.
      * destruct Ha as [-> ->]. eapply simulated_answer; [exact Hs|done|done|]. simpl.
        intros o (B & kk & Hcur & Hk). eexists _, _. split_and!; [exact Hcur|apply Hk|]. intros k1 k2.
        apply ControlPlane.c_cname.
      * destruct Ha as [-> ->]. eapply simulated_goes_on; [exact Hs|done|done|]; simpl; intros o Ho; apply Ho.
  - destruct Hs as (os & cs & Hos & Hcs & Hr). exists os, cs. split_and!; [done..|].
    eapply ControlPlane.creach_step; [exact Hr|by apply ControlPlane.c_worker].
Qed.

Lemma jreachable_simulated t0 s : jreachable t0 s → simulated s.
Proof.
  induction 1 as [d c Hd Hc|s s' _ IH Hs]; [|by eapply simulated_step]. exists [], []. split_and!; [constructor|done|].
  by constructor.
Qed.


(** ** Isolation *)

(** A read of a domain answers that domain. *)
Definition reply_true {X} (c : DomainService.CustomDomainRepository X) : result CustomDomain.error X → Prop :=
  match c in DomainService.CustomDomainRepository X return result CustomDomain.error X → Prop with
  | DomainService.CallGetByIDForProject id pid => λ r, ∀ c, r = Ok c → CustomDomain.ID c = id ∧ CustomDomain.ProjectID c = pid
  | _ => λ _, True
  end.

(** Whoever gets a reply is a member of the project of all its rows. *)
Definition domain_event (L : list event) (e : event) : Prop :=
  match e with
  | EvDomain op r =>
      (match op in DomainOp X return X → Prop with
       | DomainRepo c => λ r, reply_true c r ∧ ∃ tc, authorised tokens L "viewer" tc ∧
           Forall (λ x, CustomDomain.ProjectID x = TenantProject tc) (rows_of c r)
       | _ => λ _, True
       end) r
  | _ => True
  end.

Lemma domain_event_mono L L' e : L ⊆ L' → domain_event L e → domain_event L' e.
Proof.
  intros HL. destruct e as [| | | |X op r]; try done. destruct op; try done. intros [Ht (tc & Ha & Hf)].
  split; [done|]. exists tc. split; [by eapply authorised_mono|done].
Qed.

(** A request of an owner made the change. *)
Definition changed_by (h : list event) (tc : TenantContext) (m m' : gmap string CustomDomain.t) : Prop :=
  (∃ r id x x', asked_domain tokens h tc r id ∧ m !! id = Some x ∧ CustomDomain.ProjectID x = TenantProject tc ∧
     m' = <[id := x']> m ∧ kept x x' ∧ permitted r x x') ∨
  ∃ x', asked_hostname tokens h tc (CustomDomain.Hostname x') ∧ registered m x' ∧
     CustomDomain.ProjectID x' = TenantProject tc ∧ m' = <[CustomDomain.ID x' := x']> m.

Lemma changed_by_owner h tc m m' : changed_by h tc m m' → authorised tokens h "owner" tc.
Proof.
  intros [(r & id & x & x' & (q & Hm & Hp & _) & _)|(x' & (q & raw & Hm & Hp & _) & _)]; by exists q.
Qed.

Section calls.
Context (L h : list event) (Hh : h ⊆ L) (HL : Forall (domain_event L) L).

Lemma found_asked tc r c id pid :
  found_domain tokens h tc r c → named c id pid → asked_domain tokens h tc r id ∧ pid = TenantProject tc.
Proof.
  intros (i & Ha & Hin) [-> ->]. rewrite Forall_forall in HL. destruct (HL _ (Hh _ Hin)) as [Ht _]. simpl in Ht.
  by destruct (Ht c eq_refl) as [-> ->].
Qed.

Lemma asked_owner tc r id : asked_domain tokens h tc r id → authorised tokens h "viewer" tc.
Proof. intros (q & Hm & Hp & _). exists q. split; [done|by apply (permits_trans "owner")]. Qed.

Lemma basis_facts {X} tc (c : DomainService.CustomDomainRepository X) :
  domain_basis tokens h tc c →
  basis_ok c ∧ authorised tokens h "viewer" tc ∧ (call_project c = None → ControlPlane.read_only c = true) ∧
  (∀ p, call_project c = Some p → p = TenantProject tc) ∧
  (call_routes c ≠ [] → ∃ r, r ∈ call_routes c ∧ asked_domain tokens h tc r (call_domain c)) ∧
  match c with DomainService.CallCreate c => asked_hostname tokens h tc (CustomDomain.Hostname c) | _ => True end.
Proof.
  assert (Hret : ∀ x, DomainSystem.handled (DomainService.retry_target x) ∧
    DomainService.retry_target x ≠ CustomDomain.Deprovisioning) by (intros; apply ControlPlane.retry_target_handled).
  assert (Hone : ∀ r id (l : list project_route), r ∈ l → asked_domain tokens h tc r id →
    authorised tokens h "viewer" tc ∧ (l ≠ [] → ∃ r, r ∈ l ∧ asked_domain tokens h tc r id)).
  { intros r id l Hl Ha. split; [by eapply asked_owner|]. by exists r. }
  destruct c; simpl; try done.
  all: try (intros [x [Hf Hn]]; destruct (found_asked _ _ _ _ _ Hf Hn) as [Ha ->]).
  all: try (intros [Ha ->]).
  all: try (edestruct Hone as [? ?]; [|exact Ha|]; [by left|]).
  all: try (split_and!; try done; by intros ? [= <-]).
  - intros Ha. split_and!; try done. by eapply authorised_lower; [|exact Ha].
  - intros (Hp & Hu & Hn). split_and!; try done; [|by intros p [= <-]].
    destruct Hn as (q & raw & Hm & Hperm & _). exists q. split; [done|by apply (permits_trans "owner")].
  - intros (x & Hf & Hn & ->).
    assert (Hr : ∃ r, r ∈ [ActivateDomain; RetryDomain] ∧ found_domain tokens h tc r x).
    { destruct Hf; [exists ActivateDomain|exists RetryDomain]; (split; [set_solver|done]). }
    destruct Hr as (r & Hr & Hf'). destruct (found_asked _ _ _ _ _ Hf' Hn) as [Ha ->].
    destruct (Hone _ _ _ Hr Ha). split_and!; try done; [apply Hret|apply Hret|by intros p [= <-]].
Qed.

(** A guarded call shows rows of the caller's project, and changes what its
    request may change. *)
Lemma call_isolated {X} tc (c : DomainService.CustomDomainRepository X) d d' r :
  domain_basis tokens h tc c → DomainService.repo_call c d = (d', r) →
  Forall (λ x, CustomDomain.ProjectID x = TenantProject tc) (rows_of c r) ∧
  (CustomDomain.domains d' = CustomDomain.domains d ∨ changed_by h tc (CustomDomain.domains d) (CustomDomain.domains d')).
Proof.
  intros Hb Hc. destruct (basis_facts _ _ Hb) as (Hok & _ & Hro & Hp & Hask & Hcr).
  destruct (call_project c) as [p|] eqn:Hcp.
  - specialize (Hp p eq_refl) as ->. split; [by eapply call_shows|].
    destruct (call_changes _ _ _ _ _ Hok Hcp Hc) as [?|[(x & x' & Hx & Hpx & Hm & Hk & Hne & Hperm)|(x' & Hreg & Hm & Hx)]]; [by left|right..].
    + left. destruct (Hask Hne) as (rt & Hrt & Ha). exists rt, (call_domain c), x, x'. split_and!; try done. by apply Hperm.
    + right. exists x'. destruct c; try done. destruct Hx as [Hpx Hhx]. simpl in Hcp. injection Hcp as Hcp.
      rewrite Hhx. split_and!; try done. congruence.
  - specialize (Hro eq_refl). split; [by destruct c|left]. by eapply ControlPlane.read_only_spec.
Qed.

End calls.

Lemma jreachable_keys t0 s id c : jreachable t0 s → rows s !! id = Some c → CustomDomain.ID c = id.
Proof.
  intros (os & cs & _ & _ & Hr)%jreachable_simulated Hc.
  exact (Lifecycle.ok_id _ _ _ _ _ (Lifecycle.inv_rows _ _ (Lifecycle.reachable_inv _ _ _ (ControlPlane.ci_core _ _ _ _ (ControlPlane.creachable_inv _ _ _ _ _ Hr))) _ _ Hc)).
Qed.


Lemma answer_isolated t0 s e :
  jreachable t0 s → Forall (domain_event (log (front s))) (log (front s)) →
  match e with EvDomain op _ => ∃ h, h ⊆ log (front s) ∧ domain_guard tokens h op | _ => True end →
  (∃ c' D', answered e (core s) (dns s) c' D') → domain_event (log (front s) ++ [e]) e.
Proof.
  intros Hr HL Hg (c' & D' & Ha). destruct e as [| | | |X op r]; try done. destruct Hg as (h & Hh & tc & Hg).
  destruct op as [X c| | |]; try done. destruct Ha as (d' & Hc & _ & _).
  destruct (basis_facts _ _ Hh HL _ _ Hg) as (_ & Hv & _). destruct (call_isolated _ _ Hh HL _ _ _ _ _ Hg Hc) as [Hrows _].
  split.
  - destruct c; try done. intros x ->. apply get_shows in Hc as [Hx Hp]. split; [by eapply jreachable_keys|done].
  - exists tc. split; [|done]. eapply authorised_mono; [|exact Hv]. intros y Hy. by apply event_earlier, Hh.
Qed.

Lemma events_isolated t0 s : jreachable t0 s → Forall (domain_event (log (front s))) (log (front s)).
Proof.
  induction 1 as [d c Hd Hc|s s' Hr IH Hs]; [constructor|].
  destruct Hs as [F F' c D Hf Hl|F F' e c c' D D' Hf Hl Ha|F c c' D Hw]; simpl in *; [by rewrite Hl| |done].
  assert (Hi : tenant_inv tokens environment F) by (eapply tenant_reachable_inv; exact (jreachable_front _ _ Hr)).
  pose proof (step_domain_guarded _ _ _ _ _ _ _ Hi Hf Hl) as Hg.
  rewrite Hl. apply Forall_app. split.
  - eapply Forall_impl; [exact IH|]. intros x. apply domain_event_mono. intros y Hy. by apply event_earlier.
  - constructor; [|done]. eapply (answer_isolated t0 (mkJoint F c D)); [done..| |by exists c', D'].
    destruct e; try done. destruct Hg as (h & _ & Hh & Hg). by exists h.
Qed.

(** The rows a request has been shown are of a project that its caller was found
    to be a member of. *)
Definition shown_own (h : list event) : Prop :=
  ∀ X (c : DomainService.CustomDomainRepository X) r, EvDomain (DomainRepo c) r ∈ h →
    ∃ tc, authorised tokens h "viewer" tc ∧ Forall (λ x, CustomDomain.ProjectID x = TenantProject tc) (rows_of c r).

(** What the latest event of a history adds to the rows shown. *)
Definition shows_own (h : list event) (e : event) : Prop :=
  match e with
  | EvDomain (DomainRepo c) r =>
      ∃ tc, authorised tokens h "viewer" tc ∧ Forall (λ x, CustomDomain.ProjectID x = TenantProject tc) (rows_of c r)
  | _ => True
  end.

Lemma shown_own_snoc h e : shown_own h → shows_own h e → shown_own (h ++ [e]).
Proof.
  assert (Hmono : ∀ tc, authorised tokens h "viewer" tc → authorised tokens (h ++ [e]) "viewer" tc).
  { intros tc. apply authorised_mono. intros y Hy. by apply event_earlier. }
  intros Hh He X c r [Hin|Hin%list_elem_of_singleton]%elem_of_app.
  - destruct (Hh _ _ _ Hin) as (tc & Ha & Hf). exists tc. split; [by apply Hmono|done].
  - rewrite <-Hin in He. destruct He as (tc & Ha & Hf). exists tc. split; [by apply Hmono|done].
Qed.

Lemma histories_shown t0 s x : jreachable t0 s → x ∈ tasks (front s) → shown_own x.1.
Proof.
  intros Hr. revert x. induction Hr as [d c Hd Hc|s s' Hr IH Hs]; intros x Hx; [by apply not_elem_of_nil in Hx|].
  pose proof (tenant_reachable_inv _ _ _ _ _ _ (jreachable_front _ _ Hr)) as Hi.
  pose proof (events_isolated _ _ Hr) as HL.
  assert (Hnew : ∀ F, front_step (front s) F → x ∈ tasks F →
    (∀ h p e, (h, p) ∈ tasks (front s) → log F = log (front s) ++ [e] → event_guard tokens environment h e → shows_own h e) →
    shown_own x.1).
  { intros F Hf HxF He.
    destruct (step_histories _ _ _ _ _ _ _ Hi Hf HxF) as [(p & Hp)|[->|[(q & ->)|(h & p & e & Hh & -> & Hl & Hg)]]].
    - by apply (IH _ Hp).
    - by intros X c r ?%not_elem_of_nil.
    - by intros X c r ?%list_elem_of_singleton.
    - apply shown_own_snoc; [by apply (IH _ Hh)|by eapply He]. }
  destruct Hs as [F F' c D Hf Hl|F F' e c c' D D' Hf Hl Ha|F c c' D Hw]; simpl in *; [..|by apply IH];
    apply (Hnew F' Hf Hx); intros h p e' Hh Hl' Hg; rewrite Hl in Hl'.
  { apply (f_equal length) in Hl'. rewrite length_app in Hl'. simpl in Hl'. lia. }
  apply app_inv_head in Hl' as [= <-]. destruct e as [| | | |X op r]; try done. destruct op as [X call| | |]; try done.
  destruct Hg as (tc & Hg). destruct Ha as (d' & Hc & _ & _).
  assert (HhL : h ⊆ log F).
  { pose proof (inv_tasks _ _ _ Hi) as Ht. rewrite Forall_forall in Ht. exact (task_logged _ _ _ _ (Ht _ Hh)). }
  destruct (basis_facts _ _ HhL HL _ _ Hg) as (_ & Hv & _). exists tc. split; [done|].
  by destruct (call_isolated _ _ HhL HL _ _ _ _ _ Hg Hc).
Qed.

(** C5: The custom domains of a project are its own.  In every interleaving of
    requests, workers and crashes, each row that a request has been shown belongs to
    a project that the caller of this very request was found to be a member of; and
    a row changes only as a worker does, or in a step of a request whose own caller
    is an owner of the row's project and asked for that domain, in the columns its
    route is for: a registration adds an unverified row under a new key, [verify] and
    [check-routing] leave the provisioning alone, and the others move the
    provisioning along its edges and leave the checks alone; owner, hostname,
    certificate and listener rule stay. *)
Theorem domain_isolation t0 s s' :
  jreachable t0 s → jstep s s' →
  (∀ x X (c : DomainService.CustomDomainRepository X) r, x ∈ tasks (front s') → EvDomain (DomainRepo c) r ∈ x.1 →
     ∃ tc, own_caller tokens x.1 "viewer" tc ∧ Forall (λ x, CustomDomain.ProjectID x = TenantProject tc) (rows_of c r)) ∧
  (rows s' = rows s ∨
   front s' = front s ∧ Lifecycle.worker_step listenerARN Sha256.sha256_hex (core s) (core s') ∨
   ∃ h tc, acts (front s) (front s') h ∧ own_caller tokens h "owner" tc ∧ changed_by h tc (rows s) (rows s')).
Proof.
  intros Hr Hs. pose proof (jr_step _ _ _ Hr Hs) as Hr'. split.
  - intros x X c r Hx Hin. destruct (histories_shown _ _ _ Hr' Hx _ _ _ Hin) as (tc & Ha & Hf). exists tc.
    split; [|done]. by eapply history_own; [exact (jreachable_front _ _ Hr')|..].
  - assert (Hi : tenant_inv tokens environment (front s)) by (eapply tenant_reachable_inv; exact (jreachable_front _ _ Hr)).
    pose proof (events_isolated _ _ Hr) as HL. pose proof (jreachable_front _ _ Hr) as Hfr.
    destruct Hs as [F F' c D Hf Hl|F F' e c c' D D' Hf Hl Ha|F c c' D Hw]; simpl in *; [by left| |by right; left].
    pose proof (step_domain_guarded _ _ _ _ _ _ _ Hi Hf Hl) as Hg.
    destruct e as [| | | |X op r]; try (destruct Ha as [-> _]; by left).
    destruct op as [X call| | |]; try (destruct Ha as [-> _]; by left).
    destruct Hg as (h & Hacts & Hh & tc & Hg). destruct Ha as (d' & Hc & -> & _).
    destruct (call_isolated _ _ Hh HL _ _ _ _ _ Hg Hc) as [_ [?|Hch]]; [by left|]. do 2 right. exists h, tc.
    split; [done|]. split; [|done]. destruct Hacts as (e & p & p' & Hin & _ & _).
    by eapply (history_own _ _ _ _ t0 F (h, p)), changed_by_owner.
Qed.

(** C6: The API refines the control plane: whatever requests are interleaved, the
    table of custom domains, its workers and the resolver's answers behind the API
    are in a state that the control plane of [ControlPlane] reaches, with the
    methods under way that the handlers run.  So what is proved of that system
    holds behind the API; e.g. a row is verified, or its certificate requested, only
    after a TXT record carried its token, and its routing is ready only after its
    CNAME was the gateways' public host. *)
Theorem domain_api_refines t0 s :
  jreachable t0 s →
  (∃ cs, creachable (ControlPlane.mkC (core s) (dns s) cs)) ∧
  ∀ id c, rows s !! id = Some c → ControlPlane.proved Sha256.sha256_hex (GatewayPublicHost environment) (dns s) c.
Proof.
  intros (os & cs & _ & _ & Hr)%jreachable_simulated. split; [by exists cs|].
  exact (ControlPlane.ci_rows _ _ _ _ (ControlPlane.creachable_inv _ _ _ _ _ Hr)).
Qed.

End joint.
End DomainTenants.
