(* ===== verification/TenantScenario.v ===== *)
(** * Executions of the tenants' requests

    A toy database and an interpreter that drives the system of [TenantSystem]
    through concrete schedules: the witnesses of the theorems, and what the code
    does in some unwelcome situations. *)

From Stdlib Require Import Ascii.
From stdpp Require Import gmap pretty.
From S2P Require Import Prelude GoStrings Store Transactions Model AdminAccess AdminScenario TenantTables.
From S2P Require Import TenantRepo TenantResources TenantServices TenantHandlers TenantFacts TenantViews.
From S2P Require Import TenantSystem TenantDiscipline TenantMembers TenantGuarantees TenantPages.
From S2P Require Import SecretManager TenantJWT CustomDomain DomainService TenantDomains.
From S2P Require Import TenantIntegrity ProjectJWT Auth Loader TenantSync TenantGateway TenantEffects.

Module TenantScenario.
Import TenantSystem TenantViews TenantDiscipline TenantMembers TenantGuarantees TenantIntegrity.

(** ** The database *)

(** Any text but the empty one is an identifier. *)
Definition toy_uuid (s : string) : option string := if String.eqb s "" then None else Some s.

#[global] Instance toy_db : Database := {
  row_security := true;
  uuid_in := toy_uuid;
  uuid_parse := toy_uuid;
  text_le s s' := (len s <=? len s')%nat;
  ilike s pattern := true;
  is_inet s := true;
  scan V l := l;
}.

Lemma toy_uuid_canonical s u : toy_uuid s = Some u → toy_uuid u = Some u.
Proof. unfold toy_uuid. destruct (String.eqb s "") eqn:Hs; [done|]. intros [= <-]. by rewrite Hs. Qed.

#[global] Instance toy_laws : DatabaseLaws toy_db.
Proof.
  split; simpl.
  - apply toy_uuid_canonical.
  - apply toy_uuid_canonical.
  - congruence.
  - done.
  - intros s s'. rewrite !Nat.leb_le. lia.
  - intros s1 s2 s3. rewrite !Nat.leb_le. lia.
Qed.

(** ** The interpreter *)

(** A request arrives at a time; task [i] goes one event on; task [0] does so [n]
    times; task [i] goes one event on while Secrets Manager is down. *)
Inductive input := Arrive (now : Z) (q : request) | Tick (i : nat) | Ticks (n : nat) | TickDown (i : nat).

#[local] Existing Instance AdminScenario.toy_jwt.

(** A token is the identifier of its user. *)
Definition tokens : AdminToken.AdminTokenManager :=
  AdminToken.mkManager "0123456789abcdef0123456789abcdef" "elitegate-admin".

Definition toy_url (raw : string) : option URL := Some (mkURL "https" raw "" "" "").
Definition toy_health (target path : string) : option string := Some (target +:+ path).

Definition toy_deployment : deployment := mkDeployment "test" "edge.elitegate.io" true.

Abbreviation serve := (TenantSystem.serve tokens toy_url toy_health toy_deployment).
Abbreviation step := (TenantSystem.step tokens toy_url toy_health toy_deployment).
Abbreviation reachable := (TenantSystem.reachable tokens toy_url toy_health toy_deployment).

Definition ids_at (n : nat) : fresh_ids := mkFresh ("id-" +:+ pretty n) ("name-" +:+ pretty n).

(** A version is named after the length of the log when it is made; there is one
    secret per name, which is its ARN, too. *)
Definition is_creation (name : string) (e : event) : bool :=
  match e with EvSecret (SecretManager.SDKCreateSecret name' _) (Ok _) => String.eqb name name' | _ => false end.
Definition toy_secrets (down : bool) (L : list event) {X} (op : SecretManager.SDK X) : X :=
  let version := Some ("v-" +:+ pretty (length L)) in
  match op in SecretManager.SDK X return X with
  | SecretManager.SDKCreateSecret name _ =>
      if existsb (is_creation name) L then Err SecretManager.ResourceExistsException else Ok (Some name, version)
  | SecretManager.SDKPutSecretValue id _ => Ok (Some id, version)
  | SecretManager.SDKGetSecretValue _ _ => Err SecretManager.OtherSDKError
  | SecretManager.SDKDeleteSecret _ => if down then Err SecretManager.OtherSDKError else Ok ()
  | SecretManager.SDKRestoreSecret _ => Ok ()
  end.

(** There are no custom domains here, and no DNS. *)
Definition toy_domains (L : list event) {X} (op : DomainOp X) : X :=
  match op in DomainOp X return X with
  | DomainRepo c => (DomainService.repo_call c (CustomDomain.mkDB ∅ [] 0 0 [])).2
  | DomainTXT _ | DomainCNAME _ => Err (DomainService.mkDNSError true "no such host")
  | DomainNewID => "id-" +:+ pretty (length L)
  end.

Definition run_task (down : bool) (s : sys) (l1 l2 : list task) (h : list event) (p : prog response) : sys :=
  let '(mkSys d ch L _) := s in
  match p with
  | Done a => mkSys d ch L (l1 ++ l2)
  | Repo c k =>
      let '(d', r) := tenant_call (ids_at (length L)) c d in
      mkSys d' ch (L ++ [EvCall c r]) (l1 ++ (h ++ [EvCall c r], k r) :: l2)
  | Now k => mkSys d ch (L ++ [EvNow (clock d)]) (l1 ++ (h ++ [EvNow (clock d)], k (clock d)) :: l2)
  | RandRead n k => mkSys d ch L (l1 ++ (h, k (Some (replicate n (Z.of_nat (length L))))) :: l2)
  | AskCache p k => mkSys d ch L (l1 ++ (h, k (CacheGet (clock d) ch p)) :: l2)
  | PutCache p x k => mkSys d (CacheSet (clock d) p x ch) L (l1 ++ (h, k) :: l2)
  | Lookups u k => mkSys d ch L (l1 ++ (h, k true) :: l2)
  | HTTPGet u k => mkSys d ch L (l1 ++ (h, k (Some 200%Z)) :: l2)
  | Secrets op k =>
      let r := toy_secrets down L op in mkSys d ch (L ++ [EvSecret op r]) (l1 ++ (h ++ [EvSecret op r], k r) :: l2)
  | Domains op k =>
      let r := toy_domains L op in mkSys d ch (L ++ [EvDomain op r]) (l1 ++ (h ++ [EvDomain op r], k r) :: l2)
  end.

Definition tick_with (down : bool) (i : nat) (s : sys) : sys :=
  match drop i (tasks s) with
  | (h, p) :: l2 => run_task down s (take i (tasks s)) l2 h p
  | [] => s
  end.
Definition tick : nat → sys → sys := tick_with false.

Fixpoint ticks (n : nat) (s : sys) : sys := match n with O => s | S n => ticks n (tick 0 s) end.

Definition arrive (now : Z) (q : request) (s : sys) : sys :=
  mkSys (mkStore (tables (db s)) now (supply (db s)) (faults (db s))) (cache s) (log s ++ [EvRequest q])
    (tasks s ++ [([EvRequest q], serve q)]).

Definition drive_one (i : input) (s : sys) : sys :=
  match i with Arrive now q => arrive now q s | Tick j => tick j s | Ticks n => ticks n s
  | TickDown j => tick_with true j s end.

Definition drive (t0 : tenants) (ins : list input) : sys :=
  foldl (λ s i, drive_one i s) (mkSys (mkStore t0 0%Z 0 []) ∅ [] []) ins.

Lemma ticking_with_step down i s : tick_with down i s = s ∨ step s (tick_with down i s).
Proof.
  unfold tick_with. destruct (drop i (tasks s)) as [|[h p] l2] eqn:Hd; [by left|]. right.
  destruct s as [d ch L ts]. simpl in *. pose proof (take_drop i ts) as E. rewrite Hd in E.
  remember (take i ts) as l1 eqn:Hl1. rewrite <-E. clear E Hl1 Hd.
  destruct p; simpl; try constructor. destruct (tenant_call _ c d) as [d' r] eqn:Hc. by econstructor.
Qed.

Lemma ticking_step i s : tick i s = s ∨ step s (tick i s).
Proof. apply ticking_with_step. Qed.

Lemma ticking_reachable t0 i s : reachable t0 s → reachable t0 (tick i s).
Proof. intros Hs. destruct (ticking_step i s) as [->|H]; [done|by eapply r_step]. Qed.

Lemma arriving_reachable t0 now q s : reachable t0 s → reachable t0 (arrive now q s).
Proof.
  intros Hs. destruct s as [d ch L ts]. unfold arrive. simpl. eapply r_step; [|apply s_begin].
  eapply r_step; [exact Hs|]. apply s_env.
Qed.

Lemma drive_reached t0 ins : reachable t0 (drive t0 ins).
Proof.
  unfold drive. assert (H0 : reachable t0 (mkSys (mkStore t0 0%Z 0 []) ∅ [] [])) by by apply r_init.
  revert H0. generalize (mkSys (mkStore t0 0%Z 0 []) ∅ [] []).
  induction ins as [|i ins IH]; intros s Hs; [done|]. simpl. apply IH. destruct i as [now q|j|n|j]; simpl.
  - by apply arriving_reachable.
  - by apply ticking_reachable.
  - clear IH. revert s Hs. induction n as [|n IH]; intros s Hs; [done|]. apply IH. by apply ticking_reachable.
  - destruct (ticking_with_step true j s) as [->|H]; [done|by eapply r_step].
Qed.

(** ** A deployment *)

Definition account (id : string) : Account := mkAccount id id (id +:+ "@corp.example") true None false.
Definition project (id owner : string) : Project := mkProject id id id "" owner true "free" [] 0 0 None.
Definition member (p u role : string) : (string * string) * Member := ((p, u), mkMember p u role None 0).

(** Two projects; [olga] owns [shop] and has made [ann] and [bob] owners, too. *)
Definition t0 : tenants :=
  mkTenants
    {["olga" := account "olga"; "ann" := account "ann"; "bob" := account "bob"; "eve" := account "eve"]}
    {["shop" := project "shop" "olga"; "labs" := project "labs" "eve"]}
    (list_to_map [member "shop" "olga" "viewer"; member "shop" "ann" "owner"; member "shop" "bob" "owner";
                  member "labs" "eve" "owner"])
    ∅ ∅ ∅ ∅ ∅ ∅ ∅ ∅.

Definition ask (u : string) (params : list (string * string)) (e : endpoint) : request :=
  mkRequest ("Bearer " +:+ u) (λ k, default "" (snd <$> find_first (λ '(k', _), String.eqb k k') params)) (λ _, "")
    "10.0.0.7" e.
Definition on_shop (u : string) (r : project_route) : request := ask u [("projectId", "shop")] (InProject r).

Definition answers (s : sys) : list Z := omap (λ x : task, match x.2 with Done a => Some (Status a) | _ => None end) (tasks s).

(** Ann makes an upstream, a policy, a route with them and a key. *)
Definition build : list input :=
  [Arrive second (on_shop "ann" (PostUpstream (Ok (mkUpstream "api" "http://10.0.0.9" "http" "/health" "" true))));
   Ticks 9;
   Arrive (2 * second) (on_shop "ann" (PostPolicy (Ok (mkPolicy "members" true 60 [] ["staff"] [] [] [])))); Ticks 9;
   Arrive (3 * second) (on_shop "ann"
     (PostKey (Ok (mkKeyRequest "mobile" None ["staff"] ["read"])))); Ticks 9;
   Arrive (4 * second) (on_shop "ann"
     (PostRoute (Ok (mkRouteRequest "orders" "/orders" "id-4" (Some "id-10") ["GET"] "" true)))); Ticks 3]%Z.
Definition before : sys := drive t0 build.
Definition built : sys := tick 0 before.


Definition built_tables : tenants := Eval vm_compute in tables (db built).
Lemma built_db : tables (db built) = built_tables.
Proof. vm_compute. reflexivity. Qed.

(** The step that stores the route. *)
Lemma built_step : step before built.
Proof.
  destruct (ticking_step 0 before) as [E|H]; [|exact H]. apply (f_equal (λ s, length (log s))) in E. vm_compute in E. discriminate.
Qed.

Lemma tenant_isolation_witness :
  ∃ h, acts before built h ∧ (by_member tokens h "editor" "shop" ∨ by_platform tokens h ∨ by_anyone tokens h "shop").
Proof.
  refine (proj1 (tenant_isolation tokens toy_url toy_health toy_deployment t0 before built "shop" (drive_reached _ _) built_step) _).
  intros E. apply (f_equal (λ r, size r.1.1.1)) in E. vm_compute in E. discriminate.
Defined.

(** The same database with a policy and a member of the other project besides. *)
Definition other : tenants :=
  set_policies (<["pol-9" := mkRow "pol-9" "labs" (mkPolicy "open" false 0 [] [] [] [] []) 0 0 None]>
    (policies built_tables)) built_tables.

Lemma other_view : same_view "shop" built_tables other.
Proof.
  split; [vm_compute; reflexivity..|by intros|reflexivity].
Qed.

Lemma reads_isolated_witness :
  (scoped_call (ids_at 0) (Some (mkTenant "shop" "bob" "owner")) (CallPolicies 10 0) (mkStore built_tables 0%Z 0 [])).2 =
  (scoped_call (ids_at 0) (Some (mkTenant "shop" "bob" "owner")) (CallPolicies 10 0) (mkStore other 0%Z 0 [])).2.
Proof.
  apply (@reads_isolated toy_db eq_refl (mkTenant "shop" "bob" "owner")); [reflexivity|].
  split; [exact other_view|reflexivity..].
Defined.

(** *** Members *)

Lemma t0_owners : owner_is_member t0.
Proof.
  assert (H : map_Forall (λ p pr, is_Some (members t0 !! (p, OwnerID pr))) (projects t0)); [|exact H].
  apply (bool_decide_unpack _). by vm_compute.
Qed.

Lemma project_owner_stays_witness : is_Some (members (tables (db built)) !! ("shop", "olga")).
Proof.
  refine (proj1 (project_owner_stays tokens toy_url toy_health toy_deployment t0 built "shop" (project "shop" "olga") t0_owners _ _)).
  - apply ticking_reachable, drive_reached.
  - vm_compute. reflexivity.
Defined.

Definition d0 : store tenants := mkStore t0 (5 * second)%Z 0 [].

Lemma membership_alone_witness :
  run_calls (ids_at 0) (RemoveMember "shop" "bob") d0 =
    Some (with_tables (set_members (delete ("shop", "bob") (members t0)) t0) d0, Ok ()) ∧
  run_calls (ids_at 0) (RemoveMember "labs" "eve") d0 = Some (d0, Err ErrIsProjectOwner) ∧
  run_calls (ids_at 0) (UpdateRole "labs" "eve" "viewer") d0 = Some (d0, Err ErrLastOwner).
Proof.
  split_and!.
  - exact (proj2 (proj2 (membership_alone (ids_at 0) "shop" "bob" "viewer" "ann" d0 eq_refl))).
  - exact (proj2 (proj2 (membership_alone (ids_at 0) "labs" "eve" "viewer" "ann" d0 eq_refl))).
  - exact (proj1 (proj2 (membership_alone (ids_at 0) "labs" "eve" "viewer" "ann" d0 eq_refl))).
Defined.

Lemma last_owner_kept_witness :
  ∃ d' r, run_calls (ids_at 0) (RemoveMember "shop" "bob") (mkStore t0 0%Z 0 [false; false; false; true]) = Some (d', r) ∧
    1 ≤ owners "shop" (tables d').
Proof.
  refine (proj1 (last_owner_kept (ids_at 0) "shop" "bob" "viewer" (mkStore t0 0%Z 0 [false; false; false; true]) _)).
  vm_compute. lia.
Defined.

(** Ann and Bob each make the other a viewer.  Both requests count two owners
    before either changes a role: none is left, although alone either request
    keeps one. *)
Definition race : list input :=
  [Arrive second (ask "ann" [("projectId", "shop"); ("adminUserId", "bob")] (InProject (PutMember (Ok "viewer"))));
   Arrive second (ask "bob" [("projectId", "shop"); ("adminUserId", "ann")] (InProject (PutMember (Ok "viewer"))))]%Z
  ++ (Tick <$> [0; 0; 0; 0; 0; 1; 1; 1; 1; 1; 0; 1]).

Theorem owners_race : ∃ s, reachable t0 s ∧ owners "shop" t0 = 2 ∧ owners "shop" (tables (db s)) = 0.
Proof. exists (drive t0 race). split; [apply drive_reached|]. split; vm_compute; reflexivity. Qed.

(** *** Any account at all deletes any project *)

Definition intruder : list input :=
  [Arrive second (ask "eve" [("projectId", "shop")] DeleteProject); Ticks 2]%Z.

Theorem anyone_deletes_project :
  ∃ s pr, reachable t0 s ∧ members t0 !! ("shop", "eve") = None ∧
    projects (tables (db s)) !! "shop" = Some pr ∧ ProjectDeletedAt pr ≠ None ∧ answers s = [200%Z].
Proof.
  exists (drive t0 intruder). eexists. split; [apply drive_reached|]. split; [vm_compute; reflexivity|].
  split; [vm_compute; reflexivity|]. split; [discriminate|vm_compute; reflexivity].
Qed.

(** *** The integrity of the tables *)

Lemma empty_sound {C} `{!Resource C} t : sound t (∅ : gmap string (row C)).
Proof. intros k x Hx. by rewrite lookup_empty in Hx. Qed.

Lemma t0_well_formed : well_formed t0.
Proof.
  split; try apply empty_sound.
  - assert (H : map_Forall (λ u a, AccountID a = u) (accounts t0)); [|exact H].
    apply (bool_decide_unpack _). by vm_compute.
  - assert (H : map_Forall (λ p pr, ProjectID pr = p ∧ is_Some (accounts t0 !! OwnerID pr) ∧ project_checks pr = true ∧
      (project_live pr = true → map_Forall (λ q r, project_live r = true → Slug r = Slug pr → q = ProjectID pr) (projects t0)))
      (projects t0)); [|exact H].
    apply (bool_decide_unpack _). by vm_compute.
  - assert (H : map_Forall (λ k m, k = (MemberProject m, MemberUser m) ∧ member_role (MemberRole m) = true ∧
      is_Some (projects t0 !! MemberProject m) ∧ is_Some (accounts t0 !! MemberUser m) ∧
      exists_ref (accounts t0) (InvitedBy m) = true) (members t0)); [|exact H].
    apply (bool_decide_unpack _). by vm_compute.
  - intros p cfg Hp. simpl in Hp. by rewrite lookup_empty in Hp.
Qed.


(** *** The gateway *)

Import TenantSync TenantGateway.

Definition built_d : store tenants := mkStore built_tables (5 * second)%Z 0 [].
Definition poll (d : store tenants) : Loader.TenantSnapshot :=
  match (GetTenantSnapshot "shop" (5 * second)%Z (Ok []) d).2 with
  | Ok snap => snap
  | Err _ => Loader.mkTenantSnapshot [] [] ∅ [] [] None
  end.
Definition gateway_env : KeyStore.env := KeyStore.mkEnv (6 * second)%Z true true true None.
Definition reloaded : Loader.t :=
  (Loader.reload None "" map_to_list "shop" gateway_env (Ok (poll built_d)) Loader.NewLoader).1.

(** The route of the project reaches the gateway with the policy it names. *)
Lemma gateway_serves_project_witness :
  ∃ r, r ∈ Loader.Routes (Loader.Current reloaded) ∧ Route.Path r = "/orders" ∧ Route.AuthRequired r = true ∧
    Route.AllowedRoles r = ["staff"].
Proof.
  destruct (routes built_tables !! "id-22") as [x|] eqn:Hx; [|vm_compute in Hx; discriminate].
  exists (route_view (Some "shop") built_tables x). split.
  - refine (proj2 (proj1 (gateway_serves_project None "" map_to_list "shop" (5 * second)%Z (Ok []) built_d
      (GetTenantSnapshot "shop" (5 * second)%Z (Ok []) built_d).1 (poll built_d) "shop" gateway_env
      Loader.NewLoader reloaded _ _ _) _) _); [reflexivity|vm_compute; reflexivity|vm_compute; reflexivity|].
    exists "id-22", x. split; [exact Hx|]. vm_compute in Hx. injection Hx as <-. split_and!; reflexivity.
  - vm_compute in Hx. injection Hx as <-. split_and!; vm_compute; reflexivity.
Defined.

(** Ann revokes the key. *)
Definition revocation : list input :=
  [Ticks 3; Arrive (6 * second) (ask "ann" [("projectId", "shop"); ("id", "id-16")] (InProject DeleteKey)); Ticks 4]%Z.
Definition after_revoking : sys := foldl (λ s i, drive_one i s) built revocation.
Definition revoked_tables : tenants := Eval vm_compute in tables (db after_revoking).
Lemma revoked_db : tables (db after_revoking) = revoked_tables.
Proof. vm_compute. reflexivity. Qed.

Definition raw_key : string := "cg_10101010101010101010101010101010".
Definition key_hash : string := Eval vm_compute in KeyStore.hashKey Sha256.sha256_hex (TrimSpace raw_key).
Lemma key_hash_eq : KeyStore.hashKey Sha256.sha256_hex (TrimSpace raw_key) = key_hash.
Proof. vm_compute. reflexivity. Qed.

(** The gateway's memory before: it has polled while the key was good and cached
    it in Redis. *)
Definition warmed : KeyStore.store :=
  KeyStore.WarmAPIKeyCache "" gateway_env KeyStore.NewRedisKeyStore "shop" (Loader.SnapAPIKeys (poll built_d)).
Definition late_env : KeyStore.env := KeyStore.mkEnv (700 * second)%Z true true true None.
Definition polled : Loader.TenantSnapshot := poll (db after_revoking).

Lemma one_key : one_hash "id-16" key_hash (tables (db after_revoking)).
Proof.
  rewrite revoked_db. assert (H : map_Forall (λ j x, KeyHash (Columns x) = key_hash → j = "id-16") (api_keys revoked_tables));
    [|exact H]. apply (bool_decide_unpack _). by vm_compute.
Qed.

Lemma polled_later : later tokens toy_url toy_health toy_deployment "id-16" key_hash after_revoking
  (KeyStore.EvWarm gateway_env "shop" (Loader.SnapAPIKeys polled)).
Proof.
  exists after_revoking, "shop", "shop", (5 * second)%Z, (Ok []),
    (GetTenantSnapshot "shop" (5 * second)%Z (Ok []) (db after_revoking)).1, polled.
  split_and!; [apply rtc_refl|apply one_key|reflexivity| |reflexivity].
  vm_compute. reflexivity.
Qed.

Lemma revoked_key_dies_witness :
  snd (KeyStore.Validate Sha256.sha256_hex "" gateway_env warmed raw_key) ≠ None ∧
  snd (KeyStore.Validate Sha256.sha256_hex "" late_env
    (foldl (KeyStore.apply_event Sha256.sha256_hex "") warmed
      [KeyStore.EvWarm gateway_env "shop" (Loader.SnapAPIKeys polled)]) raw_key) = None.
Proof.
  split; [vm_compute; discriminate|].
  destruct (api_keys (tables (db after_revoking)) !! "id-16") as [x|] eqn:Hx.
  2:{ rewrite revoked_db in Hx. vm_compute in Hx. discriminate. }
  refine (revoked_key_dies tokens toy_url toy_health toy_deployment "" after_revoking "id-16" x raw_key gateway_env "shop"
    (Loader.SnapAPIKeys polled) warmed [] late_env (60 * second)%Z Hx _ _ _ _ _).
  - rewrite revoked_db in Hx. vm_compute in Hx. injection Hx as <-. discriminate.
  - rewrite key_hash_eq. intros v expiry.
    assert (H : match KeyStore.redis warmed !! KeyStore.cacheKey "" key_hash with
                | Some (_, e) => Z.leb e (60 * second + KeyStore.cacheTTL) | None => true end = true) by by vm_compute.
    destruct (KeyStore.redis warmed !! _) as [[v' e']|]; [|done]. intros [= _ <-]. by apply Z.leb_le.
  - rewrite key_hash_eq. constructor; [exact polled_later|constructor].
  - by intros find [=].
  - vm_compute. discriminate.
Defined.

End TenantScenario.
