(* ===== verification/TenantTokenRuns.v ===== *)
(** * Executions: JWT authentication of a project

    Owners configure, change and remove the JWT authentication of a project in the
    toy deployment of [TenantScenario]: the witnesses of [TenantTokens], and three
    schedules with an unwelcome end. *)

From Stdlib Require Import Ascii.
From stdpp Require Import gmap.
From S2P Require Import Prelude GoStrings Store Transactions Model Auth Loader AdminAccess AdminScenario TenantTables.
From S2P Require Import TenantRepo TenantResources TenantServices TenantHandlers TenantJWT TenantFacts TenantSystem.
From S2P Require Import TenantDiscipline TenantMembers TenantSync TenantTokens TenantScenario ProjectJWT SecretManager.

Module TenantTokenRuns.
Import TenantSystem TenantSync TenantTokens TenantScenario.

#[local] Existing Instance AdminScenario.toy_jwt.

Definition secret_1 : string := "0123456789abcdef0123456789abcdef".
Definition secret_2 : string := "fedcba9876543210fedcba9876543210".

Definition jwt_input (secret issuer : string) (audiences : list string) : ProjectJWT.ProjectJWTConfigInput :=
  ProjectJWT.mkInput true " hs256" secret (Some issuer) audiences "" "" "" None.
Definition put (u secret issuer : string) (audiences : list string) : request :=
  on_shop u (PutJWT (Ok (jwt_input secret issuer audiences))).

(** Ann switches it on: token, membership, project, the read, the secret, the row,
    the audit record, the answer. *)
Definition switch_on : list input := [Arrive second (put "ann" secret_1 "https://id" ["web"; " api "; "web"]); Ticks 8]%Z.
Definition on : sys := drive t0 switch_on.

Definition on_config : ProjectJWT.ProjectJWTConfig :=
  ProjectJWT.mkConfig "shop" true "HS256" "elitegate/test/projects/shop/jwt/hs256" "v-5" 1 (Some "https://id")
    ["api"; "web"] "sub" "role" "scope" 30 (Some "ann") (Some "ann") second second.

Example on_row : jwt_configs (tables (db on)) !! "shop" = Some on_config ∧ tasks on = [].
Proof. split; vm_compute; reflexivity. Qed.

(** Her request when its secret has been stored. *)
Definition storing : sys := drive t0 [Arrive second (put "ann" secret_1 "https://id" ["web"]); Ticks 5]%Z.
Definition stores (e : event) : bool :=
  match e with EvSecret (SecretManager.SDKCreateSecret _ value) _ => String.eqb value secret_1 | _ => false end.

Lemma jwt_supplied_by_owners_witness :
  justified tokens toy_deployment (log on) "shop" on_config ∧
  ∃ x tc, x ∈ tasks storing ∧ TenantDiscipline.own_caller tokens x.1 "owner" tc ∧ supplied tokens x.1 tc secret_1.
Proof.
  split.
  - apply (proj1 (jwt_supplied_by_owners tokens toy_url toy_health toy_deployment t0 on eq_refl (drive_reached _ _))).
    vm_compute. reflexivity.
  - assert (H : existsb (λ x, existsb stores x.1) (tasks storing) = true) by (vm_compute; reflexivity).
    apply existsb_exists in H as (x & Hx%list_elem_of_In & (e & He%list_elem_of_In & Hs)%existsb_exists).
    destruct e as [| | |X op r|]; try discriminate Hs. destruct op; try discriminate Hs. apply String.eqb_eq in Hs as ->.
    destruct (proj2 (jwt_supplied_by_owners tokens toy_url toy_health toy_deployment t0 storing eq_refl (drive_reached _ _))
      x _ _ _ Hx He) as (tc & Ho & Hv & _). exists x, tc. split; [exact Hx|]. split; [exact Ho|exact Hv].
Defined.

(** The same once more, otherwise written: nothing changes. *)
Lemma same_settings_no_change_witness :
  TenantMembers.run_calls (ids_at 0) (Configure toy_deployment (Some (mkTenant "shop" "bob" "owner")) (jwt_input "" " https://id" ["api"; "web"]))
    (mkStore (tables (db on)) 9%Z 0 []) = Some (mkStore (tables (db on)) 9%Z 0 [], Ok on_config).
Proof.
  refine (same_settings_no_change toy_deployment (ids_at 0) (mkTenant "shop" "bob" "owner") (jwt_input "" " https://id" ["api"; "web"])
    (jwt_input secret_1 "https://id" ["web"; " api "; "web"]) _ _ on_config
    (mkStore (tables (db on)) 9%Z 0 []) eq_refl _ _ _ _ _ eq_refl);
    [vm_compute; reflexivity..|].
  split; try reflexivity. intros v Hv. simpl. split; intros (x & Hx & <-).
  - repeat (apply elem_of_cons in Hx as [->|Hx]); [exists "web"|exists "api"|exists "web"|by apply not_elem_of_nil in Hx];
      (split; [set_solver|reflexivity]).
  - repeat (apply elem_of_cons in Hx as [->|Hx]); [exists " api "|exists "web"|by apply not_elem_of_nil in Hx];
      (split; [set_solver|reflexivity]).
Defined.

(** ** The gateway *)

(** The versions made in a log, with what they were made from. *)
Definition version_of {X} (op : SecretManager.SDK X) : X → option (string * option string * option string) :=
  match op in SecretManager.SDK X return X → option (string * option string * option string) with
  | SecretManager.SDKCreateSecret _ value | SecretManager.SDKPutSecretValue _ value =>
      λ r, match r with Ok (a, v) => Some (value, a, v) | Err _ => None end
  | _ => λ _, None
  end.
Definition versions : list event → list (string * option string * option string) :=
  omap (λ e, match e with EvSecret op r => version_of op r | _ => None end).

Lemma versions_honest L get :
  Forall (λ '(value, a, v), ∀ ref s, SecretManager.secretReference a v = Ok ref →
    get (SecretManager.ARN ref) (SecretManager.VersionID ref) = Ok s → s = value) (versions L) → honest L get.
Proof.
  rewrite Forall_forall. intros H id value a v ref s He. apply (H (value, a, v)).
  apply list_elem_of_omap. destruct He as [He|He]; by eexists.
Qed.

Definition get_on (arn version : string) : result string string :=
  if String.eqb arn "elitegate/test/projects/shop/jwt/hs256" && String.eqb version "v-5" then Ok secret_1
  else Err "secret not found".

Definition poll_jwt (s : sys) : option ProjectJWTConfigSync.t :=
  match (GetTenantSnapshot "shop" (9 * second)%Z (Ok []) (db s)).2 with
  | Ok snap => Loader.SnapJWTAuth snap
  | Err _ => None
  end.
Definition gateway_on : option ProjectJWTManager.state := (ProjectJWTManager.Apply (Some get_on) None (poll_jwt on)).1.1.
Definition verifier_on : ProjectJWTVerifier.t :=
  ProjectJWTVerifier.mk secret_1
    (ProjectJWTVerifier.mkConfig "HS256" (Some "https://id") ["api"; "web"] "sub" "role" "scope" (30 * second)).

Lemma on_honest : honest (log on) get_on.
Proof.
  apply versions_honest. replace (versions (log on)) with
    [(secret_1, Some "elitegate/test/projects/shop/jwt/hs256", Some "v-5")] by (vm_compute; reflexivity).
  constructor; [|done]. intros ref s [= <-]. vm_compute. by intros [= <-].
Qed.

Lemma gateway_jwt_from_owners_witness : from_owners tokens (log on) "shop" verifier_on.
Proof.
  destruct (GetTenantSnapshot "shop" (9 * second)%Z (Ok []) (db on)) as [d' [snap|e]] eqn:Hs;
    [|vm_compute in Hs; discriminate].
  assert (Hj : Loader.SnapJWTAuth snap = poll_jwt on) by (unfold poll_jwt; by rewrite Hs).
  apply (gateway_jwt_from_owners tokens toy_url toy_health toy_deployment t0 "shop" on gateway_on); [reflexivity| |vm_compute; reflexivity].
  destruct (ProjectJWTManager.Apply (Some get_on) None (poll_jwt on)) as [[st calls] r] eqn:Ha.
  eapply run_poll with (raw := "shop") (st := None); [apply run_start, drive_reached|reflexivity|exact Hs|exact on_honest|].
  rewrite Hj, Ha. unfold gateway_on. by rewrite Ha.
Defined.

(** ** Unwelcome ends *)

Definition version_and_issuer (s : sys) : option (string * Z * option string) :=
  (λ cfg, (ProjectJWT.SecretVersionID cfg, ProjectJWT.ConfigVersion cfg, ProjectJWT.Issuer cfg)) <$>
    jwt_configs (tables (db s)) !! "shop".

(** Bob changes the issuer; between his read and his write Ann rotates the secret.
    Ann's rotation has been answered, and Bob's write puts the old version back. *)
Definition rotation : list input :=
  [Arrive (2 * second) (put "bob" "" "https://b" []); Ticks 4;
   Arrive (3 * second) (put "ann" secret_2 "https://id" [])]%Z ++ replicate 8 (Tick 1).
Example rotation_lost :
  version_and_issuer (drive t0 (switch_on ++ rotation)) = Some ("v-18", 2%Z, Some "https://id") ∧
  version_and_issuer (drive t0 (switch_on ++ rotation ++ [Ticks 3])) = Some ("v-5", 3%Z, Some "https://b").
Proof. split; vm_compute; reflexivity. Qed.

(** Bob removes the configuration; between the row and the secret Ann configures
    anew.  The secret her row names is then scheduled for deletion. *)
Definition removal : list input :=
  [Arrive (2 * second) (on_shop "bob" DeleteJWT); Ticks 5;
   Arrive (3 * second) (put "ann" secret_2 "https://id" [])]%Z ++ replicate 10 (Tick 1) ++ [Ticks 3].

(** The deletions and the new versions of secrets, the last first. *)
Definition secret_history (L : list event) : list (bool * string) :=
  rev (omap (λ e, match e with
    | EvSecret (SecretManager.SDKDeleteSecret id) _ => Some (true, id)
    | EvSecret (SecretManager.SDKPutSecretValue id _) _ => Some (false, id)
    | _ => None end) L).
Example live_secret_deleted :
  let s := drive t0 (switch_on ++ removal) in
  ProjectJWT.SecretARN <$> jwt_configs (tables (db s)) !! "shop" = Some "elitegate/test/projects/shop/jwt/hs256" ∧
  version_and_issuer s = Some ("v-21", 1%Z, Some "https://id") ∧
  secret_history (log s) = [(true, "elitegate/test/projects/shop/jwt/hs256");
                            (false, "elitegate/test/projects/shop/jwt/hs256")].
Proof. split_and!; vm_compute; reflexivity. Qed.

(** While Secrets Manager is down a removal puts the row back, at version 1.  After
    the next change the gateway, which has not polled in between, sees the version
    it has, and keeps the settings before the change. *)
Definition restart : list input :=
  [Arrive (2 * second) (put "ann" "" "https://b" []); Ticks 7]%Z.
Definition restart' : list input :=
  [Arrive (3 * second) (on_shop "ann" DeleteJWT); Ticks 5; TickDown 0; Ticks 2;
   Arrive (4 * second) (put "ann" "" "https://c" []); Ticks 7]%Z.
Definition gateway_before : option ProjectJWTManager.state :=
  (ProjectJWTManager.Apply (Some get_on) None (poll_jwt (drive t0 (switch_on ++ restart)))).1.1.
Example stale_settings :
  version_and_issuer (drive t0 (switch_on ++ restart)) = Some ("v-5", 2%Z, Some "https://b") ∧
  version_and_issuer (drive t0 (switch_on ++ restart ++ restart')) = Some ("v-5", 2%Z, Some "https://c") ∧
  (ProjectJWTManager.Apply (Some get_on) gateway_before (poll_jwt (drive t0 (switch_on ++ restart ++ restart')))) =
    (gateway_before, [], Ok ()) ∧
  (ProjectJWTVerifier.Issuer ∘ ProjectJWTVerifier.config) <$> ProjectJWTManager.active_verifier gateway_before =
    Some (Some "https://b").
Proof. split_and!; vm_compute; reflexivity. Qed.

End TenantTokenRuns.
