(* ===== verification/DomainTenantRuns.v ===== *)
(** * Executions: custom domains behind the API

    An owner registers, verifies, routes and activates a domain over HTTP, workers
    issue its certificate, and a stranger asks for it: the witnesses of
    [DomainTenants]. *)

From Stdlib Require Import Ascii.
From stdpp Require Import gmap pretty.
From S2P Require Import Prelude GoStrings Store Transactions Model AdminAccess AdminScenario TenantTables.
From S2P Require Import TenantRepo TenantResources TenantServices TenantHandlers TenantJWT TenantDomains TenantSystem.
From S2P Require Import TenantDiscipline TenantScenario CustomDomain Provisioner Lifecycle DomainService ControlPlane.
From S2P Require Import Scenario DomainTenants.

Module DomainTenantRuns.
Import TenantSystem TenantDiscipline TenantScenario DomainTenants.

#[local] Existing Instance AdminScenario.toy_jwt.
#[local] Existing Instance Scenario.sample_cloud.
#[local] Existing Instance TenantScenario.toy_db.

Abbreviation jstep := (DomainTenants.jstep "arn:listener" tokens toy_url toy_health toy_deployment).
Abbreviation jreachable := (DomainTenants.jreachable "arn:listener" tokens toy_url toy_health toy_deployment).
Abbreviation joint := (DomainTenants.joint Scenario.sample_cloud).

(** ** The interpreter *)

(** The record of the token that is drawn first below, and a CNAME. *)
Definition toy_records : list string :=
  ["v=spf1 -all"; "elitegate-verification=" +:+ RawURLEncode (bytes (replicate 32 4))].
Definition toy_cname : string := "Edge.EliteGate.io.".

Definition answer_of (n : nat) {X} (op : DomainOp X) (c : Lifecycle.sys) (D : list ControlPlane.observation)
    : X * (Lifecycle.sys * list ControlPlane.observation) :=
  match op in DomainOp X return X * (Lifecycle.sys * list ControlPlane.observation) with
  | DomainRepo call =>
      let '(d, r) := DomainService.repo_call call (Provisioner.store (Lifecycle.sw c)) in
      (r, (Lifecycle.mkSys (Lifecycle.with_store d (Lifecycle.sw c)) (Lifecycle.jobs c), D))
  | DomainTXT name => (Ok toy_records, (c, D ++ [ControlPlane.ObsTXT name toy_records]))
  | DomainCNAME host => (Ok toy_cname, (c, D ++ [ControlPlane.ObsCNAME host toy_cname]))
  | DomainNewID => ("id-" +:+ pretty n, (c, D))
  end.

Lemma answer_of_answered n {X} (op : DomainOp X) c D r c' D' :
  answer_of n op c D = (r, (c', D')) → answered (EvDomain op r) c D c' D'.
Proof.
  destruct op as [X call|name|host|]; simpl; try by intros [= <- <- <-].
  destruct (DomainService.repo_call call _) as [d r0] eqn:Hc. intros [= <- <- <-]. by exists d.
Qed.

(** The first request goes on. *)
Definition jtick (s : joint) : joint :=
  match tasks (front s) with
  | (h, Domains op k) :: l2 =>
      let F := front s in
      let '(r, (c', D')) := answer_of (length (log F)) op (core s) (dns s) in
      mkJoint (mkSys (db F) (cache F) (log F ++ [EvDomain op r]) ((h ++ [EvDomain op r], k r) :: l2)) c' D'
  | _ => mkJoint (tick 0 (front s)) (core s) (dns s)
  end.

Inductive jinput := Come (now : Z) (q : request) | GoOn (n : nat) | Work (a : Scenario.action).

Definition jdrive_one (i : jinput) (s : joint) : joint :=
  match i with
  | Come now q => mkJoint (arrive now q (front s)) (core s) (dns s)
  | GoOn n => Nat.iter n jtick s
  | Work (Scenario.ARequest _) => s
  | Work a => match Scenario.exec "arn:listener" Sha256.sha256_hex a (core s) with
              | Some c => mkJoint (front s) c (dns s)
              | None => s
              end
  end.

Definition shop_gateway : CustomDomain.GatewayRow :=
  CustomDomain.mkGateway "shop" "gw-1" "dedicated" "active" "completed" (Some "arn:tg:1") (Some 1%Z) 1 None.
Definition start : joint :=
  mkJoint (mkSys (mkStore t0 0%Z 0 []) ∅ [] [])
    (Lifecycle.mkSys (Provisioner.mkWorld (CustomDomain.mkDB ∅ [shop_gateway] 0 0 []) [] 0) []) [].
Definition jdrive (l : list jinput) : joint := foldl (λ s i, jdrive_one i s) start l.

Definition is_domain_event (e : event) : Prop := match e with EvDomain _ _ => True | _ => False end.

(** A step of the tenants' interpreter that is not about domains. *)
Lemma tick_quiet F :
  (∀ h X (op : DomainOp X) k l, tasks F ≠ (h, Domains op k) :: l) →
  tick 0 F = F ∨ step F (tick 0 F) ∧
    (log (tick 0 F) = log F ∨ ∃ e, log (tick 0 F) = log F ++ [e] ∧ ¬ is_domain_event e).
Proof.
  intros Hn. destruct (ticking_step 0 F) as [?|Hs]; [by left|right]. split; [done|]. clear Hs.
  unfold tick, tick_with. simpl. destruct F as [d ch L ts]. simpl in *. rewrite drop_0. destruct ts as [|[h p] l2]; [by left|].
  destruct p; simpl; try by left.
  - destruct (tenant_call _ c d) as [d' r]. right. eexists. split; [reflexivity|by intros H].
  - right. eexists. split; [reflexivity|by intros H].
  - right. eexists. split; [reflexivity|by intros H].
  - by destruct (Hn h X op k l2).
Qed.

Lemma jtick_step s : jtick s = s ∨ jstep s (jtick s).
Proof.
  destruct s as [F c D]. unfold jtick. simpl.
  assert (Hq : (∀ h X (op : DomainOp X) k l, tasks F ≠ (h, Domains op k) :: l) →
    mkJoint (tick 0 F) c D = mkJoint F c D ∨ jstep (mkJoint F c D) (mkJoint (tick 0 F) c D)).
  { intros [->|[Hs [Hl|(e & Hl & He)]]]%tick_quiet; [by left|right; by apply j_silent|right].
    eapply j_event; [exact Hs|exact Hl|]. by destruct e. }
  destruct F as [d ch L ts]. simpl in *. destruct ts as [|[h p] l2]; [by apply Hq|].
  destruct p; try (apply Hq; by intros ? ? ? ? ? [=]). right.
  destruct (answer_of (length L) op c D) as [r [c' D']] eqn:Ha.
  eapply j_event; [apply (s_domain _ _ _ _ d ch L [] h op k l2 r)|done|by eapply answer_of_answered].
Qed.

Lemma jdrive_one_reached i s : jreachable t0 s → jreachable t0 (jdrive_one i s).
Proof.
  intros Hs. destruct i as [now q|n|a]; simpl.
  - destruct s as [[d ch L ts] c D]. unfold arrive. simpl.
    eapply jr_step; [eapply jr_step; [exact Hs|]|].
    + apply j_silent; [apply s_env|done].
    + eapply j_event; [apply s_begin|done|done].
  - induction n as [|n IH]; [done|]. simpl. destruct (jtick_step (Nat.iter n jtick s)) as [->|H]; [done|by eapply jr_step].
  - assert (Ha : (∀ q, a ≠ Scenario.ARequest q) → jreachable t0
      (match Scenario.exec "arn:listener" Sha256.sha256_hex a (core s) with
       | Some c => mkJoint (front s) c (dns s) | None => s end)).
    { intros Hn. destruct (Scenario.exec _ _ _ _) as [c|] eqn:He; [|done]. destruct s as [F c0 D].
      eapply jr_step; [exact Hs|apply j_worker]. by eapply Scenario.exec_worker. }
    destruct a; [done|by apply Ha..].
Qed.

Lemma jdrive_reached l : jreachable t0 (jdrive l).
Proof.
  unfold jdrive. assert (H0 : jreachable t0 start) by by apply jr_init.
  revert H0. generalize start. induction l as [|i l IH]; intros s Hs; [done|]. by apply IH, jdrive_one_reached.
Qed.

(** ** The life of a domain *)

Definition on_domain (u : string) (r : project_route) : request :=
  ask u [("projectId", "shop"); ("domainId", "id-4")] (InProject r).

(** Ann registers a name, proves that it is hers, routes and activates it; two rounds
    of a worker follow. *)
Definition register : list jinput := [Come second (on_domain "ann" (PostDomain (Some " App.Acme.io "))); GoOn 9].
Definition verify : list jinput := [Come (2 * second) (on_domain "ann" VerifyDomain); GoOn 8].
Definition route : list jinput := [Come (3 * second) (on_domain "ann" CheckDomainRouting); GoOn 8].
Definition activate : list jinput := [Come (4 * second) (on_domain "ann" ActivateDomain); GoOn 7].
Definition round : list jinput := Work <$> [Scenario.AWait (30 * second); Scenario.AClaim "w1"; Scenario.AHandle 0].

Definition the_row (s : joint) : option CustomDomain.t := Lifecycle.rows (core s) !! "id-4".
Definition state_of (s : joint) : option (CustomDomain.DomainStatus * CustomDomain.RoutingStatus * CustomDomain.ProvisioningStatus) :=
  (λ c, (CustomDomain.Status c, CustomDomain.Routing_status (CustomDomain.routing c), CustomDomain.pstatus c)) <$> the_row s.

Definition active : joint := jdrive (register ++ verify ++ route ++ activate ++ round ++ round ++ round ++ round).

Example domain_life :
  state_of <$> [jdrive register; jdrive (register ++ verify); jdrive (register ++ verify ++ route);
                jdrive (register ++ verify ++ route ++ activate); active] =
  [Some (CustomDomain.PendingVerification, CustomDomain.RoutingPending, CustomDomain.NotStarted);
   Some (CustomDomain.Verified, CustomDomain.RoutingPending, CustomDomain.NotStarted);
   Some (CustomDomain.Verified, CustomDomain.RoutingReady, CustomDomain.NotStarted);
   Some (CustomDomain.Verified, CustomDomain.RoutingReady, CustomDomain.RequestingCertificate);
   Some (CustomDomain.Active, CustomDomain.RoutingReady, CustomDomain.Completed)].
Proof. vm_compute. reflexivity. Qed.

(** The owner of another project finds no such domain in her own, and has no access
    to this one; a viewer may look but not remove. *)
Definition asks (q : request) (n : nat) : list Z :=
  answers (front (jdrive (register ++ [Come (2 * second) q; GoOn n]))).
Example strangers_refused :
  asks (ask "eve" [("projectId", "labs"); ("domainId", "id-4")] (InProject DeleteDomain)) 4 = [404]%Z ∧
  asks (on_domain "eve" DeleteDomain) 2 = [403]%Z ∧
  asks (on_domain "olga" GetDomain) 4 = [200]%Z ∧ asks (on_domain "olga" DeleteDomain) 3 = [403]%Z.
Proof. vm_compute. done. Qed.

(** The step that marks the domain as verified. *)
Definition unproved : joint := jdrive (register ++ [Come (2 * second) (on_domain "ann" VerifyDomain); GoOn 5]).

Lemma verify_step : jstep unproved (jtick unproved).
Proof.
  destruct (jtick_step unproved) as [E|H]; [|exact H].
  apply (f_equal (λ s, length (log (front s)))) in E. vm_compute in E. discriminate.
Qed.

(** The row it is shown. *)
Definition shown_row (e : event) : bool :=
  match e with
  | EvDomain (DomainRepo c) r =>
      match c in DomainService.CustomDomainRepository X return result CustomDomain.error X → bool with
      | DomainService.CallMarkVerified _ _ => λ r, match r with Ok c => String.eqb (CustomDomain.Hostname c) "app.acme.io" | _ => false end
      | _ => λ _, false
      end r
  | _ => false
  end.

Lemma domain_isolation_witness :
  (∃ h tc, acts (front unproved) (front (jtick unproved)) h ∧
     changed_by tokens h tc (Lifecycle.rows (core unproved)) (Lifecycle.rows (core (jtick unproved)))) ∧
  ∃ x tc c, x ∈ tasks (front (jtick unproved)) ∧ own_caller tokens x.1 "viewer" tc ∧
    CustomDomain.ProjectID c = TenantProject tc ∧ CustomDomain.Hostname c = "app.acme.io".
Proof.
  destruct (domain_isolation "arn:listener" tokens toy_url toy_health toy_deployment t0 unproved (jtick unproved)
    (jdrive_reached _) verify_step) as [Hshown Hchanged].
  split.
  - destruct Hchanged as [E|[[E _]|(h & tc & Ha & _ & Hc)]]; [exfalso..|by exists h, tc].
    + apply (f_equal (λ m : gmap string CustomDomain.t, CustomDomain.Status <$> m !! "id-4")) in E. vm_compute in E. discriminate.
    + apply (f_equal (λ F, length (log F))) in E. vm_compute in E. discriminate.
  - clear Hchanged. assert (H : existsb (λ x, existsb shown_row x.1) (tasks (front (jtick unproved))) = true) by (vm_compute; reflexivity).
    apply existsb_exists in H as (x & Hx%list_elem_of_In & (e & He%list_elem_of_In & Hs)%existsb_exists).
    destruct e as [| | | |X op r]; try discriminate Hs. destruct op as [X c| | |]; try discriminate Hs.
    destruct c; try discriminate Hs. destruct r as [c|]; try discriminate Hs. apply String.eqb_eq in Hs.
    destruct (Hshown _ _ _ _ Hx He) as (tc & Ho & Hf). apply Forall_inv in Hf. exists x, tc, c. by split_and!.
Defined.

Lemma active_status : CustomDomain.Status <$> the_row active = Some CustomDomain.Active.
Proof. vm_compute. reflexivity. Qed.

Lemma domain_api_refines_witness :
  ∃ c, the_row active = Some c ∧ CustomDomain.Status c = CustomDomain.Active ∧
    ControlPlane.proved Sha256.sha256_hex "edge.elitegate.io" (dns active) c.
Proof.
  assert (G : ∀ s, jreachable t0 s → ∀ c, the_row s = Some c →
    ControlPlane.proved Sha256.sha256_hex "edge.elitegate.io" (dns s) c).
  { intros s Hr c. exact (proj2 (domain_api_refines "arn:listener" tokens toy_url toy_health toy_deployment t0 s Hr) "id-4" c). }
  pose proof (G active (jdrive_reached _)) as Hp. pose proof active_status as Hs.
  destruct (the_row active) as [c|]; [|discriminate Hs]. injection Hs as Hs. exists c. split_and!; [reflexivity|exact Hs|].
  exact (Hp c eq_refl).
Defined.

End DomainTenantRuns.
